(** * yt_view_count: episode parsing, title filtering, aggregation and ranking

    A shallow embedding of [src/yt_view_count.py].

    - Python [str] values are sequences of Unicode code points ([str]).
    - Python [int] is [Z]; a [float] is a binary64 value kept as an exact
      dyadic number, with the rounding to 53 bits written out.
    - Dictionaries that are only looked up are [gmap]s; dictionaries whose
      iteration order is observable are association lists in insertion
      order.
    - The network, the clock and the functions of the Python standard
      library that the program calls are parameters ([PyLib], [Net]). *)

From Stdlib Require Import ZArith NArith List String Ascii Bool Lia Sorting.Sorted Permutation.
From stdpp Require Import base option list gmap.
Import ListNotations.

Local Open Scope Z_scope.

(** ** Strings *)

Module Str.

(** A Python [str]: its code points. *)
Definition str : Type := list N.

(** UTF-8 decoding of a literal of this file into code points. [need] is the
    number of continuation bytes still expected, [acc] the bits read so far. *)
Fixpoint decode (bs : list N) (need : nat) (acc : N) : str :=
  match bs with
  | [] => []
  | b :: bs' =>
      match need with
      | O =>
          if (b <? 128)%N then b :: decode bs' 0 0%N
          else if (b <? 224)%N then decode bs' 1 (b - 192)%N
          else if (b <? 240)%N then decode bs' 2 (b - 224)%N
          else decode bs' 3 (b - 240)%N
      | S n =>
          let acc' := (acc * 64 + (b - 128))%N in
          match n with
          | O => acc' :: decode bs' 0 0%N
          | S _ => decode bs' n acc'
          end
      end
  end.

Definition u (s : string) : str :=
  decode (List.map N_of_ascii (list_ascii_of_string s)) 0 0%N.

(** [s.startswith(p)] *)
Fixpoint starts_with (p s : str) : bool :=
  match p, s with
  | [], _ => true
  | _ :: _, [] => false
  | a :: p', b :: s' => (a =? b)%N && starts_with p' s'
  end.

(** [sub in s] *)
Fixpoint contains (sub s : str) : bool :=
  starts_with sub s ||
  match s with
  | [] => false
  | _ :: s' => contains sub s'
  end.

(** [s[n:]] for [n >= 0] *)
Definition slice_from (n : nat) (s : str) : str := drop n s.

End Str.
Export Str.

(** ** Ignore keywords: [YouTubeDataProcessor.is_ignored_keyword] *)

(** The attributes of a [YouTubeDataProcessor] instance. Only
    [quota_exceeded] is ever assigned after [__init__]. *)
Record Processor := mkProcessor {
  api_key : str;
  quota_exceeded : bool;
  ignore_keywords : list str;
  ignore_keywords_exceptions : gmap str (list str);
  youtube_base_url : str
}.

Definition init (key : str) : Processor :=
  {| api_key := key;
     quota_exceeded := false;
     ignore_keywords :=
       [ u "預告"; u "PV"; u "NCED"; u "NCOP"; u "OP"; u "ED"; u "Creditless";
         u "Trailer"; u "Teaser"; u "Recap"; u "Special"; u "特別篇"; u "總集篇";
         u "全集馬拉松"; u "Semua Episode"; u "Chia sẻ của DV lồng tiếng"; u "CM";
         u "第二季製作決定"; u "精華重溫"; u "Preview" ];
     ignore_keywords_exceptions := {[ u "CM" := [ u "testCM動畫名稱" ] ]};
     youtube_base_url := u "https://www.googleapis.com/youtube/v3" |}.

Definition set_quota_exceeded (self : Processor) : Processor :=
  {| api_key := api_key self;
     quota_exceeded := true;
     ignore_keywords := ignore_keywords self;
     ignore_keywords_exceptions := ignore_keywords_exceptions self;
     youtube_base_url := youtube_base_url self |}.

(** [kw in self.ignore_keywords_exceptions and
     any(exc in title for exc in self.ignore_keywords_exceptions[kw])] *)
Definition exception_applies (self : Processor) (kw title : str) : bool :=
  match ignore_keywords_exceptions self !! kw with
  | Some exceptions => existsb (fun exc => contains exc title) exceptions
  | None => false
  end.

(** The body of the [for kw in self.ignore_keywords] loop; the result is the
    keyword at which the loop returns [True], if any. *)
Fixpoint ignoring_keyword (self : Processor) (kws : list str) (title : str)
  : option str :=
  match kws with
  | [] => None
  | kw :: rest =>
      if exception_applies self kw title then ignoring_keyword self rest title
      else if contains kw title then Some kw
      else ignoring_keyword self rest title
  end.

Definition is_ignored_keyword (self : Processor) (title : str) : bool :=
  match ignoring_keyword self (ignore_keywords self) title with
  | Some _ => true
  | None => false
  end.

(** ** Numbers *)

Module Num.

(** A binary64 value. A finite value is the dyadic number [m * 2^e], kept
    with [m] odd (or [m = 0], [e = 0]); the sign of zero is not tracked, no
    operation of the program observes it. *)
Inductive float64 :=
| Fin (m e : Z)
| Inf (negative : bool)
| NaN.

(** [int] or [float] *)
Inductive num :=
| NInt (z : Z)
| NFloat (f : float64).

(** round-half-to-even of the fraction [n / d], [0 <= n], [0 < d] *)
Definition round_half_even (n d : Z) : Z :=
  let q := n / d in
  match 2 * (n mod d) ?= d with
  | Lt => q
  | Gt => q + 1
  | Eq => if Z.even q then q else q + 1
  end.

(** [a / (b * 2^e)] as a fraction of integers *)
Definition scaled_num (a e : Z) : Z := if e <? 0 then a * 2 ^ (- e) else a.
Definition scaled_den (b e : Z) : Z := if e <? 0 then b else b * 2 ^ e.

(** [floor (log2 (a / b))] for [0 < a], [0 < b] *)
Definition binade (a b : Z) : Z :=
  let d := Z.log2 a - Z.log2 b in
  if scaled_den b d <=? scaled_num a d then d else d - 1.

Fixpoint strip_zeros (p : positive) (e : Z) : Z * Z :=
  match p with
  | xO p' => strip_zeros p' (e + 1)
  | _ => (Zpos p, e)
  end.

Definition normalize (m e : Z) : float64 :=
  match m with
  | Z0 => Fin 0 0
  | Zpos p => let '(m', e') := strip_zeros p e in Fin m' e'
  | Zneg p => let '(m', e') := strip_zeros p e in Fin (- m') e'
  end.

(** The binary64 value nearest to [a / b] ([0 <= a], [0 < b]), ties to even:
    53 significant bits, exponents from [-1074]; [None] when the rounded
    value is out of range (at least [2^1024]). *)
Definition round64 (a b : Z) : option (Z * Z) :=
  if a =? 0 then Some (0, 0)
  else
    let e := Z.max (binade a b - 52) (-1074) in
    let m := round_half_even (scaled_num a e) (scaled_den b e) in
    if (971 <? e) || ((e =? 971) && (m =? 2 ^ 53)) then None
    else Some (m, e).

(** [a / b] on [int]s: the correctly rounded quotient; [None] stands for the
    exception raised ([ZeroDivisionError], or [OverflowError] when the
    quotient is too large for a float). *)
Definition truediv (a b : Z) : option float64 :=
  if b =? 0 then None
  else
    match round64 (Z.abs a) (Z.abs b) with
    | Some (m, e) => Some (normalize (Z.sgn a * Z.sgn b * m) e)
    | None => None
    end.

(** [float(s)] for a decimal numeral with integer value [n] of all its
    digits and [k] digits after the point: overflow gives [inf]. *)
Definition float_of_decimal (n : Z) (k : nat) : float64 :=
  match round64 n (10 ^ Z.of_nat k) with
  | Some (m, e) => normalize m e
  | None => Inf false
  end.

(** [f.is_integer()] *)
Definition is_integer (f : float64) : bool :=
  match f with
  | Fin m e => if e <? 0 then m mod 2 ^ (- e) =? 0 else true
  | _ => false
  end.

(** [int(f)]: truncation toward zero; [None] stands for the exception raised
    on an infinity or a NaN. *)
Definition int_of_float (f : float64) : option Z :=
  match f with
  | Fin m e => Some (if e <? 0 then Z.quot m (2 ^ (- e)) else m * 2 ^ e)
  | _ => None
  end.

(** Comparison of two finite dyadic numbers. *)
Definition dyadic_compare (m1 e1 m2 e2 : Z) : comparison :=
  let e := Z.min e1 e2 in
  (m1 * 2 ^ (e1 - e)) ?= (m2 * 2 ^ (e2 - e)).

(** Python compares an [int] with a [float] by value, exactly. [None] when a
    NaN is involved: every ordering test is then false. *)
Definition float_compare (f g : float64) : option comparison :=
  match f, g with
  | NaN, _ | _, NaN => None
  | Inf a, Inf b => Some (if a then (if b then Eq else Lt) else (if b then Gt else Eq))
  | Inf a, Fin _ _ => Some (if a then Lt else Gt)
  | Fin _ _, Inf b => Some (if b then Gt else Lt)
  | Fin m1 e1, Fin m2 e2 => Some (dyadic_compare m1 e1 m2 e2)
  end.

Definition to_float (x : num) : float64 :=
  match x with
  | NInt z => Fin z 0
  | NFloat f => f
  end.

Definition num_compare (x y : num) : option comparison :=
  float_compare (to_float x) (to_float y).

(** [x < y] and [x <= y] *)
Definition num_lt (x y : num) : bool :=
  match num_compare x y with Some Lt => true | _ => false end.
Definition num_le (x y : num) : bool :=
  match num_compare x y with Some Lt | Some Eq => true | _ => false end.

End Num.
Export Num.

(** ** The Python library *)

(** A value decoded by [json.loads]. An object keeps its keys in order. *)
#[warnings="-register-all"] Inductive json :=
| JNull
| JBool (b : bool)
| JNum (x : num)
| JStr (s : str)
| JArr (items : list json)
| JObj (members : list (str * json)).

(** The outcome of [datetime.fromisoformat]: a [ValueError], a datetime
    without time zone, or an instant (microseconds since the epoch). *)
Inductive isoformat :=
| IsoValueError
| IsoNaive
| IsoAware (t : Z).

(** What the program takes from the interpreter and its standard library:
    the Unicode tables behind [\s], [\d], [int], [float] and
    [re.IGNORECASE], and the decoders it calls. *)
Record PyLib := mkPyLib {
  (** [c.isspace()], the class [\s] *)
  isspace : N -> bool;
  (** the decimal digit value of a code point, the class [\d] *)
  decimal : N -> option Z;
  (** a pattern character matches a subject character under [re.IGNORECASE] *)
  ieq : N -> N -> bool;
  (** [json.loads(s)]; [None] when it raises *)
  json_loads : str -> option json;
  (** [parse_qs(urlparse(url).query)]; [None] when it raises *)
  url_query : str -> option (gmap str (list str));
  (** [datetime.datetime.fromisoformat(s)] *)
  fromisoformat : str -> isoformat
}.

(** ** Regular expressions: the fragment of [re] the patterns use *)

Inductive regex :=
| Lit (c : N)                  (* a literal character *)
| Space                        (* \s *)
| Digit                        (* \d *)
| OneOf (cs : list N)          (* [...] *)
| Cat (r1 r2 : regex)
| Star (r : regex)             (* r*, greedy *)
| Opt (r : regex)              (* r?, greedy *)
| Group (r : regex).           (* ( r ), the capturing group *)

Definition Plus (r : regex) : regex := Cat r (Star r).

Fixpoint lits (s : str) (k : regex) : regex :=
  match s with
  | [] => k
  | c :: s' => Cat (Lit c) (lits s' k)
  end.

Section Regex.
Context (L : PyLib).
Context {R : Type}.

(** Backtracking matcher in continuation-passing style. [s] is the rest of
    the subject, [cap] the text of the capturing group so far; [k] is tried
    on every way to match [r] at the head of [s], in the order of [re]:
    greedy operators take the longest alternative first. *)
Fixpoint rmatch (r : regex) (s : str) (cap : option str)
    (k : str -> option str -> option R) {struct r} : option R :=
  match r with
  | Lit c =>
      match s with
      | x :: s' => if ieq L c x then k s' cap else None
      | [] => None
      end
  | Space =>
      match s with
      | x :: s' => if isspace L x then k s' cap else None
      | [] => None
      end
  | Digit =>
      match s with
      | x :: s' => if decimal L x is Some _ then k s' cap else None
      | [] => None
      end
  | OneOf cs =>
      match s with
      | x :: s' => if existsb (fun c => ieq L c x) cs then k s' cap else None
      | [] => None
      end
  | Cat r1 r2 => rmatch r1 s cap (fun s' cap' => rmatch r2 s' cap' k)
  | Star r' =>
      (fix star (fuel : nat) (s : str) (cap : option str) {struct fuel} : option R :=
         match fuel with
         | O => k s cap
         | S fuel' =>
             match rmatch r' s cap
                     (fun s' cap' =>
                        if (length s' <? length s)%nat then star fuel' s' cap'
                        else None) with
             | Some x => Some x
             | None => k s cap
             end
         end) (length s) s cap
  | Opt r' =>
      match rmatch r' s cap k with
      | Some x => Some x
      | None => k s cap
      end
  | Group r' =>
      rmatch r' s cap
        (fun s' _ => k s' (Some (take (length s - length s') s)))
  end.

End Regex.

(** [re.search(pattern, s, re.IGNORECASE)]: the leftmost match. The result is
    [group(1)] of the match ([Some None] when the group took no part). *)
Fixpoint re_search (L : PyLib) (r : regex) (s : str) : option (option str) :=
  match rmatch L r s None (fun _ cap => Some cap) with
  | Some g => Some g
  | None =>
      match s with
      | [] => None
      | _ :: s' => re_search L r s'
      end
  end.

(** ** [YouTubeDataProcessor.parse_episode_number] *)

(** [(\d+(?:\.\d+)?)] *)
Definition number_group : regex :=
  Group (Cat (Plus Digit) (Opt (Cat (Lit 46%N) (Plus Digit)))).

(** [\s*[\.]?\s*(\d+(?:\.\d+)?)] *)
Definition dotted_number : regex :=
  Cat (Star Space) (Cat (Opt (OneOf [46%N])) (Cat (Star Space) number_group)).

Definition patterns : list regex :=
  [ (* 第\s*(\d+(?:\.\d+)?)\s*[集話] *)
    lits (u "第")
      (Cat (Star Space) (Cat number_group (Cat (Star Space) (OneOf (u "集話")))));
    (* Episode\s*[\.]?\s*(\d+(?:\.\d+)?) *)
    lits (u "Episode") dotted_number;
    (* ตอนที่\s*(\d+(?:\.\d+)?) *)
    lits (u "ตอนที่") (Cat (Star Space) number_group);
    (* Tập\s*(\d+(?:\.\d+)?) *)
    lits (u "Tập") (Cat (Star Space) number_group);
    (* Misi\s*(\d+(?:\.\d+)?) *)
    lits (u "Misi") (Cat (Star Space) number_group);
    (* Episod\s*[\.]?\s*(\d+(?:\.\d+)?) *)
    lits (u "Episod") dotted_number;
    (* EP\s*[\.]?\s*(\d+(?:\.\d+)?) *)
    lits (u "EP") dotted_number ].

(** The digits of [s] as an integer in base ten; [None] on a character that
    is not a decimal digit. [acc] is the value read so far. *)
Fixpoint digits_value (L : PyLib) (s : str) (acc : Z) : option Z :=
  match s with
  | [] => Some acc
  | c :: s' =>
      match decimal L c with
      | Some d => digits_value L s' (10 * acc + d)
      | None => None
      end
  end.

(** The text before and after the first [.] of [s]. *)
Fixpoint split_point (s : str) : str * option str :=
  match s with
  | [] => ([], None)
  | c :: s' =>
      if (c =? 46)%N then ([], Some s')
      else let '(a, b) := split_point s' in (c :: a, b)
  end.

(** [float(num_str)] on the texts the capturing group yields, digits with an
    optional fraction; [None] stands for the [ValueError] on another text. *)
Definition float_of_str (L : PyLib) (s : str) : option float64 :=
  match split_point s with
  | ([], _) => None
  | (ip, None) =>
      n ← digits_value L ip 0; Some (float_of_decimal n 0)
  | (_, Some []) => None
  | (ip, Some fp) =>
      n ← digits_value L (ip ++ fp) 0; Some (float_of_decimal n (length fp))
  end.

(** [int(num) if num.is_integer() else num] *)
Definition int_if_whole (f : float64) : option num :=
  if is_integer f then NInt <$> int_of_float f else Some (NFloat f).

(** The loop over [patterns]: a pattern that does not match, or whose
    conversion raises, passes on to the next one. *)
Fixpoint parse_with (L : PyLib) (ps : list regex) (title : str) : option num :=
  match ps with
  | [] => None
  | pattern :: rest =>
      match re_search L pattern title with
      | Some g =>
          match (g ≫= float_of_str L) ≫= int_if_whole with
          | Some n => Some n
          | None => parse_with L rest title
          end
      | None => parse_with L rest title
      end
  end.

Definition parse_episode_number (L : PyLib) (title : str) : option num :=
  parse_with L patterns title.

(** [int(s)] in base ten: surrounding white space, an optional sign, digits
    with single underscores between them; [None] stands for [ValueError]. *)
Fixpoint int_digits (L : PyLib) (s : str) (acc : Z) (after_digit : bool)
  : option Z :=
  match s with
  | [] => if after_digit then Some acc else None
  | c :: s' =>
      if (c =? 95)%N then
        if after_digit then int_digits L s' acc false else None
      else
        match decimal L c with
        | Some d => int_digits L s' (10 * acc + d) true
        | None => None
        end
  end.

Fixpoint lstrip (L : PyLib) (s : str) : str :=
  match s with
  | c :: s' => if isspace L c then lstrip L s' else s
  | [] => []
  end.

Definition strip (L : PyLib) (s : str) : str :=
  reverse (lstrip L (reverse (lstrip L s))).

Definition int_of_str (L : PyLib) (s : str) : option Z :=
  match strip L s with
  | c :: s' =>
      if (c =? 45)%N then Z.opp <$> int_digits L s' 0 false
      else if (c =? 43)%N then int_digits L s' 0 false
      else int_digits L (c :: s') 0 false
  | [] => None
  end.

(** [sep.join(l)] *)
Fixpoint join (sep : str) (l : list str) : str :=
  match l with
  | [] => []
  | [x] => x
  | x :: l' => x ++ sep ++ join sep l'
  end.

(** [s.replace(c, by)] for a one-character [c] *)
Definition replace_char (c : N) (by_ : str) (s : str) : str :=
  concat (List.map (fun x => if (x =? c)%N then by_ else [x]) s).

(** ** The outside world *)

(** The body of an HTTP response as the program reads it: not JSON at all,
    an error document with its [error.errors[].reason] entries, or the
    document of the endpoint. *)
Inductive Body (A : Type) :=
| NotJson
| ErrorBody (reasons : list (option str))
| Data (d : A).
Arguments NotJson {A}.
Arguments ErrorBody {A} reasons.
Arguments Data {A} d.

Record Response (A : Type) := mkResponse {
  status_code : Z;
  body : Body A
}.
Arguments mkResponse {A} status_code body.
Arguments status_code {A} r.
Arguments body {A} r.

(** An entry of [playlistItems]: [snippet.title] and
    [snippet.resourceId.videoId], either of which may be missing. *)
Record PlaylistEntry := mkPlaylistEntry {
  snippet_title : option str;
  snippet_videoId : option str
}.

Record PlaylistPage := mkPlaylistPage {
  page_items : list PlaylistEntry;
  nextPageToken : option str
}.

(** An entry of [videos]: [id], [liveStreamingDetails.scheduledStartTime]
    and [statistics.viewCount]. *)
Record VideoEntry := mkVideoEntry {
  video_id : str;
  scheduledStartTime : option str;
  viewCount : option str
}.

(** The answer of the spreadsheet script: [status], [message], [data]. *)
Record ScriptReply (A : Type) := mkScriptReply {
  reply_status : option str;
  reply_message : option str;
  reply_data : A
}.
Arguments mkScriptReply {A} reply_status reply_message reply_data.
Arguments reply_status {A} s.
Arguments reply_message {A} s.
Arguments reply_data {A} s.

(** A record of [get_sheet_data]: one tracked series of a region. *)
Record Anime := mkAnime {
  anime_name : str;
  name_cell : str;
  link_url : option str;
  offset : option str;
  rank_cell : option str;
  avg_view_cell : option str;
  total_view_cell : option str;
  first_view_cell : option str;
  ep_count_cell : option str;
  comp_rank_cell : option str
}.

(** The values that end up in a result or in a cell. *)
Inductive pyval :=
| VNone
| VInt (z : Z)
| VStr (s : str).

Record CellUpdate := mkCellUpdate {
  cell : str;
  value : pyval
}.

Record RowUpdate := mkRowUpdate {
  row_check_name : str;
  target_row : Z;
  updates : list CellUpdate
}.

(** A call of the spreadsheet script: the [action] and its payload. *)
Inductive Action :=
| GetSchedule
| GetSheetData (sheet_name : str)
| UpdateData (sheet_name : str) (data : list RowUpdate)
| SortData (sheet_name : str)
| UpdateTimestamp (time_str : str).

(** A [requests.get] to the video platform: the endpoint and the URL. *)
Inductive Request :=
| GetPlaylistItems (url : str)
| GetVideos (url : str).

(** The providers. Every answer may depend on what was asked before: the
    requests sent so far to the video platform, the calls posted so far to
    the spreadsheet script. *)
Record Net := mkNet {
  playlist_api : list Request -> str -> Response PlaylistPage;
  videos_api : list Request -> str -> Response (list VideoEntry);
  (** [datetime.datetime.now(datetime.timezone.utc)], in microseconds *)
  utcnow : list Request -> Z;
  (** the script's answer to [get_sheet_data]: regions in order *)
  sheet_data_api :
    list (str * Action) -> str -> str ->
    Response (ScriptReply (list (str * list Anime)));
  (** the script's answer to [get_schedule] *)
  schedule_api :
    list (str * Action) -> str -> Response (ScriptReply (gmap str (list str)));
  (** the script's answer to the calls that write: whether its [data] is an
      object, which is all the program asks of it *)
  write_api : list (str * Action) -> str -> Action -> Response (ScriptReply bool)
}.

(** The exceptions the program can meet. The last four are plain
    [Exception]s, told apart by their message: those that [AnimeAPI._call]
    raises, "HTTP Error: <status>", "Invalid JSON response: ..." and
    "API Error: <message>", and the one of [main], "YouTube API 配額已滿". *)
Inductive exn :=
| JSONDecodeError
| ValueError
| TypeError
| OverflowError
| AttributeError
| HttpError (status : Z)
| InvalidJson
| ApiError (message : option str)
| QuotaFull.

(** A message to the notification sink: the error that ended the run, the
    error met while the timestamps were written, or the heartbeat. *)
Inductive Notice :=
| FatalError (e : exn)
| TimestampError (e : exn)
| Heartbeat.

(** The state the program threads: the processor object, the requests sent
    to the video platform, the script calls posted for each spreadsheet and
    the notices sent, oldest first. *)
Record World := mkWorld {
  proc : Processor;
  requests : list Request;
  posts : list (str * Action);
  notices : list Notice
}.

(** How a call ends: with a value, with an exception, or not within the
    number of loop iterations granted. *)
Inductive Outcome (A : Type) :=
| Ret (a : A)
| Raise (e : exn)
| Timeout.
Arguments Ret {A} a.
Arguments Raise {A} e.
Arguments Timeout {A}.

Definition M (A : Type) : Type := World -> Outcome A * World.

Definition ret {A} (a : A) : M A := fun w => (Ret a, w).
Definition raise {A} (e : exn) : M A := fun w => (Raise e, w).
Definition timeout {A} : M A := fun w => (Timeout, w).
Definition bind {A B} (m : M A) (f : A -> M B) : M B :=
  fun w =>
    match m w with
    | (Ret a, w') => f a w'
    | (Raise e, w') => (Raise e, w')
    | (Timeout, w') => (Timeout, w')
    end.

Declare Scope prog_scope.
Delimit Scope prog_scope with prog.
Notation "'do' x <- m ; k" := (bind m (fun x => k))
  (at level 10, x name, m at level 100, k at level 200,
   format "'[v' 'do'  x  <-  m ; '/' k ']'") : prog_scope.
Notation "'exec' m ; k" := (bind m (fun _ => k))
  (at level 10, m at level 100, k at level 200,
   format "'[v' 'exec'  m ; '/' k ']'") : prog_scope.

(** an option as a call that raises [e] on [None] *)
Definition or_raise {A} (e : exn) (o : option A) : M A :=
  match o with
  | Some a => ret a
  | None => raise e
  end.

(** [self.quota_exceeded] *)
Definition get_quota_exceeded : M bool :=
  fun w => (Ret (quota_exceeded (proc w)), w).

Definition mark_quota_exceeded : M unit :=
  fun w =>
    (Ret tt, {| proc := set_quota_exceeded (proc w);
                requests := requests w; posts := posts w;
                notices := notices w |}).

Definition get_self : M Processor := fun w => (Ret (proc w), w).

(** [requests.get(url)] on the endpoint [endpoint] *)
Definition fetch {A} (api : list Request -> str -> Response A)
    (endpoint : str -> Request) (url : str) : M (Response A) :=
  fun w =>
    (Ret (api (requests w) url),
     {| proc := proc w; requests := requests w ++ [endpoint url];
        posts := posts w; notices := notices w |}).

(** ** [YouTubeDataProcessor]: the fetchers *)

(** An element of the list [get_playlist_items] builds: [{"id", "title"}]. *)
Record PlaylistItem := mkItem {
  item_id : str;
  item_title : str
}.

(** The three kinds of result of [get_playlist_items]: [None], the string
    ["REMOVED"], or a list of items. *)
Inductive Playlist :=
| NoPlaylist
| Removed
| Items (items : list PlaylistItem).

Local Open Scope prog_scope.

Section Fetchers.
Context (L : PyLib) (net : Net).

Definition _check_quota {A} (response : Response A) : M bool :=
  if status_code response =? 403 then
    match body response with
    | ErrorBody reasons =>
        if bool_decide (Some (u "quotaExceeded") ∈ reasons)
           || bool_decide (Some (u "dailyLimitExceeded") ∈ reasons)
        then exec mark_quota_exceeded; ret true
        else ret false
    | Data _ => ret false
    | NotJson => ret false
    end
  else ret false.

Definition get_playlist_id (url : option str) : option str :=
  match url with
  | None | Some [] => None
  | Some url =>
      match url_query L url with
      | Some query =>
          match query !! u "list" with
          | Some (v :: _) => Some v
          | Some [] => None
          | None => None
          end
      | None => None
      end
  end.

Definition playlist_url (self : Processor) (playlist_id next_page_token : str)
  : str :=
  youtube_base_url self
    ++ u "/playlistItems?part=snippet&maxResults=50&playlistId=" ++ playlist_id
    ++ u "&key=" ++ api_key self ++ u "&hl=zh-Hant"
    ++ (match next_page_token with
        | [] => []
        | _ => u "&pageToken=" ++ next_page_token
        end).

(** [for item in data.get('items', [])]: the entries with a video id *)
Definition items_of_page (entries : list PlaylistEntry) : list PlaylistItem :=
  omap (fun item =>
          match snippet_videoId item with
          | Some (c :: vid) =>
              Some {| item_id := c :: vid;
                      item_title := default [] (snippet_title item) |}
          | _ => None
          end) entries.

(** The [while True] loop of [get_playlist_items]; [fuel] bounds the number
    of pages requested. *)
Fixpoint playlist_pages (fuel : nat) (playlist_id : str)
    (items : list PlaylistItem) (next_page_token : str) : M Playlist :=
  match fuel with
  | O => timeout
  | S fuel' =>
      do self <- get_self;
      do res <- fetch (playlist_api net) GetPlaylistItems
                  (playlist_url self playlist_id next_page_token);
      do exhausted <- _check_quota res;
      if exhausted then ret NoPlaylist
      else if status_code res =? 404 then ret Removed
      else if negb (status_code res =? 200) then ret (Items [])
      else
        match body res with
        | NotJson => raise JSONDecodeError
        | ErrorBody _ => ret (Items items)
        | Data data =>
            let items := items ++ items_of_page (page_items data) in
            match nextPageToken data with
            | Some (c :: token) => playlist_pages fuel' playlist_id items (c :: token)
            | _ => ret (Items items)
            end
        end
  end.

Definition get_playlist_items (fuel : nat) (playlist_id : str) : M Playlist :=
  do exhausted <- get_quota_exceeded;
  if exhausted then ret NoPlaylist
  else playlist_pages fuel playlist_id [] [].

Definition videos_url (self : Processor) (batch : list str) : str :=
  youtube_base_url self
    ++ u "/videos?part=statistics,liveStreamingDetails&id=" ++ join (u ",") batch
    ++ u "&key=" ++ api_key self ++ u "&hl=zh-Hant".

(** One turn of [for item in data.get('items', [])] in [get_video_stats]:
    the entry written to [stats_map]. *)
Definition video_sample (now_utc : Z) (item : VideoEntry)
  : Outcome (option Z) :=
  let view_count :=
    match viewCount item with
    | Some (c :: s) =>
        match int_of_str L (c :: s) with
        | Some v => Ret (Some v)
        | None => Raise ValueError
        end
    | _ => Ret None
    end in
  match scheduledStartTime item with
  | Some (c :: scheduled_start) =>
      match fromisoformat L (replace_char 90%N (u "+00:00") (c :: scheduled_start)) with
      | IsoAware dt_start => if now_utc <? dt_start then Ret None else view_count
      | IsoNaive => Raise TypeError
      | IsoValueError => view_count
      end
  | _ => view_count
  end.

Fixpoint video_samples (now_utc : Z) (items : list VideoEntry)
    (stats_map : gmap str (option Z)) : Outcome (gmap str (option Z)) :=
  match items with
  | [] => Ret stats_map
  | item :: rest =>
      match video_sample now_utc item with
      | Ret sample => video_samples now_utc rest (<[video_id item := sample]> stats_map)
      | Raise e => Raise e
      | Timeout => Timeout
      end
  end.

(** [video_ids[i:i+50] for i in range(0, len(video_ids), 50)] *)
Fixpoint batches (fuel : nat) (video_ids : list str) : list (list str) :=
  match fuel, video_ids with
  | _, [] => []
  | O, _ => []
  | S fuel', _ => take 50 video_ids :: batches fuel' (drop 50 video_ids)
  end.

Fixpoint video_batches (now_utc : Z) (bs : list (list str))
    (stats_map : gmap str (option Z)) : M (gmap str (option Z)) :=
  match bs with
  | [] => ret stats_map
  | batch :: rest =>
      do self <- get_self;
      do res <- fetch (videos_api net) GetVideos (videos_url self batch);
      do exhausted <- _check_quota res;
      if exhausted then ret stats_map
      else if status_code res =? 200 then
        match body res with
        | NotJson => raise JSONDecodeError
        | ErrorBody _ => video_batches now_utc rest stats_map
        | Data items =>
            match video_samples now_utc items stats_map with
            | Ret stats_map' => video_batches now_utc rest stats_map'
            | Raise e => raise e
            | Timeout => timeout
            end
        end
      else video_batches now_utc rest stats_map
  end.

Definition get_video_stats (video_ids : list str) : M (gmap str (option Z)) :=
  do exhausted <- get_quota_exceeded;
  if exhausted || bool_decide (video_ids = []) then ret ∅
  else
    do now_utc <- (fun w => (Ret (utcnow net (requests w)), w));
    video_batches now_utc (batches (length video_ids) video_ids) ∅.

End Fetchers.

(** ** [list.sort] *)

Section Sort.
Context {A K : Type} (lt : K -> K -> bool) (key : A -> K).

(** [x] goes before the first element whose key is not below its own: the
    elements already placed come later in the input, so equal keys keep
    their input order. *)
Fixpoint insert_sorted (x : A) (l : list A) : list A :=
  match l with
  | [] => [x]
  | y :: l' => if lt (key y) (key x) then y :: insert_sorted x l' else x :: y :: l'
  end.

(** [l.sort(key=key)]: stable, ascending for [lt]. *)
Definition sort_by (l : list A) : list A := foldr insert_sorted [] l.

End Sort.

(** [l.sort(key=key, reverse=True)]: stable, descending. *)
Definition sort_by_reverse {A K} (lt : K -> K -> bool) (key : A -> K)
    (l : list A) : list A :=
  sort_by (fun a b => lt b a) key l.

(** ** [YouTubeDataProcessor]: filtering and aggregation *)

(** The dictionary [process_anime] returns. *)
Record Stats := mkStats {
  avg : pyval;
  total : pyval;
  first : pyval;
  valid_count : pyval;
  ep_count_update : pyval
}.

Definition no_data : str := u "---".
Definition delisted : str := u "已下架".

(** [result] as initialised in [process_anime] *)
Definition default_result : Stats :=
  {| avg := VStr no_data; total := VStr no_data; first := VStr no_data;
     valid_count := VInt 0; ep_count_update := VNone |}.

(** [{k: "已下架" for k in result}] *)
Definition removed_result : Stats :=
  {| avg := VStr delisted; total := VStr delisted; first := VStr delisted;
     valid_count := VStr delisted; ep_count_update := VStr delisted |}.

(** [bool(x)] for a decoded JSON value *)
Definition truthy (j : json) : bool :=
  match j with
  | JNull => false
  | JBool b => b
  | JNum x => negb (bool_decide (num_compare x (NInt 0) = Some Eq))
  | JStr s => negb (bool_decide (s = []))
  | JArr l => negb (bool_decide (l = []))
  | JObj l => negb (bool_decide (l = []))
  end.

(** [start, end = offset_range]; [None] stands for the exception raised when
    the value is not iterable or does not have exactly two elements. *)
Definition unpack2 (j : json) : option (json * json) :=
  match j with
  | JArr [a; b] => Some (a, b)
  | JStr [a; b] => Some (JStr [a], JStr [b])
  | JObj [(a, _); (b, _)] => Some (JStr a, JStr b)
  | _ => None
  end.

(** A JSON value as an operand of [<=] with a number; [None] where the
    comparison raises [TypeError]. *)
Definition as_num (j : json) : option num :=
  match j with
  | JNum x => Some x
  | JBool b => Some (NInt (if b then 1 else 0))
  | _ => None
  end.

Section Aggregator.
Context (L : PyLib) (net : Net).

(** [start <= ep_idx <= end]; [None] stands for the exception raised. *)
Definition in_range (start end_ : json) (ep_idx : num) : option bool :=
  match as_num start with
  | None => None
  | Some s =>
      if num_le s ep_idx then
        match as_num end_ with
        | None => None
        | Some e => Some (num_le ep_idx e)
        end
      else Some false
  end.

Definition is_in_offset (title : str) (offset_range : option json)
    (offset_string : option str) : bool :=
  if (if offset_string is Some s then negb (contains s title) else false)
  then false
  else
    match offset_range with
    | None => true
    | Some range =>
        match parse_episode_number L title with
        | None => false
        | Some ep_idx =>
            match unpack2 range with
            | Some (start, end_) =>
                match in_range start end_ ep_idx with
                | Some true => true
                | Some false => false
                | None => false
                end
            | None => false
            end
        end
    end.

(** The parsing of [anime_item.get('offset')] at the head of
    [process_anime]: the pair [(offset_range, offset_string)]. *)
Definition parse_offset (offset_str : option str) : option json * option str :=
  match offset_str with
  | Some (c :: s) =>
      match json_loads L (c :: s) with
      | Some range => (Some range, None)
      | None => (None, Some (c :: s))
      end
  | _ => (None, None)
  end.

(** The filter loop of [process_anime] *)
Definition keeps (self : Processor) (offset_range : option json)
    (offset_string : option str) (item : PlaylistItem) : bool :=
  let title := item_title item in
  if is_ignored_keyword self title then false
  else if (if offset_range is Some r
           then truthy r && negb (is_in_offset title (Some r) None)
           else false) then false
  else if (if offset_string is Some (c :: s)
           then negb (is_in_offset title None (Some (c :: s)))
           else false) then false
  else true.

Definition sort_key (v : PlaylistItem) : num :=
  default (NInt 999999) (parse_episode_number L (item_title v)).

(** The state of the loop over [sorted_videos]. *)
Record Tally := mkTally {
  total_views : Z;
  valid_view_count : Z;
  first_ep_views : pyval;
  has_any_view_data : bool
}.

(** [stats.get(v['id'])]: a missing key and a key bound to [None] read the
    same. *)
Definition sample_of (stats : gmap str (option Z)) (v : PlaylistItem)
  : option Z :=
  mjoin (stats !! item_id v).

Definition tally_step (stats : gmap str (option Z)) (t : Tally)
    (v : PlaylistItem) : Tally :=
  let views := sample_of stats v in
  {| total_views := if views is Some n then total_views t + n else total_views t;
     valid_view_count :=
       if views is Some _ then valid_view_count t + 1 else valid_view_count t;
     first_ep_views :=
       match first_ep_views t with
       | VNone => if views is Some n then VInt n else VStr no_data
       | x => x
       end;
     has_any_view_data :=
       if views is Some _ then true else has_any_view_data t |}.

Definition tally (stats : gmap str (option Z)) (sorted_videos : list PlaylistItem)
  : Tally :=
  foldl (tally_step stats)
    {| total_views := 0; valid_view_count := 0; first_ep_views := VNone;
       has_any_view_data := false |} sorted_videos.

(** [process_anime] from "計算統計" on: the reduction of the samples. *)
Definition summarize (valid_videos : list PlaylistItem)
    (stats : gmap str (option Z)) : Outcome Stats :=
  let sorted_videos := sort_by num_lt sort_key valid_videos in
  let t := tally stats sorted_videos in
  if negb (has_any_view_data t) then Ret default_result
  else
    let avg_views :=
      if 0 <? valid_view_count t then
        match truediv (total_views t) (valid_view_count t) with
        | Some q => if int_of_float q is Some n then Ret n else Raise OverflowError
        | None => Raise OverflowError
        end
      else Ret 0 in
    match avg_views with
    | Ret avg_views =>
        Ret {| avg := VInt avg_views;
               total := VInt (total_views t);
               first := match first_ep_views t with
                        | VNone => VStr no_data
                        | x => x
                        end;
               valid_count := VInt (Z.of_nat (length valid_videos));
               ep_count_update := VNone |}
    | Raise e => Raise e
    | Timeout => Timeout
    end.

Definition process_anime (fuel : nat) (anime_item : Anime) : M (option Stats) :=
  do exhausted <- get_quota_exceeded;
  if exhausted then ret None
  else
    let '(offset_range, offset_string) := parse_offset (offset anime_item) in
    match get_playlist_id L (link_url anime_item) with
    | None | Some [] => ret None
    | Some playlist_id =>
        do items <- get_playlist_items net fuel playlist_id;
        match items with
        | Removed => ret (Some removed_result)
        | NoPlaylist | Items [] => ret (Some default_result)
        | Items items =>
            do self <- get_self;
            let valid_videos :=
              List.filter (keeps self offset_range offset_string) items in
            match valid_videos with
            | [] => ret (Some default_result)
            | _ =>
                do stats <- get_video_stats L net (List.map item_id valid_videos);
                do exhausted <- get_quota_exceeded;
                if exhausted then ret None
                else
                  match summarize valid_videos stats with
                  | Ret result => ret (Some result)
                  | Raise e => raise e
                  | Timeout => timeout
                  end
            end
        end
    end.

End Aggregator.

(** ** Insertion-ordered dictionaries *)

(** A [dict] whose iteration order is observed: its items, in insertion
    order, with distinct keys. *)
Section ODict.
Context {V : Type}.

Fixpoint odict_get (d : list (Z * V)) (k : Z) : option V :=
  match d with
  | [] => None
  | (k', v) :: d' => if k' =? k then Some v else odict_get d' k
  end.

(** [d[k] = v]: an existing key keeps its place. *)
Fixpoint odict_set (d : list (Z * V)) (k : Z) (v : V) : list (Z * V) :=
  match d with
  | [] => [(k, v)]
  | (k', v') :: d' =>
      if k' =? k then (k, v) :: d' else (k', v') :: odict_set d' k v
  end.

End ODict.

(** ** [process_single_sheet] *)

(** An element of [region_results], together with the row index
    [int(anime['name_cell'][1:])] that the first phase computes for it (the
    later phases compute the same number again). *)
Record RegionResult := mkRegionResult {
  rr_row : Z;
  rr_anime : Anime;
  rr_stats : option Stats
}.

(** The dictionaries that live across the regions of one sheet. *)
Record SheetState := mkSheetState {
  updates_batch : list RowUpdate;
  row_max_ep_map : gmap Z Z;
  global_avg_sum_map : list (Z * Z);
  global_comp_rank_cell_map : list (Z * str)
}.

Definition empty_sheet_state : SheetState :=
  {| updates_batch := []; row_max_ep_map := ∅;
     global_avg_sum_map := []; global_comp_rank_cell_map := [] |}.

(** a cell reference that is present and not empty *)
Definition cell_ref (c : option str) : option str :=
  match c with
  | Some (x :: s) => Some (x :: s)
  | _ => None
  end.

(** [isinstance(stats.get('avg'), int)] *)
Definition int_avg (stats : Stats) : option Z :=
  match avg stats with
  | VInt n => Some n
  | _ => None
  end.

Section Sheet.
Context (L : PyLib) (net : Net).

(** [int(anime['name_cell'][1:])] *)
Definition row_of (anime : Anime) : option Z :=
  int_of_str L (slice_from 1 (name_cell anime)).

(** Phase 1, one turn of [for anime in anime_list]. *)
Definition read_anime (fuel : nat) (anime : Anime)
    (acc : list RegionResult * SheetState)
  : M (list RegionResult * SheetState) :=
  let '(region_results, st) := acc in
  do row_idx <- or_raise ValueError (row_of anime);
  let comp_cells :=
    match cell_ref (comp_rank_cell anime) with
    | Some c => odict_set (global_comp_rank_cell_map st) row_idx c
    | None => global_comp_rank_cell_map st
    end in
  do stats <- process_anime L net fuel anime;
  let sums :=
    match stats ≫= int_avg with
    | Some a =>
        odict_set (global_avg_sum_map st) row_idx
          (default 0 (odict_get (global_avg_sum_map st) row_idx) + a)
    | None => global_avg_sum_map st
    end in
  ret (region_results
         ++ [{| rr_row := row_idx; rr_anime := anime; rr_stats := stats |}],
       {| updates_batch := updates_batch st;
          row_max_ep_map := row_max_ep_map st;
          global_avg_sum_map := sums;
          global_comp_rank_cell_map := comp_cells |}).

(** Phase 1 for a region. [None] is the [return] taken when the quota is
    found exhausted at the head of a turn. *)
Fixpoint read_region (fuel : nat) (anime_list : list Anime)
    (acc : list RegionResult * SheetState)
  : M (option (list RegionResult * SheetState)) :=
  match anime_list with
  | [] => ret (Some acc)
  | anime :: rest =>
      do exhausted <- get_quota_exceeded;
      if exhausted then ret None
      else
        do acc' <- read_anime fuel anime acc;
        read_region fuel rest acc'
  end.

(** Phase 2: [valid_for_ranking], sorted. *)
Definition rankable (item : RegionResult) : bool :=
  match rr_stats item ≫= int_avg with
  | Some _ => true
  | None => false
  end.

Definition ranking_avg (item : RegionResult) : Z :=
  default 0 (rr_stats item ≫= int_avg).

Definition valid_for_ranking (region_results : list RegionResult)
  : list RegionResult :=
  sort_by_reverse Z.ltb ranking_avg (List.filter rankable region_results).

(** [for i, item in enumerate(l): m[row(item)] = i + 1], counting from [i] *)
Fixpoint rank_from {A} (row : A -> Z) (i : nat) (l : list A)
    (m : gmap Z Z) : gmap Z Z :=
  match l with
  | [] => m
  | item :: rest => rank_from row (S i) rest (<[row item := Z.of_nat i + 1]> m)
  end.

Definition rank_map (region_results : list RegionResult) : gmap Z Z :=
  rank_from rr_row 0 (valid_for_ranking region_results) ∅.

(** Phase 3, the rank cell of one row. *)
Definition rank_update (ranks : gmap Z Z) (item : RegionResult)
  : list CellUpdate :=
  match cell_ref (rank_cell (rr_anime item)) with
  | Some c =>
      match ranks !! rr_row item with
      | Some r => [ {| cell := c; value := VInt r |} ]
      | None => [ {| cell := c; value := VStr [] |} ]
      end
  | None => []
  end.

Definition view_updates (anime : Anime) (stats : Stats) : list CellUpdate :=
  (if cell_ref (avg_view_cell anime) is Some c
   then [ {| cell := c; value := avg stats |} ] else [])
  ++ (if cell_ref (total_view_cell anime) is Some c
      then [ {| cell := c; value := total stats |} ] else [])
  ++ (if cell_ref (first_view_cell anime) is Some c
      then [ {| cell := c; value := first stats |} ] else []).

(** [this_region_ep_count > current_max_ep], when it does not raise *)
Definition exceeds (this_region_ep_count : pyval) (current_max_ep : Z)
  : option Z :=
  match this_region_ep_count with
  | VInt n => if current_max_ep <? n then Some n else None
  | _ => None
  end.

Definition append_row (anime : Anime) (row_idx : Z)
    (row_updates : list CellUpdate) (batch : list RowUpdate) : list RowUpdate :=
  match row_updates with
  | [] => batch
  | _ => batch ++ [ {| row_check_name := anime_name anime;
                       target_row := row_idx;
                       updates := row_updates |} ]
  end.

(** Phase 3, one turn of [for item in region_results]. *)
Definition plan_row (ranks : gmap Z Z) (st : SheetState) (item : RegionResult)
  : SheetState :=
  let anime := rr_anime item in
  let row_idx := rr_row item in
  let row_updates := rank_update ranks item in
  match rr_stats item with
  | None =>
      {| updates_batch := append_row anime row_idx row_updates (updates_batch st);
         row_max_ep_map := row_max_ep_map st;
         global_avg_sum_map := global_avg_sum_map st;
         global_comp_rank_cell_map := global_comp_rank_cell_map st |}
  | Some stats =>
      let row_updates := row_updates ++ view_updates anime stats in
      let current_max_ep := default 0 (row_max_ep_map st !! row_idx) in
      match exceeds (valid_count stats) current_max_ep with
      | Some n =>
          let row_updates :=
            row_updates ++
            (if cell_ref (ep_count_cell anime) is Some c
             then [ {| cell := c; value := VInt n |} ] else []) in
          {| updates_batch := append_row anime row_idx row_updates (updates_batch st);
             row_max_ep_map := <[row_idx := n]> (row_max_ep_map st);
             global_avg_sum_map := global_avg_sum_map st;
             global_comp_rank_cell_map := global_comp_rank_cell_map st |}
      | None =>
          {| updates_batch := append_row anime row_idx row_updates (updates_batch st);
             row_max_ep_map := row_max_ep_map st;
             global_avg_sum_map := global_avg_sum_map st;
             global_comp_rank_cell_map := global_comp_rank_cell_map st |}
      end
  end.

(** Phases 2 and 3 for a region. *)
Definition plan_region (region_results : list RegionResult) (st : SheetState)
  : SheetState :=
  foldl (plan_row (rank_map region_results)) st region_results.

(** The loop over the regions of [sheet_data]. *)
Fixpoint process_regions (fuel : nat) (regions : list (str * list Anime))
    (st : SheetState) : M (option SheetState) :=
  match regions with
  | [] => ret (Some st)
  | (region_name, anime_list) :: rest =>
      do r <- read_region fuel anime_list ([], st);
      match r with
      | None => ret None
      | Some (region_results, st') =>
          process_regions fuel rest (plan_region region_results st')
      end
  end.

(** Phase 4: the comprehensive ranking. *)
Definition valid_global_list (sums : list (Z * Z)) : list (Z * Z) :=
  sort_by_reverse Z.ltb snd (List.filter (fun rv => 0 <? snd rv) sums).

Definition global_rank_map (sums : list (Z * Z)) : gmap Z Z :=
  rank_from fst 0 (valid_global_list sums) ∅.

(** [{int(a['name_cell'][1:]): a['anime_name'] for a in first_region_list}] *)
Fixpoint row_to_name_map (first_region_list : list Anime) (m : gmap Z str)
  : option (gmap Z str) :=
  match first_region_list with
  | [] => Some m
  | a :: rest =>
      match row_of a with
      | Some row => row_to_name_map rest (<[row := anime_name a]> m)
      | None => None
      end
  end.

Definition comp_rank_update (ranks : gmap Z Z) (names : gmap Z str)
    (entry : Z * str) : list RowUpdate :=
  let '(row_idx, cell_addr) := entry in
  match names !! row_idx with
  | Some (c :: name) =>
      [ {| row_check_name := c :: name;
           target_row := row_idx;
           updates :=
             [ {| cell := cell_addr;
                  value := match ranks !! row_idx with
                           | Some r => VInt r
                           | None => VStr []
                           end |} ] |} ]
  | _ => []
  end.

Definition comprehensive_updates (regions : list (str * list Anime))
    (st : SheetState) : option (list RowUpdate) :=
  match regions with
  | [] => None
  | (_, first_region_list) :: _ =>
      names ← row_to_name_map first_region_list ∅;
      Some (concat (List.map
                      (comp_rank_update (global_rank_map (global_avg_sum_map st)) names)
                      (global_comp_rank_cell_map st)))
  end.

End Sheet.

(** ** [AnimeAPI] *)

Section AnimeAPI.
Context (net : Net).

(** [requests.post(self.script_url, json=payload, ...)] *)
Definition post {A} (api : list (str * Action) -> Response (ScriptReply A))
    (ss_id : str) (action : Action) : M (Response (ScriptReply A)) :=
  fun w =>
    (Ret (api (posts w)),
     {| proc := proc w; requests := requests w;
        posts := posts w ++ [(ss_id, action)]; notices := notices w |}).

Definition _call {A} (api : list (str * Action) -> Response (ScriptReply A))
    (ss_id : str) (action : Action) : M A :=
  do response <- post api ss_id action;
  if negb (status_code response =? 200) then
    raise (HttpError (status_code response))
  else
    match body response with
    | NotJson => raise InvalidJson
    | ErrorBody _ => raise (ApiError None)
    | Data result =>
        if bool_decide (reply_status result = Some (u "success"))
        then ret (reply_data result)
        else raise (ApiError (reply_message result))
    end.

Definition get_schedule (ss_id : str) : M (gmap str (list str)) :=
  _call (fun h => schedule_api net h ss_id) ss_id GetSchedule.

Definition get_sheet_data (ss_id sheet_name : str)
  : M (list (str * list Anime)) :=
  _call (fun h => sheet_data_api net h ss_id sheet_name) ss_id
    (GetSheetData sheet_name).

Definition batch_update (ss_id sheet_name : str) (update_list : list RowUpdate)
  : M bool :=
  _call (fun h => write_api net h ss_id (UpdateData sheet_name update_list))
    ss_id (UpdateData sheet_name update_list).

Definition sort_data (ss_id sheet_name : str) : M bool :=
  _call (fun h => write_api net h ss_id (SortData sheet_name)) ss_id
    (SortData sheet_name).

Definition update_system_time (ss_id time_str : str) : M bool :=
  _call (fun h => write_api net h ss_id (UpdateTimestamp time_str)) ss_id
    (UpdateTimestamp time_str).

End AnimeAPI.

(** [try: m except Exception: handler] *)
Definition try_except {A} (m : M A) (handler : exn -> M A) : M A :=
  fun w =>
    match m w with
    | (Raise e, w') => handler e w'
    | r => r
    end.

Section Run.
Context (L : PyLib) (net : Net).

(** [process_single_sheet] for the spreadsheet [ss_id] that
    [current_gas_api] refers to. *)
Definition process_single_sheet (fuel : nat) (ss_id sheet_name : str) : M unit :=
  do sheet_data <- try_except (do d <- get_sheet_data net ss_id sheet_name; ret (Some d))
                     (fun _ => ret None);
  match sheet_data with
  | None | Some [] => ret tt
  | Some sheet_data =>
      do st <- process_regions L net fuel sheet_data empty_sheet_state;
      match st with
      | None => ret tt
      | Some st =>
          do exhausted <- get_quota_exceeded;
          do batch <-
            (if negb exhausted
                && negb (bool_decide (global_comp_rank_cell_map st = []))
             then
               do ups <- or_raise ValueError (comprehensive_updates L sheet_data st);
               ret (updates_batch st ++ ups)
             else ret (updates_batch st));
          do exhausted <- get_quota_exceeded;
          if negb (bool_decide (batch = [])) && negb exhausted then
            try_except
              (do resp <- batch_update net ss_id sheet_name batch;
               if resp then
                 do sort_resp <- sort_data net ss_id sheet_name;
                 if sort_resp then ret tt else raise AttributeError
               else raise AttributeError)
              (fun _ => ret tt)
          else ret tt
      end
  end.

(** The loop of [main] over the sheets due for a spreadsheet
    ([for sheet_name in target_sheets]); the pause between two sheets does
    nothing to the state. *)
Fixpoint process_target_sheets (fuel : nat) (ss_id : str)
    (target_sheets : list str) : M unit :=
  match target_sheets with
  | [] => ret tt
  | sheet_name :: rest =>
      do exhausted <- get_quota_exceeded;
      if exhausted then raise QuotaFull
      else
        exec process_single_sheet fuel ss_id sheet_name;
        process_target_sheets fuel ss_id rest
  end.

(** [a < b] on strings: by code points, the shorter first *)
Fixpoint str_ltb (a b : str) : bool :=
  match a, b with
  | _, [] => false
  | [], _ :: _ => true
  | x :: a', y :: b' => (x <? y)%N || ((x =? y)%N && str_ltb a' b')
  end.

(** [sorted(list(sheets_to_process))], the set holding the sheets of the
    key "0" and those of today's key *)
Definition target_sheets_of (schedule : gmap str (list str)) (today_key : str)
  : list str :=
  sort_by str_ltb id
    (remove_dups (default [] (schedule !! u "0")
                  ++ default [] (schedule !! today_key))).

(** The loop of [main] over [SPREADSHEET_IDS]. *)
Fixpoint process_spreadsheets (fuel : nat) (today_key : str)
    (spreadsheet_ids : list str) : M unit :=
  match spreadsheet_ids with
  | [] => ret tt
  | ss_id :: rest =>
      if bool_decide (ss_id = []) then process_spreadsheets fuel today_key rest
      else
        do schedule <- get_schedule net ss_id;
        exec process_target_sheets fuel ss_id (target_sheets_of schedule today_key);
        process_spreadsheets fuel today_key rest
  end.

(** [send_telegram_error] and the heartbeat: best effort, a failure to send
    changes nothing. *)
Definition notify (n : Notice) : M unit :=
  fun w =>
    (Ret tt, {| proc := proc w; requests := requests w; posts := posts w;
                notices := notices w ++ [n] |}).

(** The loop that writes the time of the run to every spreadsheet. *)
Fixpoint update_timestamps (now_str : str) (spreadsheet_ids : list str) : M unit :=
  match spreadsheet_ids with
  | [] => ret tt
  | ss_id :: rest =>
      if bool_decide (ss_id = []) then update_timestamps now_str rest
      else
        do res <- update_system_time net ss_id now_str;
        if res then update_timestamps now_str rest else raise AttributeError
  end.

(** [main], for the spreadsheets [SPREADSHEET_IDS]; [today_key] and
    [now_str] are what the clock gives for the weekday and for the time of
    the closing step. *)
Definition main (fuel : nat) (spreadsheet_ids : list str)
    (today_key now_str : str) : M unit :=
  do global_error_occurred <-
    try_except (exec process_spreadsheets fuel today_key spreadsheet_ids; ret false)
      (fun e => exec notify (FatalError e); ret true);
  if global_error_occurred then ret tt
  else
    do stamped <-
      try_except (exec update_timestamps now_str spreadsheet_ids; ret true)
        (fun e => exec notify (TimestampError e); ret false);
    if stamped then notify Heartbeat else ret tt.

End Run.

(** ** A library and providers to run the program on

    [ascii_lib] is the library on ASCII text: the spaces, digits and letter
    cases of ASCII (any other code point is no space, no digit, and matches
    only itself), and decoders for a fragment of the inputs of [json.loads]
    and [parse_qs]. *)

Module Ascii.

Definition isspace (c : N) : bool :=
  ((9 <=? c) && (c <=? 13) || (28 <=? c) && (c <=? 32))%N.

Definition decimal (c : N) : option Z :=
  if ((48 <=? c) && (c <=? 57))%N then Some (Z.of_N c - 48) else None.

Definition ieq (p c : N) : bool :=
  (p =? c)%N
  || ((65 <=? p) && (p <=? 90) && (c =? p + 32))%N
  || ((97 <=? p) && (p <=? 122) && (c =? p - 32))%N.

(** the leading ASCII digits of [s], and the rest *)
Fixpoint span_digits (s : str) : str * str :=
  match s with
  | c :: s' =>
      if decimal c is Some _
      then let '(ds, rest) := span_digits s' in (c :: ds, rest)
      else ([], s)
  | [] => ([], [])
  end.

Fixpoint value_of (ds : str) (acc : Z) : Z :=
  match ds with
  | c :: ds' => value_of ds' (10 * acc + default 0 (decimal c))
  | [] => acc
  end.

Definition negate (f : float64) : float64 :=
  match f with
  | Fin m e => Fin (- m) e
  | Inf n => Inf (negb n)
  | NaN => NaN
  end.

(** a JSON number without exponent *)
Definition number (s : str) : option (json * str) :=
  let '(neg, s1) :=
    match s with
    | 45%N :: s' => (true, s')
    | _ => (false, s)
    end in
  match span_digits s1 with
  | ([], _) => None
  | (48%N :: _ :: _, _) => None
  | (ds, 46%N :: s2) =>
      match span_digits s2 with
      | ([], _) => None
      | (fs, rest) =>
          let f := float_of_decimal (value_of (ds ++ fs) 0) (length fs) in
          Some (JNum (NFloat (if neg then negate f else f)), rest)
      end
  | (ds, rest) =>
      Some (JNum (NInt (if neg then - value_of ds 0 else value_of ds 0)), rest)
  end.

Fixpoint skip_ws (s : str) : str :=
  match s with
  | c :: s' => if ((c =? 32) || (c =? 9) || (c =? 10) || (c =? 13))%N
               then skip_ws s' else s
  | [] => []
  end.

(** the text of a JSON string without escapes, after its opening quote *)
Fixpoint string_body (s : str) : option (str * str) :=
  match s with
  | [] => None
  | c :: s' =>
      if (c =? 34)%N then Some ([], s')
      else if ((c =? 92) || (c <? 32))%N then None
      else '(t, rest) ← string_body s'; Some (c :: t, rest)
  end.

(** a JSON value that is a literal, a number, a string or an array *)
Fixpoint value (fuel : nat) (s : str) : option (json * str) :=
  match fuel with
  | O => None
  | S fuel' =>
      let s := skip_ws s in
      if starts_with (u "null") s then Some (JNull, drop 4 s)
      else if starts_with (u "true") s then Some (JBool true, drop 4 s)
      else if starts_with (u "false") s then Some (JBool false, drop 5 s)
      else
        match s with
        | 34%N :: s1 => '(t, rest) ← string_body s1; Some (JStr t, rest)
        | 91%N :: s1 =>
            match skip_ws s1 with
            | 93%N :: s2 => Some (JArr [], s2)
            | _ =>
                (fix elements (n : nat) (s : str) (acc : list json) :=
                   match n with
                   | O => None
                   | S n' =>
                       match value fuel' s with
                       | Some (v, s') =>
                           match skip_ws s' with
                           | 44%N :: s'' => elements n' s'' (acc ++ [v])
                           | 93%N :: s'' => Some (JArr (acc ++ [v]), s'')
                           | _ => None
                           end
                       | None => None
                       end
                   end) fuel' s1 []
            end
        | _ => number s
        end
  end.

Definition json_loads (s : str) : option json :=
  match value (S (length s)) s with
  | Some (v, rest) => if skip_ws rest is [] then Some v else None
  | None => None
  end.

(** [s.split(c)] *)
Fixpoint split_on (c : N) (s : str) : list str :=
  match s with
  | [] => [[]]
  | x :: s' =>
      if (x =? c)%N then [] :: split_on c s'
      else match split_on c s' with
           | t :: ts => (x :: t) :: ts
           | [] => [[x]]
           end
  end.

(** the query of a URL without fragment: the text after the first [?] *)
Definition query_of (url : str) : str :=
  match split_on 63%N url with
  | _ :: q :: qs => join [63%N] (q :: qs)
  | _ => []
  end.

(** [parse_qs] on pairs [key=value] without escapes, joined by [&]; a pair
    with an empty value is dropped *)
Definition url_query (url : str) : option (gmap str (list str)) :=
  Some (foldl
          (fun m pair =>
             match split_on 61%N pair with
             | k :: v :: vs =>
                 match join [61%N] (v :: vs) with
                 | [] => m
                 | val => <[k := default [] (m !! k) ++ [val]]> m
                 end
             | _ => m
             end)
          ∅ (split_on 38%N (query_of url))).

End Ascii.

Definition ascii_lib : PyLib :=
  {| isspace := Ascii.isspace;
     decimal := Ascii.decimal;
     ieq := Ascii.ieq;
     json_loads := Ascii.json_loads;
     url_query := Ascii.url_query;
     fromisoformat := fun _ => IsoValueError |}.

(** Providers that answer by the URL alone. *)
Definition ok {A} (d : A) : Response A := {| status_code := 200; body := Data d |}.

Definition failed {A} (status : Z) (reasons : list str) : Response A :=
  {| status_code := status; body := ErrorBody (List.map Some reasons) |}.

Definition net_of (playlists : str -> Response PlaylistPage)
    (videos : str -> Response (list VideoEntry)) : Net :=
  {| playlist_api := fun _ => playlists;
     videos_api := fun _ => videos;
     utcnow := fun _ => 0;
     sheet_data_api := fun _ _ _ => failed 500 [];
     schedule_api := fun _ _ => failed 500 [];
     write_api := fun _ _ _ => failed 500 [] |}.

Definition start (self : Processor) : World :=
  {| proc := self; requests := []; posts := []; notices := [] |}.

(** a playlist of one page *)
Definition page (titles : list (string * string)) : Response PlaylistPage :=
  ok {| page_items :=
          List.map (fun '(vid, title) =>
                      {| snippet_title := Some (u title);
                         snippet_videoId := Some (u vid) |}) titles;
        nextPageToken := None |}.
Arguments page titles%_string.

(** the entry of a video with the given view count, if it shows one *)
Definition video (vid : string) (views : option string) : VideoEntry :=
  {| video_id := u vid; scheduledStartTime := None;
     viewCount := u <$> views |}.
Arguments video vid%_string views%_string.

(** a series with a playlist link and an offset, and all its cells *)
Definition series (name : string) (row : string) (offset_ : option string) : Anime :=
  {| anime_name := u name;
     name_cell := u "A" ++ u row;
     link_url := Some (u "https://www.youtube.com/playlist?list=" ++ u name);
     offset := u <$> offset_;
     rank_cell := Some (u "B" ++ u row);
     avg_view_cell := Some (u "C" ++ u row);
     total_view_cell := Some (u "D" ++ u row);
     first_view_cell := Some (u "E" ++ u row);
     ep_count_cell := Some (u "F" ++ u row);
     comp_rank_cell := Some (u "G" ++ u row) |}.
Arguments series name%_string row%_string offset_%_string.

(** ** The quota signal and the trace of requests *)

(** The answer that [_check_quota] takes for an exhausted quota. *)
Definition quota_signal {A} (res : Response A) : bool :=
  (status_code res =? 403)
  && match body res with
     | ErrorBody reasons =>
         bool_decide (Some (u "quotaExceeded") ∈ reasons)
         || bool_decide (Some (u "dailyLimitExceeded") ∈ reasons)
     | _ => false
     end.

(** The request [r], sent after [history], is answered by the signal. *)
Definition signalled (net : Net) (history : list Request) (r : Request) : bool :=
  match r with
  | GetPlaylistItems url => quota_signal (playlist_api net history url)
  | GetVideos url => quota_signal (videos_api net history url)
  end.

(** None of the requests [new], sent in this order after [history], is
    answered by the signal. *)
Fixpoint unsignalled (net : Net) (history new : list Request) : Prop :=
  match new with
  | [] => True
  | r :: rest =>
      signalled net history r = false /\ unsignalled net (history ++ [r]) rest
  end.

(** What a stretch of the run from [w] to [w'] may do to the trace: with the
    flag set at [w] it sends nothing; otherwise it sends requests that are
    not answered by the signal, except that the last one is when the flag is
    set at [w'] (and only then). *)
Definition disciplined (net : Net) (w w' : World) : Prop :=
  exists new,
    requests w' = requests w ++ new /\
    if quota_exceeded (proc w) then
      new = [] /\ quota_exceeded (proc w') = true
    else if quota_exceeded (proc w') then
      exists before r,
        new = before ++ [r]
        /\ unsignalled net (requests w) before
        /\ signalled net (requests w ++ before) r = true
    else unsignalled net (requests w) new.

(** A call keeps the discipline from every state. *)
Definition obeys {A} (net : Net) (m : M A) : Prop :=
  forall w, disciplined net w (snd (m w)).

(** the state after one more request *)
Definition sent (w : World) (r : Request) : World :=
  {| proc := proc w; requests := requests w ++ [r]; posts := posts w;
     notices := notices w |}.

(** the state after one more script call *)
Definition posted (w : World) (ss_id : str) (action : Action) : World :=
  {| proc := proc w; requests := requests w;
     posts := posts w ++ [(ss_id, action)]; notices := notices w |}.

(** an entry of [region_results] for the series [name] on row [row] *)
Definition entry (name row : string) (stats : option Stats) : RegionResult :=
  {| rr_row := default 0 (row_of ascii_lib (series name row None));
     rr_anime := series name row None;
     rr_stats := stats |}.
Arguments entry name%_string row%_string stats.

(** the result of a series with one episode of [n] views *)
Definition one_episode (n : Z) : Stats :=
  {| avg := VInt n; total := VInt n; first := VInt n; valid_count := VInt 1;
     ep_count_update := VNone |}.

(** the update of a configured cell with a value *)
Definition cell_update (c : option str) (v : pyval) : list CellUpdate :=
  if cell_ref c is Some c then [ {| cell := c; value := v |} ] else [].

(** [net] with a spreadsheet script that serves [regions] for every sheet
    and accepts every write *)
Definition with_sheet (net : Net) (regions : list (str * list Anime)) : Net :=
  {| playlist_api := playlist_api net;
     videos_api := videos_api net;
     utcnow := utcnow net;
     sheet_data_api := fun _ _ _ =>
       ok {| reply_status := Some (u "success"); reply_message := None;
             reply_data := regions |};
     schedule_api := schedule_api net;
     write_api := fun _ _ _ =>
       ok {| reply_status := Some (u "success"); reply_message := None;
             reply_data := true |} |}.

(** ** Rounding, as a specification *)

(** [a / b >= 2^k], on integers *)
Definition at_least_pow2 (a b k : Z) : Prop := scaled_den b k <= scaled_num a k.

(** The truncation of a finite value [m * 2^e], [0 <= m] *)
Definition truncated (m e : Z) : Z := if e <? 0 then m / 2 ^ (- e) else m * 2 ^ e.

(** ** The samples of a series, as a specification *)

(** the integer view counts among the samples of [videos] *)
Definition real_samples (stats : gmap str (option Z)) (videos : list PlaylistItem)
  : list Z :=
  omap (sample_of stats) videos.

Definition sum_of (l : list Z) : Z := foldr Z.add 0 l.

(** the first-episode value for the videos in episode order *)
Definition first_value (stats : gmap str (option Z))
    (sorted_videos : list PlaylistItem) : pyval :=
  match sorted_videos with
  | v :: _ => if sample_of stats v is Some n then VInt n else VStr no_data
  | [] => VStr no_data
  end.

(** ** What a pattern matches, as a specification *)

(** [matches L r t c c']: the pattern [r] matches the text [t], and the text
    of the capturing group goes from [c] to [c']. *)
Inductive matches (L : PyLib) : regex -> str -> option str -> option str -> Prop :=
| M_Lit c x cap :
    ieq L c x = true -> matches L (Lit c) [x] cap cap
| M_Space x cap :
    isspace L x = true -> matches L Space [x] cap cap
| M_Digit x d cap :
    decimal L x = Some d -> matches L Digit [x] cap cap
| M_OneOf cs x cap :
    existsb (fun c => ieq L c x) cs = true -> matches L (OneOf cs) [x] cap cap
| M_Cat r1 r2 t1 t2 c c1 c2 :
    matches L r1 t1 c c1 -> matches L r2 t2 c1 c2 ->
    matches L (Cat r1 r2) (t1 ++ t2) c c2
| M_Star_nil r c :
    matches L (Star r) [] c c
| M_Star_cons r t1 t2 c c1 c2 :
    matches L r t1 c c1 -> matches L (Star r) t2 c1 c2 ->
    matches L (Star r) (t1 ++ t2) c c2
| M_Opt_none r c :
    matches L (Opt r) [] c c
| M_Opt_some r t c c' :
    matches L r t c c' -> matches L (Opt r) t c c'
| M_Group r t c c' :
    matches L r t c c' -> matches L (Group r) t c (Some t).

Fixpoint has_group (r : regex) : bool :=
  match r with
  | Group _ => true
  | Cat r1 r2 => has_group r1 || has_group r2
  | Star r' | Opt r' => has_group r'
  | _ => false
  end.

(** [text] is a decimal numeral: digits, or digits, a point and digits; [n]
    is the number its digits spell and [k] the count of those after the
    point, so that it denotes [n / 10^k]. *)
Definition number_text (L : PyLib) (text : str) (n : Z) (k : nat) : Prop :=
  exists ip fp,
    ip <> []
    /\ digits_value L (ip ++ fp) 0 = Some n
    /\ k = length fp
    /\ text = match fp with
              | [] => ip
              | _ => ip ++ 46%N :: fp
              end.

(** The point is no digit and has no other case. *)
Definition plain_point (L : PyLib) : Prop :=
  decimal L 46%N = None /\ forall x, ieq L 46%N x = true -> x = 46%N.

(** [x] is a decimal digit *)
Definition digit (L : PyLib) (x : N) : Prop := is_Some (decimal L x).

(** the state after one more notice *)
Definition notified (w : World) (n : Notice) : World :=
  {| proc := proc w; requests := requests w; posts := posts w;
     notices := notices w ++ [n] |}.

(** ** What a call leaves alone *)

(** The call [m] never changes the part [f] of the state. *)
Definition preserves {A B} (f : World -> B) (m : M A) : Prop :=
  forall w, f (snd (m w)) = f w.

(** the spreadsheet script's and the notification sink's side of the state *)
Definition script_side (w : World) : list (str * Action) * list Notice :=
  (posts w, notices w).

(** ** The answers of the spreadsheet script, as a specification *)

(** How [AnimeAPI._call] ends, by the response it gets. *)
Definition call_outcome {A} (response : Response (ScriptReply A)) : Outcome A :=
  if negb (status_code response =? 200) then Raise (HttpError (status_code response))
  else
    match body response with
    | NotJson => Raise InvalidJson
    | ErrorBody _ => Raise (ApiError None)
    | Data result =>
        if bool_decide (reply_status result = Some (u "success"))
        then Ret (reply_data result)
        else Raise (ApiError (reply_message result))
    end.

(** The script accepts the call: status 200 and a JSON answer whose
    [status] is "success", with the data [d]. *)
Definition accepted {A} (response : Response (ScriptReply A)) (d : A) : Prop :=
  status_code response = 200
  /\ exists result,
       body response = Data result
       /\ reply_status result = Some (u "success")
       /\ reply_data result = d.

(** No row update of the batch is without cell updates. *)
Definition rows_nonempty (batch : list RowUpdate) : Prop :=
  Forall (fun ru => updates ru <> []) batch.

(** ** The calls and the notices of a run, as a specification *)

(** The call [m] posts only script calls that satisfy [P], and sends no
    notice. *)
Definition posts_only {A} (P : str * Action -> Prop) (m : M A) : Prop :=
  forall w,
    notices (snd (m w)) = notices w
    /\ exists new, posts (snd (m w)) = posts w ++ new /\ Forall P new.

(** a script call that writes the time of the run *)
Definition is_timestamp (p : str * Action) : bool :=
  match p.2 with
  | UpdateTimestamp _ => true
  | _ => false
  end.

(** the spreadsheet ids that are set *)
Definition configured (spreadsheet_ids : list str) : list str :=
  List.filter (fun ss_id => negb (bool_decide (ss_id = []))) spreadsheet_ids.

(** the calls that write [now_str] to every configured spreadsheet *)
Definition stamps (now_str : str) (spreadsheet_ids : list str)
  : list (str * Action) :=
  List.map (fun ss_id => (ss_id, UpdateTimestamp now_str)) (configured spreadsheet_ids).

(** ** Substrings, as a specification *)

(** [sub] occurs in [s], as a specification of [sub in s] *)
Definition occurs_in (sub s : str) : Prop := exists pre post, s = pre ++ sub ++ post.

(** ** A pattern within a title, as a specification *)

(** The repetitions of [r] have no capturing group inside. *)
Fixpoint plain_stars (r : regex) : bool :=
  match r with
  | Star r' => negb (has_group r') && plain_stars r'
  | Opt r' | Group r' => plain_stars r'
  | Cat r1 r2 => plain_stars r1 && plain_stars r2
  | _ => true
  end.

(** The pattern [p] matches a part of [title]. *)
Definition matches_within (L : PyLib) (p : regex) (title : str) : Prop :=
  exists pre t post g, title = pre ++ t ++ post /\ matches L p t None g.

(** ** Episode numbers, as a specification *)


(** What an episode number can be: an integer that is not negative, or a
    positive float that is not whole (a numeral too long for a float gives
    the positive infinity). *)
Definition proper_episode (x : num) : Prop :=
  match x with
  | NInt z => 0 <= z
  | NFloat f =>
      is_integer f = false
      /\ match f with
         | Fin m _ => 0 < m
         | Inf negative => negative = false
         | NaN => False
         end
  end.

(** The digits of the library have values that are not negative. *)
Definition digits_nonneg (L : PyLib) : Prop :=
  forall c d, decimal L c = Some d -> 0 <= d.

(** ** The pages of a playlist, as a specification *)

(** the state with the trace of requests [h] *)
Definition with_requests (w : World) (h : list Request) : World :=
  {| proc := proc w; requests := h; posts := posts w; notices := notices w |}.

(** From the trace [h] and the page token [token], the provider serves the
    pages [pages] of the playlist one after the other, each with status 200
    and the token of a next page; [h'] and [token'] are the trace and the
    token after the last of them. *)
Fixpoint follows (net : Net) (self : Processor) (playlist_id : str)
    (h : list Request) (token : str) (pages : list PlaylistPage)
    (h' : list Request) (token' : str) : Prop :=
  match pages with
  | [] => h' = h /\ token' = token
  | p :: rest =>
      let url := playlist_url self playlist_id token in
      playlist_api net h url = ok p
      /\ exists c t,
           nextPageToken p = Some (c :: t)
           /\ follows net self playlist_id (h ++ [GetPlaylistItems url]) (c :: t)
                rest h' token'
  end.

(** the items of the pages, in order *)
Definition items_of_pages (pages : list PlaylistPage) : list PlaylistItem :=
  concat (List.map (fun p => items_of_page (page_items p)) pages).

(** ** Premieres *)

(** The video has a scheduled start that [fromisoformat] reads as an
    instant after [now_utc]: a premiere to come. *)
Definition premiere_pending (L : PyLib) (now_utc : Z) (item : VideoEntry) : bool :=
  match scheduledStartTime item with
  | Some (c :: t) =>
      match fromisoformat L (replace_char 90%N (u "+00:00") (c :: t)) with
      | IsoAware dt_start => now_utc <? dt_start
      | _ => false
      end
  | _ => false
  end.

(** ** The episode counts and the sums of a row, as a specification *)

(** the episode count of a result, when it is an integer *)
Definition int_count (stats : Stats) : option Z :=
  match valid_count stats with
  | VInt n => Some n
  | _ => None
  end.

(** the integer episode counts of the entries on the row [row], in order *)
Definition counts_on (row : Z) (items : list RegionResult) : list Z :=
  omap (fun item =>
          if bool_decide (rr_row item = row) then rr_stats item ≫= int_count
          else None) items.

(** the highest episode count seen so far for the row [row] *)
Definition watermark (st : SheetState) (row : Z) : Z :=
  default 0 (row_max_ep_map st !! row).

(** the integer averages of the entries on the row [row], in order *)
Definition avgs_on (row : Z) (items : list RegionResult) : list Z :=
  omap (fun item =>
          if bool_decide (rr_row item = row) then rr_stats item ≫= int_avg
          else None) items.

(** the sum accumulated for the row [row], 0 when there is none *)
Definition sum_on (st : SheetState) (row : Z) : Z :=
  default 0 (odict_get (global_avg_sum_map st) row).

(** ** The rows of a batch, as a specification *)

(** The row update names a series of the sheet: its target is the row of
    the name cell of the series, and the name it carries for the check is
    the name of the series. *)
Definition names_series (L : PyLib) (sheet_data : list (str * list Anime))
    (ru : RowUpdate) : Prop :=
  exists region anime,
    region ∈ sheet_data /\ anime ∈ region.2
    /\ row_of L anime = Some (target_row ru)
    /\ row_check_name ru = anime_name anime.

(** The entry is that of a series of the sheet, with the row of its name
    cell. *)
Definition of_sheet (L : PyLib) (sheet_data : list (str * list Anime))
    (item : RegionResult) : Prop :=
  exists region,
    region ∈ sheet_data /\ rr_anime item ∈ region.2
    /\ row_of L (rr_anime item) = Some (rr_row item).

(** ** The averages of a region, as a specification *)

(** the average of an entry, when the entry has a result and the average
    of the result is an integer *)
Definition average_of (item : RegionResult) : option Z :=
  match rr_stats item with
  | Some stats =>
      match avg stats with
      | VInt n => Some n
      | _ => None
      end
  | None => None
  end.

(** the series [a] with its name cell at [cell] *)
Definition moved (a : Anime) (cell : string) : Anime :=
  {| anime_name := anime_name a;
     name_cell := u cell;
     link_url := link_url a;
     offset := offset a;
     rank_cell := rank_cell a;
     avg_view_cell := avg_view_cell a;
     total_view_cell := total_view_cell a;
     first_view_cell := first_view_cell a;
     ep_count_cell := ep_count_cell a;
     comp_rank_cell := comp_rank_cell a |}.
Arguments moved a cell%_string.

(** ** The bounds of a range, as a specification *)

(** The decoded value [j] can bound a range, as the number [a]: it is a
    number, or a boolean, which Python compares as 1 or 0. *)
Definition range_bound (j : json) (a : num) : Prop :=
  j = JNum a \/ exists b : bool, j = JBool b /\ a = NInt (if b then 1 else 0).

(** The decoded value is a range from [a] to [b]: an array of two
    bounds. *)
Definition is_range (range : json) (a b : num) : Prop :=
  exists x y, range = JArr [x; y] /\ range_bound x a /\ range_bound y b.

(** the number is zero *)
Definition is_zero (x : num) : Prop :=
  match x with
  | NInt z => z = 0
  | NFloat (Fin m _) => m = 0
  | NFloat _ => False
  end.

(** The decoded value is one that Python takes for false: [null], [false],
    a zero, or an empty string, array or object. *)
Definition falsy (j : json) : Prop :=
  match j with
  | JNull => True
  | JBool b => b = false
  | JNum x => is_zero x
  | JStr s => s = []
  | JArr l => l = []
  | JObj l => l = []
  end.

(** ** Binary64 values, as a specification *)

(** A finite binary64 value is a whole number of units of [2^-1074]:
    [M * 2^E] units, with a significand [M] of at most 53 bits and [E] from
    0 to 2045. *)
Definition is_double (U : Z) : Prop :=
  exists M E, U = M * 2 ^ E /\ Z.abs M < 2 ^ 53 /\ 0 <= E <= 2045.

(** the value of a finite float, in units of [2^-1074] *)
Definition units (f : float64) : option Z :=
  match f with
  | Fin m e => if e <? -1074 then None else Some (m * 2 ^ (e + 1074))
  | _ => None
  end.

(** The distance from [U] units to the fraction [a / b], times
    [b * 2^1074]. *)
Definition gap (a b U : Z) : Z := Z.abs (U * b - a * 2 ^ 1074).

(** [a / b] is too large for a float: at least half-way from the largest
    binary64 value to [2^1024]. *)
Definition overflows (a b : Z) : Prop := (2 ^ 1024 - 2 ^ 970) * b <= a.

(** What [float] and the test for a whole value make of the decimal
    [n / 10^k]: the infinity when it is too large; otherwise a nearest
    binary64 value (an even multiple of the distance to any other that is
    as near), as an [int] when it is whole and as the [float] when it
    is not. *)
Definition reads_as (n : Z) (k : nat) (x : num) : Prop :=
  let b := 10 ^ Z.of_nat k in
  (overflows n b /\ x = NFloat (Inf false))
  \/ (~ overflows n b
      /\ exists f U,
           units f = Some U /\ is_double U
           /\ (forall U', is_double U' -> gap n b U <= gap n b U')
           /\ (forall U',
                 is_double U' -> U' <> U -> gap n b U' = gap n b U ->
                 exists M, U = M * Z.abs (U - U') /\ Z.even M = true)
           /\ ((U mod 2 ^ 1074 = 0 /\ x = NInt (U / 2 ^ 1074))
               \/ (U mod 2 ^ 1074 <> 0 /\ x = NFloat f))).

(** ** The view counts of the statistics, as a specification *)

(** the view count that the statistics hold for a video: the integer bound
    to its id, if there is one *)
Definition shown_views (stats : gmap str (option Z)) (v : PlaylistItem) : option Z :=
  match stats !! item_id v with
  | Some (Some n) => Some n
  | _ => None
  end.

(** the view counts that the statistics hold for the videos, in order *)
Definition integer_samples (stats : gmap str (option Z))
    (videos : list PlaylistItem) : list Z :=
  omap (shown_views stats) videos.

(** ** The cells of a row, as a specification *)

(** The row update for the cells [cells] of a series: none when there is
    no cell to write. *)
Definition row_update_for (anime : Anime) (row : Z) (cells : list CellUpdate)
  : list RowUpdate :=
  match cells with
  | [] => []
  | _ => [ {| row_check_name := anime_name anime; target_row := row;
              updates := cells |} ]
  end.

(** The cells of the views of a result, and the episode-count cell when
    the count is an integer above [mark]. *)
Definition result_cells (anime : Anime) (stats : Stats) (mark : Z)
  : list CellUpdate :=
  cell_update (avg_view_cell anime) (avg stats)
  ++ cell_update (total_view_cell anime) (total stats)
  ++ cell_update (first_view_cell anime) (first stats)
  ++ match int_count stats with
     | Some n => if mark <? n then cell_update (ep_count_cell anime) (VInt n) else []
     | None => []
     end.

(** * Properties *)

Local Open Scope string_scope.
Local Open Scope list_scope.
Local Open Scope Z_scope.
Local Open Scope stdpp_scope.

(** ** Substrings *)

Lemma starts_with_app (p s : str) : starts_with p (p ++ s) = true.
Proof.
  induction p as [|c p IH]; simpl; [reflexivity|].
  rewrite N.eqb_refl. exact IH.
Qed.

Lemma contains_app (sub pre post : str) : contains sub (pre ++ sub ++ post) = true.
Proof.
  induction pre as [|c pre IH]; simpl.
  - destruct (sub ++ post) eqn:E; simpl.
    + destruct sub; [reflexivity | discriminate].
    + rewrite <- E, starts_with_app. reflexivity.
  - rewrite IH. apply orb_true_r.
Qed.

(** ** The ignore keywords *)

Lemma exception_applies_registered (self : Processor) (kw exc title : str)
    (exceptions : list str) :
  ignore_keywords_exceptions self !! kw = Some exceptions ->
  exc ∈ exceptions ->
  contains exc title = true ->
  exception_applies self kw title = true.
Proof.
  intros Hreg Hin Hsub. unfold exception_applies. rewrite Hreg.
  apply existsb_exists. exists exc. split; [|exact Hsub].
  apply list_elem_of_In. exact Hin.
Qed.

(** The loop passes over every keyword that is excused or absent. *)
Lemma ignoring_keyword_none (self : Processor) (kws : list str) (title : str) :
  (forall kw, kw ∈ kws ->
     exception_applies self kw title = true \/ contains kw title = false) ->
  ignoring_keyword self kws title = None.
Proof.
  induction kws as [|kw kws IH]; intros H; simpl; [reflexivity|].
  destruct (H kw) as [-> | Hc]; [left | | ].
  - apply IH. intros kw' Hin. apply H. right. exact Hin.
  - destruct (exception_applies self kw title); rewrite ?Hc;
      apply IH; intros kw' Hin; apply H; right; exact Hin.
Qed.

(** The keyword the loop stops at occurs in the title and is not excused. *)
Lemma ignoring_keyword_some (self : Processor) (kws : list str) (title kw : str) :
  ignoring_keyword self kws title = Some kw ->
  kw ∈ kws /\ contains kw title = true /\ exception_applies self kw title = false.
Proof.
  induction kws as [|k kws IH]; simpl; [discriminate|].
  destruct (exception_applies self k title) eqn:He.
  - intros H. destruct (IH H) as (? & ? & ?). repeat split; auto. by right.
  - destruct (contains k title) eqn:Hc.
    + intros [= <-]. repeat split; auto. by left.
    + intros H. destruct (IH H) as (? & ? & ?). repeat split; auto. by right.
Qed.

(** C6, as the code has it: a title is excluded at keyword [kw]; an
    exception registered for [kw] is added somewhere in the title. The
    result turns from excluded to included when [kw] is the only ignore
    keyword that occurs in the extended title. *)
Theorem exception_reverses_ignore (self : Processor) (pre post kw exc : str)
    (exceptions : list str) :
  ignoring_keyword self (ignore_keywords self) (pre ++ post) = Some kw ->
  ignore_keywords_exceptions self !! kw = Some exceptions ->
  exc ∈ exceptions ->
  (forall kw', kw' ∈ ignore_keywords self ->
     contains kw' (pre ++ exc ++ post) = true -> kw' = kw) ->
  is_ignored_keyword self (pre ++ post) = true
  /\ is_ignored_keyword self (pre ++ exc ++ post) = false.
Proof.
  intros Hex Hreg Hin Honly. unfold is_ignored_keyword. rewrite Hex.
  split; [reflexivity|].
  rewrite ignoring_keyword_none; [reflexivity|].
  intros kw' Hkw'.
  destruct (contains kw' (pre ++ exc ++ post)) eqn:Hc; [left | by right].
  rewrite (Honly kw' Hkw' Hc).
  eapply exception_applies_registered; eauto using contains_app.
Qed.

Lemma exception_reverses_ignore_witness :
  is_ignored_keyword (init []) (u "Show CM 01") = true
  /\ is_ignored_keyword (init []) (u "Show " ++ u "testCM動畫名稱" ++ u "CM 01") = false.
Proof.
  apply (exception_reverses_ignore (init []) (u "Show ") (u "CM 01") (u "CM")
           (u "testCM動畫名稱") [u "testCM動畫名稱"]).
  - vm_compute. reflexivity.
  - vm_compute. reflexivity.
  - apply list_elem_of_In. left. reflexivity.
  - intros kw' Hin Hc. apply list_elem_of_In in Hin.
    repeat (destruct Hin as [<- | Hin]; [vm_compute in Hc; try discriminate Hc; try reflexivity|]).
    destruct Hin.
Defined.

(** C6, as stated, fails: "CM Preview" is excluded at the keyword "CM";
    with the exception registered for "CM" added, the title is still
    excluded, now at "Preview". *)
Lemma exception_does_not_always_reverse :
  ignoring_keyword (init []) (ignore_keywords (init [])) (u "CM Preview") = Some (u "CM")
  /\ ignore_keywords_exceptions (init []) !! u "CM" = Some [u "testCM動畫名稱"]
  /\ is_ignored_keyword (init []) (u "CM Preview") = true
  /\ is_ignored_keyword (init []) (u "CM Preview" ++ u "testCM動畫名稱") = true
  /\ ignoring_keyword (init []) (ignore_keywords (init []))
       (u "CM Preview" ++ u "testCM動畫名稱") = Some (u "Preview").
Proof. vm_compute. repeat split; reflexivity. Qed.

(** ** The quota flag *)

Lemma unsignalled_app (net : Net) (h a b : list Request) :
  unsignalled net h (a ++ b) <-> unsignalled net h a /\ unsignalled net (h ++ a) b.
Proof.
  revert h. induction a as [|r a IH]; intros h; simpl.
  - rewrite app_nil_r. tauto.
  - rewrite IH, <- app_assoc. simpl. tauto.
Qed.

Lemma disciplined_refl (net : Net) (w : World) : disciplined net w w.
Proof.
  exists []. rewrite app_nil_r. split; [reflexivity|].
  destruct (quota_exceeded (proc w)) eqn:E; simpl; auto.
Qed.

Lemma disciplined_trans (net : Net) (w1 w2 w3 : World) :
  disciplined net w1 w2 -> disciplined net w2 w3 -> disciplined net w1 w3.
Proof.
  intros (n1 & E1 & H1) (n2 & E2 & H2).
  exists (n1 ++ n2). split; [rewrite E2, E1, app_assoc; reflexivity|].
  destruct (quota_exceeded (proc w1)) eqn:F1.
  - destruct H1 as [-> F2]. rewrite F2 in H2. destruct H2 as [-> F3].
    split; [reflexivity | exact F3].
  - destruct (quota_exceeded (proc w2)) eqn:F2.
    + destruct H2 as [-> F3]. rewrite F3, app_nil_r. exact H1.
    + destruct (quota_exceeded (proc w3)) eqn:F3.
      * destruct H2 as (b & r & -> & Hb & Hr).
        exists (n1 ++ b), r. rewrite E1 in Hb, Hr.
        split; [rewrite app_assoc; reflexivity|]. split.
        -- apply unsignalled_app. split; assumption.
        -- rewrite app_assoc. exact Hr.
      * rewrite E1 in H2. apply unsignalled_app. split; assumption.
Qed.

Lemma obeys_ret {A} (net : Net) (a : A) : obeys net (ret a).
Proof. intros w. apply disciplined_refl. Qed.

Lemma obeys_raise {A} (net : Net) (e : exn) : obeys net (@raise A e).
Proof. intros w. apply disciplined_refl. Qed.

Lemma obeys_timeout {A} (net : Net) : obeys net (@timeout A).
Proof. intros w. apply disciplined_refl. Qed.

Lemma obeys_bind {A B} (net : Net) (m : M A) (f : A -> M B) :
  obeys net m -> (forall a, obeys net (f a)) -> obeys net (bind m f).
Proof.
  intros Hm Hf w. unfold bind. specialize (Hm w).
  destruct (m w) as [[a | e |] w1]; simpl in *; [|exact Hm..].
  eapply disciplined_trans; [exact Hm | apply Hf].
Qed.

Lemma obeys_try_except {A} (net : Net) (m : M A) (h : exn -> M A) :
  obeys net m -> (forall e, obeys net (h e)) -> obeys net (try_except m h).
Proof.
  intros Hm Hh w. unfold try_except. specialize (Hm w).
  destruct (m w) as [[a | e |] w1]; simpl in *; [exact Hm | | exact Hm].
  eapply disciplined_trans; [exact Hm | apply Hh].
Qed.

Lemma obeys_get_quota_exceeded (net : Net) : obeys net get_quota_exceeded.
Proof. intros w. apply disciplined_refl. Qed.

Lemma obeys_get_self (net : Net) : obeys net get_self.
Proof. intros w. apply disciplined_refl. Qed.

Lemma obeys_or_raise {A} (net : Net) (e : exn) (o : option A) :
  obeys net (or_raise e o).
Proof. destruct o; [apply obeys_ret | apply obeys_raise]. Qed.

(** [_check_quota] answers whether the response is the signal, and sets the
    flag exactly then. *)
Lemma _check_quota_run {A} (res : Response A) (w : World) :
  _check_quota res w =
  (Ret (quota_signal res),
   if quota_signal res
   then {| proc := set_quota_exceeded (proc w); requests := requests w;
           posts := posts w; notices := notices w |}
   else w).
Proof.
  unfold _check_quota, quota_signal.
  destruct (status_code res =? 403); simpl; [|reflexivity].
  destruct (body res) as [|reasons|d]; try reflexivity.
  destruct (_ || _); reflexivity.
Qed.

(** A request and the check of its answer, from a state without the flag. *)
Lemma fetch_check_disciplined {A} (net : Net)
    (api : list Request -> str -> Response A) (endpoint : str -> Request)
    (url : str) (w : World) :
  quota_exceeded (proc w) = false ->
  signalled net (requests w) (endpoint url) = quota_signal (api (requests w) url) ->
  let w1 := snd (fetch api endpoint url w) in
  let res := api (requests w) url in
  disciplined net w (snd (_check_quota res w1))
  /\ quota_exceeded (proc (snd (_check_quota res w1))) = quota_signal res.
Proof.
  intros Hf Hs. simpl. rewrite _check_quota_run. simpl.
  destruct (quota_signal (api (requests w) url)) eqn:Q; simpl.
  - split; [|reflexivity]. exists [endpoint url]. split; [reflexivity|].
    rewrite Hf. simpl. exists [], (endpoint url).
    rewrite app_nil_r, Hs. simpl. auto.
  - split; [|exact Hf]. exists [endpoint url]. split; [reflexivity|].
    rewrite Hf. simpl. rewrite Hf, Hs. auto.
Qed.

Lemma playlist_pages_disciplined (net : Net) (fuel : nat) (playlist_id : str)
    (items : list PlaylistItem) (token : str) (w : World) :
  quota_exceeded (proc w) = false ->
  disciplined net w (snd (playlist_pages net fuel playlist_id items token w)).
Proof.
  revert items token w. induction fuel as [|fuel IH]; intros items token w Hf.
  - apply disciplined_refl.
  - simpl. unfold bind at 1. simpl. unfold bind at 1. simpl. unfold bind at 1.
    destruct (fetch_check_disciplined net (playlist_api net) GetPlaylistItems
                (playlist_url (proc w) playlist_id token) w Hf eq_refl) as [HD HF].
    simpl in HD, HF. rewrite _check_quota_run in *. simpl in *.
    destruct (quota_signal _) eqn:Q; simpl in *; [exact HD|].
    destruct (status_code _ =? 404); [exact HD|].
    destruct (status_code _ =? 200); simpl; [|exact HD].
    destruct (body _) as [|reasons|data]; try exact HD.
    destruct (nextPageToken data) as [[|c t]|]; try exact HD.
    eapply disciplined_trans; [exact HD|]. apply IH. exact HF.
Qed.

Lemma obeys_get_playlist_items (net : Net) (fuel : nat) (playlist_id : str) :
  obeys net (get_playlist_items net fuel playlist_id).
Proof.
  intros w. unfold get_playlist_items, bind, get_quota_exceeded.
  destruct (quota_exceeded (proc w)) eqn:Hf.
  - apply disciplined_refl.
  - apply playlist_pages_disciplined. exact Hf.
Qed.

Lemma video_batches_disciplined (L : PyLib) (net : Net) (now_utc : Z)
    (bs : list (list str)) (stats_map : gmap str (option Z)) (w : World) :
  quota_exceeded (proc w) = false ->
  disciplined net w (snd (video_batches L net now_utc bs stats_map w)).
Proof.
  revert stats_map w. induction bs as [|batch bs IH]; intros stats_map w Hf.
  - apply disciplined_refl.
  - simpl. unfold bind at 1. simpl. unfold bind at 1. simpl. unfold bind at 1.
    destruct (fetch_check_disciplined net (videos_api net) GetVideos
                (videos_url (proc w) batch) w Hf eq_refl) as [HD HF].
    simpl in HD, HF. rewrite _check_quota_run in *. simpl in *.
    destruct (quota_signal _) eqn:Q; simpl in *; [exact HD|].
    destruct (status_code _ =? 200); simpl.
    + destruct (body _) as [|reasons|data]; try exact HD.
      * eapply disciplined_trans; [exact HD|]. apply IH. exact HF.
      * destruct (video_samples _ _ _ _) as [m | e |]; try exact HD.
        eapply disciplined_trans; [exact HD|]. apply IH. exact HF.
    + eapply disciplined_trans; [exact HD|]. apply IH. exact HF.
Qed.

Lemma obeys_get_video_stats (L : PyLib) (net : Net) (video_ids : list str) :
  obeys net (get_video_stats L net video_ids).
Proof.
  intros w. unfold get_video_stats, bind, get_quota_exceeded.
  destruct (quota_exceeded (proc w)) eqn:Hf; simpl.
  - apply disciplined_refl.
  - destruct (bool_decide _); [apply disciplined_refl|].
    apply video_batches_disciplined. exact Hf.
Qed.

Lemma obeys_process_anime (L : PyLib) (net : Net) (fuel : nat) (anime : Anime) :
  obeys net (process_anime L net fuel anime).
Proof.
  unfold process_anime.
  apply obeys_bind; [apply obeys_get_quota_exceeded|]. intros [|]; [apply obeys_ret|].
  destruct (parse_offset L (offset anime)) as [offset_range offset_string].
  destruct (get_playlist_id L (link_url anime)) as [[|c playlist_id]|];
    try apply obeys_ret.
  apply obeys_bind; [apply obeys_get_playlist_items|].
  intros [| |[|item items]]; try apply obeys_ret.
  apply obeys_bind; [apply obeys_get_self|]. intros self.
  destruct (List.filter _ _); [apply obeys_ret|].
  apply obeys_bind; [apply obeys_get_video_stats|]. intros stats.
  apply obeys_bind; [apply obeys_get_quota_exceeded|]. intros [|]; [apply obeys_ret|].
  destruct (summarize _ _ _);
    [apply obeys_ret | apply obeys_raise | apply obeys_timeout].
Qed.

Lemma obeys_read_region (L : PyLib) (net : Net) (fuel : nat)
    (anime_list : list Anime) (acc : list RegionResult * SheetState) :
  obeys net (read_region L net fuel anime_list acc).
Proof.
  revert acc. induction anime_list as [|anime rest IH]; intros acc; simpl.
  - apply obeys_ret.
  - apply obeys_bind; [apply obeys_get_quota_exceeded|].
    intros [|]; [apply obeys_ret|].
    apply obeys_bind; [|intros acc'; apply IH].
    unfold read_anime. destruct acc as [region_results st].
    apply obeys_bind; [apply obeys_or_raise|]. intros row_idx.
    apply obeys_bind; [apply obeys_process_anime|]. intros stats.
    apply obeys_ret.
Qed.

Lemma obeys_process_regions (L : PyLib) (net : Net) (fuel : nat)
    (regions : list (str * list Anime)) (st : SheetState) :
  obeys net (process_regions L net fuel regions st).
Proof.
  revert st. induction regions as [|[name anime_list] rest IH]; intros st; simpl.
  - apply obeys_ret.
  - apply obeys_bind; [apply obeys_read_region|].
    intros [[region_results st']|]; [apply IH | apply obeys_ret].
Qed.

Lemma obeys_post {A} (net : Net)
    (api : list (str * Action) -> Response (ScriptReply A))
    (ss_id : str) (action : Action) :
  obeys net (post api ss_id action).
Proof.
  intros w. simpl. exists []. rewrite app_nil_r. split; [reflexivity|]. simpl.
  destruct (quota_exceeded (proc w)); simpl; auto.
Qed.

Lemma obeys__call {A} (net : Net)
    (api : list (str * Action) -> Response (ScriptReply A))
    (ss_id : str) (action : Action) :
  obeys net (_call api ss_id action).
Proof.
  unfold _call. apply obeys_bind; [apply obeys_post|]. intros response.
  destruct (negb _); [apply obeys_raise|].
  destruct (body response) as [| |result]; try apply obeys_raise.
  destruct (bool_decide _); [apply obeys_ret | apply obeys_raise].
Qed.

Lemma obeys_process_single_sheet (L : PyLib) (net : Net) (fuel : nat)
    (ss_id sheet_name : str) :
  obeys net (process_single_sheet L net fuel ss_id sheet_name).
Proof.
  unfold process_single_sheet.
  apply obeys_bind.
  { apply obeys_try_except; [|intros; apply obeys_ret].
    apply obeys_bind; [apply obeys__call | intros; apply obeys_ret]. }
  intros [[|region sheet_data]|]; try apply obeys_ret.
  apply obeys_bind; [apply obeys_process_regions|].
  intros [st|]; [|apply obeys_ret].
  apply obeys_bind; [apply obeys_get_quota_exceeded|]. intros exhausted.
  apply obeys_bind.
  { destruct (_ && _); [|apply obeys_ret].
    apply obeys_bind; [apply obeys_or_raise | intros; apply obeys_ret]. }
  intros batch.
  apply obeys_bind; [apply obeys_get_quota_exceeded|]. intros exhausted'.
  destruct (_ && _); [|apply obeys_ret].
  apply obeys_try_except; [|intros; apply obeys_ret].
  apply obeys_bind; [apply obeys__call|]. intros [|]; [|apply obeys_raise].
  apply obeys_bind; [apply obeys__call|]. intros [|]; [apply obeys_ret | apply obeys_raise].
Qed.

Lemma obeys_process_target_sheets (L : PyLib) (net : Net) (fuel : nat)
    (ss_id : str) (target_sheets : list str) :
  obeys net (process_target_sheets L net fuel ss_id target_sheets).
Proof.
  induction target_sheets as [|sheet_name rest IH]; simpl.
  - apply obeys_ret.
  - apply obeys_bind; [apply obeys_get_quota_exceeded|].
    intros [|]; [apply obeys_raise|].
    apply obeys_bind; [apply obeys_process_single_sheet | intros; exact IH].
Qed.

Lemma obeys_notify (net : Net) (n : Notice) : obeys net (notify n).
Proof.
  intros w. simpl. exists []. rewrite app_nil_r. split; [reflexivity|]. simpl.
  destruct (quota_exceeded (proc w)); simpl; auto.
Qed.

Lemma obeys_process_spreadsheets (L : PyLib) (net : Net) (fuel : nat)
    (today_key : str) (spreadsheet_ids : list str) :
  obeys net (process_spreadsheets L net fuel today_key spreadsheet_ids).
Proof.
  induction spreadsheet_ids as [|ss_id rest IH]; simpl.
  - apply obeys_ret.
  - destruct (bool_decide (ss_id = [])); [exact IH|].
    apply obeys_bind; [apply obeys__call|]. intros schedule.
    apply obeys_bind; [apply obeys_process_target_sheets | intros; exact IH].
Qed.

Lemma obeys_update_timestamps (net : Net) (now_str : str)
    (spreadsheet_ids : list str) :
  obeys net (update_timestamps net now_str spreadsheet_ids).
Proof.
  induction spreadsheet_ids as [|ss_id rest IH]; simpl.
  - apply obeys_ret.
  - destruct (bool_decide (ss_id = [])); [exact IH|].
    apply obeys_bind; [apply obeys__call|].
    intros [|]; [exact IH | apply obeys_raise].
Qed.

Lemma obeys_main (L : PyLib) (net : Net) (fuel : nat)
    (spreadsheet_ids : list str) (today_key now_str : str) :
  obeys net (main L net fuel spreadsheet_ids today_key now_str).
Proof.
  unfold main. apply obeys_bind.
  { apply obeys_try_except.
    - apply obeys_bind; [apply obeys_process_spreadsheets | intros; apply obeys_ret].
    - intros e. apply obeys_bind; [apply obeys_notify | intros; apply obeys_ret]. }
  intros [|]; [apply obeys_ret|].
  apply obeys_bind.
  { apply obeys_try_except.
    - apply obeys_bind; [apply obeys_update_timestamps | intros; apply obeys_ret].
    - intros e. apply obeys_bind; [apply obeys_notify | intros; apply obeys_ret]. }
  intros [|]; [apply obeys_notify | apply obeys_ret].
Qed.

(** An exception that leaves the loop over the spreadsheets is reported by
    [main], which then skips the timestamps and the heartbeat. *)
Lemma main_reports (L : PyLib) (net : Net) (fuel : nat)
    (spreadsheet_ids : list str) (today_key now_str : str) (e : exn)
    (w w1 : World) :
  process_spreadsheets L net fuel today_key spreadsheet_ids w = (Raise e, w1) ->
  main L net fuel spreadsheet_ids today_key now_str w
  = (Ret tt, notified w1 (FatalError e)).
Proof.
  intros H. unfold main. unfold bind at 1. unfold try_except at 1.
  unfold bind at 1. rewrite H. reflexivity.
Qed.

Lemma process_spreadsheets_raises (L : PyLib) (net : Net) (fuel : nat)
    (today_key : str) (c : N) (ss_id : str) (rest : list str)
    (schedule : gmap str (list str)) (e : exn) (w w1 w2 : World) :
  get_schedule net (c :: ss_id) w = (Ret schedule, w1) ->
  process_target_sheets L net fuel (c :: ss_id)
    (target_sheets_of schedule today_key) w1 = (Raise e, w2) ->
  process_spreadsheets L net fuel today_key ((c :: ss_id) :: rest) w
  = (Raise e, w2).
Proof.
  intros Hs Hp. simpl. unfold bind at 1. rewrite Hs.
  unfold bind at 1. rewrite Hp. reflexivity.
Qed.

(** C3. From a state in which the quota flag is set, neither fetcher sends
    a request: each returns at once and leaves the state as it is, and
    [process_anime] returns [None]; a sheet processed from such a state
    sends no request to the video platform either, the loop over the
    sheets of a spreadsheet stops before its next sheet, and [main] goes
    to its report of the error. And along any run of [process_anime], of a
    sheet, of the sheets of a spreadsheet or of [main], the trace keeps the
    discipline: no request is sent once the flag is set, the request
    answered by the quota signal is the last one sent, and the flag stays
    set. *)
Theorem quota_exhaustion_is_final (L : PyLib) (net : Net) (fuel : nat) (w : World) :
  quota_exceeded (proc w) = true ->
  (forall playlist_id,
     get_playlist_items net fuel playlist_id w = (Ret NoPlaylist, w))
  /\ (forall video_ids, get_video_stats L net video_ids w = (Ret ∅, w))
  /\ (forall anime, process_anime L net fuel anime w = (Ret None, w))
  /\ (forall ss_id sheet_name,
        let w' := snd (process_single_sheet L net fuel ss_id sheet_name w) in
        requests w' = requests w /\ quota_exceeded (proc w') = true)
  /\ (forall ss_id sheet_name rest,
        process_target_sheets L net fuel ss_id (sheet_name :: rest) w
        = (Raise QuotaFull, w))
  /\ (forall c ss_id rest today_key now_str schedule w1,
        get_schedule net (c :: ss_id) w = (Ret schedule, w1) ->
        target_sheets_of schedule today_key <> [] ->
        main L net fuel ((c :: ss_id) :: rest) today_key now_str w
        = (Ret tt, notified w1 (FatalError QuotaFull)))
  /\ (forall anime w0, disciplined net w0 (snd (process_anime L net fuel anime w0)))
  /\ (forall ss_id sheet_name w0,
        disciplined net w0
          (snd (process_single_sheet L net fuel ss_id sheet_name w0)))
  /\ (forall ss_id target_sheets w0,
        disciplined net w0
          (snd (process_target_sheets L net fuel ss_id target_sheets w0)))
  /\ (forall spreadsheet_ids today_key now_str w0,
        disciplined net w0
          (snd (main L net fuel spreadsheet_ids today_key now_str w0))).
Proof.
  intros Hf. repeat split.
  - intros playlist_id. unfold get_playlist_items, bind, get_quota_exceeded.
    rewrite Hf. reflexivity.
  - intros video_ids. unfold get_video_stats, bind, get_quota_exceeded.
    rewrite Hf. reflexivity.
  - intros anime. unfold process_anime, bind, get_quota_exceeded.
    rewrite Hf. reflexivity.
  - destruct (obeys_process_single_sheet L net fuel ss_id sheet_name w)
      as (new & E & H).
    rewrite Hf in H. destruct H as [-> _]. rewrite E, app_nil_r. reflexivity.
  - destruct (obeys_process_single_sheet L net fuel ss_id sheet_name w)
      as (new & E & H).
    rewrite Hf in H. apply H.
  - intros ss_id sheet_name rest. simpl. unfold bind, get_quota_exceeded.
    rewrite Hf. reflexivity.
  - intros c ss_id rest today_key now_str schedule w1 Hs Hne.
    apply main_reports. eapply process_spreadsheets_raises; [exact Hs|].
    assert (Hf1 : quota_exceeded (proc w1) = true).
    { destruct (obeys__call net (fun h => schedule_api net h (c :: ss_id))
                  (c :: ss_id) GetSchedule w) as (new & _ & H).
      rewrite Hf in H. unfold get_schedule in Hs. rewrite Hs in H. apply H. }
    destruct (target_sheets_of schedule today_key); [congruence|].
    simpl. unfold bind, get_quota_exceeded. rewrite Hf1. reflexivity.
  - intros anime w0. apply obeys_process_anime.
  - intros ss_id sheet_name w0. apply obeys_process_single_sheet.
  - intros ss_id target_sheets w0. apply obeys_process_target_sheets.
  - intros spreadsheet_ids today_key now_str w0. apply obeys_main.
Qed.

Lemma quota_exhaustion_is_final_witness :
  let w := start (set_quota_exceeded (init (u "KEY"))) in
  let net := net_of (fun _ => page [("v1", "Show 第1話")])
                    (fun _ => ok [video "v1" (Some "100")]) in
  process_anime ascii_lib net 3 (series "X" "2" None) w = (Ret None, w).
Proof.
  intros w net.
  apply (quota_exhaustion_is_final ascii_lib net 3 w eq_refl).
Defined.

(** ** Running the fetchers *)

(** The first turn of the [while True] loop of [get_playlist_items], when the
    answer is not the quota signal. *)
Lemma playlist_pages_step (net : Net) (fuel : nat) (playlist_id : str)
    (items : list PlaylistItem) (token : str) (w : World) :
  let url := playlist_url (proc w) playlist_id token in
  let res := playlist_api net (requests w) url in
  let w1 := sent w (GetPlaylistItems url) in
  quota_signal res = false ->
  playlist_pages net (S fuel) playlist_id items token w =
  if status_code res =? 404 then (Ret Removed, w1)
  else if negb (status_code res =? 200) then (Ret (Items []), w1)
  else
    match body res with
    | NotJson => (Raise JSONDecodeError, w1)
    | ErrorBody _ => (Ret (Items items), w1)
    | Data data =>
        match nextPageToken data with
        | Some (c :: t) =>
            playlist_pages net fuel playlist_id
              (items ++ items_of_page (page_items data)) (c :: t) w1
        | _ => (Ret (Items (items ++ items_of_page (page_items data))), w1)
        end
    end.
Proof.
  intros url res w1 Q. simpl.
  unfold bind at 1. simpl. unfold bind at 1. simpl. unfold bind at 1.
  rewrite _check_quota_run. fold url. fold res. rewrite Q. simpl. fold w1.
  destruct (status_code res =? 404); [reflexivity|].
  destruct (status_code res =? 200); simpl; [|reflexivity].
  destruct (body res) as [|reasons|data]; try reflexivity.
  destruct (nextPageToken data) as [[|c t]|]; reflexivity.
Qed.

(** [process_anime] in terms of its two fetches, from a state without the
    flag and for a link that yields a playlist id. *)
Lemma process_anime_run (L : PyLib) (net : Net) (fuel : nat) (anime : Anime)
    (c : N) (playlist_id : str) (w : World) :
  quota_exceeded (proc w) = false ->
  get_playlist_id L (link_url anime) = Some (c :: playlist_id) ->
  process_anime L net fuel anime w =
  match get_playlist_items net fuel (c :: playlist_id) w with
  | (Ret Removed, w1) => (Ret (Some removed_result), w1)
  | (Ret NoPlaylist, w1) => (Ret (Some default_result), w1)
  | (Ret (Items items), w1) =>
      let valid_videos :=
        List.filter (keeps L (proc w1) (parse_offset L (offset anime)).1
                       (parse_offset L (offset anime)).2) items in
      match valid_videos with
      | [] => (Ret (Some default_result), w1)
      | _ =>
          match get_video_stats L net (List.map item_id valid_videos) w1 with
          | (Ret stats, w2) =>
              if quota_exceeded (proc w2) then (Ret None, w2)
              else
                match summarize L valid_videos stats with
                | Ret result => (Ret (Some result), w2)
                | Raise e => (Raise e, w2)
                | Timeout => (Timeout, w2)
                end
          | (Raise e, w2) => (Raise e, w2)
          | (Timeout, w2) => (Timeout, w2)
          end
      end
  | (Raise e, w1) => (Raise e, w1)
  | (Timeout, w1) => (Timeout, w1)
  end.
Proof.
  intros Hf Hid. unfold process_anime. unfold bind at 1. simpl. rewrite Hf, Hid.
  destruct (parse_offset L (offset anime)) as [offset_range offset_string].
  unfold bind at 1.
  destruct (get_playlist_items net fuel (c :: playlist_id) w)
    as [[[| |[|item items]] | e |] w1]; try reflexivity.
  unfold bind at 1, get_self. cbv beta iota zeta.
  change (proc (w1, offset_range, offset_string).1.1) with (proc w1).
  change ((offset_range, offset_string).1) with offset_range.
  change ((offset_range, offset_string).2) with offset_string.
  generalize (List.filter (keeps L (proc w1) offset_range offset_string)
                (item :: items)).
  intros [|v vs]; [reflexivity|].
  unfold bind at 1.
  destruct (get_video_stats L net _ w1) as [[stats | e |] w2]; try reflexivity.
  unfold bind at 1, get_quota_exceeded.
  destruct (quota_exceeded (proc w2)); [reflexivity|].
  destruct (summarize L (v :: vs) stats); reflexivity.
Qed.

(** ** Transport errors *)

(** An exception raised while a series is read ends the region loop, the
    loop over the regions and [process_single_sheet] with the same
    exception: none of them catches it. *)
Lemma read_region_raises (L : PyLib) (net : Net) (fuel : nat) (anime : Anime)
    (rest : list Anime) (acc : list RegionResult * SheetState) (row : Z)
    (e : exn) (w w' : World) :
  quota_exceeded (proc w) = false ->
  row_of L anime = Some row ->
  process_anime L net fuel anime w = (Raise e, w') ->
  read_region L net fuel (anime :: rest) acc w = (Raise e, w').
Proof.
  intros Hf Hrow Hp. simpl. unfold bind at 1. simpl. rewrite Hf.
  unfold bind at 1. unfold read_anime. destruct acc as [rr st].
  unfold bind at 1. rewrite Hrow. simpl. unfold bind at 1. rewrite Hp. reflexivity.
Qed.

Lemma process_regions_raises (L : PyLib) (net : Net) (fuel : nat) (name : str)
    (anime_list : list Anime) (rest : list (str * list Anime))
    (st : SheetState) (e : exn) (w w' : World) :
  read_region L net fuel anime_list ([], st) w = (Raise e, w') ->
  process_regions L net fuel ((name, anime_list) :: rest) st w = (Raise e, w').
Proof. intros H. simpl. unfold bind. rewrite H. reflexivity. Qed.

Lemma process_single_sheet_raises (L : PyLib) (net : Net) (fuel : nat)
    (ss_id sheet_name : str) (region : str * list Anime)
    (sheet_data : list (str * list Anime)) (e : exn) (w w1 w2 : World) :
  get_sheet_data net ss_id sheet_name w = (Ret (region :: sheet_data), w1) ->
  process_regions L net fuel (region :: sheet_data) empty_sheet_state w1
    = (Raise e, w2) ->
  process_single_sheet L net fuel ss_id sheet_name w = (Raise e, w2).
Proof.
  intros Hd Hr. unfold process_single_sheet. unfold bind at 1.
  unfold try_except, bind at 1. rewrite Hd. cbv beta iota. unfold ret at 1.
  cbv beta iota. unfold bind at 1. rewrite Hr. reflexivity.
Qed.

(** C9, as stated, fails: the playlist provider answers 500 and nothing is
    raised. The fetch returns the empty list after a single request and
    [process_anime] returns the defaults; the next series is then read. *)
Lemma transport_error_not_raised :
  let net := net_of (fun url => if contains (u "playlistId=X") url
                                then failed 500 []
                                else page [("y1", "Other EP 1")])
                    (fun _ => ok [video "y1" (Some "50")]) in
  let w := start (init (u "KEY")) in
  fst (get_playlist_items net 3 (u "X") w) = Ret (Items [])
  /\ length (requests (snd (get_playlist_items net 3 (u "X") w))) = 1%nat
  /\ fst (process_anime ascii_lib net 3 (series "X" "2" None) w)
     = Ret (Some default_result)
  /\ (exists st w',
        read_region ascii_lib net 3 [series "X" "2" None; series "Y" "3" None]
          ([], empty_sheet_state) w = (Ret (Some st), w')
        /\ List.map (fun r => avg <$> rr_stats r) st.1
           = [Some (VStr no_data); Some (VInt 50)]).
Proof.
  intros net w. split; [|split]; [vm_compute; reflexivity..|].
  split; [vm_compute; reflexivity|].
  eexists _, _. split; [vm_compute; reflexivity|]. vm_compute. reflexivity.
Qed.

(** ** Sorting *)

Section SortFacts.
Context {A K : Type} (lt : K -> K -> bool) (key : A -> K).

Lemma insert_sorted_perm (x : A) (l : list A) :
  insert_sorted lt key x l ≡ₚ x :: l.
Proof.
  induction l as [|y l IH]; simpl; [reflexivity|].
  destruct (lt (key y) (key x)); [|reflexivity].
  rewrite IH. apply Permutation_swap.
Qed.

Lemma sort_by_perm (l : list A) : sort_by lt key l ≡ₚ l.
Proof.
  induction l as [|x l IH]; simpl; [reflexivity|].
  unfold sort_by in *. simpl. rewrite insert_sorted_perm, IH. reflexivity.
Qed.

Lemma sort_by_length (l : list A) : length (sort_by lt key l) = length l.
Proof. apply Permutation_length, sort_by_perm. Qed.

(** Elements that the order does not tell apart keep their input order. *)
Lemma insert_sorted_filter (P : A -> bool) (x : A) (l : list A) :
  (forall a b, P a = true -> P b = true -> lt (key a) (key b) = false) ->
  List.filter P (insert_sorted lt key x l) = List.filter P (x :: l).
Proof.
  intros HP. induction l as [|y l IH]; simpl; [reflexivity|].
  destruct (lt (key y) (key x)) eqn:E; [|reflexivity].
  simpl in *. rewrite IH.
  destruct (P x) eqn:Px, (P y) eqn:Py; try reflexivity.
  rewrite (HP y x Py Px) in E. discriminate.
Qed.

Lemma sort_by_stable (P : A -> bool) (l : list A) :
  (forall a b, P a = true -> P b = true -> lt (key a) (key b) = false) ->
  List.filter P (sort_by lt key l) = List.filter P l.
Proof.
  intros HP. induction l as [|x l IH]; [reflexivity|].
  unfold sort_by in *. simpl foldr. rewrite insert_sorted_filter by exact HP.
  simpl. rewrite IH. reflexivity.
Qed.

(** With a strict order whose complement is transitive, the result is
    sorted: no element is below an earlier one. *)
Context (lt_asym : forall a b, lt a b = true -> lt b a = false).
Context (ge_trans : forall a b c, lt b a = false -> lt c b = false -> lt c a = false).

Lemma insert_sorted_sorted (x : A) (l : list A) :
  StronglySorted (fun a b => lt (key b) (key a) = false) l ->
  StronglySorted (fun a b => lt (key b) (key a) = false) (insert_sorted lt key x l).
Proof.
  induction l as [|y l IH]; intros Hs; simpl.
  - constructor; constructor.
  - inversion Hs as [|? ? Hs' Hall]; subst.
    destruct (lt (key y) (key x)) eqn:E.
    + constructor; [apply IH; exact Hs'|].
      eapply Permutation_Forall; [symmetry; apply insert_sorted_perm|].
      constructor; [apply lt_asym; exact E | exact Hall].
    + constructor; [exact Hs|].
      constructor; [exact E|].
      eapply Forall_impl; [exact Hall|]. simpl. intros z Hz.
      eapply ge_trans; eassumption.
Qed.

Lemma sort_by_sorted (l : list A) :
  StronglySorted (fun a b => lt (key b) (key a) = false) (sort_by lt key l).
Proof.
  induction l as [|x l IH]; [constructor|].
  unfold sort_by in *. simpl. apply insert_sorted_sorted. exact IH.
Qed.

End SortFacts.

Lemma StronglySorted_weaken {A} (R S : A -> A -> Prop) (l : list A) :
  (forall a b, R a b -> S a b) -> StronglySorted R l -> StronglySorted S l.
Proof.
  intros HRS. induction 1 as [|a l Hs IH Hall]; constructor; [exact IH|].
  eapply Forall_impl; [exact Hall|]. intros b. apply HRS.
Qed.

(** [sort(key=..., reverse=True)] on integer keys: descending. *)
Lemma sort_by_reverse_sorted {A} (key : A -> Z) (l : list A) :
  StronglySorted (fun a b => key b <= key a) (sort_by_reverse Z.ltb key l).
Proof.
  unfold sort_by_reverse.
  eapply StronglySorted_weaken;
    [|apply (sort_by_sorted (fun a b => Z.ltb b a) key)].
  - intros a b H. simpl in H. lia.
  - intros a b H. simpl in *. lia.
  - intros a b c H1 H2. simpl in *. lia.
Qed.

Lemma sort_by_reverse_stable {A} (key : A -> Z) (v : Z) (l : list A) :
  List.filter (fun a => key a =? v) (sort_by_reverse Z.ltb key l)
  = List.filter (fun a => key a =? v) l.
Proof.
  unfold sort_by_reverse. apply sort_by_stable. intros a b Ha Hb. lia.
Qed.

(** ** Rank tables *)

Section RankFrom.
Context {A : Type} (row : A -> Z).

Lemma rank_from_not_in (i : nat) (l : list A) (m : gmap Z Z) (k : Z) :
  k ∉ List.map row l -> rank_from row i l m !! k = m !! k.
Proof.
  revert i m. induction l as [|x l IH]; intros i m Hk; simpl; [reflexivity|].
  simpl in Hk. apply not_elem_of_cons in Hk as [Hne Hk].
  rewrite IH by exact Hk. apply lookup_insert_ne. congruence.
Qed.

Lemma rank_from_in (i : nat) (l : list A) (m : gmap Z Z) (k : Z) :
  k ∈ List.map row l -> is_Some (rank_from row i l m !! k).
Proof.
  revert i m. induction l as [|x l IH]; intros i m Hk; simpl in *.
  - by apply elem_of_nil in Hk.
  - destruct (decide (k ∈ List.map row l)) as [Hin | Hnot]; [by apply IH|].
    apply elem_of_cons in Hk as [-> | Hin]; [|contradiction].
    rewrite rank_from_not_in by exact Hnot.
    rewrite lookup_insert_eq. by eexists.
Qed.

Lemma rank_from_lookup (i : nat) (l : list A) (m : gmap Z Z) (j : nat) (x : A) :
  NoDup (List.map row l) ->
  l !! j = Some x ->
  rank_from row i l m !! row x = Some (Z.of_nat (i + j) + 1).
Proof.
  revert i m j. induction l as [|y l IH]; intros i m j Hnd Hj; [discriminate|].
  simpl in Hnd. apply NoDup_cons in Hnd as [Hy Hnd]. simpl.
  destruct j as [|j]; simpl in Hj.
  - injection Hj as ->. rewrite rank_from_not_in by exact Hy.
    rewrite lookup_insert_eq. do 2 f_equal. lia.
  - rewrite (IH (S i) _ j Hnd Hj). do 2 f_equal. lia.
Qed.

End RankFrom.

Lemma NoDup_map_inj {A B} (f : A -> B) (l : list A) (x y : A) :
  NoDup (List.map f l) -> x ∈ l -> y ∈ l -> f x = f y -> x = y.
Proof.
  induction l as [|a l IH]; intros Hnd Hx Hy Hf; [by apply elem_of_nil in Hx|].
  simpl in Hnd. apply NoDup_cons in Hnd as [Ha Hnd].
  apply elem_of_cons in Hx as [-> | Hx]; apply elem_of_cons in Hy as [-> | Hy].
  - reflexivity.
  - exfalso. apply Ha. rewrite Hf. apply list_elem_of_In, in_map, list_elem_of_In, Hy.
  - exfalso. apply Ha. rewrite <- Hf. apply list_elem_of_In, in_map, list_elem_of_In, Hx.
  - by apply IH.
Qed.

(** ** The rows planned for a region *)

Lemma plan_row_batch (ranks : gmap Z Z) (st : SheetState) (item : RegionResult) :
  exists more,
    updates_batch (plan_row ranks st item)
    = append_row (rr_anime item) (rr_row item)
        (rank_update ranks item ++ more) (updates_batch st).
Proof.
  unfold plan_row. destruct (rr_stats item) as [stats|]; simpl.
  - destruct (exceeds _ _); simpl; rewrite <- ?app_assoc; by eexists.
  - exists []. by rewrite app_nil_r.
Qed.

Lemma append_row_prefix (anime : Anime) (row_idx : Z)
    (row_updates : list CellUpdate) (batch : list RowUpdate) :
  exists tail, append_row anime row_idx row_updates batch = batch ++ tail.
Proof.
  destruct row_updates; simpl; [exists []; by rewrite app_nil_r | by eexists].
Qed.

Lemma plan_rows_prefix (ranks : gmap Z Z) (l : list RegionResult) (st : SheetState) :
  exists tail,
    updates_batch (foldl (plan_row ranks) st l) = updates_batch st ++ tail.
Proof.
  revert st. induction l as [|x l IH]; intros st; simpl.
  - exists []. by rewrite app_nil_r.
  - destruct (IH (plan_row ranks st x)) as [t1 ->].
    destruct (plan_row_batch ranks st x) as [more ->].
    destruct (append_row_prefix (rr_anime x) (rr_row x)
                (rank_update ranks x ++ more) (updates_batch st)) as [t2 ->].
    exists (t2 ++ t1). by rewrite app_assoc.
Qed.

(** Every row with a rank cell gets a row update that starts with the
    update of that cell. *)
Lemma plan_rows_rank_cell (ranks : gmap Z Z) (l : list RegionResult)
    (st : SheetState) (item : RegionResult) (c : CellUpdate) :
  item ∈ l ->
  rank_update ranks item = [c] ->
  exists ru more,
    ru ∈ updates_batch (foldl (plan_row ranks) st l)
    /\ target_row ru = rr_row item
    /\ row_check_name ru = anime_name (rr_anime item)
    /\ updates ru = c :: more.
Proof.
  revert st. induction l as [|x l IH]; intros st Hin Hc;
    [by apply elem_of_nil in Hin|].
  apply elem_of_cons in Hin as [<- | Hin]; [|apply IH; assumption].
  simpl. destruct (plan_rows_prefix ranks l (plan_row ranks st item)) as [t ->].
  destruct (plan_row_batch ranks st item) as [more ->]. rewrite Hc. simpl.
  eexists _, more. split.
  - apply elem_of_app. left. apply elem_of_app. right.
    apply list_elem_of_singleton. reflexivity.
  - repeat split; reflexivity.
Qed.

(** ** Region ranking *)

Lemma rankable_spec (item : RegionResult) :
  rankable item = true <->
  exists stats n, rr_stats item = Some stats /\ avg stats = VInt n.
Proof.
  unfold rankable, int_avg. destruct (rr_stats item) as [stats|]; simpl.
  - destruct (avg stats) as [|z|t] eqn:E; split; try discriminate; eauto;
      intros (stats' & n & [= <-] & H); congruence.
  - split; [discriminate | intros (stats' & n & H & _); discriminate].
Qed.

Lemma valid_for_ranking_perm (region_results : list RegionResult) :
  valid_for_ranking region_results ≡ₚ List.filter rankable region_results.
Proof. apply sort_by_perm. Qed.

Lemma elem_of_valid_for_ranking (region_results : list RegionResult)
    (item : RegionResult) :
  item ∈ valid_for_ranking region_results <->
  item ∈ region_results /\ rankable item = true.
Proof.
  rewrite (valid_for_ranking_perm region_results).
  rewrite !list_elem_of_In. apply filter_In.
Qed.

Lemma NoDup_map_filter {A B} (f : A -> B) (P : A -> bool) (l : list A) :
  NoDup (List.map f l) -> NoDup (List.map f (List.filter P l)).
Proof.
  induction l as [|x l IH]; simpl; [auto|].
  intros Hnd. apply NoDup_cons in Hnd as [Hx Hnd].
  destruct (P x); simpl; [|by apply IH].
  apply NoDup_cons. split; [|by apply IH].
  intros Hin. apply Hx. apply list_elem_of_In in Hin.
  apply in_map_iff in Hin as (y & Hy & Hin). apply filter_In in Hin as [Hin _].
  rewrite <- Hy. apply list_elem_of_In, in_map. exact Hin.
Qed.

Lemma NoDup_rows_ranked (region_results : list RegionResult) :
  NoDup (List.map rr_row region_results) ->
  NoDup (List.map rr_row (valid_for_ranking region_results)).
Proof.
  intros Hnd.
  rewrite (Permutation_map rr_row (valid_for_ranking_perm region_results)).
  apply NoDup_map_filter. exact Hnd.
Qed.

(** A row without an integer average has no rank in its region. *)
Lemma rank_map_unranked (region_results : list RegionResult) (item : RegionResult) :
  NoDup (List.map rr_row region_results) ->
  item ∈ region_results ->
  rankable item = false ->
  rank_map region_results !! rr_row item = None.
Proof.
  intros Hnd Hin Hr. unfold rank_map.
  rewrite rank_from_not_in; [apply lookup_empty|].
  intros Hrow. apply list_elem_of_In, in_map_iff in Hrow as (other & Hrow & Ho).
  apply list_elem_of_In, elem_of_valid_for_ranking in Ho as [Ho Hranked].
  assert (other = item) as -> by (eapply NoDup_map_inj; eauto).
  congruence.
Qed.

(** ** A removed playlist *)

(** C2, as stated, fails: for a series whose playlist is answered 404 the
    row update clears the rank cell B4 (it does not get the delisted
    marker) and leaves the episode-count cell F4 out. *)
Lemma removed_row_not_uniform :
  let net := net_of (fun _ => failed 404 []) (fun _ => ok []) in
  exists st w',
    process_regions ascii_lib net 1 [(u "TW", [series "Z" "4" None])]
      empty_sheet_state (start (init (u "KEY"))) = (Ret (Some st), w')
    /\ updates_batch st
       = [ {| row_check_name := u "Z";
              target_row := 4;
              updates :=
                [ {| cell := u "B4"; value := VStr [] |};
                  {| cell := u "C4"; value := VStr delisted |};
                  {| cell := u "D4"; value := VStr delisted |};
                  {| cell := u "E4"; value := VStr delisted |} ] |} ].
Proof.
  intros net. eexists _, _. split; vm_compute; reflexivity.
Qed.

(** ** Comprehensive ranking *)



Lemma elem_of_comprehensive (f : Z * str -> list RowUpdate)
    (cells : list (Z * str)) (ru : RowUpdate) :
  ru ∈ concat (List.map f cells) <-> exists entry, entry ∈ cells /\ ru ∈ f entry.
Proof.
  rewrite list_elem_of_In, in_concat. split.
  - intros (l & Hl & Hru). apply in_map_iff in Hl as (entry & <- & Hin).
    exists entry. by rewrite !list_elem_of_In.
  - intros (entry & Hin & Hru). exists (f entry).
    rewrite <- !list_elem_of_In. split; [|exact Hru].
    apply list_elem_of_In, in_map, list_elem_of_In, Hin.
Qed.




(** A sheet with one region and two series. X has three episodes, listed
    out of order, with 100, 200 and 300 views; Y has one episode with 50
    views. One batch is written, then the sheet is sorted: X gets rank 1,
    average 200, total 600, first 100 and 3 episodes; Y gets rank 2 and 50
    three times, and 1 episode; the comprehensive ranks follow. *)
Lemma two_series_sheet :
  let regions := [ (u "TW", [series "X" "2" None; series "Y" "3" None]) ] in
  let net :=
    with_sheet
      (net_of (fun url => if contains (u "playlistId=X") url
                          then page [("x3", "Show 第3話"); ("x1", "Show 第1話");
                                     ("x2", "Show 第2話")]
                          else page [("y1", "Other 第1話")])
              (fun _ => ok [video "x1" (Some "100"); video "x2" (Some "200");
                            video "x3" (Some "300"); video "y1" (Some "50")]))
      regions in
  let w := snd (process_single_sheet ascii_lib net 3 (u "SS") (u "Sheet")
                  (start (init (u "KEY")))) in
  exists batch,
    posts w = [ (u "SS", GetSheetData (u "Sheet"));
                (u "SS", UpdateData (u "Sheet") batch);
                (u "SS", SortData (u "Sheet")) ]
    /\ List.map (fun ru => (target_row ru, List.map value (updates ru))) batch
       = [ (2, [VInt 1; VInt 200; VInt 600; VInt 100; VInt 3]);
           (3, [VInt 2; VInt 50; VInt 50; VInt 50; VInt 1]);
           (2, [VInt 1]);
           (3, [VInt 2]) ].
Proof.
  intros regions net w. eexists. split; vm_compute; reflexivity.
Qed.

(** ** The offset of a series *)

(** The range test passes exactly for a parsed episode between two
    numbers. *)
Lemma is_in_offset_range (L : PyLib) (title : str) (range : json) :
  is_in_offset L title (Some range) None = true <->
  exists ep_idx x y a b,
    parse_episode_number L title = Some ep_idx
    /\ unpack2 range = Some (x, y)
    /\ as_num x = Some a /\ as_num y = Some b
    /\ num_le a ep_idx = true /\ num_le ep_idx b = true.
Proof.
  unfold is_in_offset, in_range. simpl. split.
  - destruct (parse_episode_number L title) as [ep_idx|]; [|discriminate].
    destruct (unpack2 range) as [[x y]|]; [|discriminate].
    destruct (as_num x) as [a|] eqn:Ex; [|discriminate].
    destruct (num_le a ep_idx) eqn:E1; [|discriminate].
    destruct (as_num y) as [b|] eqn:Ey; [|discriminate].
    destruct (num_le ep_idx b) eqn:E2; [|discriminate].
    intros _. exists ep_idx, x, y, a, b.
    repeat split; first [reflexivity | assumption].
  - intros (ep_idx & x & y & a & b & -> & -> & -> & -> & -> & ->). reflexivity.
Qed.

(** C7, as stated, fails. The offset "5" is no two-element array, and the
    title "Show Episode 5" contains it; yet [json.loads] decodes it to the
    number 5, the series takes it for a range, and the item is dropped:
    [process_anime] finds no video left and returns the defaults. The same
    happens with "[1,2,3]". *)
Lemma offset_number_is_not_substring :
  let item := {| item_id := u "v5"; item_title := u "Show Episode 5" |} in
  let net := net_of (fun _ => page [("v5", "Show Episode 5")])
                    (fun _ => ok [video "v5" (Some "100")]) in
  json_loads ascii_lib (u "5") = Some (JNum (NInt 5))
  /\ contains (u "5") (item_title item) = true
  /\ is_ignored_keyword (init []) (item_title item) = false
  /\ keeps ascii_lib (init []) (parse_offset ascii_lib (Some (u "5"))).1
       (parse_offset ascii_lib (Some (u "5"))).2 item = false
  /\ keeps ascii_lib (init []) (parse_offset ascii_lib (Some (u "[1,2,3]"))).1
       (parse_offset ascii_lib (Some (u "[1,2,3]"))).2 item = false
  /\ fst (process_anime ascii_lib net 3 (series "X" "2" (Some "5"))
            (start (init (u "KEY")))) = Ret (Some default_result)
  /\ (exists stats,
        fst (process_anime ascii_lib net 3 (series "X" "2" None)
               (start (init (u "KEY")))) = Ret (Some stats)
        /\ avg stats = VInt 100).
Proof.
  intros item net. repeat split; try (vm_compute; reflexivity).
  eexists. split; vm_compute; reflexivity.
Qed.

(** ** Binary64 division *)

Lemma pow2_pos (k : Z) : 0 <= k -> 0 < 2 ^ k.
Proof. intros. apply Z.pow_pos_nonneg; lia. Qed.

Lemma pow2_split (j k : Z) : 0 <= j -> 0 <= k -> 2 ^ (j + k) = 2 ^ j * 2 ^ k.
Proof. intros. apply Z.pow_add_r; lia. Qed.

Lemma binade_lower (a b : Z) : 0 < a -> 0 < b -> at_least_pow2 a b (binade a b).
Proof.
  intros Ha Hb. unfold at_least_pow2, binade.
  destruct (Z.log2_spec a Ha) as [La Ua]. destruct (Z.log2_spec b Hb) as [Lb Ub].
  pose proof (Z.log2_nonneg a) as Na. pose proof (Z.log2_nonneg b) as Nb.
  set (la := Z.log2 a) in *. set (lb := Z.log2 b) in *.
  destruct (scaled_den b (la - lb) <=? scaled_num a (la - lb)) eqn:E.
  - apply Z.leb_le. exact E.
  - clear E. unfold scaled_den, scaled_num.
    destruct (la - lb - 1 <? 0) eqn:S; [apply Z.ltb_lt in S | apply Z.ltb_ge in S].
    + assert (H : 2 ^ Z.succ lb <= a * 2 ^ (- (la - lb - 1))).
      { replace (Z.succ lb) with (la + (- (la - lb - 1))) by lia.
        rewrite pow2_split by lia.
        apply Z.mul_le_mono_nonneg_r; [apply Z.lt_le_incl, pow2_pos; lia | exact La]. }
      lia.
    + assert (H : b * 2 ^ (la - lb - 1) <= 2 ^ la).
      { replace la with (Z.succ lb + (la - lb - 1)) at 2 by lia.
        rewrite pow2_split by lia.
        apply Z.mul_le_mono_nonneg_r; [apply Z.lt_le_incl, pow2_pos; lia | lia]. }
      lia.
Qed.

Lemma binade_upper (a b : Z) :
  0 < a -> 0 < b -> ~ at_least_pow2 a b (binade a b + 1).
Proof.
  intros Ha Hb. unfold at_least_pow2, binade.
  destruct (Z.log2_spec a Ha) as [La Ua]. destruct (Z.log2_spec b Hb) as [Lb Ub].
  pose proof (Z.log2_nonneg a) as Na. pose proof (Z.log2_nonneg b) as Nb.
  set (la := Z.log2 a) in *. set (lb := Z.log2 b) in *.
  destruct (scaled_den b (la - lb) <=? scaled_num a (la - lb)) eqn:E.
  - clear E. unfold scaled_den, scaled_num.
    destruct (la - lb + 1 <? 0) eqn:S; [apply Z.ltb_lt in S | apply Z.ltb_ge in S].
    + assert (H : a * 2 ^ (- (la - lb + 1)) < 2 ^ lb).
      { replace lb with (Z.succ la + (- (la - lb + 1))) at 2 by lia.
        rewrite pow2_split by lia.
        apply Z.mul_lt_mono_pos_r; [apply pow2_pos; lia | exact Ua]. }
      lia.
    + assert (H : 2 ^ Z.succ la <= b * 2 ^ (la - lb + 1)).
      { replace (Z.succ la) with (lb + (la - lb + 1)) by lia.
        rewrite pow2_split by lia.
        apply Z.mul_le_mono_nonneg_r; [apply Z.lt_le_incl, pow2_pos; lia | exact Lb]. }
      lia.
  - apply Z.leb_gt in E. replace (la - lb - 1 + 1) with (la - lb) by lia. lia.
Qed.

Lemma binade_nonneg (a b : Z) : 0 < b -> b <= a -> 0 <= binade a b.
Proof.
  intros Hb Hab. destruct (Z.lt_ge_cases (binade a b) 0) as [Hneg|]; [|assumption].
  exfalso. apply (binade_upper a b); [lia | lia|].
  unfold at_least_pow2, scaled_den, scaled_num.
  destruct (binade a b + 1 <? 0) eqn:S; [apply Z.ltb_lt in S | apply Z.ltb_ge in S].
  - pose proof (pow2_pos (- (binade a b + 1)) ltac:(lia)). nia.
  - replace (binade a b + 1) with 0 by lia. simpl. lia.
Qed.

Lemma binade_neg (a b : Z) : 0 < a -> a < b -> binade a b < 0.
Proof.
  intros Ha Hab. destruct (Z.lt_ge_cases (binade a b) 0) as [|Hpos]; [assumption|].
  exfalso. pose proof (binade_lower a b Ha ltac:(lia)) as H.
  unfold at_least_pow2, scaled_den, scaled_num in H.
  destruct (binade a b <? 0) eqn:S; [apply Z.ltb_lt in S; lia|].
  pose proof (pow2_pos (binade a b) Hpos). nia.
Qed.

Lemma round_half_even_bounds (n d : Z) :
  0 < d ->
  let m := round_half_even n d in
  n / d <= m <= n / d + 1 /\ (m = n / d + 1 -> d <= 2 * (n mod d)).
Proof.
  intros Hd. unfold round_half_even.
  destruct (Z.compare_spec (2 * (n mod d)) d) as [E | E | E].
  - destruct (Z.even (n / d)); lia.
  - lia.
  - lia.
Qed.

(** Rounding [a * 2^s / b] to an integer and dropping the [s] low bits gives
    the floor of [a / b], when [b] has at most [s + 1] bits. *)
Lemma round_then_truncate (a b s : Z) :
  0 <= a -> 0 < b -> 0 <= s -> b < 2 ^ (s + 1) ->
  round_half_even (a * 2 ^ s) b / 2 ^ s = a / b.
Proof.
  intros Ha Hb Hs Hbs.
  pose proof (pow2_pos s Hs) as Hp.
  assert (Hp1 : 2 ^ (s + 1) = 2 * 2 ^ s) by (rewrite Z.pow_add_r by lia; lia).
  destruct (round_half_even_bounds (a * 2 ^ s) b Hb) as [[Hlo Hhi] Hup].
  set (m := round_half_even (a * 2 ^ s) b) in *.
  pose proof (Z.div_mod a b ltac:(lia)) as Ea.
  pose proof (Z.mod_pos_bound a b Hb) as Ra.
  pose proof (Z.div_mod (a * 2 ^ s) b ltac:(lia)) as En.
  pose proof (Z.mod_pos_bound (a * 2 ^ s) b Hb) as Rn.
  set (q := a / b) in *. set (r := a mod b) in *.
  set (Q := a * 2 ^ s / b) in *. set (R := (a * 2 ^ s) mod b) in *.
  assert (HQlo : q * 2 ^ s <= Q).
  { apply Z.div_le_lower_bound; [lia | nia]. }
  assert (HQhi : Q < (q + 1) * 2 ^ s).
  { apply Z.div_lt_upper_bound; [lia | nia]. }
  assert (Hm : q * 2 ^ s <= m < (q + 1) * 2 ^ s).
  { split; [lia|].
    destruct (Z.eq_dec m (Q + 1)) as [Em | Em]; [|lia].
    specialize (Hup Em).
    destruct (Z.eq_dec (Q + 1) ((q + 1) * 2 ^ s)) as [EQ | EQ]; [|lia].
    exfalso. nia. }
  symmetry. apply Z.div_unique with (r := m - q * 2 ^ s); [lia | lia].
Qed.


Lemma pow2_le_mono (j k : Z) : 0 <= j <= k -> 2 ^ j <= 2 ^ k.
Proof. intros. apply Z.pow_le_mono_r; lia. Qed.

Lemma round64_floor (a b : Z) :
  0 < a < 2 ^ 53 -> 0 < b ->
  exists m e, round64 a b = Some (m, e) /\ 0 <= m /\ truncated m e = a / b.
Proof.
  intros [Ha Ha53] Hb. unfold round64.
  destruct (a =? 0) eqn:E0; [apply Z.eqb_eq in E0; lia|]. clear E0.
  pose proof (binade_lower a b Ha Hb) as Hlo.
  pose proof (binade_upper a b Ha Hb) as Hup.
  set (L := binade a b) in *.
  set (e := Z.max (L - 52) (-1074)).
  set (m := round_half_even (scaled_num a e) (scaled_den b e)).
  assert (Hm0 : 0 < scaled_den b e -> 0 <= scaled_num a e -> 0 <= m).
  { intros Hd Hn. destruct (round_half_even_bounds (scaled_num a e) (scaled_den b e) Hd)
      as [[H _] _]. fold m in H.
    pose proof (Z.div_pos (scaled_num a e) (scaled_den b e) Hn Hd). lia. }
  destruct (Z.le_gt_cases b a) as [Hba | Hab].
  - (* the quotient is at least one *)
    pose proof (binade_nonneg a b Hb Hba) as HL. fold L in HL.
    unfold at_least_pow2, scaled_den, scaled_num in Hlo.
    destruct (L <? 0) eqn:S; [apply Z.ltb_lt in S; lia|]. clear S.
    pose proof (pow2_pos L HL) as HpL.
    assert (HL53 : L < 53).
    { destruct (Z.lt_ge_cases L 53) as [|H53]; [assumption|].
      pose proof (pow2_le_mono 53 L ltac:(lia)). nia. }
    assert (Ee : e = L - 52) by (unfold e; lia).
    assert (Hbs : b < 2 ^ (52 - L + 1)).
    { assert (2 ^ 53 = 2 ^ L * 2 ^ (52 - L + 1)).
      { rewrite <- Z.pow_add_r by lia. f_equal. lia. }
      pose proof (pow2_pos (52 - L + 1) ltac:(lia)). nia. }
    pose proof (round_then_truncate a b (52 - L) ltac:(lia) Hb ltac:(lia) Hbs) as Hrt.
    assert (Hsame : m = round_half_even (a * 2 ^ (52 - L)) b
                    /\ truncated m e = m / 2 ^ (52 - L)).
    { unfold m, truncated, scaled_num, scaled_den. rewrite Ee.
      destruct (L - 52 <? 0) eqn:S; [apply Z.ltb_lt in S | apply Z.ltb_ge in S].
      - replace (- (L - 52)) with (52 - L) by lia. split; reflexivity.
      - replace (L - 52) with 0 by lia. replace (52 - L) with 0 by lia.
        simpl. rewrite !Z.mul_1_r, Z.div_1_r. split; reflexivity. }
    destruct Hsame as [Em Et].
    exists m, e. split; [|split].
    + replace ((971 <? e) || (e =? 971) && (m =? 2 ^ 53)) with false; [reflexivity|].
      symmetry. apply orb_false_iff. split; [apply Z.ltb_ge; lia|].
      apply andb_false_iff. left. apply Z.eqb_neq. lia.
    + rewrite Em.
      destruct (round_half_even_bounds (a * 2 ^ (52 - L)) b Hb) as [[H _] _].
      pose proof (pow2_pos (52 - L) ltac:(lia)).
      pose proof (Z.div_pos (a * 2 ^ (52 - L)) b ltac:(nia) Hb). lia.
    + rewrite Et, Em. exact Hrt.
  - (* the quotient is below one *)
    pose proof (binade_neg a b Ha Hab) as HL. fold L in HL.
    rewrite (Z.div_small a b) by lia.
    unfold at_least_pow2, scaled_den, scaled_num in Hlo, Hup.
    destruct (L <? 0) eqn:S; [clear S | apply Z.ltb_ge in S; lia].
    assert (He : e < 0) by (unfold e; lia).
    assert (Hover : (971 <? e) || (e =? 971) && (m =? 2 ^ 53) = false).
    { apply orb_false_iff. split; [apply Z.ltb_ge; lia|].
      apply andb_false_iff. left. apply Z.eqb_neq. lia. }
    exists m, e. rewrite Hover. split; [reflexivity|].
    assert (Hme : m = round_half_even (a * 2 ^ (- e)) b
                  /\ truncated m e = m / 2 ^ (- e)).
    { unfold m, truncated, scaled_num, scaled_den.
      destruct (e <? 0) eqn:S; [split; reflexivity | apply Z.ltb_ge in S; lia]. }
    destruct Hme as [Em Et]. rewrite Et.
    pose proof (pow2_pos (- e) ltac:(lia)) as Hpe.
    destruct (round_half_even_bounds (a * 2 ^ (- e)) b Hb) as [[Hmlo Hmhi] _].
    rewrite <- Em in Hmlo, Hmhi.
    pose proof (Z.div_pos (a * 2 ^ (- e)) b ltac:(nia) Hb) as HQ0.
    split; [lia|].
    destruct (Z.le_gt_cases (-1074) (L - 52)) as [Hnorm | Hsub].
    + (* a normal number *)
      assert (Ee : - e = 52 - L) by (unfold e; lia).
      assert (Hbs : b < 2 ^ (52 - L + 1)).
      { assert (2 ^ (52 - L + 1) = 2 ^ 53 * 2 ^ (- L)).
        { rewrite <- Z.pow_add_r by lia. f_equal. lia. }
        pose proof (pow2_pos (- L) ltac:(lia)). nia. }
      pose proof (round_then_truncate a b (52 - L) ltac:(lia) Hb ltac:(lia) Hbs) as Hrt.
      rewrite Em, Ee, Hrt. apply Z.div_small. lia.
    + (* a subnormal number *)
      assert (Ee : - e = 1074) by (unfold e; lia).
      destruct (L + 1 <? 0) eqn:S1; [apply Z.ltb_lt in S1 | apply Z.ltb_ge in S1; lia].
      assert (H1 : a * 2 ^ 1022 < b).
      { pose proof (pow2_le_mono 1022 (- (L + 1)) ltac:(lia)). nia. }
      assert (HQ : a * 2 ^ (- e) / b < 2 ^ 52).
      { apply Z.div_lt_upper_bound; [lia|]. rewrite Ee.
        replace (2 ^ 1074) with (2 ^ 1022 * 2 ^ 52) by (rewrite <- Z.pow_add_r; [reflexivity | lia | lia]).
        pose proof (pow2_pos 52 ltac:(lia)). nia. }
      apply Z.div_small. split; [lia|].
      rewrite Ee in *.
      assert (2 ^ 52 + 1 < 2 ^ 1074).
      { pose proof (pow2_le_mono 53 1074 ltac:(lia)).
        assert (2 ^ 52 + 1 < 2 ^ 53) by (vm_compute; reflexivity). lia. }
      lia.
Qed.

Lemma strip_zeros_spec (p : positive) (e : Z) :
  0 < (strip_zeros p e).1
  /\ e <= (strip_zeros p e).2
  /\ Zpos p = (strip_zeros p e).1 * 2 ^ ((strip_zeros p e).2 - e).
Proof.
  revert e. induction p as [p IH | p IH |]; intros e; simpl.
  - rewrite Z.sub_diag, Z.pow_0_r. lia.
  - destruct (IH (e + 1)) as (H1 & H2 & H3). split; [exact H1|]. split; [lia|].
    replace ((strip_zeros p (e + 1)).2 - e)
      with (1 + ((strip_zeros p (e + 1)).2 - (e + 1))) by lia.
    rewrite Z.pow_add_r by lia. lia.
  - rewrite Z.sub_diag, Z.pow_0_r. lia.
Qed.

(** [int] of a non-negative normalized value truncates it. *)
Lemma int_of_float_normalize (m e : Z) :
  0 <= m -> int_of_float (normalize m e) = Some (truncated m e).
Proof.
  intros Hm. unfold truncated. destruct m as [|p|p]; [| |lia].
  - simpl. f_equal. destruct (e <? 0); [symmetry; apply Zdiv_0_l | lia].
  - unfold normalize. destruct (strip_zeros_spec p e) as (H1 & H2 & H3).
    destruct (strip_zeros p e) as [m' e']. simpl in *. f_equal.
    set (k := e' - e) in *. pose proof (pow2_pos k ltac:(lia)) as Hk.
    destruct (e' <? 0) eqn:S'; [apply Z.ltb_lt in S' | apply Z.ltb_ge in S'].
    + destruct (e <? 0) eqn:S; [|apply Z.ltb_ge in S; lia].
      pose proof (pow2_pos (- e') ltac:(lia)) as Hp.
      rewrite Z.quot_div_nonneg by lia.
      replace (2 ^ (- e)) with (2 ^ (- e') * 2 ^ k)
        by (rewrite <- Z.pow_add_r by lia; f_equal; lia).
      rewrite H3. symmetry. apply Z.div_mul_cancel_r; lia.
    + destruct (e <? 0) eqn:S; [apply Z.ltb_lt in S | apply Z.ltb_ge in S].
      * pose proof (pow2_pos (- e) ltac:(lia)) as Hp.
        rewrite H3. replace (2 ^ k) with (2 ^ e' * 2 ^ (- e))
          by (rewrite <- Z.pow_add_r by lia; f_equal; lia).
        rewrite Z.mul_assoc, Z.div_mul by lia. reflexivity.
      * rewrite H3. replace e' with (k + e) at 1 by lia.
        rewrite Z.pow_add_r by lia. lia.
Qed.

(** For a non-negative dividend below [2^53], [int(a / b)] is the floor of
    the quotient. *)
Lemma truediv_floor (a b : Z) :
  0 <= a < 2 ^ 53 -> 0 < b ->
  exists q, truediv a b = Some q /\ int_of_float q = Some (a / b).
Proof.
  intros [Ha Ha53] Hb. unfold truediv.
  destruct (b =? 0) eqn:Eb; [apply Z.eqb_eq in Eb; lia|].
  rewrite (Z.abs_eq a Ha), (Z.abs_eq b) by lia.
  destruct (Z.eq_dec a 0) as [-> | Hne].
  - simpl. eexists. split; [reflexivity|]. simpl. reflexivity.
  - destruct (round64_floor a b ltac:(lia) Hb) as (m & e & -> & Hm & Ht).
    rewrite (Z.sgn_pos a), (Z.sgn_pos b) by lia.
    eexists. split; [reflexivity|].
    rewrite int_of_float_normalize by lia.
    replace (1 * 1 * m) with m by lia. rewrite Ht. reflexivity.
Qed.

(** ** Aggregation *)

Lemma sum_of_perm (l l' : list Z) : l ≡ₚ l' -> sum_of l = sum_of l'.
Proof. induction 1; simpl; lia. Qed.

Lemma real_samples_perm (stats : gmap str (option Z)) (l l' : list PlaylistItem) :
  l ≡ₚ l' -> real_samples stats l ≡ₚ real_samples stats l'.
Proof. intros H. unfold real_samples. by rewrite H. Qed.

Lemma real_samples_cons (stats : gmap str (option Z)) (v : PlaylistItem)
    (l : list PlaylistItem) :
  real_samples stats (v :: l) =
  match sample_of stats v with
  | Some n => n :: real_samples stats l
  | None => real_samples stats l
  end.
Proof. reflexivity. Qed.

(** The loop over [sorted_videos], from any state [t]. *)
Lemma tally_from (stats : gmap str (option Z)) (l : list PlaylistItem) (t : Tally) :
  foldl (tally_step stats) t l =
  {| total_views := total_views t + sum_of (real_samples stats l);
     valid_view_count :=
       valid_view_count t + Z.of_nat (length (real_samples stats l));
     first_ep_views :=
       match first_ep_views t, l with
       | VNone, v :: _ =>
           if sample_of stats v is Some n then VInt n else VStr no_data
       | x, _ => x
       end;
     has_any_view_data :=
       has_any_view_data t || negb (bool_decide (real_samples stats l = [])) |}.
Proof.
  revert t. induction l as [|v l IH]; intros t.
  - destruct t as [tv vc fe ha]. simpl. f_equal; try lia.
    + by destruct fe.
    + by rewrite orb_false_r.
  - simpl foldl. rewrite IH, real_samples_cons. unfold tally_step.
    destruct (sample_of stats v) as [n|]; cbn [total_views valid_view_count
      first_ep_views has_any_view_data length sum_of foldr].
    + f_equal.
      * unfold sum_of. lia.
      * lia.
      * by destruct (first_ep_views t), l.
      * by destruct (has_any_view_data t).
    + f_equal. by destruct (first_ep_views t), l.
Qed.

Lemma tally_spec (stats : gmap str (option Z)) (l : list PlaylistItem) :
  tally stats l =
  {| total_views := sum_of (real_samples stats l);
     valid_view_count := Z.of_nat (length (real_samples stats l));
     first_ep_views :=
       match l with
       | v :: _ => if sample_of stats v is Some n then VInt n else VStr no_data
       | [] => VNone
       end;
     has_any_view_data := negb (bool_decide (real_samples stats l = [])) |}.
Proof. unfold tally. rewrite tally_from. simpl. by destruct l. Qed.

(** What [summarize] returns, by the integer samples of the videos. *)
Lemma summarize_spec (L : PyLib) (valid_videos : list PlaylistItem)
    (stats : gmap str (option Z)) :
  let samples := real_samples stats valid_videos in
  let sorted_videos := sort_by num_lt (sort_key L) valid_videos in
  summarize L valid_videos stats =
  match samples with
  | [] => Ret default_result
  | _ =>
      match truediv (sum_of samples) (Z.of_nat (length samples))
            ≫= int_of_float with
      | Some n =>
          Ret {| avg := VInt n;
                 total := VInt (sum_of samples);
                 first := first_value stats sorted_videos;
                 valid_count := VInt (Z.of_nat (length valid_videos));
                 ep_count_update := VNone |}
      | None => Raise OverflowError
      end
  end.
Proof.
  intros samples sorted_videos. unfold summarize. fold sorted_videos.
  rewrite tally_spec. simpl.
  assert (Hp : real_samples stats sorted_videos ≡ₚ samples)
    by apply real_samples_perm, sort_by_perm.
  rewrite (sum_of_perm _ _ Hp), (Permutation_length Hp).
  destruct samples as [|x xs] eqn:E.
  - apply Permutation_nil_r in Hp. rewrite Hp. reflexivity.
  - destruct (real_samples stats sorted_videos) as [|y ys] eqn:E';
      [by apply Permutation_nil_cons in Hp|].
    simpl negb. cbv iota.
    replace (0 <? Z.of_nat (length (x :: xs))) with true
      by (symmetry; apply Z.ltb_lt; simpl; lia).
    destruct (truediv _ _) as [q|]; simpl; [|reflexivity].
    destruct (int_of_float q); simpl; [|reflexivity].
    f_equal. f_equal. unfold first_value.
    destruct sorted_videos as [|v vs]; [discriminate|].
    destruct (sample_of stats v); reflexivity.
Qed.

(** C1, as the code has it. For a series whose playlist gave items of which
    some survive the filter, and whose samples were fetched without the
    quota running out: when no surviving item has an integer sample,
    [process_anime] returns the defaults, so average, total and first are
    the no-data marker and the episode count is 0; when some have, and
    their sum is non-negative and below [2^53], the average
    is the floor of the sum by the number of integer samples, and the
    episode count is the number of surviving items. *)
Theorem aggregate_average (L : PyLib) (net : Net) (fuel : nat) (anime : Anime)
    (c : N) (playlist_id : str) (w w1 w2 : World) (items : list PlaylistItem)
    (stats : gmap str (option Z)) :
  quota_exceeded (proc w) = false ->
  get_playlist_id L (link_url anime) = Some (c :: playlist_id) ->
  get_playlist_items net fuel (c :: playlist_id) w = (Ret (Items items), w1) ->
  let valid_videos :=
    List.filter (keeps L (proc w1) (parse_offset L (offset anime)).1
                   (parse_offset L (offset anime)).2) items in
  valid_videos <> [] ->
  get_video_stats L net (List.map item_id valid_videos) w1 = (Ret stats, w2) ->
  quota_exceeded (proc w2) = false ->
  let samples := real_samples stats valid_videos in
  (samples = [] ->
   exists r,
     process_anime L net fuel anime w = (Ret (Some r), w2)
     /\ avg r = VStr no_data /\ total r = VStr no_data
     /\ first r = VStr no_data /\ valid_count r = VInt 0)
  /\ (samples <> [] ->
      0 <= sum_of samples < 2 ^ 53 ->
      exists r,
        process_anime L net fuel anime w = (Ret (Some r), w2)
        /\ avg r = VInt (sum_of samples / Z.of_nat (length samples))
        /\ total r = VInt (sum_of samples)
        /\ valid_count r = VInt (Z.of_nat (length valid_videos))).
Proof.
  intros Hf Hid Hitems valid_videos Hvalid Hstats Hf2 samples.
  assert (Hrun : process_anime L net fuel anime w =
                 match summarize L valid_videos stats with
                 | Ret result => (Ret (Some result), w2)
                 | Raise e => (Raise e, w2)
                 | Timeout => (Timeout, w2)
                 end).
  { rewrite (process_anime_run L net fuel anime c playlist_id w Hf Hid), Hitems.
    cbv zeta. fold valid_videos.
    destruct valid_videos as [|v vs]; [congruence|].
    rewrite Hstats, Hf2. reflexivity. }
  rewrite Hrun, summarize_spec. fold samples. split.
  - intros ->. exists default_result. repeat split.
  - intros Hne Hsum. destruct samples as [|x xs] eqn:E; [congruence|].
    destruct (truediv_floor (sum_of (x :: xs)) (Z.of_nat (length (x :: xs))) Hsum)
      as (q & -> & Hq); [simpl; lia|].
    simpl. rewrite Hq. eexists. split; [reflexivity|]. repeat split.
Qed.

Lemma aggregate_average_witness :
  let net := net_of (fun _ => page [("v1", "Show 第1話"); ("v2", "Show 第2話");
                                    ("v3", "Show 第3話")])
                    (fun _ => ok [video "v1" (Some "100"); video "v2" None;
                                  video "v3" (Some "201")]) in
  exists r w2,
    process_anime ascii_lib net 3 (series "X" "2" None) (start (init (u "KEY")))
    = (Ret (Some r), w2)
    /\ avg r = VInt 150 /\ total r = VInt 301 /\ valid_count r = VInt 3.
Proof.
  intros net.
  set (w := start (init (u "KEY"))).
  set (items := [ {| item_id := u "v1"; item_title := u "Show 第1話" |};
                  {| item_id := u "v2"; item_title := u "Show 第2話" |};
                  {| item_id := u "v3"; item_title := u "Show 第3話" |} ]).
  set (w1 := snd (get_playlist_items net 3 (u "X") w)).
  set (stats := <[u "v3" := Some 201]> (<[u "v2" := None]> (<[u "v1" := Some 100]> ∅))
                : gmap str (option Z)).
  set (w2 := snd (get_video_stats ascii_lib net (List.map item_id items) w1)).
  assert (H1 : get_playlist_items net 3 (88%N :: []) w = (Ret (Items items), w1))
    by (vm_compute; reflexivity).
  assert (H2 : List.filter (keeps ascii_lib (proc w1)
                 (parse_offset ascii_lib (offset (series "X" "2" None))).1
                 (parse_offset ascii_lib (offset (series "X" "2" None))).2) items
               <> []) by (vm_compute; discriminate).
  assert (H3 : get_video_stats ascii_lib net
                 (List.map item_id
                    (List.filter (keeps ascii_lib (proc w1)
                       (parse_offset ascii_lib (offset (series "X" "2" None))).1
                       (parse_offset ascii_lib (offset (series "X" "2" None))).2) items))
                 w1 = (Ret stats, w2)) by (vm_compute; reflexivity).
  assert (H4 : quota_exceeded (proc w2) = false) by (vm_compute; reflexivity).
  assert (H5 : get_playlist_id ascii_lib (link_url (series "X" "2" None)) = Some (88%N :: [])) by (vm_compute; reflexivity).
  assert (H0 : quota_exceeded (proc w) = false) by (vm_compute; reflexivity).
  pose proof (aggregate_average ascii_lib net 3 (series "X" "2" None) 88%N [] w w1 w2
                items stats H0 H5 H1 H2 H3 H4) as [_ H].
  destruct H as (r & Hr & Ha & Ht & Hc).
  - (vm_compute; discriminate).
  - (vm_compute; split; [discriminate | reflexivity]).
  - (exists r, w2; repeat split; assumption).
Defined.

(** C1, as stated, fails. For a series whose two surviving items both have
    a hidden view count, the episode count returned is 0, not 2. And for a
    single video of 9007199254740993 views the average returned is
    9007199254740992, the float quotient, not the floor. *)
Lemma aggregate_average_fails :
  let hidden := net_of (fun _ => page [("v1", "Show 第1話"); ("v2", "Show 第2話")])
                       (fun _ => ok [video "v1" None; video "v2" None]) in
  let huge := net_of (fun _ => page [("v1", "Show 第1話")])
                     (fun _ => ok [video "v1" (Some "9007199254740993")]) in
  let w := start (init (u "KEY")) in
  let items := [ {| item_id := u "v1"; item_title := u "Show 第1話" |};
                 {| item_id := u "v2"; item_title := u "Show 第2話" |} ] in
  fst (get_playlist_items hidden 3 (u "X") w) = Ret (Items items)
  /\ length (List.filter (keeps ascii_lib (init (u "KEY")) None None) items) = 2%nat
  /\ fst (process_anime ascii_lib hidden 3 (series "X" "2" None) w)
     = Ret (Some default_result)
  /\ valid_count default_result = VInt 0
  /\ fst (process_anime ascii_lib huge 3 (series "X" "2" None) w)
     = Ret (Some {| avg := VInt 9007199254740992;
                    total := VInt 9007199254740993;
                    first := VInt 9007199254740993;
                    valid_count := VInt 1;
                    ep_count_update := VNone |})
  /\ 9007199254740993 / 1 = 9007199254740993.
Proof.
  intros hidden huge w items.
  split; [vm_compute; reflexivity|].
  split; [vm_compute; reflexivity|].
  split; [vm_compute; reflexivity|].
  split; [reflexivity|].
  split; [vm_compute; reflexivity|].
  vm_compute; reflexivity.
Qed.

(** ** Videos that the statistics provider leaves out *)

Lemma video_samples_other (L : PyLib) (now_utc : Z) (items : list VideoEntry)
    (m m' : gmap str (option Z)) (vid : str) :
  video_samples L now_utc items m = Ret m' ->
  vid ∉ List.map video_id items ->
  m' !! vid = m !! vid.
Proof.
  revert m. induction items as [|item items IH]; intros m Hrun Hnot; simpl in *.
  - by injection Hrun as <-.
  - apply not_elem_of_cons in Hnot as [Hne Hnot].
    destruct (video_sample L now_utc item) as [sample | e |]; try discriminate.
    rewrite (IH _ Hrun Hnot). apply lookup_insert_ne. congruence.
Qed.

Lemma video_batches_other (L : PyLib) (net : Net) (now_utc : Z)
    (bs : list (list str)) (m m' : gmap str (option Z)) (w w' : World)
    (vid : str) :
  (forall history url items,
     body (videos_api net history url) = Data items ->
     vid ∉ List.map video_id items) ->
  video_batches L net now_utc bs m w = (Ret m', w') ->
  m' !! vid = m !! vid.
Proof.
  intros Homit. revert m w. induction bs as [|batch bs IH]; intros m w Hrun.
  - by injection Hrun as <- _.
  - simpl in Hrun. unfold bind at 1 in Hrun. simpl in Hrun.
    unfold bind at 1 in Hrun. simpl in Hrun. unfold bind at 1 in Hrun.
    rewrite _check_quota_run in Hrun.
    destruct (quota_signal _); [by injection Hrun as <- _|].
    destruct (status_code _ =? 200); [|by eapply IH].
    destruct (body _) as [|reasons|items] eqn:Eb; [discriminate | by eapply IH|].
    destruct (video_samples L now_utc items m) as [m1 | e |] eqn:Es;
      try discriminate.
    rewrite (IH _ _ Hrun). eapply video_samples_other; eauto.
Qed.

Lemma get_video_stats_omitted (L : PyLib) (net : Net) (video_ids : list str)
    (stats : gmap str (option Z)) (w w' : World) (vid : str) :
  (forall history url items,
     body (videos_api net history url) = Data items ->
     vid ∉ List.map video_id items) ->
  get_video_stats L net video_ids w = (Ret stats, w') ->
  stats !! vid = None.
Proof.
  intros Homit. unfold get_video_stats, bind at 1, get_quota_exceeded.
  destruct (quota_exceeded (proc w) || bool_decide (video_ids = [])).
  - intros [= <- _]. apply lookup_empty.
  - unfold bind at 1. intros Hrun.
    rewrite (video_batches_other L net _ _ _ _ _ _ vid Homit Hrun).
    apply lookup_empty.
Qed.

Lemma sample_of_insert_None (stats : gmap str (option Z)) (vid : str)
    (v : PlaylistItem) :
  stats !! vid = None ->
  sample_of (<[vid := None]> stats) v = sample_of stats v.
Proof.
  intros Hnone. unfold sample_of.
  destruct (decide (vid = item_id v)) as [<- | Hne].
  - by rewrite lookup_insert_eq, Hnone.
  - by rewrite lookup_insert_ne.
Qed.

(** [summarize] reads the statistics through [stats.get] only. *)
Lemma summarize_ext (L : PyLib) (valid_videos : list PlaylistItem)
    (s1 s2 : gmap str (option Z)) :
  (forall v, sample_of s1 v = sample_of s2 v) ->
  summarize L valid_videos s1 = summarize L valid_videos s2.
Proof.
  intros Hext. rewrite !summarize_spec.
  assert (Hs : forall l, real_samples s1 l = real_samples s2 l).
  { intros l. induction l as [|v l IH]; [reflexivity|].
    rewrite !real_samples_cons, Hext, IH. reflexivity. }
  rewrite Hs. unfold first_value.
  destruct (sort_by _ _ _) as [|v vs]; [reflexivity|]. rewrite Hext. reflexivity.
Qed.

Lemma real_samples_app (stats : gmap str (option Z)) (l1 l2 : list PlaylistItem) :
  real_samples stats (l1 ++ l2) = real_samples stats l1 ++ real_samples stats l2.
Proof. unfold real_samples. apply omap_app. Qed.

(** ** Whole numbers in binary64 *)

Lemma scaled_num_scale (a c e : Z) : scaled_num (a * c) e = scaled_num a e * c.
Proof. unfold scaled_num. destruct (e <? 0); lia. Qed.

Lemma scaled_den_scale (b c e : Z) : scaled_den (b * c) e = scaled_den b e * c.
Proof. unfold scaled_den. destruct (e <? 0); lia. Qed.

Lemma at_least_pow2_scale (a b c k : Z) :
  0 < c -> at_least_pow2 (a * c) (b * c) k <-> at_least_pow2 a b k.
Proof.
  intros Hc. unfold at_least_pow2. rewrite scaled_num_scale, scaled_den_scale.
  symmetry. apply Z.mul_le_mono_pos_r. exact Hc.
Qed.

Lemma at_least_pow2_mono (a b j k : Z) :
  0 < a -> 0 < b -> j <= k -> at_least_pow2 a b k -> at_least_pow2 a b j.
Proof.
  intros Ha Hb Hjk. unfold at_least_pow2, scaled_den, scaled_num.
  destruct (k <? 0) eqn:Sk; [apply Z.ltb_lt in Sk | apply Z.ltb_ge in Sk];
    (destruct (j <? 0) eqn:Sj; [apply Z.ltb_lt in Sj | apply Z.ltb_ge in Sj]);
    intros H.
  - pose proof (pow2_le_mono (- k) (- j) ltac:(lia)).
    pose proof (pow2_pos (- k) ltac:(lia)). nia.
  - lia.
  - pose proof (pow2_pos (- j) ltac:(lia)). pose proof (pow2_pos k ltac:(lia)). nia.
  - pose proof (pow2_le_mono j k ltac:(lia)). pose proof (pow2_pos j ltac:(lia)). nia.
Qed.

Lemma binade_unique (a b l : Z) :
  0 < a -> 0 < b ->
  at_least_pow2 a b l -> ~ at_least_pow2 a b (l + 1) -> binade a b = l.
Proof.
  intros Ha Hb Hlo Hup.
  pose proof (binade_lower a b Ha Hb) as Blo.
  pose proof (binade_upper a b Ha Hb) as Bup.
  destruct (Z.lt_trichotomy (binade a b) l) as [Hlt | [Heq | Hgt]]; [|exact Heq|].
  - exfalso. apply Bup. apply (at_least_pow2_mono a b _ l); auto. lia.
  - exfalso. apply Hup. apply (at_least_pow2_mono a b _ (binade a b)); auto. lia.
Qed.

Lemma binade_scale (a b c : Z) :
  0 < a -> 0 < b -> 0 < c -> binade (a * c) (b * c) = binade a b.
Proof.
  intros Ha Hb Hc. apply binade_unique; try nia.
  - apply at_least_pow2_scale; [exact Hc | by apply binade_lower].
  - rewrite at_least_pow2_scale by exact Hc. by apply binade_upper.
Qed.

Lemma round_half_even_scale (n d c : Z) :
  0 < d -> 0 < c -> round_half_even (n * c) (d * c) = round_half_even n d.
Proof.
  intros Hd Hc. unfold round_half_even.
  rewrite Z.div_mul_cancel_r by lia.
  rewrite Z.mul_mod_distr_r by lia.
  replace (2 * (n mod d * c)) with (2 * (n mod d) * c) by lia.
  rewrite <- (Zmult_compare_compat_r (2 * (n mod d)) d c) by lia.
  reflexivity.
Qed.

(** The rounding depends on the quotient only. *)
Lemma round64_scale (a b c : Z) :
  0 <= a -> 0 < b -> 0 < c -> round64 (a * c) (b * c) = round64 a b.
Proof.
  intros Ha Hb Hc. unfold round64.
  destruct (Z.eq_dec a 0) as [-> | Hne]; [reflexivity|].
  replace (a * c =? 0) with false by (symmetry; apply Z.eqb_neq; nia).
  replace (a =? 0) with false by (symmetry; apply Z.eqb_neq; lia).
  rewrite binade_scale by lia.
  rewrite scaled_num_scale, scaled_den_scale.
  rewrite round_half_even_scale; [reflexivity | | exact Hc].
  unfold scaled_den. destruct (_ <? 0) eqn:S; [lia|].
  apply Z.ltb_ge in S. pose proof (pow2_pos _ S). nia.
Qed.

(** An integer below [2^53] is a binary64 value. *)
Lemma round64_int (n : Z) :
  0 < n < 2 ^ 53 -> exists s, 0 <= s /\ round64 n 1 = Some (n * 2 ^ s, - s).
Proof.
  intros [Hn Hn53]. unfold round64.
  replace (n =? 0) with false by (symmetry; apply Z.eqb_neq; lia).
  pose proof (binade_nonneg n 1 ltac:(lia) ltac:(lia)) as HL.
  pose proof (binade_lower n 1 Hn ltac:(lia)) as Hlo.
  set (L := binade n 1) in *.
  unfold at_least_pow2, scaled_den, scaled_num in Hlo.
  destruct (L <? 0) eqn:S; [apply Z.ltb_lt in S; lia|]. clear S.
  assert (HL53 : L < 53).
  { destruct (Z.lt_ge_cases L 53) as [|H53]; [assumption|].
    pose proof (pow2_le_mono 53 L ltac:(lia)). lia. }
  exists (52 - L). split; [lia|].
  replace (Z.max (L - 52) (-1074)) with (L - 52) by lia.
  assert (Hm : round_half_even (scaled_num n (L - 52)) (scaled_den 1 (L - 52))
               = n * 2 ^ (52 - L)).
  { unfold scaled_num, scaled_den.
    destruct (L - 52 <? 0) eqn:S; [apply Z.ltb_lt in S | apply Z.ltb_ge in S].
    - replace (- (L - 52)) with (52 - L) by lia.
      unfold round_half_even. rewrite Z.mod_1_r, Z.div_1_r. reflexivity.
    - replace (L - 52) with 0 by lia. replace (52 - L) with 0 by lia.
      unfold round_half_even. simpl (1 * 2 ^ 0). rewrite Z.mod_1_r, Z.div_1_r.
      simpl. lia. }
  rewrite Hm.
  replace ((971 <? L - 52) || (L - 52 =? 971) && (n * 2 ^ (52 - L) =? 2 ^ 53))
    with false.
  - do 2 f_equal. lia.
  - symmetry. apply orb_false_iff. split; [apply Z.ltb_ge; lia|].
    apply andb_false_iff. left. apply Z.eqb_neq. lia.
Qed.

Lemma is_integer_normalize (m e : Z) :
  0 <= m ->
  is_integer (normalize m e) = if e <? 0 then m mod 2 ^ (- e) =? 0 else true.
Proof.
  intros Hm. destruct m as [|p|p]; [| |lia].
  - simpl. destruct (e <? 0); [|reflexivity]. rewrite ?Zmod_0_l. reflexivity.
  - unfold normalize. destruct (strip_zeros_spec p e) as (H1 & H2 & H3).
    destruct (strip_zeros p e) as [m' e']. simpl in *.
    set (k := e' - e) in *. pose proof (pow2_pos k ltac:(lia)) as Hk.
    destruct (e' <? 0) eqn:S'; [apply Z.ltb_lt in S' | apply Z.ltb_ge in S'].
    + destruct (e <? 0) eqn:S; [|apply Z.ltb_ge in S; lia].
      pose proof (pow2_pos (- e') ltac:(lia)) as Hp.
      replace (2 ^ (- e)) with (2 ^ (- e') * 2 ^ k)
        by (rewrite <- Z.pow_add_r by lia; f_equal; lia).
      rewrite H3, Z.mul_mod_distr_r by lia.
      pose proof (Z.mod_pos_bound m' (2 ^ (- e')) Hp).
      destruct (Z.eqb_spec (m' mod 2 ^ (- e')) 0) as [E | E].
      * rewrite E. reflexivity.
      * symmetry. apply Z.eqb_neq. nia.
    + destruct (e <? 0) eqn:S; [apply Z.ltb_lt in S | reflexivity].
      pose proof (pow2_pos (- e) ltac:(lia)) as Hp.
      rewrite H3. replace (2 ^ k) with (2 ^ e' * 2 ^ (- e))
        by (rewrite <- Z.pow_add_r by lia; f_equal; lia).
      rewrite Z.mul_assoc, Z.mod_mul by lia. reflexivity.
Qed.

(** A whole decimal below [2^53] is returned as that integer. *)
Lemma int_if_whole_decimal (v : Z) (k : nat) :
  0 <= v < 2 ^ 53 ->
  int_if_whole (float_of_decimal (v * 10 ^ Z.of_nat k) k) = Some (NInt v).
Proof.
  intros [Hv Hv53]. unfold float_of_decimal.
  assert (Hc : 0 < 10 ^ Z.of_nat k) by (apply Z.pow_pos_nonneg; lia).
  rewrite <- (Z.mul_1_l (10 ^ Z.of_nat k)) at 2.
  rewrite round64_scale by lia.
  destruct (Z.eq_dec v 0) as [-> | Hne]; [reflexivity|].
  destruct (round64_int v ltac:(lia)) as (s & Hs & ->).
  pose proof (pow2_pos s Hs) as Hp.
  unfold int_if_whole.
  rewrite is_integer_normalize, int_of_float_normalize by nia.
  unfold truncated.
  destruct (- s <? 0) eqn:S; [apply Z.ltb_lt in S | apply Z.ltb_ge in S].
  - rewrite Z.opp_involutive, Z.mod_mul, Z.div_mul by lia. reflexivity.
  - replace s with 0 by lia. simpl. do 2 f_equal. lia.
Qed.

(** What [int_if_whole] returns. *)
Lemma int_if_whole_spec (f : float64) :
  (is_integer f = true /\
   exists z, int_of_float f = Some z /\ int_if_whole f = Some (NInt z))
  \/ (is_integer f = false /\ int_if_whole f = Some (NFloat f)).
Proof.
  unfold int_if_whole. destruct (is_integer f) eqn:E; [left | right; auto].
  split; [reflexivity|]. destruct f as [m e | |]; try discriminate.
  simpl. eexists. split; reflexivity.
Qed.

(** ** The episode parser *)

(** The matcher is sound: what it hands to its continuation is the rest of
    the subject after a text that the pattern matches. *)
Lemma rmatch_sound (L : PyLib) {R : Type} (r : regex) :
  forall (s : str) (cap : option str) (k : str -> option str -> option R) (x : R),
    rmatch L r s cap k = Some x ->
    exists t s' cap',
      s = t ++ s' /\ matches L r t cap cap' /\ k s' cap' = Some x.
Proof.
  induction r as [c | | | cs | r1 IH1 r2 IH2 | r IH | r IH | r IH];
    intros s cap k x H; simpl in H.
  - destruct s as [|y s]; [discriminate|].
    destruct (ieq L c y) eqn:E; [|discriminate].
    exists [y], s, cap. repeat split; [by constructor | exact H].
  - destruct s as [|y s]; [discriminate|].
    destruct (isspace L y) eqn:E; [|discriminate].
    exists [y], s, cap. repeat split; [by constructor | exact H].
  - destruct s as [|y s]; [discriminate|].
    destruct (decimal L y) as [d|] eqn:E; [|discriminate].
    exists [y], s, cap. repeat split; [by econstructor | exact H].
  - destruct s as [|y s]; [discriminate|].
    destruct (existsb _ cs) eqn:E; [|discriminate].
    exists [y], s, cap. repeat split; [by constructor | exact H].
  - apply IH1 in H as (t1 & s1 & c1 & -> & M1 & H).
    apply IH2 in H as (t2 & s2 & c2 & -> & M2 & H).
    exists (t1 ++ t2), s2, c2. rewrite app_assoc. repeat split; [|exact H].
    econstructor; eassumption.
  - revert H. generalize (length s) at 1. intros fuel. revert s cap.
    induction fuel as [|fuel IHf]; intros s cap H.
    + exists [], s, cap. repeat split; [constructor | exact H].
    + match type of H with
      | match ?m with _ => _ end = _ => destruct m as [y|] eqn:E
      end.
      * injection H as ->. apply IH in E as (t1 & s1 & c1 & -> & M1 & E).
        destruct (length s1 <? length (t1 ++ s1))%nat; [|discriminate].
        apply IHf in E as (t2 & s2 & c2 & -> & M2 & E).
        exists (t1 ++ t2), s2, c2. rewrite app_assoc. repeat split; [|exact E].
        econstructor; eassumption.
      * exists [], s, cap. repeat split; [constructor | exact H].
  - match type of H with
    | match ?m with _ => _ end = _ => destruct m as [y|] eqn:E
    end.
    + injection H as ->. apply IH in E as (t & s' & c' & -> & M & E).
      exists t, s', c'. repeat split; [by constructor | exact E].
    + exists [], s, cap. repeat split; [constructor | exact H].
  - apply IH in H as (t & s' & c' & -> & M & H).
    exists t, s', (Some t). repeat split; [econstructor; eassumption|].
    rewrite <- H. do 2 f_equal.
    rewrite length_app. replace (length t + length s' - length s')%nat with (length t) by lia.
    by rewrite take_app_length.
Qed.

Lemma matches_no_group (L : PyLib) (r : regex) (t : str) (c c' : option str) :
  matches L r t c c' -> has_group r = false -> c' = c.
Proof.
  induction 1; simpl; intros Hg; try reflexivity; try discriminate.
  - apply orb_false_iff in Hg as [H1 H2].
    rewrite IHmatches2, IHmatches1 by assumption. reflexivity.
  - rewrite IHmatches2, IHmatches1 by assumption. reflexivity.
  - apply IHmatches. exact Hg.
Qed.

(** The capture of a concatenation comes from the part with the group. *)
Lemma matches_cat_l (L : PyLib) (P : option str -> Prop) (r1 r2 : regex) :
  has_group r1 = false ->
  (forall t c c', matches L r2 t c c' -> P c') ->
  forall t c c', matches L (Cat r1 r2) t c c' -> P c'.
Proof. intros Hg H2 t c c' M. inversion M; subst. eapply H2; eassumption. Qed.

Lemma matches_cat_r (L : PyLib) (P : option str -> Prop) (r1 r2 : regex) :
  has_group r2 = false ->
  (forall t c c', matches L r1 t c c' -> P c') ->
  forall t c c', matches L (Cat r1 r2) t c c' -> P c'.
Proof.
  intros Hg H1 t c c' M. inversion M; subst.
  match goal with
  | H : matches L r2 _ _ _ |- _ => apply matches_no_group in H; [subst|exact Hg]
  end.
  eapply H1; eassumption.
Qed.

Lemma matches_lits (L : PyLib) (P : option str -> Prop) (s : str) (k : regex) :
  (forall t c c', matches L k t c c' -> P c') ->
  forall t c c', matches L (lits s k) t c c' -> P c'.
Proof.
  intros Hk. induction s as [|x s IH]; simpl; [exact Hk|].
  apply matches_cat_l; [reflexivity | exact IH].
Qed.

Lemma matches_star_digit (L : PyLib) (t : str) (c c' : option str) :
  matches L (Star Digit) t c c' -> Forall (digit L) t.
Proof.
  remember (Star Digit) as r eqn:Er. induction 1; try discriminate.
  - constructor.
  - injection Er as ->. apply Forall_app. split; [|by apply IHmatches2].
    match goal with H : matches L Digit _ _ _ |- _ => inversion H; subst end.
    repeat constructor. by eexists.
Qed.

Lemma matches_plus_digit (L : PyLib) (t : str) (c c' : option str) :
  matches L (Plus Digit) t c c' -> t <> [] /\ Forall (digit L) t.
Proof.
  unfold Plus. intros M. inversion M as [| | | | r1 r2 t1 t2 c0 c1 c2 M1 M2 | | | | |]; subst.
  inversion M1; subst. split; [discriminate|].
  constructor; [by eexists | eapply matches_star_digit; eassumption].
Qed.

Lemma digits_value_some (L : PyLib) (s : str) (acc : Z) :
  Forall (digit L) s -> is_Some (digits_value L s acc).
Proof.
  revert acc. induction s as [|x s IH]; intros acc H; simpl; [by eexists|].
  apply Forall_cons in H as [[d Hd] H]. rewrite Hd. by apply IH.
Qed.

Lemma digits_value_digits (L : PyLib) (s : str) (acc n : Z) :
  digits_value L s acc = Some n -> Forall (digit L) s.
Proof.
  revert acc. induction s as [|x s IH]; intros acc H; simpl in *; [constructor|].
  destruct (decimal L x) as [d|] eqn:E; [|discriminate].
  constructor; [by eexists | eapply IH; eassumption].
Qed.

Lemma split_point_digits (L : PyLib) (ip : str) (rest : option str) :
  decimal L 46%N = None ->
  Forall (digit L) ip ->
  split_point (ip ++ match rest with Some fp => 46%N :: fp | None => [] end)
  = (ip, rest).
Proof.
  intros Hpt. induction 1 as [|x ip [d Hx] Hip IH]; simpl.
  - destruct rest; reflexivity.
  - destruct (x =? 46)%N eqn:E.
    + apply N.eqb_eq in E. subst x. congruence.
    + rewrite IH. reflexivity.
Qed.

(** [float] accepts a decimal numeral and rounds the number it denotes. *)
Lemma float_of_str_number (L : PyLib) (text : str) (n : Z) (k : nat) :
  plain_point L ->
  number_text L text n k ->
  float_of_str L text = Some (float_of_decimal n k).
Proof.
  intros [Hpt _] (ip & fp & Hip & Hval & -> & ->).
  pose proof (digits_value_digits L _ _ _ Hval) as Hd.
  apply Forall_app in Hd as [Hdi Hdf].
  unfold float_of_str. destruct fp as [|y fp].
  - rewrite app_nil_r in Hval.
    rewrite <- (app_nil_r ip) at 1.
    rewrite (split_point_digits L ip None Hpt Hdi).
    destruct ip; [congruence|]. rewrite Hval. reflexivity.
  - rewrite (split_point_digits L ip (Some (y :: fp)) Hpt Hdi).
    destruct ip; [congruence|]. rewrite Hval. reflexivity.
Qed.

(** The capturing group of the patterns holds a decimal numeral. *)
Lemma matches_number_group (L : PyLib) (t : str) (c c' : option str) :
  plain_point L ->
  matches L number_group t c c' ->
  exists g n k, c' = Some g /\ number_text L g n k.
Proof.
  intros [Hpt Hdot] M. unfold number_group in M.
  inversion M as [| | | | | | | | | r t0 c0 c1 M0]; subst.
  inversion M0 as [| | | | r1 r2 t1 t2 c0 c2 c3 M1 M2 | | | | |]; subst.
  apply matches_plus_digit in M1 as [Hne Hd1].
  inversion M2 as [| | | | | | | r c0 | r t0 c0 c4 M3 |]; subst.
  - destruct (digits_value_some L t1 0 Hd1) as [n Hn].
    exists (t1 ++ []), n, 0%nat. split; [reflexivity|].
    exists t1, []. rewrite !app_nil_r. auto.
  - inversion M3 as [| | | | r1 r2 t3 t4 c0 c5 c6 M4 M5 | | | | |]; subst.
    inversion M4; subst.
    match goal with H : ieq L _ _ = true |- _ => apply Hdot in H; subst end.
    apply matches_plus_digit in M5 as [Hne2 Hd2].
    destruct (digits_value_some L (t1 ++ t4) 0) as [n Hn];
      [apply Forall_app; by split|].
    exists (t1 ++ [46%N] ++ t4), n, (length t4). split; [reflexivity|].
    exists t1, t4. destruct t4; [congruence|]. auto.
Qed.

Lemma pattern_captures_number (L : PyLib) (p : regex) (t : str) (c c' : option str) :
  plain_point L ->
  p ∈ patterns ->
  matches L p t c c' ->
  exists g n k, c' = Some g /\ number_text L g n k.
Proof.
  intros Hplain Hin. revert t c c'.
  assert (Hnum : forall t c c', matches L number_group t c c' ->
                   exists g n k, c' = Some g /\ number_text L g n k)
    by (intros; eapply matches_number_group; eassumption).
  assert (Hdotted : forall t c c', matches L dotted_number t c c' ->
                      exists g n k, c' = Some g /\ number_text L g n k).
  { unfold dotted_number. repeat (apply matches_cat_l; [reflexivity|]). exact Hnum. }
  assert (Hspaced : forall t c c', matches L (Cat (Star Space) number_group) t c c' ->
                      exists g n k, c' = Some g /\ number_text L g n k).
  { apply matches_cat_l; [reflexivity | exact Hnum]. }
  unfold patterns in Hin. rewrite !elem_of_cons, elem_of_nil in Hin.
  destruct Hin as [-> | [-> | [-> | [-> | [-> | [-> | [-> | []]]]]]]];
    apply matches_lits; try assumption.
  apply matches_cat_l; [reflexivity|].
  apply matches_cat_r; [reflexivity | exact Hnum].
Qed.

Lemma re_search_sound (L : PyLib) (r : regex) (s : str) (g : option str) :
  re_search L r s = Some g -> exists t, matches L r t None g.
Proof.
  induction s as [|x s IH]; simpl.
  - destruct (rmatch L r [] None _) as [y|] eqn:E; [|discriminate].
    intros [= <-]. apply rmatch_sound in E as (t & s' & c' & _ & M & [= <-]).
    by exists t.
  - destruct (rmatch L r (x :: s) None _) as [y|] eqn:E; [|exact IH].
    intros [= <-]. apply rmatch_sound in E as (t & s' & c' & _ & M & [= <-]).
    by exists t.
Qed.

Lemma int_if_whole_some (f : float64) : is_Some (int_if_whole f).
Proof.
  unfold int_if_whole. destruct f as [m e | |]; simpl; try by eexists.
  destruct (if e <? 0 then _ else _); by eexists.
Qed.

(** A match of a pattern always converts. *)
Lemma pattern_converts (L : PyLib) (p : regex) (title : str) (g : option str) :
  plain_point L ->
  p ∈ patterns ->
  re_search L p title = Some g ->
  exists text n k,
    g = Some text /\ number_text L text n k
    /\ (g ≫= float_of_str L) ≫= int_if_whole = int_if_whole (float_of_decimal n k).
Proof.
  intros Hplain Hin Hs. apply re_search_sound in Hs as [t M].
  destruct (pattern_captures_number L p t None g Hplain Hin M)
    as (text & n & k & -> & Hnum).
  exists text, n, k. repeat split; [exact Hnum|]. simpl.
  rewrite (float_of_str_number L text n k Hplain Hnum). reflexivity.
Qed.

Lemma parse_with_skip (L : PyLib) (ps1 ps2 : list regex) (title : str) :
  (forall q, q ∈ ps1 -> re_search L q title = None) ->
  parse_with L (ps1 ++ ps2) title = parse_with L ps2 title.
Proof.
  induction ps1 as [|q ps1 IH]; intros Hnone; simpl; [reflexivity|].
  rewrite (Hnone q) by (by left). apply IH. intros q' Hq'. apply Hnone. by right.
Qed.

Lemma parse_with_none (L : PyLib) (ps : list regex) (title : str) :
  (forall p g, p ∈ ps -> re_search L p title = Some g ->
     is_Some ((g ≫= float_of_str L) ≫= int_if_whole)) ->
  parse_with L ps title = None ->
  forall p, p ∈ ps -> re_search L p title = None.
Proof.
  induction ps as [|q ps IH]; intros Hconv Hnone p Hin;
    [by apply elem_of_nil in Hin|].
  simpl in Hnone. destruct (re_search L q title) as [g|] eqn:E.
  - destruct (Hconv q g ltac:(by left) E) as [x Hx]. rewrite Hx in Hnone.
    discriminate.
  - apply elem_of_cons in Hin as [-> | Hin]; [exact E|].
    apply IH; auto. intros p' g' Hp'. apply Hconv. by right.
Qed.

Lemma plain_point_ascii : plain_point ascii_lib.
Proof.
  split; [reflexivity|]. intros x H. cbn [ieq ascii_lib] in H.
  unfold Ascii.ieq in H.
  apply orb_true_iff in H as [H | H]; [apply orb_true_iff in H as [H | H]|].
  - by apply N.eqb_eq in H.
  - discriminate H.
  - discriminate H.
Qed.

(** * More of the program *)

(** ** What a call leaves alone *)

Section Preserves.
Context {B : Type} (f : World -> B).

Lemma preserves_ret {A} (a : A) : preserves f (ret a).
Proof. intros w. reflexivity. Qed.

Lemma preserves_raise {A} (e : exn) : preserves f (@raise A e).
Proof. intros w. reflexivity. Qed.

Lemma preserves_timeout {A} : preserves f (@timeout A).
Proof. intros w. reflexivity. Qed.

Lemma preserves_bind {A C} (m : M A) (k : A -> M C) :
  preserves f m -> (forall a, preserves f (k a)) -> preserves f (bind m k).
Proof.
  intros Hm Hk w. unfold bind. specialize (Hm w).
  destruct (m w) as [[a | e |] w1]; simpl in *; [|exact Hm..].
  rewrite Hk. exact Hm.
Qed.

Lemma preserves_try_except {A} (m : M A) (h : exn -> M A) :
  preserves f m -> (forall e, preserves f (h e)) -> preserves f (try_except m h).
Proof.
  intros Hm Hh w. unfold try_except. specialize (Hm w).
  destruct (m w) as [[a | e |] w1]; simpl in *; [exact Hm | | exact Hm].
  rewrite Hh. exact Hm.
Qed.

Lemma preserves_or_raise {A} (e : exn) (o : option A) : preserves f (or_raise e o).
Proof. destruct o; [apply preserves_ret | apply preserves_raise]. Qed.

Lemma preserves_get_quota_exceeded : preserves f get_quota_exceeded.
Proof. intros w. reflexivity. Qed.

Lemma preserves_get_self : preserves f get_self.
Proof. intros w. reflexivity. Qed.

End Preserves.

Create HintDb frame.
#[local] Hint Resolve preserves_ret preserves_raise preserves_timeout
  preserves_or_raise preserves_get_quota_exceeded preserves_get_self : frame.

(** The fetchers and the aggregator leave the script's side alone. *)
Lemma script_side_fetch {A} (api : list Request -> str -> Response A)
    (endpoint : str -> Request) (url : str) :
  preserves script_side (fetch api endpoint url).
Proof. intros w. reflexivity. Qed.

Lemma script_side__check_quota {A} (res : Response A) :
  preserves script_side (_check_quota res).
Proof. intros w. rewrite _check_quota_run. by destruct (quota_signal res). Qed.

#[local] Hint Resolve script_side_fetch script_side__check_quota : frame.

(** [frame_bind x]: through a [do x <- m; k], leaving the goal for [m] first *)
Tactic Notation "frame_bind" ident(x) := apply preserves_bind; [|intros x].

Lemma script_side_playlist_pages (net : Net) (fuel : nat) (playlist_id : str)
    (items : list PlaylistItem) (token : str) :
  preserves script_side (playlist_pages net fuel playlist_id items token).
Proof.
  revert items token. induction fuel as [|fuel IH]; intros items token; simpl;
    [auto with frame|].
  frame_bind self; [auto with frame|].
  frame_bind res; [auto with frame|].
  frame_bind exhausted; [auto with frame|].
  destruct exhausted; [auto with frame|].
  destruct (status_code res =? 404); [auto with frame|].
  destruct (negb _); [auto with frame|].
  destruct (body res) as [|reasons|data]; auto with frame.
  destruct (nextPageToken data) as [[|c t]|]; auto with frame.
Qed.

Lemma script_side_get_playlist_items (net : Net) (fuel : nat) (playlist_id : str) :
  preserves script_side (get_playlist_items net fuel playlist_id).
Proof.
  unfold get_playlist_items. frame_bind exhausted; [auto with frame|].
  destruct exhausted; [auto with frame | apply script_side_playlist_pages].
Qed.

Lemma script_side_video_batches (L : PyLib) (net : Net) (now_utc : Z)
    (bs : list (list str)) (stats_map : gmap str (option Z)) :
  preserves script_side (video_batches L net now_utc bs stats_map).
Proof.
  revert stats_map. induction bs as [|batch rest IH]; intros stats_map; simpl;
    [auto with frame|].
  frame_bind self; [auto with frame|].
  frame_bind res; [auto with frame|].
  frame_bind exhausted; [auto with frame|].
  destruct exhausted; [auto with frame|].
  destruct (status_code res =? 200); [|apply IH].
  destruct (body res) as [|reasons|items]; auto with frame.
  destruct (video_samples L now_utc items stats_map); auto with frame.
Qed.

Lemma script_side_get_video_stats (L : PyLib) (net : Net) (video_ids : list str) :
  preserves script_side (get_video_stats L net video_ids).
Proof.
  unfold get_video_stats. frame_bind exhausted; [auto with frame|].
  destruct (_ || _); [auto with frame|].
  frame_bind now_utc; [intros w; reflexivity|]. apply script_side_video_batches.
Qed.

Lemma script_side_process_anime (L : PyLib) (net : Net) (fuel : nat) (anime : Anime) :
  preserves script_side (process_anime L net fuel anime).
Proof.
  unfold process_anime. frame_bind exhausted; [auto with frame|].
  destruct exhausted; [auto with frame|].
  destruct (parse_offset L (offset anime)) as [offset_range offset_string].
  destruct (get_playlist_id L (link_url anime)) as [[|c playlist_id]|];
    auto with frame.
  frame_bind items; [apply script_side_get_playlist_items|].
  destruct items as [| |[|item items]]; auto with frame.
  frame_bind self; [auto with frame|].
  destruct (List.filter _ _) as [|v vs]; [auto with frame|].
  frame_bind stats; [apply script_side_get_video_stats|].
  frame_bind exhausted; [auto with frame|].
  destruct exhausted; [auto with frame|].
  destruct (summarize L (v :: vs) stats); auto with frame.
Qed.

Lemma script_side_read_region (L : PyLib) (net : Net) (fuel : nat)
    (anime_list : list Anime) (acc : list RegionResult * SheetState) :
  preserves script_side (read_region L net fuel anime_list acc).
Proof.
  revert acc. induction anime_list as [|anime rest IH]; intros acc; simpl;
    [auto with frame|].
  frame_bind exhausted; [auto with frame|].
  destruct exhausted; [auto with frame|].
  frame_bind acc'; [|apply IH].
  unfold read_anime. destruct acc as [rr st].
  frame_bind row_idx; [auto with frame|].
  frame_bind stats; [apply script_side_process_anime | auto with frame].
Qed.

Lemma script_side_process_regions (L : PyLib) (net : Net) (fuel : nat)
    (regions : list (str * list Anime)) (st : SheetState) :
  preserves script_side (process_regions L net fuel regions st).
Proof.
  revert st. induction regions as [|[name anime_list] rest IH]; intros st; simpl;
    [auto with frame|].
  frame_bind r; [apply script_side_read_region|].
  destruct r as [[rr st']|]; [apply IH | auto with frame].
Qed.

(** A call of the script posts once, whatever its outcome, and leaves the
    rest of the state alone. *)
Lemma _call_posts {A} (api : list (str * Action) -> Response (ScriptReply A))
    (ss_id : str) (action : Action) (w : World) :
  snd (_call api ss_id action w) = posted w ss_id action.
Proof.
  unfold _call, bind, post. simpl.
  destruct (negb _); [reflexivity|].
  destruct (body (api (posts w))) as [|reasons|result]; try reflexivity.
  destruct (bool_decide _); reflexivity.
Qed.

(** ** What a sheet posts *)

Lemma _call_run {A} (api : list (str * Action) -> Response (ScriptReply A))
    (ss_id : str) (action : Action) (w : World) :
  _call api ss_id action w = (call_outcome (api (posts w)), posted w ss_id action).
Proof.
  unfold _call, call_outcome, bind, post. simpl.
  destruct (negb _); [reflexivity|].
  destruct (body (api (posts w))) as [|reasons|result]; try reflexivity.
  destruct (bool_decide _); reflexivity.
Qed.

Lemma call_outcome_Ret {A} (response : Response (ScriptReply A)) (d : A) :
  call_outcome response = Ret d <-> accepted response d.
Proof.
  unfold call_outcome, accepted. split.
  - destruct (status_code response =? 200) eqn:E; simpl; [|discriminate].
    apply Z.eqb_eq in E. destruct (body response) as [|reasons|result]; try discriminate.
    destruct (bool_decide _) eqn:S; [|discriminate].
    apply bool_decide_eq_true in S. intros [= <-]. eauto.
  - intros (-> & result & -> & S & <-). simpl.
    rewrite bool_decide_eq_true_2 by exact S. reflexivity.
Qed.

Lemma call_outcome_no_timeout {A} (response : Response (ScriptReply A)) :
  call_outcome response <> Timeout.
Proof.
  unfold call_outcome. destruct (negb _); [discriminate|].
  destruct (body response) as [|reasons|result]; try discriminate.
  destruct (bool_decide _); discriminate.
Qed.

(** The read phase of a region leaves the batch and the watermarks alone. *)
Lemma read_region_keeps_batch (L : PyLib) (net : Net) (fuel : nat)
    (anime_list : list Anime) (acc acc' : list RegionResult * SheetState)
    (w w' : World) :
  read_region L net fuel anime_list acc w = (Ret (Some acc'), w') ->
  updates_batch acc'.2 = updates_batch acc.2
  /\ row_max_ep_map acc'.2 = row_max_ep_map acc.2.
Proof.
  revert acc w. induction anime_list as [|anime rest IH]; intros acc w; simpl.
  - intros [= <- _]. split; reflexivity.
  - unfold bind at 1, get_quota_exceeded.
    destruct (quota_exceeded (proc w)); [discriminate|].
    unfold bind at 1. destruct (read_anime L net fuel anime acc w) as [[acc1| |] w1] eqn:E;
      try discriminate.
    intros H. apply IH in H as [-> ->].
    unfold read_anime in E. destruct acc as [rr st].
    unfold bind at 1 in E. destruct (row_of L anime) as [row|]; [|discriminate].
    simpl in E. unfold bind at 1 in E.
    destruct (process_anime L net fuel anime w) as [[stats| |] w2]; try discriminate.
    injection E as <- _. split; reflexivity.
Qed.

Lemma append_row_nonempty (anime : Anime) (row_idx : Z)
    (row_updates : list CellUpdate) (batch : list RowUpdate) :
  rows_nonempty batch -> rows_nonempty (append_row anime row_idx row_updates batch).
Proof.
  intros H. destruct row_updates as [|c cs]; simpl; [exact H|].
  apply Forall_app. split; [exact H|]. by repeat constructor.
Qed.

Lemma plan_row_nonempty (ranks : gmap Z Z) (st : SheetState) (item : RegionResult) :
  rows_nonempty (updates_batch st) ->
  rows_nonempty (updates_batch (plan_row ranks st item)).
Proof.
  intros H. destruct (plan_row_batch ranks st item) as [more ->].
  by apply append_row_nonempty.
Qed.

Lemma plan_rows_nonempty (ranks : gmap Z Z) (l : list RegionResult) (st : SheetState) :
  rows_nonempty (updates_batch st) ->
  rows_nonempty (updates_batch (foldl (plan_row ranks) st l)).
Proof.
  revert st. induction l as [|x l IH]; intros st H; simpl; [exact H|].
  apply IH, plan_row_nonempty, H.
Qed.

Lemma process_regions_nonempty (L : PyLib) (net : Net) (fuel : nat)
    (regions : list (str * list Anime)) (st st' : SheetState) (w w' : World) :
  process_regions L net fuel regions st w = (Ret (Some st'), w') ->
  rows_nonempty (updates_batch st) -> rows_nonempty (updates_batch st').
Proof.
  revert st w. induction regions as [|[name anime_list] rest IH]; intros st w; simpl.
  - by intros [= <- _].
  - unfold bind at 1.
    destruct (read_region L net fuel anime_list ([], st) w) as [[[[rr st1]|]| |] w1] eqn:E;
      try discriminate.
    intros H Hst. apply IH in H; [exact H|].
    apply plan_rows_nonempty.
    apply read_region_keeps_batch in E as [E _]. simpl in E. by rewrite E.
Qed.

Lemma comprehensive_nonempty (L : PyLib) (regions : list (str * list Anime))
    (st : SheetState) (ups : list RowUpdate) :
  comprehensive_updates L regions st = Some ups -> rows_nonempty ups.
Proof.
  unfold comprehensive_updates. destruct regions as [|[name first_region_list] rest];
    [discriminate|].
  destruct (row_to_name_map L first_region_list ∅) as [names|]; [|discriminate].
  simpl. intros [= <-]. apply Forall_forall. intros ru Hru.
  apply elem_of_comprehensive in Hru as ([row cell_addr] & _ & Hru).
  unfold comp_rank_update in Hru.
  destruct (names !! row) as [[|c nm]|]; try (by apply elem_of_nil in Hru).
  apply list_elem_of_singleton in Hru. by subst ru.
Qed.

(** The last step of [process_single_sheet], from a state without the flag
    and with a batch to write. *)
Lemma sheet_write_tail (net : Net) (ss_id sheet_name : str)
    (w w2 w0 : World) (out : Outcome unit) (batch : list RowUpdate) :
  let read := (ss_id, GetSheetData sheet_name) in
  let write := (ss_id, UpdateData sheet_name batch) in
  posts w2 = posts w ++ [read] ->
  try_except
    (do resp <- batch_update net ss_id sheet_name batch;
     if resp then
       do sort_resp <- sort_data net ss_id sheet_name;
       if sort_resp then ret tt else raise AttributeError
     else raise AttributeError)
    (fun _ => ret tt) w2 = (out, w0) ->
  proc w0 = proc w2
  /\ (posts w0 = posts w ++ [read; write]
      \/ posts w0 = posts w ++ [read; write; (ss_id, SortData sheet_name)]
         /\ accepted (write_api net (posts w ++ [read]) ss_id
                        (UpdateData sheet_name batch)) true).
Proof.
  intros read write F.
  unfold try_except, bind at 1, batch_update. rewrite _call_run.
  set (w3 := posted w2 ss_id (UpdateData sheet_name batch)).
  assert (P3 : posts w3 = posts w ++ [read; write]).
  { unfold w3. cbn [posts posted]. rewrite F, <- app_assoc. reflexivity. }
  destruct (call_outcome _) as [[|]|e|] eqn:U; cbv beta iota;
    try (intros [= _ <-]; split; [reflexivity | left; exact P3]).
  unfold bind at 1, sort_data. rewrite _call_run.
  assert (P4 : posts (posted w3 ss_id (SortData sheet_name))
               = posts w ++ [read; write; (ss_id, SortData sheet_name)]).
  { cbn [posts posted]. rewrite P3, <- !app_assoc. reflexivity. }
  apply call_outcome_Ret in U. rewrite F in U.
  destruct (call_outcome _) as [[|]|e|] eqn:S; cbv beta iota;
    (intros [= _ <-]; split; [reflexivity | right; split; [exact P4 | exact U]]).
Qed.

(** [process_single_sheet], step by step: either it posts the read of the
    sheet and nothing else, or it got the data of the sheet, went through
    its regions without the quota running out, and wrote the batch: the
    rows planned for the regions, followed by the comprehensive ranks when
    a series has a cell for them. *)
Lemma process_single_sheet_run (L : PyLib) (net : Net) (fuel : nat)
    (ss_id sheet_name : str) (w : World) :
  let r := process_single_sheet L net fuel ss_id sheet_name w in
  let read := (ss_id, GetSheetData sheet_name) in
  posts r.2 = posts w ++ [read]
  \/ exists sheet_data st w2 batch,
       let write := (ss_id, UpdateData sheet_name batch) in
       get_sheet_data net ss_id sheet_name w
       = (Ret sheet_data, posted w ss_id (GetSheetData sheet_name))
       /\ process_regions L net fuel sheet_data empty_sheet_state
            (posted w ss_id (GetSheetData sheet_name)) = (Ret (Some st), w2)
       /\ quota_exceeded (proc w2) = false
       /\ (batch = updates_batch st
           \/ exists ups, comprehensive_updates L sheet_data st = Some ups
                          /\ batch = updates_batch st ++ ups)
       /\ batch <> []
       /\ proc r.2 = proc w2
       /\ (posts r.2 = posts w ++ [read; write]
           \/ posts r.2 = posts w ++ [read; write; (ss_id, SortData sheet_name)]
              /\ accepted (write_api net (posts w ++ [read]) ss_id
                             (UpdateData sheet_name batch)) true).
Proof.
  intros r read.
  destruct (process_single_sheet L net fuel ss_id sheet_name w) as [out w0] eqn:H.
  subst r. cbn [snd]. revert H. unfold process_single_sheet.
  unfold bind at 1, try_except, bind at 1.
  assert (Hd : get_sheet_data net ss_id sheet_name w
               = (call_outcome (sheet_data_api net (posts w) ss_id sheet_name),
                  posted w ss_id (GetSheetData sheet_name)))
    by apply _call_run.
  rewrite Hd. set (w1 := posted w ss_id (GetSheetData sheet_name)) in *.
  assert (P1 : posts w1 = posts w ++ [read]) by reflexivity.
  destruct (call_outcome _) as [[|region regions]|e|] eqn:E; cbv beta iota;
    try unfold ret at 1; cbv beta iota; try (intros [= _ <-]; left; exact P1).
  unfold bind at 1.
  pose proof (script_side_process_regions L net fuel (region :: regions)
                empty_sheet_state w1) as F.
  destruct (process_regions L net fuel (region :: regions) empty_sheet_state w1)
    as [[[st|]| |] w2] eqn:R; cbn [snd] in F; injection F as F _;
    change (posts w2 = posts w ++ [read]) in F;
    try (intros [= _ <-]; left; exact F).
  unfold bind at 1, get_quota_exceeded. cbv beta iota.
  destruct (quota_exceeded (proc w2)) eqn:Q; cbn [negb andb].
  - unfold bind at 1, ret at 1. cbv beta iota. unfold bind at 1.
    rewrite Q, andb_false_r. intros [= _ <-]. left. exact F.
  - unfold bind at 1.
    assert (Hgo : forall batch,
              (batch = updates_batch st
               \/ exists ups, comprehensive_updates L (region :: regions) st = Some ups
                              /\ batch = updates_batch st ++ ups) ->
              (do exhausted <- get_quota_exceeded;
               if negb (bool_decide (batch = [])) && negb exhausted then
                 try_except
                   (do resp <- batch_update net ss_id sheet_name batch;
                    if resp then
                      do sort_resp <- sort_data net ss_id sheet_name;
                      if sort_resp then ret tt else raise AttributeError
                    else raise AttributeError)
                   (fun _ => ret tt)
               else ret tt) w2 = (out, w0) ->
              posts w0 = posts w ++ [read]
              \/ exists sheet_data st w2 batch,
                   let write := (ss_id, UpdateData sheet_name batch) in
                   (@Ret (list (str * list Anime)) (region :: regions), w1)
                   = (Ret sheet_data, w1)
                   /\ process_regions L net fuel sheet_data empty_sheet_state w1
                      = (Ret (Some st), w2)
                   /\ quota_exceeded (proc w2) = false
                   /\ (batch = updates_batch st
                       \/ exists ups, comprehensive_updates L sheet_data st = Some ups
                                      /\ batch = updates_batch st ++ ups)
                   /\ batch <> []
                   /\ proc w0 = proc w2
                   /\ (posts w0 = posts w ++ [read; write]
                       \/ posts w0 = posts w ++ [read; write; (ss_id, SortData sheet_name)]
                          /\ accepted (write_api net (posts w ++ [read]) ss_id
                                         (UpdateData sheet_name batch)) true)).
    { intros batch Hb. unfold bind at 1, get_quota_exceeded. rewrite Q, andb_true_r.
      destruct (bool_decide (batch = [])) eqn:Eb; cbn [negb];
        [intros [= _ <-]; left; exact F|].
      apply bool_decide_eq_false in Eb. intros Ht.
      apply (sheet_write_tail net ss_id sheet_name w w2 w0 out batch F) in Ht
        as [Hp Hposts].
      right. exists (region :: regions), st, w2, batch.
      cbv zeta. repeat split; assumption. }
    destruct (bool_decide (global_comp_rank_cell_map st = [])); cbn [negb].
    + unfold ret at 1. cbv beta iota. apply Hgo. by left.
    + unfold bind at 1.
      destruct (comprehensive_updates L (region :: regions) st) as [ups|] eqn:C;
        cbn [or_raise]; unfold ret at 1, raise at 1; cbv beta iota;
        [|intros [= _ <-]; left; exact F].
      unfold ret at 1. cbv beta iota. apply Hgo. right. by exists ups.
Qed.

(** What [process_single_sheet] posts: the read of the sheet; then, at
    most, one write of a batch that is not empty and has no empty row,
    made with the quota flag not set; then, only when the script accepted
    the write, the call that sorts the sheet. *)
Theorem sheet_write_protocol (L : PyLib) (net : Net) (fuel : nat)
    (ss_id sheet_name : str) (w : World) :
  let w' := snd (process_single_sheet L net fuel ss_id sheet_name w) in
  let read := (ss_id, GetSheetData sheet_name) in
  posts w' = posts w ++ [read]
  \/ exists batch,
       let write := (ss_id, UpdateData sheet_name batch) in
       batch <> [] /\ rows_nonempty batch
       /\ quota_exceeded (proc w') = false
       /\ (posts w' = posts w ++ [read; write]
           \/ posts w' = posts w ++ [read; write; (ss_id, SortData sheet_name)]
              /\ accepted (write_api net (posts w ++ [read]) ss_id
                             (UpdateData sheet_name batch)) true).
Proof.
  intros w' read.
  destruct (process_single_sheet_run L net fuel ss_id sheet_name w)
    as [H | (sheet_data & st & w2 & batch & _ & R & Q & Hb & Hne & Hp & Hposts)];
    [by left|].
  right. exists batch. split; [exact Hne|].
  apply process_regions_nonempty in R; [|constructor].
  split; [|split; [unfold w'; by rewrite Hp | exact Hposts]].
  destruct Hb as [-> | (ups & C & ->)]; [exact R|].
  apply Forall_app. split; [exact R | eapply comprehensive_nonempty, C].
Qed.

(** ** The notices of a run *)

Lemma configured_cons (ss_id : str) (rest : list str) :
  configured (ss_id :: rest)
  = if bool_decide (ss_id = []) then configured rest else ss_id :: configured rest.
Proof. unfold configured. simpl. by destruct (bool_decide _). Qed.

Lemma stamps_cons (now_str ss_id : str) (rest : list str) :
  stamps now_str (ss_id :: rest)
  = if bool_decide (ss_id = []) then stamps now_str rest
    else (ss_id, UpdateTimestamp now_str) :: stamps now_str rest.
Proof. unfold stamps. rewrite configured_cons. by destruct (bool_decide _). Qed.

Section PostsOnly.
Context (P : str * Action -> Prop).

Lemma posts_only_quiet {A} (m : M A) : preserves script_side m -> posts_only P m.
Proof.
  intros H w. specialize (H w). injection H as Hp Hn.
  split; [exact Hn|]. exists []. rewrite app_nil_r. by split.
Qed.

Lemma posts_only_bind {A C} (m : M A) (k : A -> M C) :
  posts_only P m -> (forall a, posts_only P (k a)) -> posts_only P (bind m k).
Proof.
  intros Hm Hk w. unfold bind. destruct (Hm w) as (Hn & new & Hp & HP).
  destruct (m w) as [[a | e |] w1]; simpl in *; [|by eauto..].
  destruct (Hk a w1) as (Hn' & new' & Hp' & HP').
  split; [congruence|]. exists (new ++ new').
  split; [by rewrite Hp', Hp, app_assoc | by apply Forall_app].
Qed.

Lemma posts_only_try_except {A} (m : M A) (h : exn -> M A) :
  posts_only P m -> (forall e, posts_only P (h e)) -> posts_only P (try_except m h).
Proof.
  intros Hm Hh w. unfold try_except. destruct (Hm w) as (Hn & new & Hp & HP).
  destruct (m w) as [[a | e |] w1]; simpl in *; [by eauto| |by eauto].
  destruct (Hh e w1) as (Hn' & new' & Hp' & HP').
  split; [congruence|]. exists (new ++ new').
  split; [by rewrite Hp', Hp, app_assoc | by apply Forall_app].
Qed.

Lemma posts_only__call {A} (api : list (str * Action) -> Response (ScriptReply A))
    (ss_id : str) (action : Action) :
  P (ss_id, action) -> posts_only P (_call api ss_id action).
Proof.
  intros HP w. rewrite _call_posts. split; [reflexivity|].
  exists [(ss_id, action)]. split; [reflexivity | by constructor].
Qed.

End PostsOnly.

(** a step that posts nothing *)
Ltac quiet := apply posts_only_quiet; solve [auto with frame].

Lemma posts_only_process_single_sheet (L : PyLib) (net : Net) (fuel : nat)
    (ss_id sheet_name : str) :
  posts_only (fun p => is_timestamp p = false)
    (process_single_sheet L net fuel ss_id sheet_name).
Proof.
  unfold process_single_sheet.
  apply posts_only_bind.
  { apply posts_only_try_except; [|intros e; quiet].
    apply posts_only_bind; [by apply posts_only__call|].
    intros d. quiet. }
  intros [[|region regions]|]; try (quiet).
  apply posts_only_bind;
    [apply posts_only_quiet, script_side_process_regions|].
  intros [st|]; [|quiet].
  apply posts_only_bind; [quiet|].
  intros exhausted. apply posts_only_bind.
  { destruct (_ && _); apply posts_only_quiet; [|auto with frame].
    apply preserves_bind; [auto with frame|]. intros ups. auto with frame. }
  intros batch. apply posts_only_bind; [quiet|].
  intros exhausted'. destruct (_ && _); [|quiet].
  apply posts_only_try_except; [|intros e; quiet].
  apply posts_only_bind; [by apply posts_only__call|].
  intros [|]; [|quiet].
  apply posts_only_bind; [by apply posts_only__call|].
  intros [|]; quiet.
Qed.

Lemma posts_only_process_target_sheets (L : PyLib) (net : Net) (fuel : nat)
    (ss_id : str) (target_sheets : list str) :
  posts_only (fun p => is_timestamp p = false)
    (process_target_sheets L net fuel ss_id target_sheets).
Proof.
  induction target_sheets as [|sheet_name rest IH]; simpl;
    [quiet|].
  apply posts_only_bind; [quiet|].
  intros [|]; [quiet|].
  apply posts_only_bind; [apply posts_only_process_single_sheet|].
  intros _. exact IH.
Qed.

Lemma posts_only_process_spreadsheets (L : PyLib) (net : Net) (fuel : nat)
    (today_key : str) (spreadsheet_ids : list str) :
  posts_only (fun p => is_timestamp p = false)
    (process_spreadsheets L net fuel today_key spreadsheet_ids).
Proof.
  induction spreadsheet_ids as [|ss_id rest IH]; simpl;
    [quiet|].
  destruct (bool_decide (ss_id = [])); [exact IH|].
  apply posts_only_bind; [by apply posts_only__call|].
  intros schedule.
  apply posts_only_bind; [apply posts_only_process_target_sheets|].
  intros _. exact IH.
Qed.

(** The loop that writes the time stops at the first spreadsheet that
    refuses: it has then posted to it and to those before. *)
Lemma update_timestamps_run (net : Net) (now_str : str) (spreadsheet_ids : list str)
    (w w' : World) (out : Outcome unit) :
  update_timestamps net now_str spreadsheet_ids w = (out, w') ->
  let all := stamps now_str spreadsheet_ids in
  notices w' = notices w
  /\ ((out = Ret tt /\ posts w' = posts w ++ all)
      \/ exists e k,
           out = Raise e /\ (k < length all)%nat
           /\ posts w' = posts w ++ take (S k) all).
Proof.
  revert w. induction spreadsheet_ids as [|ss_id rest IH]; intros w; simpl.
  - intros [= <- <-]. split; [reflexivity|]. left. by rewrite app_nil_r.
  - rewrite stamps_cons.
    destruct (bool_decide (ss_id = [])) eqn:E; [apply IH|].
    unfold bind at 1, update_system_time. rewrite _call_run.
    destruct (call_outcome _) as [[|]|e|] eqn:U.
    + intros H. apply IH in H as (Hn & H). split; [exact Hn|].
      destruct H as [[-> Hp] | (e & k & -> & Hk & Hp)].
      * left. split; [reflexivity|]. rewrite Hp. cbn [posts posted].
        by rewrite <- app_assoc.
      * right. exists e, (S k). split; [reflexivity|].
        split; [simpl; lia|].
        rewrite Hp. cbn [posts posted]. by rewrite <- app_assoc.
    + intros [= <- <-]. split; [reflexivity|]. right. exists AttributeError, 0%nat.
      split; [reflexivity|]. split; [simpl; lia|]. reflexivity.
    + intros [= <- <-]. split; [reflexivity|]. right. exists e, 0%nat.
      split; [reflexivity|]. split; [simpl; lia|]. reflexivity.
    + by apply call_outcome_no_timeout in U.
Qed.

(** [main] never raises. A run that ends sends exactly one notice: the
    fatal error, and then no time has been written; the error met while
    the time was written, to some of the spreadsheets; or the heartbeat,
    and then the time has been written once to every configured
    spreadsheet, after all the other calls. *)
Theorem main_reports_once (L : PyLib) (net : Net) (fuel : nat)
    (spreadsheet_ids : list str) (today_key now_str : str) (w : World) :
  let r := main L net fuel spreadsheet_ids today_key now_str w in
  let all := stamps now_str spreadsheet_ids in
  (forall e, r.1 <> Raise e)
  /\ (r.1 = Ret tt ->
      exists work n,
        Forall (fun p => is_timestamp p = false) work
        /\ notices r.2 = notices w ++ [n]
        /\ match n with
           | FatalError _ => posts r.2 = posts w ++ work
           | TimestampError _ =>
               exists k, (k < length all)%nat
                         /\ posts r.2 = posts w ++ work ++ take (S k) all
           | Heartbeat => posts r.2 = posts w ++ work ++ all
           end).
Proof.
  intros r all.
  destruct (main L net fuel spreadsheet_ids today_key now_str w) as [out w'] eqn:H.
  subst r. cbn [fst snd]. revert H. unfold main.
  unfold bind at 1, try_except at 1, bind at 1.
  destruct (posts_only_process_spreadsheets L net fuel today_key spreadsheet_ids w)
    as (Hn & work & Hp & Hwork).
  destruct (process_spreadsheets L net fuel today_key spreadsheet_ids w)
    as [[[]|e|] w1]; cbn [snd] in Hn, Hp; cbv beta iota.
  - unfold ret at 1. cbv beta iota. unfold bind at 1, try_except at 1, bind at 1.
    destruct (update_timestamps net now_str spreadsheet_ids w1) as [o w2] eqn:T.
    apply update_timestamps_run in T as (Hn' & T). fold all in T.
    destruct o as [[]|e|]; cbv beta iota.
    + intros [= <- <-]. split; [discriminate|]. intros _. exists work, Heartbeat.
      split; [exact Hwork|]. cbn. split; [congruence|].
      destruct T as [[_ T] | (e & k & T & _)]; [|discriminate].
      by rewrite T, Hp, <- app_assoc.
    + intros [= <- <-]. split; [discriminate|]. intros _.
      exists work, (TimestampError e).
      split; [exact Hwork|]. cbn. split; [congruence|].
      destruct T as [[T _] | (e' & k & _ & Hk & T)]; [discriminate|].
      exists k. split; [exact Hk|]. by rewrite T, Hp, <- app_assoc.
    + intros [= <- <-]. split; discriminate.
  - intros [= <- <-]. split; [discriminate|]. intros _. exists work, (FatalError e).
    split; [exact Hwork|]. cbn. split; [congruence | exact Hp].
  - intros [= <- <-]. split; discriminate.
Qed.

(** No schedule can be read: the run ends with the one notice of the
    fatal error. *)
Lemma main_reports_once_witness :
  let net := net_of (fun _ => failed 500 []) (fun _ => ok []) in
  let w := start (init (u "KEY")) in
  let r := main ascii_lib net 3 [u "S1"; []; u "S3"] (u "1") (u "now") w in
  exists work n,
    Forall (fun p => is_timestamp p = false) work
    /\ notices r.2 = notices w ++ [n]
    /\ match n with
       | FatalError _ => posts r.2 = posts w ++ work
       | TimestampError _ =>
           exists k, (k < length (stamps (u "now") [u "S1"; []; u "S3"]))%nat
                     /\ posts r.2
                        = posts w ++ work
                          ++ take (S k) (stamps (u "now") [u "S1"; []; u "S3"])
       | Heartbeat => posts r.2 = posts w ++ work ++ stamps (u "now") [u "S1"; []; u "S3"]
       end.
Proof.
  intros net w r.
  apply (proj2 (main_reports_once ascii_lib net 3 [u "S1"; []; u "S3"] (u "1")
                  (u "now") w)).
  vm_compute. reflexivity.
Defined.

(** The loops of [main] over the spreadsheets, on the configured ids. *)
Lemma process_spreadsheets_configured (L : PyLib) (net : Net) (fuel : nat)
    (today_key : str) (spreadsheet_ids : list str) (w : World) :
  process_spreadsheets L net fuel today_key spreadsheet_ids w
  = process_spreadsheets L net fuel today_key (configured spreadsheet_ids) w.
Proof.
  revert w. induction spreadsheet_ids as [|ss_id rest IH]; intros w; [reflexivity|].
  rewrite configured_cons. simpl.
  destruct (bool_decide (ss_id = [])) eqn:E; [apply IH|].
  simpl. rewrite E. unfold bind at 1 3.
  destruct (get_schedule net ss_id w) as [[schedule|e|] w1]; try reflexivity.
  unfold bind.
  destruct (process_target_sheets L net fuel ss_id _ w1) as [[[]|e|] w2];
    try reflexivity.
  apply IH.
Qed.

Lemma update_timestamps_configured (net : Net) (now_str : str)
    (spreadsheet_ids : list str) (w : World) :
  update_timestamps net now_str spreadsheet_ids w
  = update_timestamps net now_str (configured spreadsheet_ids) w.
Proof.
  revert w. induction spreadsheet_ids as [|ss_id rest IH]; intros w; [reflexivity|].
  rewrite configured_cons. simpl.
  destruct (bool_decide (ss_id = [])) eqn:E; [apply IH|].
  simpl. rewrite E. unfold bind.
  destruct (update_system_time net ss_id now_str w) as [[[|]|e|] w1];
    try reflexivity.
  apply IH.
Qed.

(** The spreadsheet ids that are not set (empty strings) are passed over
    by both loops of [main]: the run is that over the configured ids. *)
Theorem main_passes_over_unset_ids (L : PyLib) (net : Net) (fuel : nat)
    (spreadsheet_ids : list str) (today_key now_str : str) (w : World) :
  main L net fuel spreadsheet_ids today_key now_str w
  = main L net fuel (configured spreadsheet_ids) today_key now_str w.
Proof.
  unfold main, bind, try_except. cbv beta.
  rewrite <- process_spreadsheets_configured.
  destruct (process_spreadsheets L net fuel today_key spreadsheet_ids w)
    as [[[]|e|] w1]; try reflexivity.
  unfold ret. cbv beta iota.
  rewrite <- update_timestamps_configured. reflexivity.
Qed.

(** ** The contract of [AnimeAPI._call] *)

(** [_call] posts once, whatever the answer. It returns the [data] of the
    answer exactly when the script accepted the call; an answer in JSON
    with another [status] raises the error that carries its [message]. *)
Theorem _call_contract {A} (api : list (str * Action) -> Response (ScriptReply A))
    (ss_id : str) (action : Action) (w : World) :
  let r := _call api ss_id action w in
  let response := api (posts w) in
  r.2 = posted w ss_id action
  /\ r.1 <> Timeout
  /\ (forall d, r.1 = Ret d <-> accepted response d)
  /\ (forall result,
        status_code response = 200 ->
        body response = Data result ->
        reply_status result <> Some (u "success") ->
        r.1 = Raise (ApiError (reply_message result))).
Proof.
  intros r response. subst r. rewrite _call_run. cbn [fst snd]. fold response.
  split; [reflexivity|]. split; [apply call_outcome_no_timeout|].
  split; [intros d; apply call_outcome_Ret|].
  intros result Hs Hb Hne. unfold call_outcome. rewrite Hs, Hb. simpl.
  by rewrite bool_decide_eq_false_2.
Qed.

Lemma _call_contract_witness :
  let api := fun _ : list (str * Action) =>
               ok {| reply_status := Some (u "error");
                     reply_message := Some (u "no such sheet");
                     reply_data := true |} in
  fst (_call api (u "SS") (SortData (u "Sheet")) (start (init (u "KEY"))))
  = Raise (ApiError (Some (u "no such sheet"))).
Proof.
  intros api.
  refine (proj2 (proj2 (proj2 (_call_contract api (u "SS") (SortData (u "Sheet"))
                                 (start (init (u "KEY"))))))
            _ eq_refl eq_refl _).
  vm_compute. discriminate.
Defined.

(** ** A name cell without a row number *)

Lemma read_region_flagged (L : PyLib) (net : Net) (fuel : nat)
    (anime_list : list Anime) (acc : list RegionResult * SheetState) (w w' : World) :
  read_region L net fuel anime_list acc w = (Ret None, w') ->
  quota_exceeded (proc w') = true.
Proof.
  revert acc w. induction anime_list as [|a rest IH]; intros acc w; simpl;
    [discriminate|].
  unfold bind at 1, get_quota_exceeded.
  destruct (quota_exceeded (proc w)) eqn:Q; [by intros [= <-]|].
  unfold bind at 1. destruct (read_anime L net fuel a acc w) as [[acc1|e|] w1];
    try discriminate.
  apply IH.
Qed.

Lemma read_region_bad_row (L : PyLib) (net : Net) (fuel : nat)
    (anime_list : list Anime) (anime : Anime)
    (acc acc' : list RegionResult * SheetState) (w w' : World) :
  anime ∈ anime_list -> row_of L anime = None ->
  read_region L net fuel anime_list acc w <> (Ret (Some acc'), w').
Proof.
  intros Hin Hbad. revert acc w.
  induction anime_list as [|a rest IH]; intros acc w; simpl;
    [by apply elem_of_nil in Hin|].
  unfold bind at 1, get_quota_exceeded.
  destruct (quota_exceeded (proc w)); [discriminate|].
  unfold bind at 1.
  destruct (read_anime L net fuel a acc w) as [[acc1|e|] w1] eqn:E;
    try discriminate.
  apply elem_of_cons in Hin as [<- | Hin]; [|by apply IH].
  unfold read_anime in E. destruct acc as [rr st].
  unfold bind at 1 in E. rewrite Hbad in E. discriminate E.
Qed.

Lemma process_regions_flagged (L : PyLib) (net : Net) (fuel : nat)
    (regions : list (str * list Anime)) (st : SheetState) (w w' : World) :
  process_regions L net fuel regions st w = (Ret None, w') ->
  quota_exceeded (proc w') = true.
Proof.
  revert st w. induction regions as [|[name anime_list] rest IH]; intros st w; simpl;
    [discriminate|].
  unfold bind at 1.
  destruct (read_region L net fuel anime_list ([], st) w) as [[[[rr st1]|]|e|] w1] eqn:E;
    try discriminate.
  - apply IH.
  - intros [= <-]. eapply read_region_flagged, E.
Qed.

Lemma process_regions_bad_row (L : PyLib) (net : Net) (fuel : nat)
    (regions : list (str * list Anime)) (region : str * list Anime) (anime : Anime)
    (st st' : SheetState) (w w' : World) :
  region ∈ regions -> anime ∈ region.2 -> row_of L anime = None ->
  process_regions L net fuel regions st w <> (Ret (Some st'), w').
Proof.
  intros Hr Hin Hbad. revert st w.
  induction regions as [|[name anime_list] rest IH]; intros st w; simpl;
    [by apply elem_of_nil in Hr|].
  unfold bind at 1.
  destruct (read_region L net fuel anime_list ([], st) w) as [[[[rr st1]|]|e|] w1] eqn:E;
    try discriminate.
  apply elem_of_cons in Hr as [-> | Hr]; [|by apply IH].
  exfalso. eapply read_region_bad_row; [exact Hin | exact Hbad | exact E].
Qed.

(** [int(anime['name_cell'][1:])] raises when the text after the first
    character of the name cell is no number (a cell in a column of two
    letters, say). With such a series anywhere on the sheet, nothing is
    written to the sheet: the call raises, or runs out of quota before it
    gets to the series. When the series is the first of the sheet, the
    [ValueError] is raised right after the sheet was read. *)
Theorem row_without_number_stops_sheet (L : PyLib) (net : Net) (fuel : nat)
    (ss_id sheet_name : str) (sheet_data : list (str * list Anime)) (w w1 : World) :
  get_sheet_data net ss_id sheet_name w = (Ret sheet_data, w1) ->
  (forall region anime,
     region ∈ sheet_data -> anime ∈ region.2 -> row_of L anime = None ->
     let r := process_single_sheet L net fuel ss_id sheet_name w in
     posts r.2 = posts w ++ [(ss_id, GetSheetData sheet_name)]
     /\ (r.1 = Ret tt -> quota_exceeded (proc r.2) = true))
  /\ (forall name anime rest regions,
        sheet_data = (name, anime :: rest) :: regions ->
        row_of L anime = None ->
        quota_exceeded (proc w) = false ->
        process_single_sheet L net fuel ss_id sheet_name w = (Raise ValueError, w1)).
Proof.
  intros Hd.
  assert (Hw1 : w1 = posted w ss_id (GetSheetData sheet_name)).
  { unfold get_sheet_data in Hd. rewrite _call_run in Hd. by injection Hd. }
  assert (Hrun : forall region regions out w2,
             sheet_data = region :: regions ->
             process_regions L net fuel sheet_data empty_sheet_state w1 = (out, w2) ->
             (forall st, out <> Ret (Some st)) ->
             process_single_sheet L net fuel ss_id sheet_name w
             = (match out with
                | Ret _ => Ret tt
                | Raise e => Raise e
                | Timeout => Timeout
                end, w2)).
  { intros region regions out w2 Es R Hout.
    unfold process_single_sheet, bind at 1, try_except, bind at 1. rewrite Hd, Es.
    cbv beta iota. unfold ret at 1. cbv beta iota. unfold bind at 1.
    rewrite <- Es, R.
    destruct out as [[st|]|e|]; try reflexivity. by destruct (Hout st). }
  split.
  - intros region anime Hr Hin Hbad r. subst r.
    destruct sheet_data as [|region0 regions] eqn:Es; [by apply elem_of_nil in Hr|].
    rewrite <- Es in *.
    pose proof (script_side_process_regions L net fuel sheet_data
                  empty_sheet_state w1) as F.
    destruct (process_regions L net fuel sheet_data empty_sheet_state w1)
      as [out w2] eqn:R. cbn [snd] in F. injection F as F _. rewrite Hw1 in F.
    assert (Hout : forall st, out <> Ret (Some st)).
    { intros st ->.
      eapply process_regions_bad_row; [exact Hr | exact Hin | exact Hbad | exact R]. }
    rewrite (Hrun region0 regions out w2 Es eq_refl Hout). cbn [fst snd].
    split; [exact F|].
    destruct out as [[st|]|e|]; try discriminate; [by destruct (Hout st)|].
    intros _. eapply process_regions_flagged, R.
  - intros name anime rest regions Es Hbad Q.
    assert (Q1 : quota_exceeded (proc w1) = false) by (rewrite Hw1; exact Q).
    assert (R : process_regions L net fuel sheet_data empty_sheet_state w1
                = (Raise ValueError, w1)).
    { rewrite Es. simpl. unfold bind at 1. unfold bind at 1, get_quota_exceeded.
      rewrite Q1. unfold bind at 1, read_anime, bind at 1. rewrite Hbad. reflexivity. }
    rewrite (Hrun _ _ _ _ Es R); [reflexivity | discriminate].
Qed.

Lemma row_without_number_stops_sheet_witness :
  let net := with_sheet (net_of (fun _ => failed 500 []) (fun _ => ok []))
               [ (u "TW", [series "X" "A12" None]) ] in
  let w := start (init (u "KEY")) in
  process_single_sheet ascii_lib net 3 (u "SS") (u "Sheet") w
  = (Raise ValueError, posted w (u "SS") (GetSheetData (u "Sheet"))).
Proof.
  intros net w.
  assert (Hd : get_sheet_data net (u "SS") (u "Sheet") w
               = (Ret [ (u "TW", [series "X" "A12" None]) ],
                  posted w (u "SS") (GetSheetData (u "Sheet"))))
    by (vm_compute; reflexivity).
  assert (Hbad : row_of ascii_lib (series "X" "A12" None) = None)
    by (vm_compute; reflexivity).
  exact (proj2 (row_without_number_stops_sheet ascii_lib net 3 (u "SS") (u "Sheet")
                  _ w _ Hd)
           (u "TW") (series "X" "A12" None) [] [] eq_refl Hbad eq_refl).
Defined.

(** ** The sheets due *)

Lemma str_ltb_asym (a b : str) : str_ltb a b = true -> str_ltb b a = false.
Proof.
  revert b. induction a as [|x a IH]; intros [|y b]; simpl; try done.
  intros H. apply orb_true_iff in H as [H | H].
  - apply N.ltb_lt in H. apply orb_false_iff. split; [apply N.ltb_ge; lia|].
    apply andb_false_iff. left. apply N.eqb_neq. lia.
  - apply andb_true_iff in H as [E H]. apply N.eqb_eq in E. subst y.
    rewrite N.ltb_irrefl, N.eqb_refl. simpl. by apply IH.
Qed.

Lemma str_ltb_ge_trans (a b c : str) :
  str_ltb b a = false -> str_ltb c b = false -> str_ltb c a = false.
Proof.
  revert b c. induction a as [|x a IH]; intros [|y b] [|z c]; simpl; try done.
  intros H1 H2.
  apply orb_false_iff in H1 as [L1 E1]. apply orb_false_iff in H2 as [L2 E2].
  apply N.ltb_ge in L1, L2. apply orb_false_iff. split; [apply N.ltb_ge; lia|].
  destruct (z =? x)%N eqn:Ezx; [|reflexivity]. apply N.eqb_eq in Ezx. subst z.
  assert (y = x) as -> by lia.
  rewrite N.eqb_refl in E1, E2. simpl in *. by apply (IH b c).
Qed.

Lemma str_ltb_total (a b : str) :
  str_ltb a b = false -> str_ltb b a = false -> a = b.
Proof.
  revert b. induction a as [|x a IH]; intros [|y b]; simpl; try done.
  intros H1 H2.
  apply orb_false_iff in H1 as [L1 E1]. apply orb_false_iff in H2 as [L2 E2].
  apply N.ltb_ge in L1, L2. assert (x = y) as -> by lia.
  rewrite N.eqb_refl in E1, E2. simpl in *. f_equal. by apply IH.
Qed.

Lemma StronglySorted_strict {A} (R S : A -> A -> Prop) (l : list A) :
  (forall a b, R a b -> a <> b -> S a b) ->
  NoDup l -> StronglySorted R l -> StronglySorted S l.
Proof.
  intros HRS Hnd Hs. induction Hs as [|a l Hs IH Hall]; constructor.
  - apply IH. by apply NoDup_cons in Hnd as [_ Hnd].
  - apply NoDup_cons in Hnd as [Ha _]. apply Forall_forall. intros b Hb.
    apply HRS; [by eapply Forall_forall in Hall|]. intros ->. contradiction.
Qed.

(** The sheets that [main] processes for a spreadsheet are those listed
    under the key "0" or under the key of the day, each once, in ascending
    order of their names. *)
Theorem target_sheets_of_spec (schedule : gmap str (list str)) (today_key : str) :
  let sheets := target_sheets_of schedule today_key in
  (forall sheet_name,
     sheet_name ∈ sheets <->
     sheet_name ∈ default [] (schedule !! u "0")
     \/ sheet_name ∈ default [] (schedule !! today_key))
  /\ NoDup sheets
  /\ StronglySorted (fun a b => str_ltb a b = true) sheets.
Proof.
  intros sheets. unfold sheets, target_sheets_of.
  set (listed := default [] (schedule !! u "0") ++ default [] (schedule !! today_key)).
  pose proof (sort_by_perm str_ltb id (remove_dups listed)) as Hp.
  assert (Hnd : NoDup (sort_by str_ltb id (remove_dups listed))).
  { rewrite Hp. apply NoDup_remove_dups. }
  split; [|split; [exact Hnd|]].
  - intros sheet_name. rewrite Hp, elem_of_remove_dups. apply elem_of_app.
  - eapply StronglySorted_strict; [|exact Hnd|].
    2:{ apply (sort_by_sorted str_ltb id).
        - intros a b. apply str_ltb_asym.
        - intros a b c. apply str_ltb_ge_trans. }
    simpl. intros a b Hba Hne. destruct (str_ltb a b) eqn:Hab; [reflexivity|].
    exfalso. apply Hne. by apply str_ltb_total.
Qed.

Lemma target_sheets_of_spec_witness :
  let schedule : gmap str (list str) :=
    <[u "0" := [u "Season"; u "All"]]> (<[u "3" := [u "Midweek"; u "All"]]> ∅) in
  target_sheets_of schedule (u "3") = [u "All"; u "Midweek"; u "Season"]
  /\ u "Midweek" ∈ target_sheets_of schedule (u "3").
Proof.
  intros schedule. split; [vm_compute; reflexivity|].
  apply (proj1 (target_sheets_of_spec schedule (u "3"))).
  right. apply list_elem_of_In. vm_compute. tauto.
Defined.

(** ** Which titles are ignored *)

Lemma starts_with_spec (p s : str) :
  starts_with p s = true <-> exists post, s = p ++ post.
Proof.
  split.
  - revert s. induction p as [|c p IH]; intros s; simpl; [by eexists|].
    destruct s as [|x s]; [discriminate|].
    intros H. apply andb_true_iff in H as [E H]. apply N.eqb_eq in E. subst x.
    destruct (IH s H) as [post ->]. by exists post.
  - intros [post ->]. apply starts_with_app.
Qed.

Lemma contains_spec (sub s : str) : contains sub s = true <-> occurs_in sub s.
Proof.
  split.
  - induction s as [|c s IH]; simpl.
    + rewrite orb_false_r. intros H. apply starts_with_spec in H as [post H].
      exists [], post. exact H.
    + intros H. apply orb_true_iff in H as [H | H].
      * apply starts_with_spec in H as [post H]. exists [], post. exact H.
      * destruct (IH H) as (pre & post & ->). by exists (c :: pre), post.
  - intros (pre & post & ->). apply contains_app.
Qed.

Lemma exception_applies_spec (self : Processor) (kw title : str) :
  exception_applies self kw title = true <->
  exists exceptions exc,
    ignore_keywords_exceptions self !! kw = Some exceptions
    /\ exc ∈ exceptions /\ occurs_in exc title.
Proof.
  unfold exception_applies. split.
  - destruct (ignore_keywords_exceptions self !! kw) as [exceptions|]; [|discriminate].
    intros H. apply existsb_exists in H as (exc & Hin & H).
    exists exceptions, exc. split; [reflexivity|].
    split; [by apply list_elem_of_In | by apply contains_spec].
  - intros (exceptions & exc & -> & Hin & H). apply existsb_exists.
    exists exc. split; [by apply list_elem_of_In | by apply contains_spec].
Qed.

(** A title is ignored exactly when one of the ignore keywords occurs in it
    and no exception registered for that keyword does. With the keywords
    and the one exception that [__init__] sets, a keyword other than "CM"
    that occurs in the title always excludes it. *)
Theorem is_ignored_keyword_iff (self : Processor) (title : str) :
  (is_ignored_keyword self title = true <->
   exists kw,
     kw ∈ ignore_keywords self
     /\ occurs_in kw title
     /\ forall exceptions exc,
          ignore_keywords_exceptions self !! kw = Some exceptions ->
          exc ∈ exceptions -> ~ occurs_in exc title)
  /\ (forall key kw,
        kw ∈ ignore_keywords (init key) -> kw <> u "CM" -> occurs_in kw title ->
        is_ignored_keyword (init key) title = true).
Proof.
  assert (Hiff : forall self,
    is_ignored_keyword self title = true <->
    exists kw,
      kw ∈ ignore_keywords self
      /\ occurs_in kw title
      /\ forall exceptions exc,
           ignore_keywords_exceptions self !! kw = Some exceptions ->
           exc ∈ exceptions -> ~ occurs_in exc title).
  { clear self. intros self. unfold is_ignored_keyword. split.
    - destruct (ignoring_keyword self (ignore_keywords self) title) as [kw|] eqn:E;
        [|discriminate].
      intros _. apply ignoring_keyword_some in E as (Hin & Hc & He).
      exists kw. split; [exact Hin|]. split; [by apply contains_spec|].
      intros exceptions exc Hreg Hexc Hocc.
      assert (exception_applies self kw title = true) as X
        by (apply exception_applies_spec; eauto).
      congruence.
    - intros (kw & Hin & Hocc & Hno).
      destruct (ignoring_keyword self (ignore_keywords self) title) as [kw'|] eqn:E;
        [reflexivity|].
      exfalso. apply contains_spec in Hocc.
      assert (Hgen : forall kws, kw ∈ kws -> ignoring_keyword self kws title <> None).
      { induction kws as [|k kws IH]; intros Hk; [by apply elem_of_nil in Hk|].
        simpl. destruct (exception_applies self k title) eqn:Hex.
        - apply elem_of_cons in Hk as [<- | Hk]; [|by apply IH].
          apply exception_applies_spec in Hex as (exceptions & exc & H1 & H2 & H3).
          destruct (Hno exceptions exc H1 H2 H3).
        - destruct (contains k title) eqn:Hk'; [discriminate|].
          apply elem_of_cons in Hk as [<- | Hk]; [congruence | by apply IH]. }
      by apply (Hgen (ignore_keywords self)). }
  split; [apply Hiff|].
  intros key kw Hin Hne Hocc. apply Hiff. exists kw.
  split; [exact Hin|]. split; [exact Hocc|].
  intros exceptions exc Hreg. exfalso. simpl in Hreg.
  apply lookup_singleton_Some in Hreg as [E _]. congruence.
Qed.

Lemma is_ignored_keyword_iff_witness :
  is_ignored_keyword (init (u "KEY")) (u "Show NCOP") = true.
Proof.
  apply (proj2 (is_ignored_keyword_iff (init (u "KEY")) (u "Show NCOP"))
           (u "KEY") (u "NCOP")).
  - apply list_elem_of_In. vm_compute. tauto.
  - vm_compute. discriminate.
  - exists (u "Show "), []. vm_compute. reflexivity.
Defined.

(** ** Titles without an episode number *)

(** The matcher is complete: when the pattern matches a text at the head of
    the subject and the continuation accepts the rest, the matcher finds
    a match (that one or one it prefers). *)
Lemma rmatch_complete (L : PyLib) {R : Type} (r : regex) :
  plain_stars r = true ->
  forall (t s' : str) (cap cap' : option str) (k : str -> option str -> option R),
    matches L r t cap cap' ->
    is_Some (k s' cap') ->
    is_Some (rmatch L r (t ++ s') cap k).
Proof.
  induction r as [c | | | cs | r1 IH1 r2 IH2 | r IH | r IH | r IH];
    intros Hp t s' cap cap' k M Hk; simpl in Hp.
  - inversion M as [? ? ? E| | | | | | | | |]; subst. simpl. by rewrite E.
  - inversion M as [|? ? E| | | | | | | |]; subst. simpl. by rewrite E.
  - inversion M as [| |? ? ? E| | | | | | |]; subst. simpl. by rewrite E.
  - inversion M as [| | |? ? ? E| | | | | |]; subst. simpl. by rewrite E.
  - apply andb_true_iff in Hp as [Hp1 Hp2]. inversion M; subst. simpl.
    rewrite <- app_assoc. eapply IH1; [exact Hp1 | eassumption|].
    eapply IH2; eassumption.
  - apply andb_true_iff in Hp as [Hg Hp]. apply negb_true_iff in Hg.
    simpl.
    match goal with
    | |- is_Some (?f _ _ _) =>
        enough (Hgen : forall t, forall c c', matches L (Star r) t c c' ->
                  forall fuel s', (length (t ++ s') <= fuel)%nat ->
                  is_Some (k s' c') -> is_Some (f fuel (t ++ s') c))
          by (eapply Hgen; [exact M | reflexivity | exact Hk])
    end.
    clear t s' cap cap' M Hk. intros t c c' M.
    remember (Star r) as sr eqn:Er. induction M; try discriminate.
    + intros fuel s' _ Hk. destruct fuel as [|fuel]; simpl; [exact Hk|].
      match goal with |- is_Some (match ?m with _ => _ end) => destruct m end;
        [by eexists | exact Hk].
    + injection Er as ->. intros fuel s' Hlen Hk.
      assert (c1 = c) as -> by (eapply matches_no_group; eassumption).
      specialize (IHM2 eq_refl).
      destruct t1 as [|x t1]; [by apply IHM2|].
      destruct fuel as [|fuel]; [simpl in Hlen; lia|].
      cbn [app] in *.
      match goal with |- is_Some (match ?m with _ => _ end) =>
        assert (Hm : is_Some m) end.
      { replace (x :: (t1 ++ t2) ++ s') with ((x :: t1) ++ (t2 ++ s'))
          by (by rewrite <- app_assoc).
        eapply IH; [exact Hp | exact M1|].
        replace (length (t2 ++ s') <? length ((x :: t1) ++ t2 ++ s'))%nat with true.
        - apply IHM2; [|exact Hk].
          simpl in Hlen. rewrite !length_app in *. lia.
        - symmetry. apply Nat.ltb_lt. simpl. rewrite !length_app. lia. }
      destruct Hm as [y ->]. by eexists.
  - inversion M; subst; simpl.
    + match goal with |- is_Some (match ?m with _ => _ end) => destruct m end;
        [by eexists | exact Hk].
    + match goal with
      | H : matches L r t cap cap' |- _ =>
          destruct (IH Hp t s' cap cap' k H Hk) as [y ->]
      end.
      by eexists.
  - inversion M; subst. simpl. eapply IH; [exact Hp | eassumption|].
    rewrite length_app.
    replace (length t + length s' - length s')%nat with (length t) by lia.
    by rewrite take_app_length.
Qed.

Lemma re_search_complete (L : PyLib) (r : regex) (title : str) :
  plain_stars r = true -> matches_within L r title -> is_Some (re_search L r title).
Proof.
  intros Hp (pre & t & post & g & -> & M).
  assert (Hhere : forall s, is_Some (rmatch L r (t ++ s) None (fun _ cap => Some cap))).
  { intros s. eapply rmatch_complete; [exact Hp | exact M | by eexists]. }
  induction pre as [|c pre IH]; simpl.
  - destruct (Hhere post) as [y Hy].
    destruct (t ++ post) as [|x s]; simpl; rewrite Hy; by eexists.
  - destruct (rmatch L r _ None _); [by eexists | exact IH].
Qed.

Lemma re_search_sound_within (L : PyLib) (r : regex) (s : str) (g : option str) :
  re_search L r s = Some g -> matches_within L r s.
Proof.
  induction s as [|x s IH]; simpl.
  - destruct (rmatch L r [] None _) as [y|] eqn:E; [|discriminate].
    intros _. apply rmatch_sound in E as (t & s' & c' & Hs & M & _).
    exists [], t, s', c'. by split.
  - destruct (rmatch L r (x :: s) None _) as [y|] eqn:E.
    + intros _. apply rmatch_sound in E as (t & s' & c' & Hs & M & _).
      exists [], t, s', c'. by split.
    + intros H. destruct (IH H) as (pre & t & post & g' & -> & M).
      exists (x :: pre), t, post, g'. by split.
Qed.

Lemma re_search_None (L : PyLib) (r : regex) (title : str) :
  plain_stars r = true ->
  re_search L r title = None <-> ~ matches_within L r title.
Proof.
  intros Hp. split.
  - intros Hn M. apply (re_search_complete L r title Hp) in M as [g Hg]. congruence.
  - intros Hn. destruct (re_search L r title) as [g|] eqn:E; [|reflexivity].
    exfalso. eapply Hn, re_search_sound_within, E.
Qed.

Lemma patterns_plain_stars (p : regex) : p ∈ patterns -> plain_stars p = true.
Proof.
  intros Hin. apply list_elem_of_In in Hin. unfold patterns in Hin. simpl in Hin.
  repeat (destruct Hin as [<- | Hin]; [vm_compute; reflexivity|]). destruct Hin.
Qed.

(** The parser finds no episode number exactly when none of its patterns
    matches any part of the title. *)
Theorem parse_episode_number_none_iff (L : PyLib) (title : str) :
  plain_point L ->
  parse_episode_number L title = None <->
  forall p, p ∈ patterns -> ~ matches_within L p title.
Proof.
  intros Hplain. split.
  - intros Hnone p Hin. apply re_search_None; [by apply patterns_plain_stars|].
    apply (parse_with_none L patterns title); [|exact Hnone|exact Hin].
    intros q g Hq Hs.
    destruct (pattern_converts L q title g Hplain Hq Hs)
      as (text & n & k & _ & _ & ->).
    apply int_if_whole_some.
  - intros Hall. unfold parse_episode_number.
    rewrite <- (app_nil_r patterns). rewrite parse_with_skip; [reflexivity|].
    intros q Hq. apply re_search_None; [by apply patterns_plain_stars | by apply Hall].
Qed.

Lemma parse_episode_number_none_iff_witness :
  parse_episode_number ascii_lib (u "Recap of the season") = None
  /\ ~ matches_within ascii_lib (lits (u "EP") dotted_number) (u "Recap of the season").
Proof.
  assert (Hnone : parse_episode_number ascii_lib (u "Recap of the season") = None)
    by (vm_compute; reflexivity).
  split; [exact Hnone|].
  apply (proj1 (parse_episode_number_none_iff ascii_lib (u "Recap of the season")
                  plain_point_ascii) Hnone).
  apply list_elem_of_In. unfold patterns. simpl. tauto.
Defined.

(** ** The shape of a parsed number *)

Lemma normalize_shape (m e : Z) :
  0 <= m -> exists m' e', normalize m e = Fin m' e' /\ 0 <= m'.
Proof.
  intros Hm. destruct m as [|p|p]; [| |lia].
  - exists 0, 0. by split.
  - unfold normalize. destruct (strip_zeros_spec p e) as (H1 & _ & _).
    destruct (strip_zeros p e) as [m' e']. exists m', e'. simpl in *. split; [reflexivity | lia].
Qed.

Lemma round64_nonneg (a b m e : Z) :
  0 <= a -> 0 < b -> round64 a b = Some (m, e) -> 0 <= m.
Proof.
  intros Ha Hb. unfold round64. destruct (a =? 0); [intros [= <- <-]; lia|].
  set (e0 := Z.max (binade a b - 52) (-1074)).
  destruct (_ || _); [discriminate|]. intros [= <- <-].
  assert (Hd : 0 < scaled_den b e0).
  { unfold scaled_den. destruct (e0 <? 0) eqn:S; [exact Hb|].
    apply Z.ltb_ge in S. pose proof (pow2_pos e0 S). nia. }
  assert (Hn : 0 <= scaled_num a e0).
  { unfold scaled_num. destruct (e0 <? 0) eqn:S; [|exact Ha].
    apply Z.ltb_lt in S. pose proof (pow2_pos (- e0) ltac:(lia)). nia. }
  destruct (round_half_even_bounds (scaled_num a e0) (scaled_den b e0) Hd) as [[H _] _].
  pose proof (Z.div_pos _ _ Hn Hd). lia.
Qed.

Lemma float_of_decimal_shape (n : Z) (k : nat) :
  0 <= n ->
  match float_of_decimal n k with
  | Fin m _ => 0 <= m
  | Inf negative => negative = false
  | NaN => False
  end.
Proof.
  intros Hn. unfold float_of_decimal.
  assert (Hc : 0 < 10 ^ Z.of_nat k) by (apply Z.pow_pos_nonneg; lia).
  destruct (round64 n (10 ^ Z.of_nat k)) as [[m e]|] eqn:E; [|reflexivity].
  apply round64_nonneg in E; [|exact Hn|exact Hc].
  destruct (normalize_shape m e E) as (m' & e' & -> & H). exact H.
Qed.


Lemma digits_value_nonneg (L : PyLib) (s : str) (acc n : Z) :
  digits_nonneg L -> 0 <= acc -> digits_value L s acc = Some n -> 0 <= n.
Proof.
  intros HL. revert acc. induction s as [|c s IH]; intros acc Hacc; simpl.
  - by intros [= <-].
  - destruct (decimal L c) as [d|] eqn:E; [|discriminate].
    apply IH. pose proof (HL c d E). lia.
Qed.

Lemma float_of_str_decimal (L : PyLib) (s : str) (f : float64) :
  float_of_str L s = Some f ->
  exists n k, f = float_of_decimal n k /\ (digits_nonneg L -> 0 <= n).
Proof.
  unfold float_of_str. destruct (split_point s) as [[|c ip] [[|d fp]|]]; try discriminate.
  - destruct (digits_value L ((c :: ip) ++ d :: fp) 0) as [n|] eqn:E; [|discriminate].
    intros [= <-]. exists n, (length (d :: fp)). split; [reflexivity|].
    intros HL. eapply digits_value_nonneg; [exact HL| |exact E]. lia.
  - destruct (digits_value L (c :: ip) 0) as [n|] eqn:E; [|discriminate].
    intros [= <-]. exists n, 0%nat. split; [reflexivity|].
    intros HL. eapply digits_value_nonneg; [exact HL| |exact E]. lia.
Qed.

Lemma parse_with_decimal (L : PyLib) (ps : list regex) (title : str) (x : num) :
  parse_with L ps title = Some x ->
  exists n k,
    int_if_whole (float_of_decimal n k) = Some x /\ (digits_nonneg L -> 0 <= n).
Proof.
  induction ps as [|p ps IH]; simpl; [discriminate|].
  destruct (re_search L p title) as [[g|]|]; simpl; try exact IH.
  destruct (float_of_str L g) as [f|] eqn:E; simpl; [|exact IH].
  destruct (int_if_whole f) as [y|] eqn:W; [|exact IH].
  intros [= <-]. apply float_of_str_decimal in E as (n & k & -> & Hn). eauto.
Qed.


(** The parsed episode number is never negative and never a NaN, and it is
    a float only when the value is not whole. *)
Theorem parse_episode_number_proper (L : PyLib) (title : str) (x : num) :
  digits_nonneg L ->
  parse_episode_number L title = Some x ->
  proper_episode x.
Proof.
  intros HL H. apply parse_with_decimal in H as (n & k & H & Hn).
  specialize (Hn HL). pose proof (float_of_decimal_shape n k Hn) as Hf.
  destruct (int_if_whole_spec (float_of_decimal n k)) as [(Hw & z & Hz & E) | (Hw & E)];
    rewrite E in H; injection H as <-; simpl.
  - destruct (float_of_decimal n k) as [m e| |]; try discriminate.
    simpl in Hz. injection Hz as <-.
    destruct (e <? 0) eqn:S.
    + apply Z.ltb_lt in S. apply Z.quot_pos; [exact Hf|].
      pose proof (pow2_pos (- e) ltac:(lia)). lia.
    + apply Z.ltb_ge in S. pose proof (pow2_pos e S). nia.
  - split; [exact Hw|]. destruct (float_of_decimal n k) as [m e|neg|]; try exact Hf.
    destruct (Z.eq_dec m 0) as [-> | Hne]; [|lia].
    unfold is_integer in Hw. rewrite Zmod_0_l in Hw.
    destruct (e <? 0); discriminate.
Qed.

Lemma ascii_digits_nonneg : digits_nonneg ascii_lib.
Proof.
  intros c d. cbn [decimal ascii_lib]. unfold Ascii.decimal.
  destruct (_ && _) eqn:E; [|discriminate]. intros [= <-].
  apply andb_true_iff in E as [E _]. apply N.leb_le in E. lia.
Qed.

Lemma parse_episode_number_proper_witness :
  proper_episode (NFloat (Fin 3 (-1))).
Proof.
  apply (parse_episode_number_proper ascii_lib (u "Show EP 1.5") _ ascii_digits_nonneg).
  vm_compute. reflexivity.
Defined.

(** ** The order of the sort keys *)




(** ** The head of a sorted list *)



(** ** The first episode *)



(** ** The order of the playlist *)

(** The average, the total and the episode count do not depend on the
    order of the kept videos. *)
Theorem summarize_order_independent (L : PyLib) (l l' : list PlaylistItem)
    (stats : gmap str (option Z)) (r : Stats) :
  l ≡ₚ l' ->
  summarize L l stats = Ret r ->
  exists r',
    summarize L l' stats = Ret r'
    /\ avg r' = avg r /\ total r' = total r /\ valid_count r' = valid_count r.
Proof.
  intros Hp. rewrite !summarize_spec.
  pose proof (real_samples_perm stats l l' Hp) as Hs.
  rewrite <- (sum_of_perm _ _ Hs), <- (Permutation_length Hs), <- (Permutation_length Hp).
  destruct (real_samples stats l) as [|x xs] eqn:E.
  - apply Permutation_nil in Hs. rewrite Hs. intros [= <-]. by eexists.
  - destruct (real_samples stats l') as [|y ys] eqn:E';
      [symmetry in Hs; by apply Permutation_nil_cons in Hs|].
    destruct (_ ≫= _) as [n|]; [|discriminate]. intros [= <-]. by eexists.
Qed.

Lemma summarize_order_independent_witness :
  let a := {| item_id := u "a"; item_title := u "Show EP 1" |} in
  let b := {| item_id := u "b"; item_title := u "Show EP 2" |} in
  let stats : gmap str (option Z) := <[u "b" := Some 70]> (<[u "a" := Some 31]> ∅) in
  exists r',
    summarize ascii_lib [b; a] stats = Ret r'
    /\ avg r' = VInt 50 /\ total r' = VInt 101 /\ valid_count r' = VInt 2.
Proof.
  intros a b stats.
  assert (Hr : summarize ascii_lib [a; b] stats
               = Ret {| avg := VInt 50; total := VInt 101; first := VInt 31;
                        valid_count := VInt 2; ep_count_update := VNone |})
    by (vm_compute; reflexivity).
  exact (summarize_order_independent ascii_lib [a; b] [b; a] stats _
           (Permutation_swap b a []) Hr).
Defined.

(** ** The pages of a playlist *)

Lemma quota_signal_ok {A} (d : A) : quota_signal (ok d) = false.
Proof. reflexivity. Qed.

Lemma follows_length (net : Net) (self : Processor) (playlist_id : str)
    (pages : list PlaylistPage) (h h' : list Request) (token token' : str) :
  follows net self playlist_id h token pages h' token' ->
  length h' = (length h + length pages)%nat.
Proof.
  revert h token. induction pages as [|p rest IH]; intros h token; simpl.
  - intros [-> _]. lia.
  - intros (_ & c & t & _ & H). apply IH in H. rewrite length_app in H. simpl in H. lia.
Qed.

(** The loop of [get_playlist_items] over pages that name a next page. *)
Lemma playlist_pages_follows (net : Net) (fuel : nat) (playlist_id : str)
    (pages : list PlaylistPage) (items : list PlaylistItem) (token token' : str)
    (h' : list Request) (w : World) :
  follows net (proc w) playlist_id (requests w) token pages h' token' ->
  playlist_pages net (length pages + fuel) playlist_id items token w
  = playlist_pages net fuel playlist_id (items ++ items_of_pages pages) token'
      (with_requests w h').
Proof.
  revert items token w. induction pages as [|p rest IH]; intros items token w.
  - intros [-> ->]. unfold items_of_pages. simpl. rewrite app_nil_r.
    by destruct w.
  - intros (Hp & c & t & Hn & H).
    change (length (p :: rest) + fuel)%nat with (S (length rest + fuel)).
    rewrite playlist_pages_step by (rewrite Hp; reflexivity).
    rewrite Hp. cbn [status_code body ok]. simpl (200 =? 404). simpl (negb _).
    cbv iota. rewrite Hn.
    rewrite (IH _ (c :: t)
               (sent w (GetPlaylistItems (playlist_url (proc w) playlist_id token)))
               H).
    unfold items_of_pages. simpl. rewrite app_assoc. reflexivity.
Qed.

(** A playlist of several pages: [get_playlist_items] asks for one page
    after the other, with the token that the page before gave, until a page
    names no next page; the result is the items of all the pages, in their
    order, and one request was sent per page. *)
Theorem get_playlist_items_all_pages (net : Net) (fuel : nat) (playlist_id : str)
    (pages : list PlaylistPage) (last : PlaylistPage) (h' : list Request)
    (token' : str) (w : World) :
  let url := playlist_url (proc w) playlist_id token' in
  quota_exceeded (proc w) = false ->
  follows net (proc w) playlist_id (requests w) [] pages h' token' ->
  playlist_api net h' url = ok last ->
  nextPageToken last = None \/ nextPageToken last = Some [] ->
  (length pages < fuel)%nat ->
  get_playlist_items net fuel playlist_id w
  = (Ret (Items (items_of_pages (pages ++ [last]))),
     with_requests w (h' ++ [GetPlaylistItems url]))
  /\ length (h' ++ [GetPlaylistItems url])
     = (length (requests w) + length pages + 1)%nat.
Proof.
  intros url Q Hf Hlast Hend Hfuel. split.
  - unfold get_playlist_items, bind at 1, get_quota_exceeded. rewrite Q.
    replace fuel with (length pages + S (fuel - length pages - 1))%nat by lia.
    rewrite (playlist_pages_follows net _ playlist_id pages [] [] token' h' w Hf).
    rewrite playlist_pages_step by (cbn [with_requests proc requests]; fold url;
                                    rewrite Hlast; reflexivity).
    cbn [with_requests proc requests]. fold url. rewrite Hlast.
    cbn [status_code body ok]. simpl (200 =? 404). simpl (negb _). cbv iota.
    unfold items_of_pages. rewrite map_app, concat_app. simpl. rewrite app_nil_r.
    destruct Hend as [-> | ->]; reflexivity.
  - apply follows_length in Hf. rewrite length_app. simpl. lia.
Qed.

(** A failure on a later page: the items of the pages read before are
    dropped. A status 404 gives "REMOVED"; another status than 200 (that is
    not the quota signal) gives the empty list; the quota signal gives
    [None] and sets the flag. *)
Theorem get_playlist_items_late_failure (net : Net) (fuel : nat) (playlist_id : str)
    (pages : list PlaylistPage) (h' : list Request) (token' : str) (w : World) :
  let url := playlist_url (proc w) playlist_id token' in
  let res := playlist_api net h' url in
  let w' := with_requests w (h' ++ [GetPlaylistItems url]) in
  quota_exceeded (proc w) = false ->
  follows net (proc w) playlist_id (requests w) [] pages h' token' ->
  (length pages < fuel)%nat ->
  (quota_signal res = false -> status_code res = 404 ->
   get_playlist_items net fuel playlist_id w = (Ret Removed, w'))
  /\ (quota_signal res = false -> status_code res <> 404 -> status_code res <> 200 ->
      get_playlist_items net fuel playlist_id w = (Ret (Items []), w'))
  /\ (quota_signal res = true ->
      get_playlist_items net fuel playlist_id w
      = (Ret NoPlaylist,
         {| proc := set_quota_exceeded (proc w); requests := requests w';
            posts := posts w; notices := notices w |})).
Proof.
  intros url res w' Q Hf Hfuel.
  assert (Hrun : get_playlist_items net fuel playlist_id w
                 = playlist_pages net (S (fuel - length pages - 1)) playlist_id
                     ([] ++ items_of_pages pages) token' (with_requests w h')).
  { unfold get_playlist_items, bind at 1, get_quota_exceeded. rewrite Q.
    replace fuel with (length pages + S (fuel - length pages - 1))%nat at 1 by lia.
    apply playlist_pages_follows, Hf. }
  rewrite Hrun. repeat split.
  - intros Hq Hs. rewrite playlist_pages_step by exact Hq.
    cbn [with_requests proc requests]. fold url. fold res. rewrite Hs. reflexivity.
  - intros Hq Hs Hs'. rewrite playlist_pages_step by exact Hq.
    cbn [with_requests proc requests]. fold url. fold res.
    apply Z.eqb_neq in Hs, Hs'. rewrite Hs, Hs'. reflexivity.
  - intros Hq. simpl. unfold bind at 1. simpl. unfold bind at 1. simpl.
    unfold bind at 1. rewrite _check_quota_run.
    cbn [with_requests proc requests]. fold url. fold res. rewrite Hq. reflexivity.
Qed.

Lemma get_playlist_items_all_pages_witness :
  let p1 := {| page_items := [ {| snippet_title := Some (u "Show EP 1");
                                  snippet_videoId := Some (u "v1") |} ];
               nextPageToken := Some (u "T2") |} in
  let p2 := {| page_items := [ {| snippet_title := Some (u "Show EP 2");
                                  snippet_videoId := Some (u "v2") |} ];
               nextPageToken := None |} in
  let net := net_of (fun url => if contains (u "pageToken=T2") url then ok p2 else ok p1)
                    (fun _ => ok []) in
  fst (get_playlist_items net 5 (u "X") (start (init (u "KEY"))))
  = Ret (Items [ {| item_id := u "v1"; item_title := u "Show EP 1" |};
                 {| item_id := u "v2"; item_title := u "Show EP 2" |} ]).
Proof.
  intros p1 p2 net.
  set (w := start (init (u "KEY"))).
  set (url1 := playlist_url (proc w) (u "X") []).
  assert (H1 : playlist_api net [] url1 = ok p1) by (vm_compute; reflexivity).
  assert (H2 : playlist_api net [GetPlaylistItems url1]
                 (playlist_url (proc w) (u "X") (u "T2")) = ok p2)
    by (vm_compute; reflexivity).
  assert (Hf : follows net (proc w) (u "X") (requests w) [] [p1]
                 [GetPlaylistItems url1] (u "T2")).
  { split; [exact H1|]. exists 84%N, [50%N]. repeat split; reflexivity. }
  rewrite (proj1 (get_playlist_items_all_pages net 5 (u "X") [p1] p2
                    [GetPlaylistItems url1] (u "T2") w eq_refl Hf H2
                    (or_introl eq_refl) ltac:(simpl; lia))).
  reflexivity.
Defined.

Lemma get_playlist_items_late_failure_witness :
  let p1 := {| page_items := [ {| snippet_title := Some (u "Show EP 1");
                                  snippet_videoId := Some (u "v1") |} ];
               nextPageToken := Some (u "T2") |} in
  let net := net_of (fun url => if contains (u "pageToken=T2") url
                                then failed 500 [] else ok p1)
                    (fun _ => ok []) in
  fst (get_playlist_items net 5 (u "X") (start (init (u "KEY")))) = Ret (Items []).
Proof.
  intros p1 net.
  set (w := start (init (u "KEY"))).
  set (url1 := playlist_url (proc w) (u "X") []).
  assert (H1 : playlist_api net [] url1 = ok p1) by (vm_compute; reflexivity).
  assert (Hf : follows net (proc w) (u "X") (requests w) [] [p1]
                 [GetPlaylistItems url1] (u "T2")).
  { split; [exact H1|]. exists 84%N, [50%N]. repeat split; reflexivity. }
  rewrite (proj1 (proj2 (get_playlist_items_late_failure net 5 (u "X") [p1]
                           [GetPlaylistItems url1] (u "T2") w eq_refl Hf
                           ltac:(simpl; lia)))
             ltac:(vm_compute; reflexivity) ltac:(vm_compute; discriminate)
             ltac:(vm_compute; discriminate)).
  reflexivity.
Defined.

(** ** The batches of [get_video_stats] *)

Lemma batches_concat (fuel : nat) (video_ids : list str) :
  (length video_ids <= fuel)%nat -> concat (batches fuel video_ids) = video_ids.
Proof.
  revert video_ids. induction fuel as [|fuel IH]; intros [|v l] Hlen;
    try reflexivity; [simpl in Hlen; lia|].
  cbn [batches concat]. rewrite IH; [apply take_drop|].
  rewrite length_drop. simpl in *. lia.
Qed.

Lemma batches_sizes (fuel : nat) (video_ids : list str) :
  Forall (fun batch => batch <> [] /\ (length batch <= 50)%nat) (batches fuel video_ids).
Proof.
  revert video_ids. induction fuel as [|fuel IH]; intros [|v l]; try constructor.
  - split; [discriminate|]. rewrite length_take. lia.
  - apply IH.
Qed.

Lemma batches_count (fuel : nat) (video_ids : list str) :
  (length video_ids <= fuel)%nat ->
  (50 * length (batches fuel video_ids) < length video_ids + 50
   /\ length video_ids <= 50 * length (batches fuel video_ids))%nat.
Proof.
  revert video_ids. induction fuel as [|fuel IH]; intros [|v l] Hlen;
    try (simpl in *; lia).
  cbn [batches length]. specialize (IH (drop 50 (v :: l))).
  rewrite length_drop in IH. simpl in *. lia.
Qed.

(** The loop over the batches, when it ends without the quota flag: one
    request per batch, the processor untouched. *)
Lemma video_batches_requests (L : PyLib) (net : Net) (now_utc : Z)
    (bs : list (list str)) (m m' : gmap str (option Z)) (w w' : World) :
  video_batches L net now_utc bs m w = (Ret m', w') ->
  quota_exceeded (proc w') = false ->
  proc w' = proc w
  /\ requests w'
     = requests w ++ List.map (fun batch => GetVideos (videos_url (proc w) batch)) bs.
Proof.
  revert m w. induction bs as [|batch bs IH]; intros m w Hrun Q.
  - injection Hrun as _ <-. by rewrite app_nil_r.
  - simpl in Hrun. unfold bind at 1 in Hrun. simpl in Hrun.
    unfold bind at 1 in Hrun. simpl in Hrun. unfold bind at 1 in Hrun.
    rewrite _check_quota_run in Hrun.
    destruct (quota_signal _).
    { injection Hrun as _ <-. discriminate Q. }
    assert (Hgo : exists m1,
               video_batches L net now_utc bs m1
                 {| proc := proc w;
                    requests := requests w ++ [GetVideos (videos_url (proc w) batch)];
                    posts := posts w; notices := notices w |} = (Ret m', w')).
    { destruct (status_code _ =? 200); [|by eexists].
      destruct (body _) as [|reasons|items]; [discriminate | by eexists|].
      destruct (video_samples L now_utc items m) as [m1|e|]; try discriminate.
      by eexists. }
    destruct Hgo as [m1 Hgo]. apply IH in Hgo as [Hp Hr]; [|exact Q].
    simpl in Hp, Hr. split; [exact Hp|]. rewrite Hr, <- app_assoc. reflexivity.
Qed.

(** The statistics are asked for in batches of at most 50 ids: every id is
    asked for once, in the order given, and a run that ends without the
    quota flag has sent one request per batch, [ceil(n / 50)] in all. *)
Theorem get_video_stats_batches (L : PyLib) (net : Net) (video_ids : list str)
    (stats : gmap str (option Z)) (w w' : World) :
  quota_exceeded (proc w) = false ->
  video_ids <> [] ->
  get_video_stats L net video_ids w = (Ret stats, w') ->
  quota_exceeded (proc w') = false ->
  let bs := batches (length video_ids) video_ids in
  requests w'
  = requests w ++ List.map (fun batch => GetVideos (videos_url (proc w) batch)) bs
  /\ concat bs = video_ids
  /\ Forall (fun batch => batch <> [] /\ (length batch <= 50)%nat) bs
  /\ (50 * length bs < length video_ids + 50 /\ length video_ids <= 50 * length bs)%nat.
Proof.
  intros Q Hne Hrun Q' bs. split; [|split; [|split]].
  - unfold get_video_stats, bind at 1, get_quota_exceeded in Hrun. rewrite Q in Hrun.
    rewrite bool_decide_eq_false_2 in Hrun by exact Hne.
    unfold bind at 1 in Hrun. cbn [orb] in Hrun.
    apply video_batches_requests in Hrun as [_ Hr]; [exact Hr | exact Q'].
  - apply batches_concat. lia.
  - apply batches_sizes.
  - apply batches_count. lia.
Qed.

(** 120 ids: three requests. *)
Lemma get_video_stats_batches_witness :
  let net := net_of (fun _ => failed 500 []) (fun _ => ok []) in
  let w := start (init (u "KEY")) in
  let ids := List.map (fun n => [Z.to_N n]) (seqZ 65 120) in
  length (requests (snd (get_video_stats ascii_lib net ids w))) = 3%nat.
Proof.
  intros net w ids.
  assert (Hrun : get_video_stats ascii_lib net ids w
                 = (Ret ∅, snd (get_video_stats ascii_lib net ids w)))
    by (vm_compute; reflexivity).
  destruct (get_video_stats_batches ascii_lib net ids ∅ w _ eq_refl
              ltac:(vm_compute; discriminate) Hrun ltac:(vm_compute; reflexivity))
    as (Hr & _).
  rewrite Hr. reflexivity.
Defined.

(** ** The entries of the statistics *)

(** The entry of a video is that of the last item of the answer with its
    id. *)
Lemma video_samples_last (L : PyLib) (now_utc : Z) (before after : list VideoEntry)
    (item : VideoEntry) (m m' : gmap str (option Z)) :
  video_samples L now_utc (before ++ item :: after) m = Ret m' ->
  video_id item ∉ List.map video_id after ->
  exists sample,
    video_sample L now_utc item = Ret sample
    /\ m' !! video_id item = Some sample.
Proof.
  revert m. induction before as [|x before IH]; intros m; simpl.
  - destruct (video_sample L now_utc item) as [sample|e|]; try discriminate.
    intros Hrun Hnot. exists sample. split; [reflexivity|].
    rewrite (video_samples_other L now_utc after _ m' _ Hrun Hnot).
    apply lookup_insert_eq.
  - destruct (video_sample L now_utc x) as [sample|e|]; try discriminate.
    apply IH.
Qed.

(** The statistics of a single batch, for a video that the answer lists
    (the last item with its id deciding). A premiere to come has the entry
    [None], whatever its [viewCount]. Otherwise the entry is the integer
    read from [viewCount], or [None] when [viewCount] is missing or
    empty. *)
Theorem get_video_stats_entry (L : PyLib) (net : Net) (video_ids : list str)
    (before after : list VideoEntry) (item : VideoEntry)
    (stats : gmap str (option Z)) (w w' : World) :
  let now_utc := utcnow net (requests w) in
  quota_exceeded (proc w) = false ->
  video_ids <> [] ->
  (length video_ids <= 50)%nat ->
  videos_api net (requests w) (videos_url (proc w) video_ids)
  = ok (before ++ item :: after) ->
  video_id item ∉ List.map video_id after ->
  get_video_stats L net video_ids w = (Ret stats, w') ->
  (premiere_pending L now_utc item = true ->
   stats !! video_id item = Some None)
  /\ (premiere_pending L now_utc item = false ->
      (forall c s, viewCount item = Some (c :: s) ->
         exists v, int_of_str L (c :: s) = Some v
                   /\ stats !! video_id item = Some (Some v))
      /\ (viewCount item = None \/ viewCount item = Some [] ->
          stats !! video_id item = Some None)).
Proof.
  intros now_utc Q Hne Hlen Hres Hlast Hrun.
  assert (Hs : exists sample,
             video_sample L now_utc item = Ret sample
             /\ stats !! video_id item = Some sample).
  { unfold get_video_stats, bind at 1, get_quota_exceeded in Hrun.
    rewrite Q, bool_decide_eq_false_2 in Hrun by exact Hne.
    unfold bind at 1 in Hrun. cbn [orb] in Hrun. fold now_utc in Hrun.
    destruct video_ids as [|v l] eqn:E; [congruence|]. rewrite <- E in *.
    assert (Hb : batches (length video_ids) video_ids = [video_ids]).
    { rewrite E. cbn [length batches]. rewrite <- E.
      rewrite take_ge, drop_ge by lia. by destruct (length l). }
    rewrite Hb in Hrun. simpl in Hrun. unfold bind at 1 in Hrun. simpl in Hrun.
    unfold bind at 1 in Hrun. simpl in Hrun. unfold bind at 1 in Hrun.
    rewrite _check_quota_run, Hres in Hrun. simpl in Hrun.
    destruct (video_samples L now_utc (before ++ item :: after) ∅) as [m1|e|] eqn:Es;
      try discriminate.
    injection Hrun as <- _.
    eapply video_samples_last; eassumption. }
  destruct Hs as (sample & Hs & ->). unfold video_sample in Hs.
  unfold premiere_pending. split.
  - intros Hpending.
    destruct (scheduledStartTime item) as [[|c t]|]; try discriminate.
    destruct (fromisoformat L _) as [| |dt_start]; try discriminate.
    rewrite Hpending in Hs. by injection Hs as <-.
  - intros Hpending.
    assert (Hv : match viewCount item with
                 | Some (c :: s) =>
                     match int_of_str L (c :: s) with
                     | Some v => Ret (Some v)
                     | None => Raise ValueError
                     end
                 | _ => Ret None
                 end = Ret sample).
    { destruct (scheduledStartTime item) as [[|c t]|]; try exact Hs.
      destruct (fromisoformat L _) as [| |dt_start]; [exact Hs | discriminate|].
      by rewrite Hpending in Hs. }
    split.
    + intros c s Hvc. rewrite Hvc in Hv.
      destruct (int_of_str L (c :: s)) as [v|]; [|discriminate].
      injection Hv as <-. by exists v.
    + intros [Hvc | Hvc]; rewrite Hvc in Hv; by injection Hv as <-.
Qed.

Lemma get_video_stats_entry_witness :
  let L := {| isspace := Ascii.isspace; decimal := Ascii.decimal; ieq := Ascii.ieq;
              json_loads := Ascii.json_loads; url_query := Ascii.url_query;
              fromisoformat := fun _ => IsoAware 10 |} in
  let premiere := {| video_id := u "v1";
                     scheduledStartTime := Some (u "2030-01-01T00:00:00Z");
                     viewCount := Some (u "7") |} in
  let net := net_of (fun _ => failed 500 []) (fun _ => ok [premiere]) in
  let w := start (init (u "KEY")) in
  exists stats,
    fst (get_video_stats L net [u "v1"] w) = Ret stats
    /\ stats !! u "v1" = Some None.
Proof.
  intros L premiere net w.
  set (stats := <[u "v1" := None]> ∅ : gmap str (option Z)).
  assert (Hrun : get_video_stats L net [u "v1"] w
                 = (Ret stats, snd (get_video_stats L net [u "v1"] w)))
    by (vm_compute; reflexivity).
  exists stats. split; [by rewrite Hrun|].
  refine (proj1 (get_video_stats_entry L net [u "v1"] [] [] premiere stats w _
                   eq_refl _ _ _ _ Hrun) _).
  - discriminate.
  - simpl. lia.
  - vm_compute. reflexivity.
  - apply not_elem_of_nil.
  - reflexivity.
Defined.

(** ** Series that need no request *)

(** A series without a link, or whose link has no [list] parameter, is
    passed over without any request. A series none of whose videos
    survives the filter gets the defaults after the fetch of the playlist:
    no statistics are asked for. *)
Theorem process_anime_spares_requests (L : PyLib) (net : Net) (fuel : nat)
    (anime : Anime) (w : World) :
  (get_playlist_id L (link_url anime) = None ->
   process_anime L net fuel anime w = (Ret None, w))
  /\ (forall c playlist_id items w1,
        quota_exceeded (proc w) = false ->
        get_playlist_id L (link_url anime) = Some (c :: playlist_id) ->
        get_playlist_items net fuel (c :: playlist_id) w = (Ret (Items items), w1) ->
        Forall (fun item =>
                  keeps L (proc w1) (parse_offset L (offset anime)).1
                    (parse_offset L (offset anime)).2 item = false) items ->
        process_anime L net fuel anime w = (Ret (Some default_result), w1)).
Proof.
  split.
  - intros Hid. unfold process_anime, bind at 1, get_quota_exceeded.
    destruct (quota_exceeded (proc w)); [reflexivity|].
    destruct (parse_offset L (offset anime)). rewrite Hid. reflexivity.
  - intros c playlist_id items w1 Q Hid Hitems Hnone.
    rewrite (process_anime_run L net fuel anime c playlist_id w Q Hid), Hitems.
    cbv zeta.
    replace (List.filter _ items) with (@nil PlaylistItem); [reflexivity|].
    symmetry. clear Hitems. induction Hnone as [|x l Hx _ IH]; [reflexivity|].
    simpl. rewrite Hx. exact IH.
Qed.

Lemma process_anime_spares_requests_witness :
  let net := net_of (fun _ => page [("v1", "Show PV"); ("v2", "Show Trailer")])
                    (fun _ => ok []) in
  let w := start (init (u "KEY")) in
  process_anime ascii_lib net 3 (series "X" "2" None) w
  = (Ret (Some default_result),
     sent w (GetPlaylistItems (playlist_url (proc w) (u "X") []))).
Proof.
  intros net w.
  apply (proj2 (process_anime_spares_requests ascii_lib net 3 (series "X" "2" None) w)
           88%N [] [ {| item_id := u "v1"; item_title := u "Show PV" |};
                     {| item_id := u "v2"; item_title := u "Show Trailer" |} ]).
  - reflexivity.
  - vm_compute. reflexivity.
  - vm_compute. reflexivity.
  - repeat constructor; vm_compute; reflexivity.
Defined.

(** ** The episode count of a row *)

Lemma plan_row_watermark (ranks : gmap Z Z) (st : SheetState) (item : RegionResult)
    (row : Z) :
  watermark (plan_row ranks st item) row
  = if bool_decide (rr_row item = row)
    then match rr_stats item ≫= int_count with
         | Some n => Z.max (watermark st row) n
         | None => watermark st row
         end
    else watermark st row.
Proof.
  unfold watermark, plan_row, int_count.
  destruct (rr_stats item) as [stats|]; simpl; [|by destruct (bool_decide _)].
  destruct (valid_count stats) as [|n|s]; simpl;
    try (by destruct (bool_decide _)).
  destruct (default 0 (row_max_ep_map st !! rr_row item) <? n) eqn:E; simpl.
  - apply Z.ltb_lt in E. destruct (bool_decide (rr_row item = row)) eqn:R.
    + apply bool_decide_eq_true in R. subst row. rewrite lookup_insert_eq. simpl. lia.
    + apply bool_decide_eq_false in R. by rewrite lookup_insert_ne.
  - apply Z.ltb_ge in E. destruct (bool_decide (rr_row item = row)) eqn:R;
      [|reflexivity].
    apply bool_decide_eq_true in R. subst row. lia.
Qed.

(** Across the entries planned, the watermark of a row ends as the highest
    integer episode count among the entries on that row (and what it was
    before); a count that is a marker does not move it. For one entry, the
    episode-count cell is written exactly when the count of the entry is
    above the watermark of its row, and with that count. *)
Theorem episode_count_watermark (ranks : gmap Z Z) (items : list RegionResult)
    (st : SheetState) :
  (forall row,
     watermark (foldl (plan_row ranks) st items) row
     = foldl Z.max (watermark st row) (counts_on row items))
  /\ (forall item stats n,
        rr_stats item = Some stats ->
        valid_count stats = VInt n ->
        updates_batch (plan_row ranks st item)
        = append_row (rr_anime item) (rr_row item)
            (rank_update ranks item ++ view_updates (rr_anime item) stats
             ++ (if watermark st (rr_row item) <? n
                 then cell_update (ep_count_cell (rr_anime item)) (VInt n)
                 else []))
            (updates_batch st)).
Proof.
  split.
  - intros row. revert st. induction items as [|item items IH]; intros st;
      [reflexivity|].
    simpl foldl. rewrite IH, plan_row_watermark. unfold counts_on. simpl omap.
    destruct (bool_decide (rr_row item = row)); [|reflexivity].
    destruct (rr_stats item ≫= int_count); reflexivity.
  - intros item stats n Hs Hn. unfold plan_row, watermark, cell_update.
    rewrite Hs, Hn. simpl.
    destruct (_ <? n); simpl; rewrite <- ?app_assoc, ?app_nil_r; reflexivity.
Qed.

Lemma episode_count_watermark_witness :
  let item := entry "A" "2" (Some (one_episode 500)) in
  updates_batch (plan_row ∅ empty_sheet_state item)
  = [ {| row_check_name := u "A"; target_row := 2;
         updates := [ {| cell := u "B2"; value := VStr [] |};
                      {| cell := u "C2"; value := VInt 500 |};
                      {| cell := u "D2"; value := VInt 500 |};
                      {| cell := u "E2"; value := VInt 500 |};
                      {| cell := u "F2"; value := VInt 1 |} ] |} ].
Proof.
  intros item.
  rewrite (proj2 (episode_count_watermark ∅ [] empty_sheet_state)
             item (one_episode 500) 1 eq_refl eq_refl).
  vm_compute. reflexivity.
Defined.

(** ** The order of the comprehensive ranking *)

Lemma odict_get_None {V} (d : list (Z * V)) (k : Z) :
  odict_get d k = None <-> k ∉ List.map fst d.
Proof.
  induction d as [|[k' v] d IH]; simpl.
  - split; [intros _; apply not_elem_of_nil | reflexivity].
  - rewrite not_elem_of_cons. destruct (k' =? k) eqn:E.
    + apply Z.eqb_eq in E. split; [discriminate | intros [H _]; congruence].
    + apply Z.eqb_neq in E. rewrite IH. split; [intros H; split; congruence | tauto].
Qed.

Lemma odict_set_keys {V} (d : list (Z * V)) (k : Z) (v : V) :
  List.map fst (odict_set d k v)
  = if odict_get d k is Some _ then List.map fst d else List.map fst d ++ [k].
Proof.
  induction d as [|[k' v'] d IH]; simpl; [reflexivity|].
  destruct (k' =? k) eqn:E; simpl.
  - apply Z.eqb_eq in E. by subst.
  - rewrite IH. by destruct (odict_get d k).
Qed.

Lemma odict_set_NoDup {V} (d : list (Z * V)) (k : Z) (v : V) :
  NoDup (List.map fst d) -> NoDup (List.map fst (odict_set d k v)).
Proof.
  intros Hnd. rewrite odict_set_keys.
  destruct (odict_get d k) eqn:E; [exact Hnd|].
  apply NoDup_app. split; [exact Hnd|]. split; [|apply NoDup_singleton].
  intros x Hx Hk. apply list_elem_of_singleton in Hk. subst x.
  by apply odict_get_None in E.
Qed.

(** Reading a region keeps the rows of the sums, and of the cells of the
    comprehensive rank, distinct. *)
Lemma read_region_rows_NoDup (L : PyLib) (net : Net) (fuel : nat)
    (anime_list : list Anime) (acc acc' : list RegionResult * SheetState)
    (w w' : World) :
  read_region L net fuel anime_list acc w = (Ret (Some acc'), w') ->
  NoDup (List.map fst (global_avg_sum_map acc.2))
  /\ NoDup (List.map fst (global_comp_rank_cell_map acc.2)) ->
  NoDup (List.map fst (global_avg_sum_map acc'.2))
  /\ NoDup (List.map fst (global_comp_rank_cell_map acc'.2)).
Proof.
  revert acc w. induction anime_list as [|anime rest IH]; intros acc w; simpl.
  - by intros [= <- _].
  - unfold bind at 1, get_quota_exceeded.
    destruct (quota_exceeded (proc w)); [discriminate|].
    unfold bind at 1.
    destruct (read_anime L net fuel anime acc w) as [[acc1| |] w1] eqn:E;
      try discriminate.
    intros H [Hnd Hnc]. eapply IH; [exact H|].
    unfold read_anime in E. destruct acc as [rr st].
    unfold bind at 1 in E. destruct (row_of L anime) as [row|]; [|discriminate].
    simpl in E. unfold bind at 1 in E.
    destruct (process_anime L net fuel anime w) as [[stats| |] w2]; try discriminate.
    injection E as <- _. simpl in *. split.
    + destruct (stats ≫= int_avg); [by apply odict_set_NoDup | exact Hnd].
    + destruct (cell_ref (comp_rank_cell anime)); [by apply odict_set_NoDup | exact Hnc].
Qed.

Lemma plan_rows_sums (ranks : gmap Z Z) (l : list RegionResult) (st : SheetState) :
  global_avg_sum_map (foldl (plan_row ranks) st l) = global_avg_sum_map st
  /\ global_comp_rank_cell_map (foldl (plan_row ranks) st l)
     = global_comp_rank_cell_map st.
Proof.
  revert st. induction l as [|x l IH]; intros st; [by split|].
  simpl. destruct (IH (plan_row ranks st x)) as [-> ->]. unfold plan_row.
  destruct (rr_stats x); [destruct (exceeds _ _)|]; by split.
Qed.

Lemma process_regions_rows_NoDup (L : PyLib) (net : Net) (fuel : nat)
    (regions : list (str * list Anime)) (st st' : SheetState) (w w' : World) :
  process_regions L net fuel regions st w = (Ret (Some st'), w') ->
  NoDup (List.map fst (global_avg_sum_map st))
  /\ NoDup (List.map fst (global_comp_rank_cell_map st)) ->
  NoDup (List.map fst (global_avg_sum_map st'))
  /\ NoDup (List.map fst (global_comp_rank_cell_map st')).
Proof.
  revert st w. induction regions as [|[name anime_list] rest IH]; intros st w; simpl.
  - by intros [= <- _].
  - unfold bind at 1.
    destruct (read_region L net fuel anime_list ([], st) w) as [[[[rr st1]|]| |] w1] eqn:E;
      try discriminate.
    intros H Hnd. eapply IH; [exact H|].
    unfold plan_region. destruct (plan_rows_sums (rank_map rr) rr st1) as [-> ->].
    eapply (read_region_rows_NoDup _ _ _ _ ([], st) (rr, st1)); eassumption.
Qed.

(** The comprehensive updates target the rows of the cells, each at most
    once. *)
Lemma comprehensive_rows_NoDup (ranks : gmap Z Z) (names : gmap Z str)
    (cells : list (Z * str)) :
  NoDup (List.map fst cells) ->
  NoDup (List.map target_row (concat (List.map (comp_rank_update ranks names) cells))).
Proof.
  induction cells as [|[row cell_addr] cells IH]; simpl; [constructor|].
  intros Hnd. apply NoDup_cons in Hnd as [Hrow Hnd]. specialize (IH Hnd).
  destruct (names !! row) as [[|c nm]|]; simpl; try exact IH.
  apply NoDup_cons. split; [|exact IH].
  intros Hin. apply Hrow. clear -Hin.
  induction cells as [|[row' cell'] cells IH]; simpl in *;
    [by apply elem_of_nil in Hin|].
  rewrite map_app, elem_of_app in Hin. destruct Hin as [Hin | Hin].
  - destruct (names !! row') as [[|c' nm']|]; simpl in Hin;
      try (by apply elem_of_nil in Hin).
    apply list_elem_of_singleton in Hin. subst row'. by left.
  - right. by apply IH.
Qed.

Lemma StronglySorted_lookup {A} (R : A -> A -> Prop) (l : list A) (i j : nat) (a b : A) :
  StronglySorted R l -> l !! i = Some a -> l !! j = Some b -> (i < j)%nat -> R a b.
Proof.
  intros Hs. revert i j. induction Hs as [|x l Hs IH Hall]; intros i j Hi Hj Hlt;
    [discriminate|].
  destruct j as [|j]; [lia|]. simpl in Hj.
  destruct i as [|i]; simpl in Hi.
  - injection Hi as ->. eapply Forall_forall in Hall; [exact Hall|].
    eapply list_elem_of_lookup_2, Hj.
  - eapply IH; [exact Hi | exact Hj | lia].
Qed.

(** The rank of a row in a table built by enumeration is one more than its
    place in the list. *)
Lemma rank_from_place {A} (row : A -> Z) (l : list A) (k r : Z) :
  NoDup (List.map row l) ->
  rank_from row 0 l ∅ !! k = Some r ->
  exists i x, l !! i = Some x /\ row x = k /\ r = Z.of_nat i + 1.
Proof.
  intros Hnd Hr.
  destruct (decide (k ∈ List.map row l)) as [Hin | Hnot].
  - apply list_elem_of_lookup in Hin as [i Hi].
    rewrite list_lookup_fmap in Hi.
    destruct (l !! i) as [x|] eqn:E; [|discriminate]. injection Hi as <-.
    rewrite (rank_from_lookup row 0 l ∅ i x Hnd E) in Hr. injection Hr as <-.
    exists i, x. repeat split. exact E.
  - rewrite rank_from_not_in, lookup_empty in Hr by exact Hnot. discriminate.
Qed.

(** The comprehensive ranking of a sheet, for the sums that the loop over
    its regions has accumulated. The rows with a positive sum are ordered
    by their sum, highest first, rows with equal sums in the order in which
    they were first met, and numbered from 1: a row with a higher sum has
    a smaller rank, and the ranks are the numbers 1 to the count of ranked
    rows. No row gets more than one update of its comprehensive rank. *)
Theorem comprehensive_rank_order (L : PyLib) (net : Net) (fuel : nat)
    (regions : list (str * list Anime)) (st : SheetState) (w w' : World) :
  process_regions L net fuel regions empty_sheet_state w = (Ret (Some st), w') ->
  let sums := global_avg_sum_map st in
  let ranked := valid_global_list sums in
  let ranks := global_rank_map sums in
  NoDup (List.map fst sums)
  /\ (forall i row v,
        ranked !! i = Some (row, v) -> ranks !! row = Some (Z.of_nat i + 1))
  /\ StronglySorted (fun a b => b.2 <= a.2) ranked
  /\ (forall v,
        List.filter (fun rv => rv.2 =? v) ranked
        = List.filter (fun rv => rv.2 =? v) (List.filter (fun rv => 0 <? rv.2) sums))
  /\ (forall row1 v1 r1 row2 v2 r2,
        (row1, v1) ∈ sums -> (row2, v2) ∈ sums ->
        ranks !! row1 = Some r1 -> ranks !! row2 = Some r2 ->
        v2 < v1 -> r1 < r2)
  /\ (forall row r, ranks !! row = Some r -> 1 <= r <= Z.of_nat (length ranked))
  /\ (forall ups,
        comprehensive_updates L regions st = Some ups ->
        NoDup (List.map target_row ups)).
Proof.
  intros Hrun sums ranked ranks.
  assert (Hnds : NoDup (List.map fst sums)
                 /\ NoDup (List.map fst (global_comp_rank_cell_map st))).
  { eapply process_regions_rows_NoDup; [exact Hrun | split; constructor]. }
  destruct Hnds as [Hnd Hnc].
  assert (Hperm : ranked ≡ₚ List.filter (fun rv => 0 <? rv.2) sums)
    by apply sort_by_perm.
  assert (Hndr : NoDup (List.map fst ranked)).
  { rewrite (Permutation_map fst Hperm). by apply NoDup_map_filter. }
  assert (Hsorted : StronglySorted (fun a b : Z * Z => b.2 <= a.2) ranked)
    by apply (sort_by_reverse_sorted snd).
  split; [exact Hnd|]. split; [|split; [exact Hsorted|split; [|split; [|split]]]].
  - intros i row v Hi. apply (rank_from_lookup fst 0 ranked ∅ i (row, v) Hndr Hi).
  - intros v. apply (sort_by_reverse_stable snd).
  - intros row1 v1 r1 row2 v2 r2 H1 H2 Hr1 Hr2 Hlt.
    apply (rank_from_place fst ranked) in Hr1 as (i & [k1 x1] & Hi & E1 & ->);
      [|exact Hndr].
    apply (rank_from_place fst ranked) in Hr2 as (j & [k2 x2] & Hj & E2 & ->);
      [|exact Hndr].
    simpl in E1, E2. subst k1 k2.
    assert (Hx1 : x1 = v1).
    { assert (Hin : (row1, x1) ∈ sums).
      { apply list_elem_of_lookup_2 in Hi. rewrite Hperm in Hi.
        apply list_elem_of_In, filter_In in Hi as [Hi _]. by apply list_elem_of_In. }
      pose proof (NoDup_map_inj fst sums (row1, x1) (row1, v1) Hnd Hin H1 eq_refl) as X.
      by injection X. }
    assert (Hx2 : x2 = v2).
    { assert (Hin : (row2, x2) ∈ sums).
      { apply list_elem_of_lookup_2 in Hj. rewrite Hperm in Hj.
        apply list_elem_of_In, filter_In in Hj as [Hj _]. by apply list_elem_of_In. }
      pose proof (NoDup_map_inj fst sums (row2, x2) (row2, v2) Hnd Hin H2 eq_refl) as X.
      by injection X. }
    subst x1 x2.
    destruct (Nat.lt_trichotomy i j) as [Hij | [-> | Hji]]; [lia| |].
    + rewrite Hi in Hj. injection Hj as _ ->. lia.
    + pose proof (StronglySorted_lookup _ ranked j i _ _ Hsorted Hj Hi Hji) as X.
      simpl in X. lia.
  - intros row r Hr.
    apply (rank_from_place fst ranked) in Hr as (i & x & Hi & _ & ->); [|exact Hndr].
    apply lookup_lt_Some in Hi. lia.
  - intros ups. unfold comprehensive_updates.
    destruct regions as [|[region_name first_region_list] rest]; [discriminate|].
    destruct (row_to_name_map L first_region_list ∅) as [names|]; [|discriminate].
    simpl. intros [= <-]. by apply comprehensive_rows_NoDup.
Qed.

Lemma comprehensive_rank_order_witness :
  let regions :=
    [ (u "TW", [series "X" "2" None; series "Y" "3" None]);
      (u "SEA", [series "Y" "3" None]) ] in
  let net :=
    net_of (fun url => if contains (u "playlistId=X") url
                       then page [("x1", "Show EP 1")]
                       else page [("y1", "Other EP 1")])
           (fun _ => ok [video "x1" (Some "100"); video "y1" (Some "80")]) in
  exists st w',
    process_regions ascii_lib net 3 regions empty_sheet_state (start (init (u "KEY")))
    = (Ret (Some st), w')
    /\ global_avg_sum_map st = [(2, 100); (3, 160)]
    /\ global_rank_map (global_avg_sum_map st) !! 3 = Some 1
    /\ global_rank_map (global_avg_sum_map st) !! 2 = Some 2.
Proof.
  intros regions net.
  set (w := start (init (u "KEY"))).
  destruct (process_regions ascii_lib net 3 regions empty_sheet_state w)
    as [out w'] eqn:Hrun.
  assert (Hout : exists st, out = Ret (Some st)
                            /\ global_avg_sum_map st = [(2, 100); (3, 160)]).
  { assert (H : out = fst (process_regions ascii_lib net 3 regions empty_sheet_state w))
      by (by rewrite Hrun).
    vm_compute in H. rewrite H. eexists. split; reflexivity. }
  destruct Hout as (st & -> & Hsums).
  destruct (comprehensive_rank_order ascii_lib net 3 regions st w w' Hrun)
    as (_ & Hrank & _).
  exists st, w'. split; [reflexivity|]. split; [exact Hsums|].
  rewrite Hsums in *.
  split; [exact (Hrank 0%nat 3 160 eq_refl) | exact (Hrank 1%nat 2 100 eq_refl)].
Defined.

(** ** The sums of a sheet *)

Lemma odict_get_set_eq {V} (d : list (Z * V)) (k : Z) (v : V) :
  odict_get (odict_set d k v) k = Some v.
Proof.
  induction d as [|[k' v'] d IH]; simpl.
  - by rewrite Z.eqb_refl.
  - destruct (k' =? k) eqn:E; simpl; [by rewrite Z.eqb_refl | by rewrite E].
Qed.

Lemma odict_get_set_ne {V} (d : list (Z * V)) (k k' : Z) (v : V) :
  k <> k' -> odict_get (odict_set d k v) k' = odict_get d k'.
Proof.
  intros Hne. induction d as [|[k0 v0] d IH]; simpl.
  - by rewrite (proj2 (Z.eqb_neq k k') Hne).
  - destruct (k0 =? k) eqn:E; simpl.
    + apply Z.eqb_eq in E. subst k0.
      by rewrite (proj2 (Z.eqb_neq k k') Hne).
    + by rewrite IH.
Qed.

(** Reading a region adds, to the sum of every row, the integer averages
    of the series of the region on that row: a series without result, with
    the no-data marker or with the marker of a removed playlist adds
    nothing. The results come in the order of the series, each with the row
    of its name cell. *)
Theorem read_region_accumulates (L : PyLib) (net : Net) (fuel : nat)
    (anime_list : list Anime) (acc acc' : list RegionResult * SheetState)
    (w w' : World) :
  read_region L net fuel anime_list acc w = (Ret (Some acc'), w') ->
  exists results,
    acc'.1 = acc.1 ++ results
    /\ List.map rr_anime results = anime_list
    /\ Forall (fun r => row_of L (rr_anime r) = Some (rr_row r)) results
    /\ forall row,
         sum_on acc'.2 row = sum_on acc.2 row + sum_of (avgs_on row results).
Proof.
  revert acc w. induction anime_list as [|anime rest IH]; intros acc w; simpl.
  - intros [= <- _]. exists []. rewrite app_nil_r. repeat split; [constructor|].
    intros row. simpl. lia.
  - unfold bind at 1, get_quota_exceeded.
    destruct (quota_exceeded (proc w)); [discriminate|].
    unfold bind at 1.
    destruct (read_anime L net fuel anime acc w) as [[acc1| |] w1] eqn:E;
      try discriminate.
    intros H. apply IH in H as (results & Hres & Hmap & Hrows & Hsum).
    unfold read_anime in E. destruct acc as [rr st].
    unfold bind at 1 in E. destruct (row_of L anime) as [row_idx|] eqn:Hrow;
      [|discriminate].
    simpl in E. unfold bind at 1 in E.
    destruct (process_anime L net fuel anime w) as [[stats| |] w2]; try discriminate.
    injection E as <- _. simpl in Hres, Hsum.
    exists ({| rr_row := row_idx; rr_anime := anime; rr_stats := stats |} :: results).
    simpl. split; [by rewrite Hres, <- app_assoc|].
    split; [by rewrite Hmap|]. split; [by constructor|].
    intros row. rewrite Hsum. unfold sum_on, avgs_on. simpl.
    destruct (stats ≫= int_avg) as [a|] eqn:Ea; simpl.
    + destruct (bool_decide (row_idx = row)) eqn:R.
      * apply bool_decide_eq_true in R. subst row.
        rewrite odict_get_set_eq. simpl. lia.
      * apply bool_decide_eq_false in R. by rewrite odict_get_set_ne.
    + by destruct (bool_decide (row_idx = row)).
Qed.

Lemma read_region_accumulates_witness :
  let net :=
    net_of (fun url => if contains (u "playlistId=X") url
                       then page [("x1", "Show EP 1")]
                       else failed 404 [])
           (fun _ => ok [video "x1" (Some "100")]) in
  let w := start (init (u "KEY")) in
  let st := {| updates_batch := []; row_max_ep_map := ∅;
               global_avg_sum_map := [(2, 40)];
               global_comp_rank_cell_map := [] |} in
  exists acc' w',
    read_region ascii_lib net 3 [series "X" "2" None; series "Z" "3" None] ([], st) w
    = (Ret (Some acc'), w')
    /\ sum_on acc'.2 2 = 140 /\ sum_on acc'.2 3 = 0.
Proof.
  intros net w st.
  destruct (read_region ascii_lib net 3 [series "X" "2" None; series "Z" "3" None]
              ([], st) w) as [out w'] eqn:Hrun.
  assert (Hout : exists acc',
             out = Ret (Some acc')
             /\ List.map (fun r => (rr_row r, rr_stats r ≫= int_avg)) acc'.1
                = [(2, Some 100); (3, None)]).
  { assert (H : out = fst (read_region ascii_lib net 3
                             [series "X" "2" None; series "Z" "3" None] ([], st) w))
      by (by rewrite Hrun).
    vm_compute in H. rewrite H. eexists. split; reflexivity. }
  destruct Hout as (acc' & -> & Hres).
  exists acc', w'. split; [reflexivity|].
  destruct (read_region_accumulates ascii_lib net 3 _ _ _ _ _ Hrun)
    as (results & Hacc & _ & _ & Hsum).
  simpl in Hacc. rewrite Hacc in Hres.
  destruct results as [|r1 [|r2 [|r3 results]]]; try discriminate Hres.
  injection Hres as H1 H2 H3 H4.
  split; rewrite Hsum; unfold avgs_on; simpl; rewrite H1, H2, H3, H4; reflexivity.
Defined.

(** ** The items of a playlist *)

Lemma items_of_page_ids (entries : list PlaylistEntry) :
  Forall (fun item => item_id item <> []) (items_of_page entries).
Proof.
  unfold items_of_page. induction entries as [|e entries IH]; [constructor|].
  simpl. destruct (snippet_videoId e) as [[|c vid]|]; try exact IH.
  constructor; [discriminate | exact IH].
Qed.

Lemma playlist_pages_ids (net : Net) (fuel : nat) (playlist_id : str)
    (items items' : list PlaylistItem) (token : str) (w w' : World) :
  Forall (fun item => item_id item <> []) items ->
  playlist_pages net fuel playlist_id items token w = (Ret (Items items'), w') ->
  Forall (fun item => item_id item <> []) items'.
Proof.
  revert items token w. induction fuel as [|fuel IH]; intros items token w Hids;
    [discriminate|].
  simpl. unfold bind at 1. simpl. unfold bind at 1. simpl. unfold bind at 1.
  rewrite _check_quota_run. destruct (quota_signal _); [discriminate|].
  destruct (status_code _ =? 404); [discriminate|].
  destruct (negb _); [intros [= <- _]; constructor|].
  destruct (body _) as [|reasons|data]; [discriminate | by intros [= <- _]|].
  assert (Hall : Forall (fun item => item_id item <> [])
                   (items ++ items_of_page (page_items data))).
  { apply Forall_app. split; [exact Hids | apply items_of_page_ids]. }
  destruct (nextPageToken data) as [[|c t]|]; try (by intros [= <- _]).
  apply IH, Hall.
Qed.

(** Every item that [get_playlist_items] returns has a video id that is not
    empty: the entries of a page without one are left out. *)
Theorem get_playlist_items_ids (net : Net) (fuel : nat) (playlist_id : str)
    (items : list PlaylistItem) (w w' : World) :
  get_playlist_items net fuel playlist_id w = (Ret (Items items), w') ->
  Forall (fun item => item_id item <> []) items.
Proof.
  unfold get_playlist_items, bind at 1, get_quota_exceeded.
  destruct (quota_exceeded (proc w)); [discriminate|].
  apply playlist_pages_ids. constructor.
Qed.

Lemma get_playlist_items_ids_witness :
  let p := {| page_items := [ {| snippet_title := Some (u "Show EP 1");
                                 snippet_videoId := Some (u "v1") |};
                              {| snippet_title := Some (u "Deleted video");
                                 snippet_videoId := None |};
                              {| snippet_title := None;
                                 snippet_videoId := Some (u "v3") |} ];
              nextPageToken := None |} in
  let net := net_of (fun _ => ok p) (fun _ => ok []) in
  let items := [ {| item_id := u "v1"; item_title := u "Show EP 1" |};
                 {| item_id := u "v3"; item_title := [] |} ] in
  fst (get_playlist_items net 3 (u "X") (start (init (u "KEY")))) = Ret (Items items)
  /\ Forall (fun item => item_id item <> []) items.
Proof.
  intros p net items.
  assert (Hrun : get_playlist_items net 3 (u "X") (start (init (u "KEY")))
                 = (Ret (Items items),
                    snd (get_playlist_items net 3 (u "X") (start (init (u "KEY"))))))
    by (vm_compute; reflexivity).
  split; [by rewrite Hrun|].
  exact (get_playlist_items_ids net 3 (u "X") items _ _ Hrun).
Defined.

(** ** The results of [process_anime] *)

(** What [process_anime] can return for a series: nothing; the record of a
    removed playlist; the defaults; or a record whose average and total
    are integers, whose episode count is an integer that is at least 1,
    and whose first-episode value is an integer or the no-data marker. *)
Theorem process_anime_results (L : PyLib) (net : Net) (fuel : nat) (anime : Anime)
    (r : Stats) (w w' : World) :
  process_anime L net fuel anime w = (Ret (Some r), w') ->
  r = removed_result
  \/ r = default_result
  \/ exists a t n f,
       r = {| avg := VInt a; total := VInt t; first := f; valid_count := VInt n;
              ep_count_update := VNone |}
       /\ 1 <= n
       /\ (f = VStr no_data \/ exists v, f = VInt v).
Proof.
  destruct (quota_exceeded (proc w)) eqn:Q.
  { unfold process_anime, bind at 1, get_quota_exceeded. rewrite Q. discriminate. }
  destruct (get_playlist_id L (link_url anime)) as [[|c playlist_id]|] eqn:Hid.
  - unfold process_anime, bind at 1, get_quota_exceeded. rewrite Q.
    destruct (parse_offset L (offset anime)). rewrite Hid. discriminate.
  - rewrite (process_anime_run L net fuel anime c playlist_id w Q Hid).
    destruct (get_playlist_items net fuel (c :: playlist_id) w)
      as [[[| |items]|e|] w1]; try discriminate.
    + intros [= <- _]. right. by left.
    + intros [= <- _]. by left.
    + cbv zeta.
      destruct (List.filter _ items) as [|v vs] eqn:Ef;
        [intros [= <- _]; right; by left|].
      destruct (get_video_stats L net _ w1) as [[stats|e|] w2]; try discriminate.
      destruct (quota_exceeded (proc w2)); [discriminate|].
      rewrite summarize_spec. cbv zeta.
      generalize (sort_by num_lt (sort_key L) (v :: vs)). intros sorted.
      destruct (real_samples stats (v :: vs)) as [|x xs];
        [intros [= <- _]; right; by left|].
      destruct (_ ≫= _) as [n|]; [|discriminate].
      intros [= <- _]. right. right.
      eexists _, _, _, _. split; [reflexivity|]. split; [simpl; lia|].
      unfold first_value. destruct sorted as [|y ys]; [left; reflexivity|].
      destruct (sample_of stats y); [right; eexists | left]; reflexivity.
  - unfold process_anime, bind at 1, get_quota_exceeded. rewrite Q.
    destruct (parse_offset L (offset anime)). rewrite Hid. discriminate.
Qed.

Lemma process_anime_results_witness :
  let net := net_of (fun _ => page [("v1", "Show EP 1")]) (fun _ => ok []) in
  let r := default_result in
  r = removed_result
  \/ r = default_result
  \/ exists a t n f,
       r = {| avg := VInt a; total := VInt t; first := f; valid_count := VInt n;
              ep_count_update := VNone |}
       /\ 1 <= n
       /\ (f = VStr no_data \/ exists v, f = VInt v).
Proof.
  intros net r.
  assert (Hrun : process_anime ascii_lib net 3 (series "X" "2" None)
                   (start (init (u "KEY")))
                 = (Ret (Some r),
                    snd (process_anime ascii_lib net 3 (series "X" "2" None)
                           (start (init (u "KEY"))))))
    by (vm_compute; reflexivity).
  exact (process_anime_results ascii_lib net 3 (series "X" "2" None) r _ _ Hrun).
Defined.

(** ** The rows that are written *)

(** The results of a region are those of its series, each with the row of
    its name cell. *)
Lemma read_region_results (L : PyLib) (net : Net) (fuel : nat)
    (anime_list : list Anime) (acc acc' : list RegionResult * SheetState)
    (w w' : World) :
  read_region L net fuel anime_list acc w = (Ret (Some acc'), w') ->
  exists results,
    acc'.1 = acc.1 ++ results
    /\ Forall (fun r => rr_anime r ∈ anime_list
                        /\ row_of L (rr_anime r) = Some (rr_row r)) results.
Proof.
  revert acc w. induction anime_list as [|anime rest IH]; intros acc w; simpl.
  - intros [= <- _]. exists []. by rewrite app_nil_r.
  - unfold bind at 1, get_quota_exceeded.
    destruct (quota_exceeded (proc w)); [discriminate|].
    unfold bind at 1.
    destruct (read_anime L net fuel anime acc w) as [[acc1| |] w1] eqn:E;
      try discriminate.
    intros H. apply IH in H as (results & Hres & Hall).
    unfold read_anime in E. destruct acc as [rr st].
    unfold bind at 1 in E. destruct (row_of L anime) as [row_idx|] eqn:Hrow;
      [|discriminate].
    simpl in E. unfold bind at 1 in E.
    destruct (process_anime L net fuel anime w) as [[stats| |] w2]; try discriminate.
    injection E as <- _. simpl in Hres.
    exists ({| rr_row := row_idx; rr_anime := anime; rr_stats := stats |} :: results).
    simpl. split; [by rewrite Hres, <- app_assoc|].
    constructor; [split; [by left | exact Hrow]|].
    eapply Forall_impl; [exact Hall|]. simpl. intros r [Hin Hr]. split; [by right | exact Hr].
Qed.

Lemma plan_rows_names (L : PyLib) (sheet_data : list (str * list Anime))
    (ranks : gmap Z Z) (l : list RegionResult) (st : SheetState) :
  Forall (of_sheet L sheet_data) l ->
  Forall (names_series L sheet_data) (updates_batch st) ->
  Forall (names_series L sheet_data) (updates_batch (foldl (plan_row ranks) st l)).
Proof.
  intros Hl. revert st. induction Hl as [|item l Hitem _ IH]; intros st Hst;
    [exact Hst|].
  simpl. apply IH. destruct (plan_row_batch ranks st item) as [more ->].
  unfold append_row. destruct (rank_update ranks item ++ more); [exact Hst|].
  apply Forall_app. split; [exact Hst|]. constructor; [|constructor].
  destruct Hitem as (region & Hr & Hin & Hrow). exists region, (rr_anime item). by repeat split.
Qed.

Lemma process_regions_names (L : PyLib) (net : Net) (fuel : nat)
    (sheet_data regions : list (str * list Anime)) (st st' : SheetState)
    (w w' : World) :
  (forall region, region ∈ regions -> region ∈ sheet_data) ->
  process_regions L net fuel regions st w = (Ret (Some st'), w') ->
  Forall (names_series L sheet_data) (updates_batch st) ->
  Forall (names_series L sheet_data) (updates_batch st').
Proof.
  revert st w. induction regions as [|[name anime_list] rest IH]; intros st w Hsub; simpl.
  - by intros [= <- _].
  - unfold bind at 1.
    destruct (read_region L net fuel anime_list ([], st) w) as [[[[rr st1]|]| |] w1] eqn:E;
      try discriminate.
    intros H Hst. eapply IH; [|exact H|].
    { intros region Hr. apply Hsub. by right. }
    destruct (read_region_keeps_batch _ _ _ _ _ _ _ _ E) as [Hb _].
    destruct (read_region_results _ _ _ _ _ _ _ _ E) as (results & Hres & Hall).
    simpl in Hb, Hres. subst rr. apply plan_rows_names; [|by rewrite Hb].
    eapply Forall_impl; [exact Hall|]. simpl. intros r [Hin Hrow].
    exists (name, anime_list). split; [apply Hsub; by left | by split].
Qed.

Lemma row_to_name_map_names (L : PyLib) (l : list Anime) (m names : gmap Z str)
    (row : Z) (name : str) :
  row_to_name_map L l m = Some names ->
  names !! row = Some name ->
  m !! row = Some name
  \/ exists a, a ∈ l /\ row_of L a = Some row /\ anime_name a = name.
Proof.
  revert m. induction l as [|a l IH]; intros m; simpl.
  - intros [= <-] H. by left.
  - destruct (row_of L a) as [r|] eqn:Hr; [|discriminate].
    intros H Hn. destruct (IH _ H Hn) as [Hm | (b & Hb & Hrow & Hname)].
    + destruct (decide (r = row)) as [-> | Hne].
      * rewrite lookup_insert_eq in Hm. injection Hm as <-.
        right. exists a. split; [by left | by split].
      * rewrite lookup_insert_ne in Hm by exact Hne. by left.
    + right. exists b. split; [by right | by split].
Qed.

Lemma comprehensive_names (L : PyLib) (regions : list (str * list Anime))
    (st : SheetState) (ups : list RowUpdate) :
  comprehensive_updates L regions st = Some ups ->
  Forall (names_series L regions) ups.
Proof.
  unfold comprehensive_updates.
  destruct regions as [|[region_name first_region_list] rest]; [discriminate|].
  destruct (row_to_name_map L first_region_list ∅) as [names|] eqn:Hn; [|discriminate].
  simpl. intros [= <-]. apply Forall_forall. intros ru Hru.
  apply elem_of_comprehensive in Hru as ([row cell_addr] & _ & Hru).
  unfold comp_rank_update in Hru.
  destruct (names !! row) as [[|c nm]|] eqn:Hrow; try (by apply elem_of_nil in Hru).
  apply list_elem_of_singleton in Hru. subst ru.
  destruct (row_to_name_map_names L _ _ _ _ _ Hn Hrow) as [H | (a & Ha & Har & Han)];
    [by rewrite lookup_empty in H|].
  exists (region_name, first_region_list), a. simpl. by repeat split; [left|..].
Qed.

(** Every row update that [process_single_sheet] writes is for a series
    that the sheet lists: it targets the row of the name cell of the series
    and carries the name of the series for the check of the row. *)
Theorem written_rows_name_series (L : PyLib) (net : Net) (fuel : nat)
    (ss_id sheet_name : str) (sheet_data : list (str * list Anime))
    (batch : list RowUpdate) (w w1 : World) :
  get_sheet_data net ss_id sheet_name w = (Ret sheet_data, w1) ->
  let w' := snd (process_single_sheet L net fuel ss_id sheet_name w) in
  (ss_id, UpdateData sheet_name batch) ∈ drop (length (posts w)) (posts w') ->
  Forall (names_series L sheet_data) batch.
Proof.
  intros Hd w' Hin. subst w'.
  destruct (process_single_sheet_run L net fuel ss_id sheet_name w)
    as [H | (sheet_data' & st & w2 & b & Hd' & R & Q & Hb & Hne & Hp & Hposts)].
  - rewrite H, drop_app_length in Hin. apply list_elem_of_singleton in Hin.
    discriminate Hin.
  - rewrite Hd in Hd'. injection Hd' as <- _.
    assert (batch = b) as ->.
    { destruct Hposts as [H | [H _]]; rewrite H, drop_app_length in Hin;
        rewrite !elem_of_cons, elem_of_nil in Hin;
        destruct Hin as [Hin | [Hin | Hin]]; try discriminate Hin;
          try (by injection Hin); try tauto.
      destruct Hin as [Hin | []]. discriminate Hin. }
    apply (process_regions_names L net fuel sheet_data) in R;
      [|tauto|constructor].
    destruct Hb as [-> | (ups & C & ->)]; [exact R|].
    apply Forall_app. split; [exact R | eapply comprehensive_names, C].
Qed.

Lemma written_rows_name_series_witness :
  let regions := [ (u "TW", [series "X" "2" None]) ] in
  let net :=
    with_sheet
      (net_of (fun _ => page [("x1", "Show EP 1")])
              (fun _ => ok [video "x1" (Some "200")]))
      regions in
  let w := start (init (u "KEY")) in
  let batch :=
    [ {| row_check_name := u "X"; target_row := 2;
         updates := [ {| cell := u "B2"; value := VInt 1 |};
                      {| cell := u "C2"; value := VInt 200 |};
                      {| cell := u "D2"; value := VInt 200 |};
                      {| cell := u "E2"; value := VInt 200 |};
                      {| cell := u "F2"; value := VInt 1 |} ] |};
      {| row_check_name := u "X"; target_row := 2;
         updates := [ {| cell := u "G2"; value := VInt 1 |} ] |} ] in
  posts (snd (process_single_sheet ascii_lib net 3 (u "SS") (u "Sheet") w))
  = [ (u "SS", GetSheetData (u "Sheet"));
      (u "SS", UpdateData (u "Sheet") batch);
      (u "SS", SortData (u "Sheet")) ]
  /\ Forall (names_series ascii_lib regions) batch.
Proof.
  intros regions net w batch.
  assert (Hposts : posts (snd (process_single_sheet ascii_lib net 3 (u "SS") (u "Sheet") w))
                   = [ (u "SS", GetSheetData (u "Sheet"));
                       (u "SS", UpdateData (u "Sheet") batch);
                       (u "SS", SortData (u "Sheet")) ])
    by (vm_compute; reflexivity).
  split; [exact Hposts|].
  assert (Hd : get_sheet_data net (u "SS") (u "Sheet") w
               = (Ret regions, posted w (u "SS") (GetSheetData (u "Sheet"))))
    by (vm_compute; reflexivity).
  apply (written_rows_name_series ascii_lib net 3 (u "SS") (u "Sheet") regions batch
           w _ Hd).
  cbv zeta. rewrite Hposts. simpl. apply list_elem_of_In. simpl. tauto.
Defined.

(** ** The offset test *)

(** [is_in_offset] answers [True] exactly when both tests that are asked
    for pass: the title contains the offset string, when one is given; and,
    when a range is given, the title has an episode number, the range
    unpacks into two numbers, and the episode number lies between them,
    bounds included. *)
Theorem is_in_offset_iff (L : PyLib) (title : str) (offset_range : option json)
    (offset_string : option str) :
  is_in_offset L title offset_range offset_string = true <->
  (forall s, offset_string = Some s -> occurs_in s title)
  /\ (forall range, offset_range = Some range ->
      exists ep_idx x y a b,
        parse_episode_number L title = Some ep_idx
        /\ unpack2 range = Some (x, y)
        /\ as_num x = Some a /\ as_num y = Some b
        /\ num_le a ep_idx = true /\ num_le ep_idx b = true).
Proof.
  assert (Hstr : forall range,
            is_in_offset L title range offset_string
            = (if offset_string is Some s then contains s title else true)
              && is_in_offset L title range None).
  { intros range. unfold is_in_offset. destruct offset_string as [s|]; [|reflexivity].
    destruct (contains s title); reflexivity. }
  rewrite Hstr, andb_true_iff. split.
  - intros [Hs Hr]. split.
    + intros s ->. by apply contains_spec.
    + intros range ->. by apply is_in_offset_range.
  - intros [Hs Hr]. split.
    + destruct offset_string as [s|]; [|reflexivity].
      apply contains_spec. by apply Hs.
    + destruct offset_range as [range|]; [|reflexivity].
      apply is_in_offset_range. by apply Hr.
Qed.

Lemma is_in_offset_iff_witness :
  is_in_offset ascii_lib (u "Show S2 EP 14") (Some (JArr [JNum (NInt 13); JNum (NInt 24)]))
    (Some (u "S2")) = true.
Proof.
  apply (proj2 (is_in_offset_iff ascii_lib (u "Show S2 EP 14") _ _)). split.
  - intros s [= <-]. exists (u "Show "), (u " EP 14"). vm_compute. reflexivity.
  - intros range [= <-].
    exists (NInt 14), (JNum (NInt 13)), (JNum (NInt 24)), (NInt 13), (NInt 24).
    repeat split; vm_compute; reflexivity.
Defined.

(** * Ranking, offsets, numbers and errors, in full *)

(** ** Region ranking by average *)

Lemma average_of_rankable (item : RegionResult) :
  rankable item = bool_decide (is_Some (average_of item)).
Proof.
  unfold rankable, average_of, int_avg. destruct (rr_stats item) as [stats|]; cbn;
    [destruct (avg stats)|]; reflexivity.
Qed.

Lemma average_of_ranking_avg (item : RegionResult) (v : Z) :
  bool_decide (average_of item = Some v) = rankable item && (ranking_avg item =? v).
Proof.
  unfold rankable, ranking_avg, average_of, int_avg.
  destruct (rr_stats item) as [stats|]; cbn; [destruct (avg stats) as [|n|t]|];
    cbn; try reflexivity.
  destruct (Z.eqb_spec n v) as [-> | Hne].
  - by rewrite bool_decide_eq_true_2.
  - rewrite bool_decide_eq_false_2; [reflexivity | congruence].
Qed.

Lemma average_of_Some (item : RegionResult) (x : Z) :
  average_of item = Some x -> rankable item = true /\ ranking_avg item = x.
Proof.
  intros H. pose proof (average_of_ranking_avg item x) as E.
  rewrite bool_decide_eq_true_2 in E by exact H.
  symmetry in E. apply andb_true_iff in E as [E1 E2]. apply Z.eqb_eq in E2. by split.
Qed.

Lemma filter_filter_and {A} (P Q : A -> bool) (l : list A) :
  List.filter P (List.filter Q l) = List.filter (fun a => Q a && P a) l.
Proof.
  induction l as [|a l IH]; simpl; [reflexivity|].
  destruct (Q a); simpl; [destruct (P a)|]; by rewrite ?IH.
Qed.

Lemma filter_average (v : Z) (l : list RegionResult) :
  List.filter (fun item => bool_decide (average_of item = Some v)) l
  = List.filter (fun r => ranking_avg r =? v) (List.filter rankable l).
Proof.
  rewrite filter_filter_and. apply filter_ext. intros item.
  apply average_of_ranking_avg.
Qed.

Lemma filter_all {A} (P : A -> bool) (l : list A) :
  (forall a, a ∈ l -> P a = true) -> List.filter P l = l.
Proof.
  induction l as [|a l IH]; intros H; simpl; [reflexivity|].
  rewrite (H a) by (by left). rewrite IH; [reflexivity|].
  intros b Hb. apply H. by right.
Qed.

(** A row has a rank in the region exactly when an entry on it has an
    integer average. *)
Lemma rank_map_is_Some (region_results : list RegionResult) (row : Z) :
  is_Some (rank_map region_results !! row) <->
  exists other,
    other ∈ region_results /\ rr_row other = row /\ is_Some (average_of other).
Proof.
  unfold rank_map. split.
  - intros Hs.
    destruct (decide (row ∈ List.map rr_row (valid_for_ranking region_results)))
      as [Hin | Hnot].
    + apply list_elem_of_In, in_map_iff in Hin as (other & Hrow & Ho).
      apply list_elem_of_In, elem_of_valid_for_ranking in Ho as [Ho Hr].
      exists other. split; [exact Ho|]. split; [exact Hrow|].
      rewrite average_of_rankable in Hr. by apply bool_decide_eq_true in Hr.
    + rewrite rank_from_not_in, lookup_empty in Hs by exact Hnot.
      by destruct Hs.
  - intros (other & Ho & Hrow & Ha). apply rank_from_in.
    apply list_elem_of_In, in_map_iff. exists other. split; [exact Hrow|].
    apply list_elem_of_In, elem_of_valid_for_ranking. split; [exact Ho|].
    rewrite average_of_rankable. by apply bool_decide_eq_true.
Qed.

(** The rank of a row is the place of the last ranked entry on it. *)
Lemma rank_from_last {A} (row : A -> Z) (i : nat) (l : list A) (m : gmap Z Z)
    (k : Z) :
  k ∈ List.map row l ->
  exists j x,
    l !! j = Some x /\ row x = k
    /\ (forall j' y, (j < j')%nat -> l !! j' = Some y -> row y <> k)
    /\ rank_from row i l m !! k = Some (Z.of_nat (i + j) + 1).
Proof.
  revert i m. induction l as [|x l IH]; intros i m Hk; simpl in Hk.
  - by apply elem_of_nil in Hk.
  - destruct (decide (k ∈ List.map row l)) as [Hin | Hnot].
    + destruct (IH (S i) (<[row x := Z.of_nat i + 1]> m) Hin)
        as (j & y & Hj & Hy & Hlater & Hr).
      exists (S j), y. split; [exact Hj|]. split; [exact Hy|]. split.
      * intros [|j'] z Hlt Hz; [lia|]. apply (Hlater j' z); [lia | exact Hz].
      * simpl. rewrite Hr. do 2 f_equal. lia.
    + apply elem_of_cons in Hk as [-> | Hin]; [|contradiction].
      exists 0%nat, x. split; [reflexivity|]. split; [reflexivity|]. split.
      * intros [|j'] z Hlt Hz; [lia|]. simpl in Hz. intros Hrow. apply Hnot.
        rewrite <- Hrow. apply list_elem_of_In, in_map.
        apply list_elem_of_In. eapply list_elem_of_lookup_2. exact Hz.
      * simpl. rewrite rank_from_not_in by exact Hnot.
        rewrite lookup_insert_eq. do 2 f_equal. lia.
Qed.

(** Every ranked row gets a rank from 1 on. *)
Lemma rank_from_positive {A} (row : A -> Z) (i : nat) (l : list A) (m : gmap Z Z)
    (k r : Z) :
  (forall k r, m !! k = Some r -> 1 <= r) ->
  rank_from row i l m !! k = Some r -> 1 <= r.
Proof.
  revert i m. induction l as [|x l IH]; intros i m Hm; simpl; [apply Hm|].
  apply IH. intros k' r'. destruct (decide (row x = k')) as [<- | Hne].
  - rewrite lookup_insert_eq. intros [= <-]. lia.
  - rewrite lookup_insert_ne by exact Hne. apply Hm.
Qed.

(** C4, as the code has it. The rank table of a region is keyed by row.
    For a region whose series sit on distinct rows, the ranking takes
    exactly the entries whose average is an integer, each once; it orders
    them by average, highest first, entries with the same average in input
    order, and numbers them 1, 2, ... in that order, which are all the
    ranks there are. A ranked entry with a rank cell gets that cell written
    with its rank, and an entry without an integer average (no result at
    all, or an average that is a marker) gets it written with the empty
    value, each in a row update of the batch. In any region, the rank stored for a row
    is the place of the last ranked entry on it, and an entry on a row
    where some entry has an integer average gets its rank cell written with
    that rank, whether it is ranked itself or not. *)
Theorem region_ranking (region_results : list RegionResult) (st : SheetState) :
  let ranked := valid_for_ranking region_results in
  let ranks := rank_map region_results in
  let batch := updates_batch (plan_region region_results st) in
  (NoDup (List.map rr_row region_results) ->
   ranked ≡ₚ List.filter (fun item => bool_decide (is_Some (average_of item)))
               region_results
   /\ (forall item,
         item ∈ ranked <->
         item ∈ region_results
         /\ exists stats n, rr_stats item = Some stats /\ avg stats = VInt n)
   /\ (forall i j a b x y,
         (i < j)%nat -> ranked !! i = Some a -> ranked !! j = Some b ->
         average_of a = Some x -> average_of b = Some y -> y <= x)
   /\ (forall v,
         List.filter (fun item => bool_decide (average_of item = Some v)) ranked
         = List.filter (fun item => bool_decide (average_of item = Some v))
             region_results)
   /\ (forall i item,
         ranked !! i = Some item -> ranks !! rr_row item = Some (Z.of_nat i + 1))
   /\ (forall row r,
         ranks !! row = Some r ->
         exists i item,
           ranked !! i = Some item /\ rr_row item = row /\ r = Z.of_nat i + 1)
   /\ (forall i item c,
         ranked !! i = Some item ->
         cell_ref (rank_cell (rr_anime item)) = Some c ->
         exists ru more,
           ru ∈ batch
           /\ target_row ru = rr_row item
           /\ row_check_name ru = anime_name (rr_anime item)
           /\ updates ru = {| cell := c; value := VInt (Z.of_nat i + 1) |} :: more)
   /\ (forall item c,
         item ∈ region_results ->
         (rr_stats item = None
          \/ exists stats, rr_stats item = Some stats
                           /\ forall n, avg stats <> VInt n) ->
         cell_ref (rank_cell (rr_anime item)) = Some c ->
         exists ru more,
           ru ∈ batch
           /\ target_row ru = rr_row item
           /\ row_check_name ru = anime_name (rr_anime item)
           /\ updates ru = {| cell := c; value := VStr [] |} :: more))
  /\ (forall item other c,
        item ∈ region_results ->
        other ∈ region_results ->
        rr_row other = rr_row item ->
        is_Some (average_of other) ->
        cell_ref (rank_cell (rr_anime item)) = Some c ->
        exists i last,
          ranked !! i = Some last
          /\ rr_row last = rr_row item
          /\ (forall j later,
                (i < j)%nat -> ranked !! j = Some later -> rr_row later <> rr_row item)
          /\ ranks !! rr_row item = Some (Z.of_nat i + 1)
          /\ exists ru more,
               ru ∈ batch
               /\ target_row ru = rr_row item
               /\ row_check_name ru = anime_name (rr_anime item)
               /\ updates ru = {| cell := c; value := VInt (Z.of_nat i + 1) |} :: more).
Proof.
  intros ranked ranks batch. split.
  - intros Hnd.
    assert (Hrank : forall i item,
              ranked !! i = Some item ->
              ranks !! rr_row item = Some (Z.of_nat i + 1)).
    { intros i item Hi. unfold ranks, rank_map.
      rewrite (rank_from_lookup rr_row 0 _ ∅ i item);
        [reflexivity | apply NoDup_rows_ranked; exact Hnd | exact Hi]. }
    split; [|split; [|split; [|split; [|split; [|split; [|split]]]]]].
    + unfold ranked. rewrite valid_for_ranking_perm.
      erewrite filter_ext; [reflexivity|]. intros item. apply average_of_rankable.
    + intros item. unfold ranked.
      rewrite elem_of_valid_for_ranking, rankable_spec. reflexivity.
    + intros i j a b x y Hlt Hi Hj Ha Hb.
      apply average_of_Some in Ha as [_ <-]. apply average_of_Some in Hb as [_ <-].
      apply (StronglySorted_lookup (fun a b => ranking_avg b <= ranking_avg a)
               ranked i j a b); try assumption.
      apply sort_by_reverse_sorted.
    + intros v. rewrite !filter_average.
      rewrite (filter_all rankable ranked).
      * apply sort_by_reverse_stable.
      * intros a Ha. apply elem_of_valid_for_ranking in Ha as [_ Ha]. exact Ha.
    + exact Hrank.
    + intros row r Hr. apply rank_from_place; [|exact Hr].
      apply NoDup_rows_ranked. exact Hnd.
    + intros i item c Hi Hc. apply plan_rows_rank_cell.
      * apply list_elem_of_lookup_2 in Hi.
        apply elem_of_valid_for_ranking in Hi as [Hi _]. exact Hi.
      * unfold rank_update. fold ranks. rewrite Hc, (Hrank i item Hi). reflexivity.
    + intros item c Hin Hno Hc.
      assert (Hr : rankable item = false).
      { destruct (rankable item) eqn:E; [|reflexivity].
        apply rankable_spec in E as (s & n & Hs & Ha).
        destruct Hno as [Hno | (s' & Hs' & Hno)]; [congruence|].
        rewrite Hs in Hs'. injection Hs' as <-. by destruct (Hno n). }
      apply plan_rows_rank_cell; [exact Hin|].
      unfold rank_update. rewrite Hc, rank_map_unranked by assumption.
      reflexivity.
  - intros item other c Hin Ho Hrow Hav Hc.
    assert (Hrowin : rr_row item ∈ List.map rr_row ranked).
    { apply list_elem_of_In, in_map_iff. exists other. split; [exact Hrow|].
      apply list_elem_of_In, elem_of_valid_for_ranking. split; [exact Ho|].
      rewrite average_of_rankable. by apply bool_decide_eq_true. }
    destruct (rank_from_last rr_row 0 ranked ∅ (rr_row item) Hrowin)
      as (i & last & Hi & Hlast & Hlater & Er).
    change (Z.of_nat (0 + i)) with (Z.of_nat i) in Er.
    exists i, last. split; [exact Hi|]. split; [exact Hlast|].
    split; [exact Hlater|]. split; [exact Er|].
    apply plan_rows_rank_cell; [exact Hin|].
    unfold rank_update. fold ranks. unfold ranks, rank_map. fold ranked.
    rewrite Hc, Er. reflexivity.
Qed.

(** Averages 500, 500, 300 in input order A, B, C give the ranks 1, 2, 3;
    D, without stats, has its rank cell cleared. *)
Lemma region_ranking_witness :
  let region :=
    [ entry "A" "2" (Some (one_episode 500)); entry "B" "3" (Some (one_episode 500));
      entry "C" "4" (Some (one_episode 300)); entry "D" "5" None ] in
  rank_map region !! 2 = Some 1
  /\ rank_map region !! 3 = Some 2
  /\ rank_map region !! 4 = Some 3
  /\ exists ru more,
       ru ∈ updates_batch (plan_region region empty_sheet_state)
       /\ target_row ru = 5
       /\ row_check_name ru = u "D"
       /\ updates ru = {| cell := u "B5"; value := VStr [] |} :: more.
Proof.
  intros region.
  assert (Hnd : NoDup (List.map rr_row region)).
  { change (NoDup [2; 3; 4; 5]).
    repeat (apply NoDup_cons; split;
            [rewrite ?elem_of_cons, elem_of_nil; intuition discriminate|]).
    apply NoDup_nil_2. }
  destruct (proj1 (region_ranking region empty_sheet_state) Hnd)
    as (_ & _ & _ & _ & Hrank & _ & _ & Hclear).
  split; [exact (Hrank 0%nat (entry "A" "2" (Some (one_episode 500))) eq_refl)|].
  split; [exact (Hrank 1%nat (entry "B" "3" (Some (one_episode 500))) eq_refl)|].
  split; [exact (Hrank 2%nat (entry "C" "4" (Some (one_episode 300))) eq_refl)|].
  refine (Hclear (entry "D" "5" None) (u "B5") _ (or_introl eq_refl) eq_refl).
  apply list_elem_of_In. simpl. tauto.
Defined.

(** C4, as stated for every region, fails when two series of a region have
    their name cells on the same row. X (average 500, name cell A2), Y
    (average 300, name cell H2) and Z (no data, name cell K2) share row 2:
    the rank table holds the one entry 2 for that row, so X and Y both get
    the rank 2, the ranks are not 1 and 2, and the rank cell of Z is
    written with 2 instead of being cleared. *)
Lemma region_ranking_shared_row :
  let net := net_of (fun url => if contains (u "playlistId=X") url
                                then page [("x1", "Show EP 1")]
                                else if contains (u "playlistId=Y") url
                                then page [("y1", "Other EP 1")]
                                else failed 500 [])
                    (fun _ => ok [video "x1" (Some "500"); video "y1" (Some "300")]) in
  let region := [ series "X" "2" None; moved (series "Y" "2" None) "H2";
                  moved (series "Z" "2" None) "K2" ] in
  exists st w',
    process_regions ascii_lib net 3 [(u "TW", region)] empty_sheet_state
      (start (init (u "KEY"))) = (Ret (Some st), w')
    /\ List.map (fun ru => (row_check_name ru, target_row ru,
                            List.map value (updates ru))) (updates_batch st)
       = [ (u "X", 2, [VInt 2; VInt 500; VInt 500; VInt 500; VInt 1]);
           (u "Y", 2, [VInt 2; VInt 300; VInt 300; VInt 300]);
           (u "Z", 2, [VInt 2; VStr no_data; VStr no_data; VStr no_data]) ].
Proof.
  intros net region. eexists _, _. split; vm_compute; reflexivity.
Qed.

(** ** A removed playlist, at any page *)

(** The last turn of the loop of [get_playlist_items], after the pages
    [pages]: what the answer to the next request decides. *)
Lemma get_playlist_items_last (net : Net) (fuel : nat) (playlist_id : str)
    (pages : list PlaylistPage) (h' : list Request) (token' : str) (w : World) :
  let url := playlist_url (proc w) playlist_id token' in
  let res := playlist_api net h' url in
  let w' := with_requests w (h' ++ [GetPlaylistItems url]) in
  quota_exceeded (proc w) = false ->
  follows net (proc w) playlist_id (requests w) [] pages h' token' ->
  (length pages < fuel)%nat ->
  quota_signal res = false ->
  get_playlist_items net fuel playlist_id w =
  if status_code res =? 404 then (Ret Removed, w')
  else if negb (status_code res =? 200) then (Ret (Items []), w')
  else
    match body res with
    | NotJson => (Raise JSONDecodeError, w')
    | ErrorBody _ => (Ret (Items (items_of_pages pages)), w')
    | Data data =>
        match nextPageToken data with
        | Some (c :: t) =>
            playlist_pages net (fuel - length pages - 1) playlist_id
              (items_of_pages pages ++ items_of_page (page_items data)) (c :: t) w'
        | _ => (Ret (Items (items_of_pages pages ++ items_of_page (page_items data))), w')
        end
    end.
Proof.
  intros url res w' Q Hf Hfuel Hq.
  unfold get_playlist_items, bind at 1, get_quota_exceeded. rewrite Q.
  replace fuel with (length pages + S (fuel - length pages - 1))%nat at 1 by lia.
  rewrite (playlist_pages_follows net _ playlist_id pages [] [] token' h' w Hf).
  rewrite playlist_pages_step by exact Hq.
  cbn [with_requests proc requests app]. fold url. fold res. reflexivity.
Qed.

(** C2, as the code has it. When a page of the playlist, the first or a
    later one, is answered 404, [process_anime] returns the delisted marker
    in every field. The series is then left out of the region ranking and
    adds nothing to the cross-region sums; its row update sets the average,
    total and first-episode cells (those configured) to the delisted
    marker and has no update of the episode-count cell, whose watermark is
    left as it was. The rank cell is cleared (written with the empty value)
    when no entry of the region with an integer average sits on the same
    row; when one does, the cell gets a rank, that of the row. *)
Theorem removed_playlist (L : PyLib) (net : Net) (fuel : nat) (anime : Anime)
    (c : N) (playlist_id : str) (pages : list PlaylistPage) (h' : list Request)
    (token' : str) (w : World) :
  let url := playlist_url (proc w) (c :: playlist_id) token' in
  let w' := with_requests w (h' ++ [GetPlaylistItems url]) in
  quota_exceeded (proc w) = false ->
  get_playlist_id L (link_url anime) = Some (c :: playlist_id) ->
  follows net (proc w) (c :: playlist_id) (requests w) [] pages h' token' ->
  (length pages < fuel)%nat ->
  status_code (playlist_api net h' url) = 404 ->
  process_anime L net fuel anime w = (Ret (Some removed_result), w')
  /\ (forall row region_results st,
        row_of L anime = Some row ->
        exists st',
          read_anime L net fuel anime (region_results, st) w
          = (Ret (region_results
                    ++ [ {| rr_row := row; rr_anime := anime;
                            rr_stats := Some removed_result |} ], st'), w')
          /\ global_avg_sum_map st' = global_avg_sum_map st)
  /\ (forall region_results st item,
        item ∈ region_results ->
        rr_anime item = anime ->
        rr_stats item = Some removed_result ->
        let marked :=
          cell_update (avg_view_cell anime) (VStr delisted)
          ++ cell_update (total_view_cell anime) (VStr delisted)
          ++ cell_update (first_view_cell anime) (VStr delisted) in
        (item ∉ valid_for_ranking region_results)
        /\ row_max_ep_map (plan_row (rank_map region_results) st item)
           = row_max_ep_map st
        /\ ((forall other,
               other ∈ region_results -> rr_row other = rr_row item ->
               average_of other = None) ->
            updates_batch (plan_row (rank_map region_results) st item)
            = append_row anime (rr_row item)
                (cell_update (rank_cell anime) (VStr []) ++ marked) (updates_batch st))
        /\ (forall other,
              other ∈ region_results -> rr_row other = rr_row item ->
              is_Some (average_of other) ->
              exists r,
                1 <= r
                /\ updates_batch (plan_row (rank_map region_results) st item)
                   = append_row anime (rr_row item)
                       (cell_update (rank_cell anime) (VInt r) ++ marked)
                       (updates_batch st))).
Proof.
  intros url w' Hf Hid Hfol Hfuel Hs.
  assert (Hq : quota_signal (playlist_api net h' url) = false).
  { unfold quota_signal. rewrite Hs. reflexivity. }
  assert (Hp : process_anime L net fuel anime w = (Ret (Some removed_result), w')).
  { rewrite (process_anime_run L net fuel anime c playlist_id w Hf Hid).
    rewrite (get_playlist_items_last net fuel (c :: playlist_id) pages h' token' w
               Hf Hfol Hfuel Hq).
    fold url. rewrite Hs. reflexivity. }
  split; [exact Hp|]. split.
  - intros row region_results st Hrow. unfold read_anime.
    unfold bind at 1. rewrite Hrow. simpl. unfold bind at 1. rewrite Hp.
    eexists. split; reflexivity.
  - intros region_results st item Hin Ha Hst marked.
    assert (Hr : rankable item = false) by (unfold rankable; rewrite Hst; reflexivity).
    assert (Hplan :
              updates_batch
                (plan_row (rank_map region_results) st item)
              = append_row anime (rr_row item)
                  (rank_update (rank_map region_results) item ++ marked)
                  (updates_batch st)).
    { unfold plan_row, view_updates, marked, cell_update.
      rewrite Hst, Ha. reflexivity. }
    split; [|split; [|split]].
    + rewrite elem_of_valid_for_ranking. intros [_ H]. congruence.
    + unfold plan_row. rewrite Hst. reflexivity.
    + intros Hnone. rewrite Hplan. do 2 f_equal.
      unfold rank_update, cell_update. rewrite Ha.
      destruct (rank_map region_results !! rr_row item) as [r|] eqn:E;
        [|by destruct (cell_ref (rank_cell anime))].
      assert (Hsome : is_Some (rank_map region_results !! rr_row item)) by (by eexists).
      apply rank_map_is_Some in Hsome as (other & Ho & Hrow & Hav).
      rewrite (Hnone other Ho Hrow) in Hav. by destruct Hav.
    + intros other Ho Hrow Hav.
      assert (Hsome : is_Some (rank_map region_results !! rr_row item)).
      { apply rank_map_is_Some. by exists other. }
      destruct Hsome as [r Er]. exists r. split.
      * unfold rank_map in Er.
        eapply (rank_from_positive rr_row 0 _ ∅); [|exact Er].
        intros k r'. rewrite lookup_empty. discriminate.
      * rewrite Hplan. do 2 f_equal.
        unfold rank_update, cell_update. rewrite Ha, Er. reflexivity.
Qed.

(** The second page of the playlist is answered 404. *)
Lemma removed_playlist_witness :
  let p1 := {| page_items := [ {| snippet_title := Some (u "Show EP 1");
                                  snippet_videoId := Some (u "v1") |} ];
               nextPageToken := Some (u "T2") |} in
  let net := net_of (fun url => if contains (u "pageToken=T2") url
                                then failed 404 [] else ok p1)
                    (fun _ => ok []) in
  fst (process_anime ascii_lib net 5 (series "Z" "4" None) (start (init (u "KEY"))))
  = Ret (Some removed_result).
Proof.
  intros p1 net.
  set (w := start (init (u "KEY"))).
  set (url1 := playlist_url (proc w) (u "Z") []).
  assert (H1 : playlist_api net [] url1 = ok p1) by (vm_compute; reflexivity).
  assert (Hf : follows net (proc w) (u "Z") (requests w) [] [p1]
                 [GetPlaylistItems url1] (u "T2")).
  { split; [exact H1|]. exists 84%N, [50%N]. repeat split; reflexivity. }
  rewrite (proj1 (removed_playlist ascii_lib net 5 (series "Z" "4" None) 90%N []
                    [p1] [GetPlaylistItems url1] (u "T2") w eq_refl eq_refl Hf
                    ltac:(simpl; lia) ltac:(vm_compute; reflexivity))).
  reflexivity.
Defined.

(** ** The offset of a series, case by case *)

Lemma as_num_bound (j : json) (a : num) : as_num j = Some a <-> range_bound j a.
Proof.
  unfold range_bound. split.
  - destruct j as [| b | x | t | l | l]; simpl; try discriminate.
    + intros [= <-]. right. by exists b.
    + intros [= <-]. by left.
  - intros [-> | (b & -> & ->)]; reflexivity.
Qed.

(** Only an array unpacks into two bounds: the two characters of a string
    and the two keys of an object are strings. *)
Lemma unpack2_bounds (range x y : json) (a b : num) :
  unpack2 range = Some (x, y) -> as_num x = Some a -> as_num y = Some b ->
  range = JArr [x; y].
Proof.
  destruct range as [| | | t | l | l]; simpl; try discriminate.
  - destruct t as [|c1 [|c2 [|c3 t]]]; try discriminate.
    intros [= <- <-]. discriminate.
  - destruct l as [|j1 [|j2 [|j3 l]]]; try discriminate. by intros [= <- <-].
  - destruct l as [|[k1 v1] [|[k2 v2] [|j3 l]]]; try discriminate.
    intros [= <- <-]. discriminate.
Qed.

Lemma truthy_falsy (j : json) : truthy j = false <-> falsy j.
Proof.
  destruct j as [| b | x | t | l | l]; simpl.
  - tauto.
  - tauto.
  - rewrite negb_false_iff, bool_decide_eq_true.
    unfold num_compare, is_zero. destruct x as [z | [m e | n |]]; simpl.
    + unfold dyadic_compare. simpl. rewrite !Z.mul_1_r.
      split; [intros [= H]; by apply Z.compare_eq in H | intros ->; reflexivity].
    + unfold dyadic_compare.
      pose proof (pow2_pos (e - Z.min e 0) ltac:(lia)) as P.
      split.
      * intros [= H]. apply Z.compare_eq in H. nia.
      * intros ->. reflexivity.
    + split; [by destruct n | tauto].
    + split; [discriminate | tauto].
  - rewrite negb_false_iff, bool_decide_eq_true. tauto.
  - rewrite negb_false_iff, bool_decide_eq_true. tauto.
  - rewrite negb_false_iff, bool_decide_eq_true. tauto.
Qed.

Lemma truthy_not_falsy (j : json) : truthy j = true <-> ~ falsy j.
Proof.
  rewrite <- truthy_falsy. destruct (truthy j); split; try tauto; discriminate.
Qed.

(** Integers compare as integers. *)
Lemma num_le_int (a b : Z) : num_le (NInt a) (NInt b) = (a <=? b).
Proof.
  unfold num_le, num_compare, to_float, float_compare, dyadic_compare. simpl.
  rewrite !Z.mul_1_r. unfold Z.leb. by destruct (a ?= b).
Qed.

(** The range test passes exactly for a title with an episode number
    within a range. *)
Lemma is_in_offset_is_range (L : PyLib) (title : str) (range : json) :
  is_in_offset L title (Some range) None = true <->
  exists a b ep_idx,
    is_range range a b
    /\ parse_episode_number L title = Some ep_idx
    /\ num_le a ep_idx = true /\ num_le ep_idx b = true.
Proof.
  rewrite is_in_offset_range. split.
  - intros (ep_idx & x & y & a & b & Hp & Hu & Hx & Hy & H1 & H2).
    exists a, b, ep_idx. split; [|by repeat split].
    exists x, y. split; [eapply unpack2_bounds; eassumption|].
    split; by apply as_num_bound.
  - intros (a & b & ep_idx & (x & y & -> & Hx & Hy) & Hp & H1 & H2).
    exists ep_idx, x, y, a, b. apply as_num_bound in Hx, Hy. by repeat split.
Qed.

(** C7, as the code has it, for a non-empty offset string [s] and a
    playlist item that no ignore keyword excludes. When [json.loads]
    rejects [s], the item is kept exactly when its title contains [s].
    When [json.loads] decodes [s], the value decoded is the range and the
    substring test is not made: a falsy value restricts nothing; any other
    value keeps the item exactly when it is an array of two bounds, numbers
    or booleans, and the title has an episode number from the first to the
    second, bounds included (for integers: in the order of the integers);
    so a value that is neither falsy nor such an array excludes every
    title. *)
Theorem offset_interpretation (L : PyLib) (self : Processor) (c : N) (s : str)
    (item : PlaylistItem) :
  let offset_range := (parse_offset L (Some (c :: s))).1 in
  let offset_string := (parse_offset L (Some (c :: s))).2 in
  let kept := keeps L self offset_range offset_string item in
  let title := item_title item in
  (is_ignored_keyword self title = true -> kept = false)
  /\ (json_loads L (c :: s) = None ->
      offset_range = None /\ offset_string = Some (c :: s)
      /\ (is_ignored_keyword self title = false ->
          kept = true <-> occurs_in (c :: s) title))
  /\ (forall range,
        json_loads L (c :: s) = Some range ->
        offset_range = Some range /\ offset_string = None
        /\ (is_ignored_keyword self title = false ->
            (falsy range -> kept = true)
            /\ (~ falsy range ->
                kept = true <->
                exists a b ep_idx,
                  is_range range a b
                  /\ parse_episode_number L title = Some ep_idx
                  /\ num_le a ep_idx = true /\ num_le ep_idx b = true)
            /\ (forall a b,
                  is_range range a b ->
                  kept = match parse_episode_number L title with
                         | Some ep_idx => num_le a ep_idx && num_le ep_idx b
                         | None => false
                         end)
            /\ (forall a b n : Z,
                  is_range range (NInt a) (NInt b) ->
                  parse_episode_number L title = Some (NInt n) ->
                  kept = true <-> a <= n <= b)
            /\ (~ falsy range ->
                (forall a b, ~ is_range range a b) -> kept = false))).
Proof.
  intros offset_range offset_string kept title.
  unfold kept, offset_range, offset_string, parse_offset, keeps. fold title.
  split; [|split].
  - intros ->. reflexivity.
  - intros ->. simpl. split; [reflexivity|]. split; [reflexivity|].
    intros ->. unfold is_in_offset. simpl. rewrite <- contains_spec.
    destruct (contains (c :: s) title); simpl; [tauto|]. split; [discriminate|].
    intros H. discriminate H.
  - intros range ->. simpl. split; [reflexivity|]. split; [reflexivity|].
    intros ->.
    assert (Hk : (if truthy range && negb (is_in_offset L title (Some range) None)
                  then false else true)
                 = negb (truthy range) || is_in_offset L title (Some range) None).
    { destruct (truthy range), (is_in_offset L title (Some range) None); reflexivity. }
    rewrite Hk. clear Hk.
    assert (Hpair : forall a b,
              is_range range a b ->
              negb (truthy range) || is_in_offset L title (Some range) None
              = match parse_episode_number L title with
                | Some ep_idx => num_le a ep_idx && num_le ep_idx b
                | None => false
                end).
    { intros a b (x & y & -> & Hx & Hy). simpl.
      apply as_num_bound in Hx, Hy.
      unfold is_in_offset, in_range. simpl. rewrite Hx, Hy.
      destruct (parse_episode_number L title) as [ep_idx|]; [|reflexivity].
      destruct (num_le a ep_idx); [|reflexivity].
      destruct (num_le ep_idx b); reflexivity. }
    split; [|split; [|split; [|split]]].
    + intros Hf. apply truthy_falsy in Hf. rewrite Hf. reflexivity.
    + intros Hf. apply truthy_not_falsy in Hf. rewrite Hf. simpl.
      apply is_in_offset_is_range.
    + exact Hpair.
    + intros a b n Hr Hp. rewrite (Hpair _ _ Hr), Hp, !num_le_int.
      rewrite andb_true_iff, !Z.leb_le. reflexivity.
    + intros Hf Hno. apply truthy_not_falsy in Hf. rewrite Hf. simpl.
      destruct (is_in_offset L title (Some range) None) eqn:E; [|reflexivity].
      apply is_in_offset_is_range in E as (a & b & _ & Hr & _).
      destruct (Hno a b Hr).
Qed.

(** The offset "[1,12]" keeps the seventh episode and drops the
    thirteenth; the offset "[true,5]" is the range from 1 to 5. *)
Lemma offset_interpretation_witness :
  let seven := {| item_id := u "v7"; item_title := u "Show 第7話" |} in
  let thirteen := {| item_id := u "v13"; item_title := u "Show 第13話" |} in
  let three := {| item_id := u "v3"; item_title := u "Show EP 3" |} in
  keeps ascii_lib (init [])
    (parse_offset ascii_lib (Some (u "[1,12]"))).1
    (parse_offset ascii_lib (Some (u "[1,12]"))).2 seven = true
  /\ keeps ascii_lib (init [])
       (parse_offset ascii_lib (Some (u "[1,12]"))).1
       (parse_offset ascii_lib (Some (u "[1,12]"))).2 thirteen <> true
  /\ keeps ascii_lib (init [])
       (parse_offset ascii_lib (Some (u "[true,5]"))).1
       (parse_offset ascii_lib (Some (u "[true,5]"))).2 three = true.
Proof.
  intros seven thirteen three.
  assert (H12 : is_range (JArr [JNum (NInt 1); JNum (NInt 12)]) (NInt 1) (NInt 12)).
  { exists (JNum (NInt 1)), (JNum (NInt 12)).
    split; [reflexivity|]. split; by left. }
  assert (H5 : is_range (JArr [JBool true; JNum (NInt 5)]) (NInt 1) (NInt 5)).
  { exists (JBool true), (JNum (NInt 5)).
    split; [reflexivity|]. split; [right; by exists true | by left]. }
  split; [|split].
  - destruct (offset_interpretation ascii_lib (init []) 91%N (u "1,12]") seven)
      as (_ & _ & Hr).
    destruct (Hr _ eq_refl) as (_ & _ & Hk).
    destruct (Hk eq_refl) as (_ & _ & _ & Hint & _).
    apply (Hint 1 12 7 H12 eq_refl). lia.
  - destruct (offset_interpretation ascii_lib (init []) 91%N (u "1,12]") thirteen)
      as (_ & _ & Hr).
    destruct (Hr _ eq_refl) as (_ & _ & Hk).
    destruct (Hk eq_refl) as (_ & _ & _ & Hint & _).
    intros H. apply (Hint 1 12 13 H12 eq_refl) in H. lia.
  - destruct (offset_interpretation ascii_lib (init []) 91%N (u "true,5]") three)
      as (_ & _ & Hr).
    destruct (Hr _ eq_refl) as (_ & _ & Hk).
    destruct (Hk eq_refl) as (_ & _ & _ & Hint & _).
    apply (Hint 1 5 3 H5 eq_refl). lia.
Defined.

(** ** Rounding to the nearest binary64 value *)

Lemma round_half_even_spec (n d : Z) :
  0 < d ->
  let m := round_half_even n d in
  (2 * (n mod d) < d /\ m = n / d)
  \/ (d < 2 * (n mod d) /\ m = n / d + 1)
  \/ (2 * (n mod d) = d /\ Z.even m = true /\ (m = n / d \/ m = n / d + 1)).
Proof.
  intros Hd. unfold round_half_even.
  destruct (Z.compare_spec (2 * (n mod d)) d) as [E | E | E].
  - right. right. split; [exact E|].
    destruct (Z.even (n / d)) eqn:Ev.
    + split; [exact Ev | by left].
    + split; [|by right]. rewrite Z.even_add, Ev. reflexivity.
  - left. by split.
  - right. left. by split.
Qed.

(** No integer is closer to [n / d] than the rounded one. *)
Lemma round_half_even_nearest (n d z : Z) :
  0 < d ->
  Z.abs (round_half_even n d * d - n) <= Z.abs (z * d - n).
Proof.
  intros Hd.
  pose proof (round_half_even_spec n d Hd) as Hm. cbv zeta in Hm.
  pose proof (Z.div_mod n d ltac:(lia)) as En.
  pose proof (Z.mod_pos_bound n d Hd) as Rn.
  set (m := round_half_even n d) in *.
  set (q := n / d) in *. set (r := n mod d) in *.
  assert (Hz : (z <= q /\ r <= Z.abs (z * d - n))
               \/ (q + 1 <= z /\ d - r <= Z.abs (z * d - n))).
  { destruct (Z.le_gt_cases z q) as [Hz | Hz]; [left | right]; split; try lia.
    - assert (z * d <= q * d) by (apply Z.mul_le_mono_nonneg_r; lia). lia.
    - assert ((q + 1) * d <= z * d) by (apply Z.mul_le_mono_nonneg_r; lia). lia. }
  assert (Hc : (m = q /\ 2 * r <= d /\ Z.abs (m * d - n) = r)
               \/ (m = q + 1 /\ d <= 2 * r /\ Z.abs (m * d - n) = d - r)).
  { destruct Hm as [[H E] | [[H E] | (H & _ & [E | E])]]; [left | right | left | right];
      (split; [exact E|]); (split; [lia|]); rewrite E; lia. }
  destruct Hc as [(_ & H & ->) | (_ & H & ->)]; destruct Hz as [[_ Hz] | [_ Hz]]; lia.
Qed.

(** Another integer is as near only half-way between two integers, and
    the rounded one is then even. *)
Lemma round_half_even_tie (n d z : Z) :
  0 < d ->
  z <> round_half_even n d ->
  Z.abs (z * d - n) = Z.abs (round_half_even n d * d - n) ->
  Z.even (round_half_even n d) = true /\ Z.abs (z - round_half_even n d) = 1.
Proof.
  intros Hd Hz Heq.
  pose proof (round_half_even_spec n d Hd) as Hm. cbv zeta in Hm.
  pose proof (Z.div_mod n d ltac:(lia)) as En.
  pose proof (Z.mod_pos_bound n d Hd) as Rn.
  set (m := round_half_even n d) in *.
  set (q := n / d) in *. set (r := n mod d) in *.
  assert (Hzd : (z <= q /\ Z.abs (z * d - n) = (q - z) * d + r)
                \/ (q + 1 <= z /\ Z.abs (z * d - n) = (z - q - 1) * d + (d - r))).
  { destruct (Z.le_gt_cases z q) as [Hle | Hgt]; [left | right]; split; try lia.
    - assert (0 <= (q - z) * d) by (apply Z.mul_nonneg_nonneg; lia). lia.
    - assert (0 <= (z - q - 1) * d) by (apply Z.mul_nonneg_nonneg; lia). lia. }
  assert (Hmd : (m = q /\ 2 * r <= d /\ Z.abs (m * d - n) = r)
                \/ (m = q + 1 /\ d <= 2 * r /\ Z.abs (m * d - n) = d - r)).
  { destruct Hm as [[H E] | [[H E] | (H & _ & [E | E])]]; [left | right | left | right];
      (split; [exact E|]); (split; [lia|]); rewrite E; lia. }
  assert (Hk : forall k, 0 <= k -> k * d <= 0 -> k = 0).
  { intros k Hk0 H. destruct (Z.eq_dec k 0) as [-> | Hne]; [reflexivity|].
    assert (1 * d <= k * d) by (apply Z.mul_le_mono_nonneg_r; lia). lia. }
  assert (Htie : 2 * r = d /\ Z.abs (z - m) = 1).
  { destruct Hzd as [[Hle Ez] | [Hge Ez]], Hmd as [(Em & Hr & Ea) | (Em & Hr & Ea)];
      rewrite Ez, Ea in Heq.
    - exfalso. pose proof (Hk (q - z) ltac:(lia) ltac:(lia)). lia.
    - pose proof (Hk (q - z) ltac:(lia) ltac:(lia)) as H0.
      rewrite H0 in Heq. lia.
    - pose proof (Hk (z - q - 1) ltac:(lia) ltac:(lia)) as H0.
      rewrite H0 in Heq. lia.
    - exfalso. pose proof (Hk (z - q - 1) ltac:(lia) ltac:(lia)). lia. }
  destruct Htie as [H2 H1]. split; [|exact H1].
  destruct Hm as [[H _] | [[H _] | (_ & Ev & _)]]; [lia | lia | exact Ev].
Qed.

(** [a / b >= 2^k], with the fraction scaled by [2^(k - j)]. *)
Lemma at_least_pow2_shift (a b k j : Z) :
  0 <= j ->
  at_least_pow2 a b k <-> 2 ^ j * scaled_den b (k - j) <= scaled_num a (k - j).
Proof.
  intros Hj. unfold at_least_pow2, scaled_den, scaled_num.
  pose proof (pow2_pos j Hj) as Pj.
  destruct (k - j <? 0) eqn:S; [apply Z.ltb_lt in S | apply Z.ltb_ge in S].
  - replace (- (k - j)) with (j - k) by lia.
    destruct (k <? 0) eqn:Sk; [apply Z.ltb_lt in Sk | apply Z.ltb_ge in Sk].
    + replace (j - k) with (- k + j) by lia. rewrite Z.pow_add_r by lia.
      pose proof (pow2_pos (- k) ltac:(lia)). split; intros Hx; nia.
    + assert (E : 2 ^ j = 2 ^ k * 2 ^ (j - k))
        by (rewrite <- Z.pow_add_r by lia; f_equal; lia).
      pose proof (pow2_pos k Sk). pose proof (pow2_pos (j - k) ltac:(lia)).
      rewrite E. split; intros Hx; nia.
  - destruct (k <? 0) eqn:Sk; [apply Z.ltb_lt in Sk; lia | clear Sk].
    assert (E : 2 ^ k = 2 ^ j * 2 ^ (k - j))
      by (rewrite <- Z.pow_add_r by lia; f_equal; lia).
    rewrite E. split; intros Hx; lia.
Qed.

(** The distance of [z * 2^(e + 1074)] units to [a / b], through the
    fraction that [round64] rounds. *)
Lemma gap_scaled (a b e : Z) :
  -1074 <= e ->
  exists c,
    0 < c
    /\ forall z, z * 2 ^ (e + 1074) * b - a * 2 ^ 1074
                 = c * (z * scaled_den b e - scaled_num a e).
Proof.
  intros He. unfold scaled_den, scaled_num.
  destruct (e <? 0) eqn:S; [apply Z.ltb_lt in S | apply Z.ltb_ge in S].
  - exists (2 ^ (e + 1074)). split; [apply pow2_pos; lia|]. intros z.
    assert (E : 2 ^ 1074 = 2 ^ (- e) * 2 ^ (e + 1074))
      by (rewrite <- Z.pow_add_r by lia; f_equal; lia).
    rewrite E. ring.
  - exists (2 ^ 1074). split; [apply pow2_pos; lia|]. intros z.
    rewrite (Z.pow_add_r 2 e 1074) by lia. ring.
Qed.

Lemma is_double_0 : is_double 0.
Proof. exists 0, 0. split; [reflexivity|]. split; [reflexivity | lia]. Qed.

Lemma threshold_pos : 0 < 2 ^ 1024 - 2 ^ 970.
Proof. reflexivity. Qed.

(** [round64] gives a binary64 value nearest to the fraction, and none
    exactly when the fraction is too large. *)
Lemma round64_nearest (a b : Z) :
  0 <= a -> 0 < b ->
  match round64 a b with
  | Some (m, e) =>
      ~ overflows a b /\ 0 <= m /\ -1074 <= e
      /\ is_double (m * 2 ^ (e + 1074))
      /\ (forall U', is_double U' -> gap a b (m * 2 ^ (e + 1074)) <= gap a b U')
      /\ (forall U',
            is_double U' -> U' <> m * 2 ^ (e + 1074) ->
            gap a b U' = gap a b (m * 2 ^ (e + 1074)) ->
            Z.even m = true /\ Z.abs (m * 2 ^ (e + 1074) - U') = 2 ^ (e + 1074))
  | None => overflows a b
  end.
Proof.
  intros Ha Hb. unfold round64, overflows.
  pose proof threshold_pos as HT.
  destruct (Z.eqb_spec a 0) as [-> | Hne].
  { split; [nia|]. split; [lia|]. split; [lia|]. split; [apply is_double_0|].
    split; [intros U' _; unfold gap; simpl; lia|].
    intros U' _ Hne. unfold gap. simpl. intros Hg. exfalso. nia. }
  assert (Ha' : 0 < a) by lia.
  pose proof (binade_lower a b Ha' Hb) as Hlo.
  pose proof (binade_upper a b Ha' Hb) as Hup.
  set (L := binade a b) in *.
  set (e := Z.max (L - 52) (-1074)).
  assert (He : -1074 <= e) by (unfold e; lia).
  set (N := scaled_num a e). set (D := scaled_den b e).
  assert (HD : 0 < D).
  { unfold D, scaled_den. destruct (e <? 0) eqn:S; [exact Hb|].
    apply Z.ltb_ge in S. pose proof (pow2_pos e S). nia. }
  assert (HN : 0 < N).
  { unfold N, scaled_num. destruct (e <? 0) eqn:S; [|exact Ha'].
    apply Z.ltb_lt in S. pose proof (pow2_pos (- e) ltac:(lia)). nia. }
  (* the fraction lies below 2^53, and from 2^52 on for a normal number *)
  assert (F3 : N < 2 ^ 53 * D).
  { apply Z.nle_gt. intros H. apply Hup.
    apply (at_least_pow2_mono a b (L + 1) (e + 53)); [exact Ha' | exact Hb | unfold e; lia|].
    apply (at_least_pow2_shift a b (e + 53) 53); [lia|].
    replace (e + 53 - 53) with e by lia. exact H. }
  assert (F2 : e = L - 52 -> 2 ^ 52 * D <= N).
  { intros Ee. apply (at_least_pow2_shift a b L 52) in Hlo; [|lia].
    rewrite <- Ee in Hlo. exact Hlo. }
  set (m := round_half_even N D).
  pose proof (round_half_even_bounds N D HD) as [[Hmlo Hmhi] Hmup]. fold m in Hmlo, Hmhi, Hmup.
  pose proof (round_half_even_spec N D HD) as Hspec. cbv zeta in Hspec. fold m in Hspec.
  pose proof (Z.div_mod N D ltac:(lia)) as EN.
  pose proof (Z.mod_pos_bound N D HD) as RN.
  assert (Hq0 : 0 <= N / D) by (apply Z.div_pos; lia).
  assert (Hq53 : N / D < 2 ^ 53) by (apply Z.div_lt_upper_bound; lia).
  assert (Hm0 : 0 <= m) by lia.
  assert (Hm53 : m <= 2 ^ 53) by lia.
  (* a value with a smaller unit lies below the binade, and farther away *)
  assert (Hbelow : forall M' E',
            Z.abs M' < 2 ^ 53 -> 0 <= E' <= 2045 -> E' < e + 1074 ->
            gap a b (m * 2 ^ (e + 1074)) < gap a b (M' * 2 ^ E')).
  { intros M' E' HM' HE' Hlt.
    destruct (gap_scaled a b e He) as (c & Hc & Hgap).
    assert (Ee : e = L - 52) by (unfold e in *; lia).
    specialize (F2 Ee).
    assert (Hnear : gap a b (m * 2 ^ (e + 1074)) <= gap a b (2 ^ 52 * 2 ^ (e + 1074))).
    { unfold gap. rewrite !Hgap. fold N. fold D.
      rewrite !Z.abs_mul. apply Z.mul_le_mono_nonneg_l; [lia|].
      apply round_half_even_nearest. exact HD. }
    eapply Z.le_lt_trans; [exact Hnear|].
    pose proof (Hgap (2 ^ 52)) as H52. fold N in H52. fold D in H52.
    pose proof (pow2_pos E' ltac:(lia)) as PE.
    pose proof (pow2_pos (e + 1074) ltac:(lia)) as Ps.
    assert (HU : M' * 2 ^ E' < 2 ^ 52 * 2 ^ (e + 1074)).
    { assert (E2 : 2 ^ (e + 1074) = 2 ^ E' * 2 ^ (e + 1074 - E'))
        by (rewrite <- Z.pow_add_r by lia; f_equal; lia).
      pose proof (pow2_le_mono 1 (e + 1074 - E') ltac:(lia)) as P1.
      change (2 ^ 1) with 2 in P1.
      assert (HM2 : M' < 2 ^ 52 * 2) by (change (2 ^ 52 * 2) with (2 ^ 53); lia).
      assert (HK : 0 < 2 ^ 52) by reflexivity.
      rewrite E2. clear - HM2 HK PE P1.
      set (K := 2 ^ 52) in *. set (p := 2 ^ E') in *.
      set (t := 2 ^ (e + 1074 - E')) in *. clearbody K p t.
      destruct (Z.le_gt_cases M' 0) as [Hn | Hp]; [nia|].
      apply Z.lt_le_trans with (K * 2 * p); [nia|].
      rewrite <- Z.mul_assoc. apply Z.mul_le_mono_nonneg_l; [lia|]. nia. }
    assert (H1 : 2 ^ 52 * 2 ^ (e + 1074) * b - a * 2 ^ 1074 <= 0).
    { rewrite H52. apply Z.mul_nonneg_nonpos; lia. }
    assert (H2 : M' * 2 ^ E' * b < 2 ^ 52 * 2 ^ (e + 1074) * b)
      by (apply Z.mul_lt_mono_pos_r; [exact Hb | exact HU]).
    unfold gap. lia. }
  destruct ((971 <? e) || ((e =? 971) && (m =? 2 ^ 53))) eqn:Over.
  - (* too large *)
    apply orb_true_iff in Over as [Over | Over].
    + apply Z.ltb_lt in Over.
      assert (HL : 1024 <= L) by (unfold e in Over; lia).
      unfold at_least_pow2, scaled_den, scaled_num in Hlo.
      destruct (L <? 0) eqn:S; [apply Z.ltb_lt in S; lia|].
      pose proof (pow2_le_mono 1024 L ltac:(lia)). nia.
    + apply andb_true_iff in Over as [Ee Em].
      apply Z.eqb_eq in Ee, Em.
      assert (Eq : m = N / D + 1) by lia.
      specialize (Hmup Eq).
      assert (EN' : N = a /\ D = b * 2 ^ 971).
      { unfold N, D, scaled_num, scaled_den. rewrite Ee. simpl. split; reflexivity. }
      destruct EN' as [EN1 ED1].
      assert (E54 : 2 * (2 ^ 1024 - 2 ^ 970) = (2 ^ 54 - 1) * 2 ^ 971) by reflexivity.
      assert (H2 : (2 ^ 54 - 1) * D <= 2 * N).
      { assert (N / D = 2 ^ 53 - 1) by lia. nia. }
      nia.
  - apply orb_false_iff in Over as [Over1 Over2]. apply Z.ltb_ge in Over1.
    assert (Hno : e = 971 -> m <> 2 ^ 53).
    { intros Ee. apply andb_false_iff in Over2 as [H | H]; apply Z.eqb_neq in H; lia. }
    split; [|split; [exact Hm0|split; [exact He|split; [|split]]]].
    + (* not too large *)
      intros Hov.
      destruct (Z.eq_dec e 971) as [Ee | Ee].
      * assert (EN' : N = a /\ D = b * 2 ^ 971).
        { unfold N, D, scaled_num, scaled_den. rewrite Ee. simpl. split; reflexivity. }
        destruct EN' as [EN1 ED1].
        assert (E54 : 2 * (2 ^ 1024 - 2 ^ 970) = (2 ^ 54 - 1) * 2 ^ 971) by reflexivity.
        assert (H2 : (2 ^ 54 - 1) * D <= 2 * N) by nia.
        assert (Hq : N / D = 2 ^ 53 - 1).
        { assert (2 ^ 53 - 1 <= N / D); [|lia].
          apply Z.div_le_lower_bound; [lia|]. nia. }
        assert (Hr : D <= 2 * (N mod D)) by nia.
        apply (Hno Ee).
        destruct Hspec as [[H _] | [[_ E] | (_ & Ev & [E | E])]]; try lia.
        rewrite E, Hq in Ev. discriminate Ev.
      * assert (HL : L + 1 <= 1023) by (unfold e in *; lia).
        apply Hup.
        apply (at_least_pow2_mono a b (L + 1) 1023); [exact Ha' | exact Hb | exact HL|].
        unfold at_least_pow2, scaled_den, scaled_num. simpl (1023 <? 0). cbv iota.
        assert (HP : 2 ^ 1023 <= 2 ^ 1024 - 2 ^ 970) by (vm_compute; discriminate).
        rewrite (Z.mul_comm b).
        apply Z.le_trans with ((2 ^ 1024 - 2 ^ 970) * b); [|exact Hov].
        apply Z.mul_le_mono_nonneg_r; [lia | exact HP].
    + (* a binary64 value *)
      destruct (Z.eq_dec m (2 ^ 53)) as [Em | Em].
      * exists (2 ^ 52), (e + 1074 + 1). split; [|split].
        -- rewrite Em, (Z.pow_add_r 2 (e + 1074) 1) by lia.
           change (2 ^ 53) with (2 ^ 52 * 2 ^ 1). ring.
        -- vm_compute. reflexivity.
        -- assert (e <> 971) by (intros Ee; by apply (Hno Ee)). lia.
      * exists m, (e + 1074). split; [reflexivity|].
        split; [rewrite Z.abs_eq by lia; lia | lia].
    + (* none is nearer *)
      intros U' (M' & E' & -> & HM' & HE').
      destruct (gap_scaled a b e He) as (c & Hc & Hgap).
      assert (Hunits : forall z, gap a b (z * 2 ^ (e + 1074)) = c * Z.abs (z * D - N)).
      { intros z. unfold gap. rewrite Hgap. fold N. fold D.
        rewrite Z.abs_mul, (Z.abs_eq c) by lia. reflexivity. }
      assert (Hnear : forall z, gap a b (m * 2 ^ (e + 1074)) <= gap a b (z * 2 ^ (e + 1074))).
      { intros z. rewrite !Hunits. apply Z.mul_le_mono_nonneg_l; [lia|].
        apply round_half_even_nearest. exact HD. }
      destruct (Z.le_gt_cases (e + 1074) E') as [Hge | Hlt].
      * replace (M' * 2 ^ E') with ((M' * 2 ^ (E' - (e + 1074))) * 2 ^ (e + 1074)).
        -- apply Hnear.
        -- rewrite <- Z.mul_assoc, <- Z.pow_add_r by lia. do 2 f_equal. lia.
      * apply Z.lt_le_incl.
        apply (Hbelow M' E' HM' HE' Hlt).
    + (* another as near: half-way, and the significand is even *)
      intros U' (M' & E' & -> & HM' & HE') Hdiff Hg.
      destruct (gap_scaled a b e He) as (c & Hc & Hgap).
      assert (Hunits : forall z, gap a b (z * 2 ^ (e + 1074)) = c * Z.abs (z * D - N)).
      { intros z. unfold gap. rewrite Hgap. fold N. fold D.
        rewrite Z.abs_mul, (Z.abs_eq c) by lia. reflexivity. }
      destruct (Z.le_gt_cases (e + 1074) E') as [Hge | Hlt].
      * pose proof (pow2_pos (e + 1074) ltac:(lia)) as Ps.
        assert (EU : M' * 2 ^ E' = (M' * 2 ^ (E' - (e + 1074))) * 2 ^ (e + 1074)).
        { rewrite <- Z.mul_assoc, <- Z.pow_add_r by lia. do 2 f_equal. lia. }
        set (z := M' * 2 ^ (E' - (e + 1074))) in *.
        rewrite EU in Hg, Hdiff. rewrite !Hunits in Hg.
        apply Z.mul_cancel_l in Hg; [|lia].
        assert (Hzm : z <> m) by (intros ->; by apply Hdiff).
        destruct (round_half_even_tie N D z HD Hzm Hg) as [Hev H1].
        split; [exact Hev|]. rewrite EU, <- Z.mul_sub_distr_r, Z.abs_mul.
        rewrite (Z.abs_eq (2 ^ (e + 1074))) by lia.
        replace (m - z) with (- (z - m)) by ring.
        change (Z.abs (z - m) = 1) in H1.
        rewrite Z.abs_opp, H1. apply Z.mul_1_l.
      * exfalso. pose proof (Hbelow M' E' HM' HE' Hlt) as H. lia.
Qed.

Lemma units_normalize (m e : Z) :
  0 <= m -> -1074 <= e -> units (normalize m e) = Some (m * 2 ^ (e + 1074)).
Proof.
  intros Hm He. destruct m as [|p|p]; [| |lia].
  - reflexivity.
  - unfold normalize. destruct (strip_zeros_spec p e) as (H1 & H2 & H3).
    destruct (strip_zeros p e) as [m' e']. simpl in H1, H2, H3. unfold units.
    destruct (e' <? -1074) eqn:S; [apply Z.ltb_lt in S; lia|].
    f_equal. rewrite H3.
    replace (e' + 1074) with ((e' - e) + (e + 1074)) by lia.
    rewrite Z.pow_add_r by lia. ring.
Qed.

(** A value is whole when its units are a multiple of [2^1074], and [int]
    gives that multiple. *)
Lemma whole_units (m e : Z) :
  0 <= m -> -1074 <= e ->
  let U := m * 2 ^ (e + 1074) in
  (is_integer (normalize m e) = true <-> U mod 2 ^ 1074 = 0)
  /\ int_of_float (normalize m e) = Some (U / 2 ^ 1074).
Proof.
  intros Hm He U. rewrite is_integer_normalize, int_of_float_normalize by exact Hm.
  unfold truncated, U.
  pose proof (pow2_pos (e + 1074) ltac:(lia)) as Ps.
  destruct (e <? 0) eqn:S; [apply Z.ltb_lt in S | apply Z.ltb_ge in S].
  - pose proof (pow2_pos (- e) ltac:(lia)) as Pe.
    assert (E : 2 ^ 1074 = 2 ^ (- e) * 2 ^ (e + 1074))
      by (rewrite <- Z.pow_add_r by lia; f_equal; lia).
    rewrite E, Z.mul_mod_distr_r, Z.div_mul_cancel_r by lia. split; [|reflexivity].
    rewrite Z.eqb_eq. split; [intros ->; reflexivity|]. intros H.
    pose proof (Z.mod_pos_bound m (2 ^ (- e)) Pe). nia.
  - rewrite (Z.pow_add_r 2 e 1074), Z.mul_assoc by lia.
    rewrite Z.mod_mul, Z.div_mul by lia. split; [tauto | reflexivity].
Qed.

(** What the parser makes of a decimal numeral. *)
Lemma float_of_decimal_reads (n : Z) (k : nat) :
  0 <= n ->
  exists x, int_if_whole (float_of_decimal n k) = Some x /\ reads_as n k x.
Proof.
  intros Hn. unfold float_of_decimal, reads_as. cbv zeta.
  assert (Hb : 0 < 10 ^ Z.of_nat k) by (apply Z.pow_pos_nonneg; lia).
  pose proof (round64_nearest n (10 ^ Z.of_nat k) Hn Hb) as H.
  destruct (round64 n (10 ^ Z.of_nat k)) as [[m e]|].
  - destruct H as (Hno & Hm & He & Hd & Hnear & Htie).
    assert (Heven : forall U',
              is_double U' -> U' <> m * 2 ^ (e + 1074) ->
              gap n (10 ^ Z.of_nat k) U' = gap n (10 ^ Z.of_nat k) (m * 2 ^ (e + 1074)) ->
              exists M, m * 2 ^ (e + 1074) = M * Z.abs (m * 2 ^ (e + 1074) - U')
                        /\ Z.even M = true).
    { intros U' HU' Hdiff Hg. destruct (Htie U' HU' Hdiff Hg) as [Hev Hs].
      exists m. rewrite Hs. by split. }
    destruct (whole_units m e Hm He) as [Hw Hi]. cbv zeta in Hw.
    pose proof (units_normalize m e Hm He) as Hu.
    unfold int_if_whole. destruct (is_integer (normalize m e)) eqn:W.
    + rewrite Hi. eexists. split; [reflexivity|]. right. split; [exact Hno|].
      exists (normalize m e), (m * 2 ^ (e + 1074)).
      split; [exact Hu|]. split; [exact Hd|]. split; [exact Hnear|]. split; [exact Heven|].
      left. split; [by apply Hw | reflexivity].
    + eexists. split; [reflexivity|]. right. split; [exact Hno|].
      exists (normalize m e), (m * 2 ^ (e + 1074)).
      split; [exact Hu|]. split; [exact Hd|]. split; [exact Hnear|]. split; [exact Heven|].
      right. split; [|reflexivity]. intros H0. apply Hw in H0. congruence.
  - eexists. split; [reflexivity|]. left. by split.
Qed.

(** A double is below the value from which a fraction is too large. *)
Lemma is_double_below (U : Z) :
  is_double U -> U < (2 ^ 1024 - 2 ^ 970) * 2 ^ 1074.
Proof.
  intros (M & E & -> & HM & HE).
  pose proof (pow2_pos E ltac:(lia)) as PE.
  pose proof (pow2_le_mono E 2045 ltac:(lia)) as P.
  assert (HT : (2 ^ 53 - 1) * 2 ^ 2045 < (2 ^ 1024 - 2 ^ 970) * 2 ^ 1074)
    by (vm_compute; reflexivity).
  apply Z.le_lt_trans with ((2 ^ 53 - 1) * 2 ^ 2045); [|exact HT].
  destruct (Z.le_gt_cases M 0) as [Hneg | Hpos].
  - apply Z.le_trans with 0; [nia | vm_compute; discriminate].
  - apply Z.le_trans with ((2 ^ 53 - 1) * 2 ^ E).
    + apply Z.mul_le_mono_nonneg_r; lia.
    + apply Z.mul_le_mono_nonneg_l; [vm_compute; discriminate | exact P].
Qed.

(** A decimal that is a binary64 value is read as that value. *)
Lemma reads_as_exact (n : Z) (k : nat) (x : num) (U0 : Z) :
  reads_as n k x ->
  is_double U0 ->
  U0 * 10 ^ Z.of_nat k = n * 2 ^ 1074 ->
  (U0 mod 2 ^ 1074 = 0 /\ x = NInt (U0 / 2 ^ 1074))
  \/ (U0 mod 2 ^ 1074 <> 0 /\ exists f, units f = Some U0 /\ x = NFloat f).
Proof.
  unfold reads_as. cbv zeta.
  assert (Hb : 0 < 10 ^ Z.of_nat k) by (apply Z.pow_pos_nonneg; lia).
  intros [[Hov _] | (_ & f & U & Hu & Hd & Hnear & _ & Hx)] Hd0 Hex.
  - exfalso. unfold overflows in Hov. pose proof (is_double_below U0 Hd0) as Hlt.
    assert (H1 : (2 ^ 1024 - 2 ^ 970) * 2 ^ 1074 * 10 ^ Z.of_nat k
                 <= U0 * 10 ^ Z.of_nat k).
    { rewrite Hex. rewrite <- Z.mul_assoc, (Z.mul_comm (2 ^ 1074)), Z.mul_assoc.
      apply Z.mul_le_mono_nonneg_r; [vm_compute; discriminate | exact Hov]. }
    apply Z.mul_le_mono_pos_r in H1; [lia | exact Hb].
  - assert (U = U0) as ->.
    { specialize (Hnear U0 Hd0). unfold gap in Hnear. rewrite Hex in Hnear.
      rewrite Z.sub_diag in Hnear. simpl in Hnear.
      assert (U * 10 ^ Z.of_nat k = U0 * 10 ^ Z.of_nat k) by lia.
      apply Z.mul_cancel_r in H; [exact H | lia]. }
    destruct Hx as [[Hw ->] | [Hw ->]]; [left | right]; split; try assumption;
      try reflexivity.
    by exists f.
Qed.

(** ** The numbers that the episode parser returns *)

(** C8, as the code has it. The parser tries the patterns in their order
    and the first one that matches the title decides. The text it captures
    is a decimal numeral, which always converts: it is read as a binary64
    value nearest to the number (of two equally near, the one whose
    significand is even; the infinity when the number is too large), and
    that value is returned as an integer when it is whole and
    as the float otherwise. So a whole numeral below [2^53] gives exactly
    its value, and a numeral that is a binary64 value is preserved. The
    result is absence exactly when no pattern matches a part of the
    title. *)
Theorem parse_episode_number_first_match (L : PyLib) (title : str) :
  plain_point L ->
  digits_nonneg L ->
  (forall ps1 p ps2 g,
     patterns = ps1 ++ p :: ps2 ->
     (forall q, q ∈ ps1 -> re_search L q title = None) ->
     re_search L p title = Some g ->
     exists text n k, g = Some text /\ number_text L text n k)
  /\ (forall ps1 p ps2 text n k,
        patterns = ps1 ++ p :: ps2 ->
        (forall q, q ∈ ps1 -> re_search L q title = None) ->
        re_search L p title = Some (Some text) ->
        number_text L text n k ->
        exists x,
          parse_episode_number L title = Some x
          /\ reads_as n k x
          /\ (forall v, n = v * 10 ^ Z.of_nat k -> 0 <= v < 2 ^ 53 -> x = NInt v)
          /\ (forall U,
                is_double U -> U * 10 ^ Z.of_nat k = n * 2 ^ 1074 ->
                (U mod 2 ^ 1074 = 0 /\ x = NInt (U / 2 ^ 1074))
                \/ (U mod 2 ^ 1074 <> 0
                    /\ exists f, units f = Some U /\ x = NFloat f)))
  /\ (parse_episode_number L title = None <->
      forall p, p ∈ patterns -> re_search L p title = None)
  /\ (parse_episode_number L title = None <->
      forall p, p ∈ patterns -> ~ matches_within L p title).
Proof.
  intros Hplain Hdigits.
  assert (Hnone : parse_episode_number L title = None <->
                  forall p, p ∈ patterns -> re_search L p title = None).
  { split.
    - intros Hnone. apply (parse_with_none L patterns title); [|exact Hnone].
      intros p g Hin Hs.
      destruct (pattern_converts L p title g Hplain Hin Hs)
        as (text & n & k & _ & _ & ->).
      apply int_if_whole_some.
    - intros Hall. unfold parse_episode_number.
      rewrite <- (app_nil_r patterns). rewrite parse_with_skip by exact Hall.
      reflexivity. }
  split; [|split; [|split]].
  - intros ps1 p ps2 g Hsplit Hskip Hs.
    destruct (pattern_converts L p title g Hplain) as (text & n & k & Hg & Hn & _);
      [rewrite Hsplit; apply elem_of_app; right; by left | exact Hs |].
    by exists text, n, k.
  - intros ps1 p ps2 text n k Hsplit Hskip Hs Hn.
    assert (Hn0 : 0 <= n).
    { destruct Hn as (ip & fp & _ & Hv & _).
      eapply digits_value_nonneg; [exact Hdigits | | exact Hv]. lia. }
    destruct (float_of_decimal_reads n k Hn0) as (x & Hx & Hreads).
    assert (Hp : parse_episode_number L title = Some x).
    { unfold parse_episode_number. rewrite Hsplit, parse_with_skip by exact Hskip.
      simpl. rewrite Hs. simpl.
      rewrite (float_of_str_number L text n k Hplain Hn). simpl.
      rewrite Hx. reflexivity. }
    exists x. split; [exact Hp|]. split; [exact Hreads|]. split.
    + intros v -> Hv. rewrite (int_if_whole_decimal v k Hv) in Hx. congruence.
    + intros U HU Hex. eapply reads_as_exact; eassumption.
  - exact Hnone.
  - rewrite Hnone. split.
    + intros H p Hp. apply re_search_None; [by apply patterns_plain_stars | by apply H].
    + intros H p Hp. apply re_search_None; [by apply patterns_plain_stars | by apply H].
Qed.

(** "Show EP 3 - Episode 05": the pattern for "Episode" comes before the one
    for "EP", so it decides, and "05" yields 5; "1.5" is a binary64 value
    and is preserved. *)
Lemma parse_episode_number_first_match_witness :
  parse_episode_number ascii_lib (u "Show EP 3 - Episode 05") = Some (NInt 5)
  /\ (exists f, parse_episode_number ascii_lib (u "第1.5話") = Some (NFloat f)
                /\ units f = Some (3 * 2 ^ 1073))
  /\ parse_episode_number ascii_lib (u "episode 1.0") = Some (NInt 1)
  /\ parse_episode_number ascii_lib (u "Random Title") = None.
Proof.
  split; [|split; [|split; vm_compute; reflexivity]].
  - destruct (parse_episode_number_first_match ascii_lib (u "Show EP 3 - Episode 05")
                plain_point_ascii ascii_digits_nonneg) as (_ & Hfirst & _).
    destruct (Hfirst [List.hd (Lit 0) patterns]
                     (List.nth 1 patterns (Lit 0)) (List.skipn 2 patterns)
                     (u "05") 5 0%nat) as (x & Hx & _ & Hwhole & _).
    + reflexivity.
    + intros q Hq. apply list_elem_of_singleton in Hq. subst q. vm_compute. reflexivity.
    + vm_compute. reflexivity.
    + exists (u "05"), []. repeat split; try (vm_compute; reflexivity).
      vm_compute. discriminate.
    + rewrite Hx. f_equal. apply (Hwhole 5); [reflexivity | split; [lia | reflexivity]].
  - destruct (parse_episode_number_first_match ascii_lib (u "第1.5話")
                plain_point_ascii ascii_digits_nonneg) as (_ & Hfirst & _).
    destruct (Hfirst [] (List.hd (Lit 0) patterns) (List.tl patterns)
                     (u "1.5") 15 1%nat) as (x & Hx & _ & _ & Hexact).
    + reflexivity.
    + intros q Hq. by apply elem_of_nil in Hq.
    + vm_compute. reflexivity.
    + exists (u "1"), (u "5"). repeat split; try (vm_compute; reflexivity).
      vm_compute. discriminate.
    + destruct (Hexact (3 * 2 ^ 1073)) as [[Hw _] | (_ & f & Hu & ->)].
      * exists 3, 1073. split; [reflexivity|]. split; [reflexivity | lia].
      * vm_compute. reflexivity.
      * vm_compute in Hw. discriminate Hw.
      * exists f. split; [exact Hx | exact Hu].
Defined.

(** C8, as stated, fails. The whole numeral 9007199254740993 is not
    returned as that integer but as 9007199254740992, the float nearest to
    it; and a numeral of 310 digits is not returned as an integer at all
    but as the float infinity. *)
Lemma parse_episode_number_inexact :
  parse_episode_number ascii_lib (u "EP 9007199254740993")
  = Some (NInt 9007199254740992)
  /\ parse_episode_number ascii_lib (u "EP 1" ++ List.repeat 48%N 309)
     = Some (NFloat (Inf false)).
Proof. split; vm_compute; reflexivity. Qed.

(** ** A video without statistics and the episode count *)

Lemma integer_samples_real (stats : gmap str (option Z)) (videos : list PlaylistItem) :
  real_samples stats videos = integer_samples stats videos.
Proof.
  unfold real_samples, integer_samples.
  assert (He : forall v, sample_of stats v = shown_views stats v).
  { intros v. unfold sample_of, shown_views.
    by destruct (stats !! item_id v) as [[n|]|]. }
  induction videos as [|v l IH]; [reflexivity|].
  cbn [omap list_omap]. rewrite He, IH. reflexivity.
Qed.

(** A video whose episode number is below those of the videos before it,
    and not above those of the videos after it, comes first in episode
    order. *)
Lemma sort_by_first {A K} (lt : K -> K -> bool) (key : A -> K)
    (before after : list A) (v : A) :
  Forall (fun y => lt (key v) (key y) = true) before ->
  Forall (fun y => lt (key y) (key v) = false) after ->
  exists rest, sort_by lt key (before ++ v :: after) = v :: rest.
Proof.
  intros Hb Ha. induction Hb as [|a before Hav Hb IH].
  - simpl. unfold sort_by. simpl. fold (sort_by lt key after).
    destruct (sort_by lt key after) as [|y l'] eqn:E; [by eexists|].
    simpl. assert (Hy : y ∈ after).
    { rewrite <- (sort_by_perm lt key after), E. by left. }
    eapply Forall_forall in Ha; [|exact Hy]. rewrite Ha. by eexists.
  - destruct IH as [rest IH]. simpl. unfold sort_by in *. simpl. rewrite IH.
    simpl. rewrite Hav. by eexists.
Qed.

(** C10, as the code has it. A video id that no answer of the statistics
    provider mentions has no entry in the statistics, and the aggregation
    reads that like an entry bound to [None], the hidden sample: the result
    is the same. When no other kept video has a view count, the result is
    the defaults, with the episode count 0: the video is not counted. When
    others have, and their sum is non-negative and below [2^53], the video
    counts in the episode count, the total and the average are those of
    the others, and the first-episode value is the no-data marker when the
    video comes first in episode order. *)
Theorem omitted_video_is_hidden (L : PyLib) (net : Net) (video_ids : list str)
    (stats : gmap str (option Z)) (w w' : World) (vid : str) :
  get_video_stats L net video_ids w = (Ret stats, w') ->
  (forall history url items,
     body (videos_api net history url) = Data items ->
     vid ∉ List.map video_id items) ->
  stats !! vid = None
  /\ (forall valid_videos,
        summarize L valid_videos stats
        = summarize L valid_videos (<[vid := None]> stats))
  /\ (forall before v after,
        item_id v = vid ->
        let valid_videos := before ++ v :: after in
        let others := integer_samples stats (before ++ after) in
        (others = [] -> summarize L valid_videos stats = Ret default_result)
        /\ (others <> [] ->
            0 <= sum_of others < 2 ^ 53 ->
            exists r,
              summarize L valid_videos stats = Ret r
              /\ valid_count r = VInt (Z.of_nat (length valid_videos))
              /\ total r = VInt (sum_of others)
              /\ avg r = VInt (sum_of others / Z.of_nat (length others))
              /\ (Forall (fun y => num_lt (sort_key L v) (sort_key L y) = true) before ->
                  Forall (fun y => num_lt (sort_key L y) (sort_key L v) = false) after ->
                  first r = VStr no_data))).
Proof.
  intros Hrun Homit.
  assert (Hnone : stats !! vid = None) by (eapply get_video_stats_omitted; eauto).
  split; [exact Hnone|]. split.
  - intros valid_videos. apply summarize_ext. intros v. symmetry.
    by apply sample_of_insert_None.
  - intros before v after Hv valid_videos others.
    assert (Hsv : sample_of stats v = None)
      by (unfold sample_of; rewrite Hv, Hnone; reflexivity).
    assert (Hsame : real_samples stats valid_videos = others).
    { unfold valid_videos, others. rewrite <- integer_samples_real.
      rewrite !real_samples_app, real_samples_cons, Hsv. reflexivity. }
    rewrite summarize_spec. cbv zeta. rewrite Hsame. split.
    + intros ->. reflexivity.
    + intros Hne Hsum. destruct others as [|x xs] eqn:E; [congruence|].
      destruct (truediv_floor (sum_of (x :: xs)) (Z.of_nat (length (x :: xs))) Hsum)
        as (q & -> & Hq); [simpl; lia|].
      cbn [mbind option_bind]. rewrite Hq. eexists. split; [reflexivity|].
      cbn [valid_count total avg first].
      split; [reflexivity|]. split; [reflexivity|]. split; [reflexivity|].
      intros Hb Ha. unfold valid_videos.
      destruct (sort_by_first num_lt (sort_key L) before after v Hb Ha) as [rest ->].
      unfold first_value. rewrite Hsv. reflexivity.
Qed.

(** The provider answers for v1 and v3 and leaves v2 out. *)
Lemma omitted_video_is_hidden_witness :
  let net := net_of (fun _ => page [("v1", "Show 第1話"); ("v2", "Show 第2話");
                                    ("v3", "Show 第3話")])
                    (fun _ => ok [video "v1" (Some "100"); video "v3" (Some "201")]) in
  let w := start (init (u "KEY")) in
  let v1 := {| item_id := u "v1"; item_title := u "Show 第1話" |} in
  let v2 := {| item_id := u "v2"; item_title := u "Show 第2話" |} in
  let v3 := {| item_id := u "v3"; item_title := u "Show 第3話" |} in
  exists stats r,
    fst (get_video_stats ascii_lib net [u "v1"; u "v2"; u "v3"] w) = Ret stats
    /\ summarize ascii_lib [v1; v2; v3] stats = Ret r
    /\ valid_count r = VInt 3 /\ total r = VInt 301 /\ avg r = VInt 150.
Proof.
  intros net w v1 v2 v3.
  set (ids := [u "v1"; u "v2"; u "v3"]).
  set (stats := <[u "v3" := Some 201]> (<[u "v1" := Some 100]> ∅)
                : gmap str (option Z)).
  set (w' := snd (get_video_stats ascii_lib net ids w)).
  assert (Hrun : get_video_stats ascii_lib net ids w = (Ret stats, w'))
    by (vm_compute; reflexivity).
  assert (Homit : forall history url items,
             body (videos_api net history url) = Data items ->
             u "v2" ∉ List.map video_id items).
  { intros history url items [= <-]. change (u "v2" ∉ [u "v1"; u "v3"]).
    rewrite !not_elem_of_cons.
    repeat split; [vm_compute; discriminate.. | apply not_elem_of_nil]. }
  destruct (proj2 (proj2 (proj2 (omitted_video_is_hidden ascii_lib net ids stats w w'
                            (u "v2") Hrun Homit)) [v1] v2 [v3] eq_refl))
    as (r & Hr & Hc & Ht & Ha & _).
  - vm_compute. discriminate.
  - vm_compute. split; [discriminate | reflexivity].
  - exists stats, r. split; [vm_compute; reflexivity|].
    split; [exact Hr|]. split; [exact Hc|]. split; [exact Ht | exact Ha].
Defined.

(** C10, as stated, fails. The playlist has one video and the statistics
    provider leaves it out: the series gets the defaults, with the episode
    count 0, so the video is not counted; a hidden view count gives the
    same. *)
Lemma omitted_video_not_counted :
  let omitted := net_of (fun _ => page [("v1", "Show 第1話")]) (fun _ => ok []) in
  let hidden := net_of (fun _ => page [("v1", "Show 第1話")])
                       (fun _ => ok [video "v1" None]) in
  let w := start (init (u "KEY")) in
  let v1 := {| item_id := u "v1"; item_title := u "Show 第1話" |} in
  fst (get_playlist_items omitted 3 (u "X") w) = Ret (Items [v1])
  /\ List.filter (keeps ascii_lib (init (u "KEY")) None None) [v1] = [v1]
  /\ fst (get_video_stats ascii_lib omitted [u "v1"] w) = Ret ∅
  /\ fst (process_anime ascii_lib omitted 3 (series "X" "2" None) w)
     = Ret (Some default_result)
  /\ fst (process_anime ascii_lib hidden 3 (series "X" "2" None) w)
     = Ret (Some default_result)
  /\ valid_count default_result = VInt 0.
Proof.
  intros omitted hidden w v1. repeat split; vm_compute; reflexivity.
Qed.

(** ** Transport errors at any place of the run *)

(** The loops of the program, over a list cut in two. *)
Lemma read_region_app (L : PyLib) (net : Net) (fuel : nat) (pre rest : list Anime)
    (acc : list RegionResult * SheetState) (w : World) :
  read_region L net fuel (pre ++ rest) acc w
  = match read_region L net fuel pre acc w with
    | (Ret (Some acc1), w1) => read_region L net fuel rest acc1 w1
    | r => r
    end.
Proof.
  revert acc w. induction pre as [|anime pre IH]; intros acc w; [reflexivity|].
  cbn [app read_region]. unfold bind, get_quota_exceeded.
  destruct (quota_exceeded (proc w)); [reflexivity|].
  destruct (read_anime L net fuel anime acc w) as [[acc1 | e |] w1]; try reflexivity.
  apply IH.
Qed.

Lemma process_regions_app (L : PyLib) (net : Net) (fuel : nat)
    (pre rest : list (str * list Anime)) (st : SheetState) (w : World) :
  process_regions L net fuel (pre ++ rest) st w
  = match process_regions L net fuel pre st w with
    | (Ret (Some st1), w1) => process_regions L net fuel rest st1 w1
    | r => r
    end.
Proof.
  revert st w. induction pre as [|[name anime_list] pre IH]; intros st w; [reflexivity|].
  cbn [app process_regions]. unfold bind.
  destruct (read_region L net fuel anime_list ([], st) w) as [[[[rr st1]|] | e |] w1];
    try reflexivity.
  apply IH.
Qed.

Lemma process_target_sheets_app (L : PyLib) (net : Net) (fuel : nat) (ss_id : str)
    (pre rest : list str) (w : World) :
  process_target_sheets L net fuel ss_id (pre ++ rest) w
  = match process_target_sheets L net fuel ss_id pre w with
    | (Ret _, w1) => process_target_sheets L net fuel ss_id rest w1
    | r => r
    end.
Proof.
  revert w. induction pre as [|sheet_name pre IH]; intros w; [reflexivity|].
  cbn [app process_target_sheets]. unfold bind, get_quota_exceeded.
  destruct (quota_exceeded (proc w)); [reflexivity|].
  destruct (process_single_sheet L net fuel ss_id sheet_name w) as [[[] | e |] w1];
    try reflexivity.
  apply IH.
Qed.

Lemma process_spreadsheets_app (L : PyLib) (net : Net) (fuel : nat) (today_key : str)
    (pre rest : list str) (w : World) :
  process_spreadsheets L net fuel today_key (pre ++ rest) w
  = match process_spreadsheets L net fuel today_key pre w with
    | (Ret _, w1) => process_spreadsheets L net fuel today_key rest w1
    | r => r
    end.
Proof.
  revert w. induction pre as [|ss_id pre IH]; intros w; [reflexivity|].
  cbn [app process_spreadsheets]. destruct (bool_decide (ss_id = [])); [apply IH|].
  unfold bind.
  destruct (get_schedule net ss_id w) as [[schedule | e |] w1]; try reflexivity.
  destruct (process_target_sheets L net fuel ss_id _ w1) as [[[] | e |] w2];
    try reflexivity.
  apply IH.
Qed.

(** One turn of the loop of [get_video_stats], when the answer is not the
    quota signal. *)
Lemma video_batches_step (L : PyLib) (net : Net) (now_utc : Z) (batch : list str)
    (rest : list (list str)) (m : gmap str (option Z)) (w : World) :
  let url := videos_url (proc w) batch in
  let res := videos_api net (requests w) url in
  let w1 := sent w (GetVideos url) in
  quota_signal res = false ->
  video_batches L net now_utc (batch :: rest) m w =
  if status_code res =? 200 then
    match body res with
    | NotJson => (Raise JSONDecodeError, w1)
    | ErrorBody _ => video_batches L net now_utc rest m w1
    | Data items =>
        match video_samples L now_utc items m with
        | Ret m' => video_batches L net now_utc rest m' w1
        | Raise e => (Raise e, w1)
        | Timeout => (Timeout, w1)
        end
    end
  else video_batches L net now_utc rest m w1.
Proof.
  intros url res w1 Q. simpl.
  unfold bind at 1. simpl. unfold bind at 1. simpl. unfold bind at 1.
  rewrite _check_quota_run. fold url. fold res. rewrite Q. simpl. fold w1.
  destruct (status_code res =? 200); [|reflexivity].
  destruct (body res) as [|reasons|items]; try reflexivity.
  destruct (video_samples L now_utc items m); reflexivity.
Qed.

(** The loop over the batches goes on after the batches [pre] when they
    were answered without the quota signal. *)
Lemma video_batches_app (L : PyLib) (net : Net) (now_utc : Z)
    (pre rest : list (list str)) (m m1 : gmap str (option Z)) (w w1 : World) :
  video_batches L net now_utc pre m w = (Ret m1, w1) ->
  quota_exceeded (proc w1) = false ->
  video_batches L net now_utc (pre ++ rest) m w
  = video_batches L net now_utc rest m1 w1.
Proof.
  revert m w. induction pre as [|batch pre IH]; intros m w Hrun Q.
  - by injection Hrun as <- <-.
  - revert Hrun. cbn [app].
    destruct (quota_signal (videos_api net (requests w) (videos_url (proc w) batch)))
      eqn:S.
    { simpl. unfold bind at 1. simpl. unfold bind at 1. simpl. unfold bind at 1.
      rewrite _check_quota_run, S. intros [= _ <-]. discriminate Q. }
    rewrite !video_batches_step by exact S.
    destruct (status_code _ =? 200); [|intros H; by apply IH].
    destruct (body _) as [|reasons|items]; [discriminate | intros H; by apply IH|].
    destruct (video_samples L now_utc items m) as [m'|e|]; try discriminate.
    intros H. by apply IH.
Qed.

(** [get_video_stats] for a list of ids, from a state without the flag. *)
Lemma get_video_stats_run (L : PyLib) (net : Net) (video_ids : list str) (w : World) :
  quota_exceeded (proc w) = false ->
  video_ids <> [] ->
  get_video_stats L net video_ids w
  = video_batches L net (utcnow net (requests w))
      (batches (length video_ids) video_ids) ∅ w.
Proof.
  intros Q Hne. unfold get_video_stats, bind at 1, get_quota_exceeded. rewrite Q.
  rewrite bool_decide_eq_false_2 by exact Hne. reflexivity.
Qed.

(** A region that was read to its end has a row number for each of its
    series. *)
Lemma read_region_rows (L : PyLib) (net : Net) (fuel : nat) (anime_list : list Anime)
    (acc acc' : list RegionResult * SheetState) (w w' : World) :
  read_region L net fuel anime_list acc w = (Ret (Some acc'), w') ->
  Forall (fun a => is_Some (row_of L a)) anime_list.
Proof.
  revert acc w. induction anime_list as [|anime rest IH]; intros acc w; [constructor|].
  cbn [read_region]. unfold bind at 1, get_quota_exceeded.
  destruct (quota_exceeded (proc w)); [discriminate|].
  unfold bind at 1.
  destruct (read_anime L net fuel anime acc w) as [[acc1 | e |] w1] eqn:E;
    try discriminate.
  intros H. constructor; [|eapply IH, H].
  unfold read_anime in E. destruct acc as [rr st]. unfold bind at 1 in E.
  destruct (row_of L anime) as [row|]; [by eexists | discriminate E].
Qed.

Lemma row_to_name_map_some (L : PyLib) (l : list Anime) (m : gmap Z str) :
  Forall (fun a => is_Some (row_of L a)) l -> is_Some (row_to_name_map L l m).
Proof.
  intros H. revert m. induction H as [|a l [row Ha] H IH]; intros m; simpl;
    [by eexists|].
  rewrite Ha. apply IH.
Qed.

Lemma comprehensive_updates_some (L : PyLib) (net : Net) (fuel : nat)
    (region : str * list Anime) (regions : list (str * list Anime))
    (st0 st st' : SheetState) (w w' : World) :
  process_regions L net fuel (region :: regions) st0 w = (Ret (Some st), w') ->
  is_Some (comprehensive_updates L (region :: regions) st').
Proof.
  destruct region as [name first_region_list]. cbn [process_regions].
  unfold bind at 1.
  destruct (read_region L net fuel first_region_list ([], st0) w)
    as [[[[rr st1]|] | e |] w1] eqn:E; try discriminate.
  intros _. apply read_region_rows in E.
  unfold comprehensive_updates.
  destruct (row_to_name_map_some L first_region_list ∅ E) as [names ->].
  by eexists.
Qed.

(** Every exception that leaves [process_single_sheet] was raised by the
    loop over the regions of the sheet: what the calls of the script raise
    is caught. *)
Lemma process_single_sheet_raise (L : PyLib) (net : Net) (fuel : nat)
    (ss_id sheet_name : str) (e : exn) (w w0 : World) :
  process_single_sheet L net fuel ss_id sheet_name w = (Raise e, w0) ->
  exists sheet_data,
    get_sheet_data net ss_id sheet_name w
    = (Ret sheet_data, posted w ss_id (GetSheetData sheet_name))
    /\ process_regions L net fuel sheet_data empty_sheet_state
         (posted w ss_id (GetSheetData sheet_name)) = (Raise e, w0).
Proof.
  unfold process_single_sheet.
  unfold bind at 1, try_except, bind at 1.
  assert (Hd : get_sheet_data net ss_id sheet_name w
               = (call_outcome (sheet_data_api net (posts w) ss_id sheet_name),
                  posted w ss_id (GetSheetData sheet_name)))
    by apply _call_run.
  rewrite Hd. set (w1 := posted w ss_id (GetSheetData sheet_name)) in *.
  destruct (call_outcome _) as [[|region regions]|e'|] eqn:E; cbv beta iota;
    try unfold ret at 1; cbv beta iota; try discriminate.
  unfold bind at 1.
  destruct (process_regions L net fuel (region :: regions) empty_sheet_state w1)
    as [[[st|]| e' |] w2] eqn:R; try discriminate.
  - unfold bind at 1, get_quota_exceeded. cbv beta iota.
    destruct (comprehensive_updates_some L net fuel region regions
                empty_sheet_state st st w1 w2 R) as [ups C].
    assert (Hb : forall batch exhausted w3,
              (if negb (bool_decide (batch = [])) && negb exhausted then
                 try_except
                   (do resp <- batch_update net ss_id sheet_name batch;
                    if resp then
                      do sort_resp <- sort_data net ss_id sheet_name;
                      if sort_resp then ret tt else raise AttributeError
                    else raise AttributeError)
                   (fun _ => ret tt)
               else ret tt) w3 <> (Raise e, w0)).
    { intros batch exhausted w3. destruct (_ && _); [|discriminate].
      unfold try_except, bind at 1, batch_update. rewrite _call_run.
      destruct (call_outcome (write_api net (posts w3) ss_id
                                (UpdateData sheet_name batch))) as [[|]|e1|];
        cbv beta iota; try (unfold raise, ret; discriminate).
      unfold bind at 1, sort_data. rewrite _call_run.
      destruct (call_outcome (write_api net _ ss_id (SortData sheet_name)))
        as [[|]|e2|]; cbv beta iota; unfold raise, ret; discriminate. }
    destruct (negb (quota_exceeded (proc w2))
              && negb (bool_decide (global_comp_rank_cell_map st = []))).
    + unfold bind at 1. unfold bind at 1. rewrite C. cbn [or_raise].
      unfold ret at 1. cbv beta iota. unfold ret at 1. cbv beta iota.
      unfold bind at 1, get_quota_exceeded. cbv beta iota.
      intros H. by apply Hb in H.
    + unfold bind at 1, ret at 1. cbv beta iota.
      unfold bind at 1, get_quota_exceeded. cbv beta iota.
      intros H. by apply Hb in H.
  - intros [= <- <-]. exists (region :: regions). split; [reflexivity | exact R].
Qed.

(** C9, as the code has it.

    Raised. [AnimeAPI._call] raises on a status other than 200, on a body
    that is not JSON and on an answer whose status is not "success", after
    its one post. The playlist fetch raises on a 200 answer that is not
    JSON, at the first page or a later one, after the one request for that
    page; the statistics fetch does so at any batch; [process_anime] passes
    both on. An exception of [process_anime], for a series at any place of
    any region, ends the loops over the series and the regions and
    [process_single_sheet], which has posted nothing but the read of the
    sheet; it ends the loop over the sheets, at any sheet, and the loop
    over the spreadsheets, at any spreadsheet, as does a failure to read the
    schedule; [main] then reports it and skips its closing steps.

    Not raised. A playlist answer with a status other than 200 and 404 that
    is not the quota signal gives the empty list, whatever the pages before
    held, and the series gets the defaults; a statistics answer with a
    status other than 200 is passed over, and the loop goes on with the
    next batch. What the script raises for the read of a sheet, the write
    of the batch or the sort is caught: an exception that leaves
    [process_single_sheet] comes from the loop over its regions. *)
Theorem transport_errors (L : PyLib) (net : Net) :
  (forall A (api : list (str * Action) -> Response (ScriptReply A)) ss_id action w,
     status_code (api (posts w)) <> 200 ->
     _call api ss_id action w
     = (Raise (HttpError (status_code (api (posts w)))), posted w ss_id action))
  /\ (forall A (api : list (str * Action) -> Response (ScriptReply A)) ss_id action w,
        status_code (api (posts w)) = 200 ->
        body (api (posts w)) = NotJson ->
        _call api ss_id action w = (Raise InvalidJson, posted w ss_id action))
  /\ (forall A (api : list (str * Action) -> Response (ScriptReply A)) ss_id action w
             result,
        status_code (api (posts w)) = 200 ->
        body (api (posts w)) = Data result ->
        reply_status result <> Some (u "success") ->
        _call api ss_id action w
        = (Raise (ApiError (reply_message result)), posted w ss_id action))
  /\ (forall fuel anime c playlist_id pages h' token' w,
        let url := playlist_url (proc w) (c :: playlist_id) token' in
        let res := playlist_api net h' url in
        let w' := with_requests w (h' ++ [GetPlaylistItems url]) in
        quota_exceeded (proc w) = false ->
        get_playlist_id L (link_url anime) = Some (c :: playlist_id) ->
        follows net (proc w) (c :: playlist_id) (requests w) [] pages h' token' ->
        (length pages < fuel)%nat ->
        (status_code res = 200 -> body res = NotJson ->
         get_playlist_items net fuel (c :: playlist_id) w = (Raise JSONDecodeError, w')
         /\ process_anime L net fuel anime w = (Raise JSONDecodeError, w'))
        /\ (quota_signal res = false ->
            status_code res <> 200 -> status_code res <> 404 ->
            get_playlist_items net fuel (c :: playlist_id) w = (Ret (Items []), w')
            /\ process_anime L net fuel anime w = (Ret (Some default_result), w')))
  /\ (forall video_ids before batch after m1 w w1,
        let now_utc := utcnow net (requests w) in
        let url := videos_url (proc w1) batch in
        let res := videos_api net (requests w1) url in
        let w2 := sent w1 (GetVideos url) in
        quota_exceeded (proc w) = false ->
        batches (length video_ids) video_ids = before ++ batch :: after ->
        video_batches L net now_utc before ∅ w = (Ret m1, w1) ->
        quota_exceeded (proc w1) = false ->
        (status_code res = 200 -> body res = NotJson ->
         get_video_stats L net video_ids w = (Raise JSONDecodeError, w2))
        /\ (quota_signal res = false -> status_code res <> 200 ->
            get_video_stats L net video_ids w
            = video_batches L net now_utc after m1 w2))
  /\ (forall fuel anime c playlist_id items e w w1 w2,
        quota_exceeded (proc w) = false ->
        get_playlist_id L (link_url anime) = Some (c :: playlist_id) ->
        get_playlist_items net fuel (c :: playlist_id) w = (Ret (Items items), w1) ->
        let valid_videos :=
          List.filter (keeps L (proc w1) (parse_offset L (offset anime)).1
                         (parse_offset L (offset anime)).2) items in
        get_video_stats L net (List.map item_id valid_videos) w1 = (Raise e, w2) ->
        process_anime L net fuel anime w = (Raise e, w2))
  /\ (forall fuel pre anime post acc acc1 row e w w1 w2,
        read_region L net fuel pre acc w = (Ret (Some acc1), w1) ->
        quota_exceeded (proc w1) = false ->
        row_of L anime = Some row ->
        process_anime L net fuel anime w1 = (Raise e, w2) ->
        read_region L net fuel (pre ++ anime :: post) acc w = (Raise e, w2))
  /\ (forall fuel pre name anime_list post st st1 e w w1 w2,
        process_regions L net fuel pre st w = (Ret (Some st1), w1) ->
        read_region L net fuel anime_list ([], st1) w1 = (Raise e, w2) ->
        process_regions L net fuel (pre ++ (name, anime_list) :: post) st w
        = (Raise e, w2))
  /\ (forall fuel ss_id sheet_name sheet_data e w w1 w2,
        get_sheet_data net ss_id sheet_name w = (Ret sheet_data, w1) ->
        process_regions L net fuel sheet_data empty_sheet_state w1 = (Raise e, w2) ->
        process_single_sheet L net fuel ss_id sheet_name w = (Raise e, w2)
        /\ posts w2 = posts w ++ [(ss_id, GetSheetData sheet_name)])
  /\ (forall fuel ss_id pre sheet_name post e w w1 w2,
        process_target_sheets L net fuel ss_id pre w = (Ret tt, w1) ->
        quota_exceeded (proc w1) = false ->
        process_single_sheet L net fuel ss_id sheet_name w1 = (Raise e, w2) ->
        process_target_sheets L net fuel ss_id (pre ++ sheet_name :: post) w
        = (Raise e, w2))
  /\ (forall fuel today_key pre c ss_id post e w w1,
        process_spreadsheets L net fuel today_key pre w = (Ret tt, w1) ->
        (forall w2,
           get_schedule net (c :: ss_id) w1 = (Raise e, w2) ->
           process_spreadsheets L net fuel today_key (pre ++ (c :: ss_id) :: post) w
           = (Raise e, w2))
        /\ (forall schedule w2 w3,
              get_schedule net (c :: ss_id) w1 = (Ret schedule, w2) ->
              process_target_sheets L net fuel (c :: ss_id)
                (target_sheets_of schedule today_key) w2 = (Raise e, w3) ->
              process_spreadsheets L net fuel today_key (pre ++ (c :: ss_id) :: post) w
              = (Raise e, w3)))
  /\ (forall fuel spreadsheet_ids today_key now_str e w w1,
        process_spreadsheets L net fuel today_key spreadsheet_ids w = (Raise e, w1) ->
        main L net fuel spreadsheet_ids today_key now_str w
        = (Ret tt, notified w1 (FatalError e)))
  /\ (forall fuel ss_id sheet_name e w w1,
        get_sheet_data net ss_id sheet_name w = (Raise e, w1) ->
        process_single_sheet L net fuel ss_id sheet_name w = (Ret tt, w1))
  /\ (forall fuel ss_id sheet_name e w w0,
        process_single_sheet L net fuel ss_id sheet_name w = (Raise e, w0) ->
        exists sheet_data,
          get_sheet_data net ss_id sheet_name w
          = (Ret sheet_data, posted w ss_id (GetSheetData sheet_name))
          /\ process_regions L net fuel sheet_data empty_sheet_state
               (posted w ss_id (GetSheetData sheet_name)) = (Raise e, w0)).
Proof.
  repeat apply conj.
  - intros A api ss_id action w Hs. unfold _call, bind, post.
    apply Z.eqb_neq in Hs. rewrite Hs. reflexivity.
  - intros A api ss_id action w Hs Hb. unfold _call, bind, post.
    rewrite Hs, Hb. reflexivity.
  - intros A api ss_id action w result Hs Hb Hr. unfold _call, bind, post.
    rewrite Hs, Hb. cbn. rewrite bool_decide_eq_false_2 by exact Hr. reflexivity.
  - intros fuel anime c playlist_id pages h' token' w url res w' Hf Hid Hfol Hfuel.
    assert (Hlast := get_playlist_items_last net fuel (c :: playlist_id) pages h'
                       token' w Hf Hfol Hfuel).
    cbv zeta in Hlast. fold url in Hlast. fold res in Hlast. fold w' in Hlast.
    split.
    + intros Hs Hb.
      assert (Q : quota_signal res = false).
      { unfold quota_signal. rewrite Hs. reflexivity. }
      assert (G : get_playlist_items net fuel (c :: playlist_id) w
                  = (Raise JSONDecodeError, w')).
      { rewrite (Hlast Q), Hs, Hb. reflexivity. }
      split; [exact G|].
      rewrite (process_anime_run L net fuel anime c playlist_id w Hf Hid), G.
      reflexivity.
    + intros Q Hs Hs'.
      assert (G : get_playlist_items net fuel (c :: playlist_id) w
                  = (Ret (Items []), w')).
      { rewrite (Hlast Q). apply Z.eqb_neq in Hs, Hs'. rewrite Hs, Hs'. reflexivity. }
      split; [exact G|].
      rewrite (process_anime_run L net fuel anime c playlist_id w Hf Hid), G.
      reflexivity.
  - intros video_ids before batch after m1 w w1 now_utc url res w2 Q Hbs Hrun Q1.
    assert (Hne : video_ids <> []) by (intros ->; by destruct before).
    rewrite (get_video_stats_run L net video_ids w Q Hne), Hbs.
    fold now_utc.
    rewrite (video_batches_app L net _ before (batch :: after) ∅ m1 w w1 Hrun Q1).
    split.
    + intros Hs Hb. rewrite video_batches_step; fold url; fold res.
      * rewrite Hs, Hb. reflexivity.
      * unfold quota_signal. rewrite Hs. reflexivity.
    + intros Hq Hs. rewrite video_batches_step by exact Hq. fold url. fold res.
      apply Z.eqb_neq in Hs. rewrite Hs. reflexivity.
  - intros fuel anime c playlist_id items e w w1 w2 Hf Hid Hitems valid_videos Hstats.
    rewrite (process_anime_run L net fuel anime c playlist_id w Hf Hid), Hitems.
    cbv zeta. fold valid_videos.
    destruct valid_videos as [|v vs] eqn:Ev.
    + exfalso. revert Hstats. unfold get_video_stats, bind, get_quota_exceeded.
      simpl. rewrite orb_true_r. discriminate.
    + rewrite Hstats. reflexivity.
  - intros fuel pre anime post acc acc1 row e w w1 w2 Hpre Hf Hrow Hp.
    rewrite read_region_app, Hpre.
    eapply read_region_raises; eassumption.
  - intros fuel pre name anime_list post st st1 e w w1 w2 Hpre Hr.
    rewrite process_regions_app, Hpre. by apply process_regions_raises.
  - intros fuel ss_id sheet_name sheet_data e w w1 w2 Hd Hr. split.
    + destruct sheet_data as [|region regions]; [discriminate Hr|].
      eapply process_single_sheet_raises; eassumption.
    + pose proof (_call_posts (fun h => sheet_data_api net h ss_id sheet_name) ss_id
                    (GetSheetData sheet_name) w) as P1.
      fold (get_sheet_data net ss_id sheet_name) in P1. rewrite Hd in P1. simpl in P1.
      pose proof (script_side_process_regions L net fuel sheet_data empty_sheet_state
                    w1) as F.
      rewrite Hr in F. simpl in F. injection F as F _. rewrite F, P1. reflexivity.
  - intros fuel ss_id pre sheet_name post e w w1 w2 Hpre Hf Hs.
    rewrite process_target_sheets_app, Hpre. cbn [process_target_sheets].
    unfold bind at 1, get_quota_exceeded. rewrite Hf.
    unfold bind at 1. rewrite Hs. reflexivity.
  - intros fuel today_key pre c ss_id post e w w1 Hpre. split.
    + intros w2 Hs.
      rewrite process_spreadsheets_app, Hpre. cbn [process_spreadsheets].
      rewrite bool_decide_eq_false_2 by discriminate.
      unfold bind at 1. rewrite Hs. reflexivity.
    + intros schedule w2 w3 Hs Hp.
      rewrite process_spreadsheets_app, Hpre.
      eapply process_spreadsheets_raises; eassumption.
  - intros fuel spreadsheet_ids today_key now_str e w w1 H. by apply main_reports.
  - intros fuel ss_id sheet_name e w w1 Hd. unfold process_single_sheet.
    unfold bind at 1. unfold try_except, bind at 1. rewrite Hd. reflexivity.
  - intros fuel ss_id sheet_name e w w0 H.
    eapply process_single_sheet_raise, H.
Qed.

(** The playlist of the second series of a region is answered with status
    200 and a body that is not JSON: the loop over the series raises. *)
Lemma transport_errors_witness :
  let net := net_of (fun url => if contains (u "playlistId=X") url
                                then {| status_code := 200; body := NotJson |}
                                else page [("y1", "Other EP 1")])
                    (fun _ => ok [video "y1" (Some "50")]) in
  fst (read_region ascii_lib net 3
         [series "Y" "3" None; series "X" "2" None; series "Z" "4" None]
         ([], empty_sheet_state) (start (init (u "KEY"))))
  = Raise JSONDecodeError.
Proof.
  intros net.
  set (w := start (init (u "KEY"))).
  set (r := read_region ascii_lib net 3 [series "Y" "3" None] ([], empty_sheet_state) w).
  set (acc1 := match fst r with
               | Ret (Some acc1) => acc1
               | _ => ([], empty_sheet_state)
               end).
  assert (Hpre : read_region ascii_lib net 3 [series "Y" "3" None]
                   ([], empty_sheet_state) w = (Ret (Some acc1), snd r))
    by (vm_compute; reflexivity).
  set (w2 := snd (process_anime ascii_lib net 3 (series "X" "2" None) (snd r))).
  assert (Hp : process_anime ascii_lib net 3 (series "X" "2" None) (snd r)
               = (Raise JSONDecodeError, w2)) by (vm_compute; reflexivity).
  pose proof (transport_errors ascii_lib net)
    as (_ & _ & _ & _ & _ & _ & Hregion & _).
  pose proof (Hregion 3%nat [series "Y" "3" None] (series "X" "2" None)
                [series "Z" "4" None] ([], empty_sheet_state) acc1 2 JSONDecodeError
                w (snd r) w2 Hpre ltac:(vm_compute; reflexivity)
                ltac:(vm_compute; reflexivity) Hp) as H.
  cbn [app] in H. rewrite H. reflexivity.
Defined.

(** ** The cells of a row *)

Lemma append_row_for (anime : Anime) (row : Z) (cells : list CellUpdate)
    (batch : list RowUpdate) :
  append_row anime row cells batch = batch ++ row_update_for anime row cells.
Proof. destruct cells; simpl; [by rewrite app_nil_r | reflexivity]. Qed.

(** The row update of an entry with a result: what [plan_row] appends. *)
Lemma plan_row_cells (ranks : gmap Z Z) (st : SheetState) (item : RegionResult)
    (stats : Stats) :
  rr_stats item = Some stats ->
  updates_batch (plan_row ranks st item)
  = updates_batch st
    ++ row_update_for (rr_anime item) (rr_row item)
         (rank_update ranks item
          ++ result_cells (rr_anime item) stats (watermark st (rr_row item))).
Proof.
  intros Hs. rewrite <- append_row_for.
  unfold plan_row, result_cells, watermark, int_count, view_updates, cell_update.
  rewrite Hs. destruct (valid_count stats) as [|n|t]; simpl;
    rewrite <- ?app_assoc, ?app_nil_r; try reflexivity.
  destruct (_ <? n); simpl; rewrite <- ?app_assoc, ?app_nil_r; reflexivity.
Qed.

(** The values of a result land in the cells of its row. In a region whose
    entries sit on distinct rows, the entry [item] with the result [stats]
    adds to the batch, right after the row updates of the entries before
    it, one row update under the name of the series and for the row of its
    name cell, which lists in this order: the rank cell, with the rank of
    the entry (its place among the ranked entries, from 1) or with the
    empty value when its average is no integer; the cells of the average,
    the total and the first episode, with the values of the result; and the
    episode-count cell, with the count, when the count is an integer above
    the watermark of the row. A cell that is not configured is left out,
    and when no cell is left no row update is added. *)
Theorem planned_row_cells (region_results pre post : list RegionResult)
    (st : SheetState) (item : RegionResult) (stats : Stats) (rank_value : pyval) :
  NoDup (List.map rr_row region_results) ->
  region_results = pre ++ item :: post ->
  rr_stats item = Some stats ->
  (forall i, valid_for_ranking region_results !! i = Some item ->
     rank_value = VInt (Z.of_nat i + 1)) ->
  (average_of item = None -> rank_value = VStr []) ->
  let ranks := rank_map region_results in
  let before := foldl (plan_row ranks) st pre in
  let cells :=
    cell_update (rank_cell (rr_anime item)) rank_value
    ++ result_cells (rr_anime item) stats (watermark before (rr_row item)) in
  exists later,
    updates_batch (plan_region region_results st)
    = updates_batch before
      ++ row_update_for (rr_anime item) (rr_row item) cells
      ++ later.
Proof.
  intros Hnd Hsplit Hs Hranked Hunranked ranks before cells.
  assert (Hin : item ∈ region_results).
  { rewrite Hsplit. apply elem_of_app. right. by left. }
  assert (Hrank : rank_update ranks item
                  = cell_update (rank_cell (rr_anime item)) rank_value).
  { unfold rank_update, cell_update, ranks.
    destruct (rankable item) eqn:Hr.
    - assert (Hv : item ∈ valid_for_ranking region_results)
        by (by apply elem_of_valid_for_ranking).
      apply list_elem_of_lookup in Hv as [i Hi].
      rewrite (Hranked i Hi). unfold rank_map.
      rewrite (rank_from_lookup rr_row 0 _ ∅ i item (NoDup_rows_ranked _ Hnd) Hi).
      reflexivity.
    - rewrite (rank_map_unranked region_results item Hnd Hin Hr).
      rewrite Hunranked; [reflexivity|].
      rewrite average_of_rankable in Hr. apply bool_decide_eq_false in Hr.
      destruct (average_of item); [|reflexivity]. destruct Hr. by eexists. }
  unfold plan_region. fold ranks. rewrite Hsplit, foldl_app. cbn [foldl].
  fold before.
  destruct (plan_rows_prefix ranks post (plan_row ranks before item)) as [later ->].
  exists later. rewrite (plan_row_cells ranks before item stats Hs), Hrank.
  fold cells. rewrite <- app_assoc. reflexivity.
Qed.

(** A region of two series: B, with the higher average, comes second and
    is ranked first. *)
Lemma planned_row_cells_witness :
  let a := entry "A" "2" (Some (one_episode 500)) in
  let b := entry "B" "3" (Some (one_episode 700)) in
  exists later,
    updates_batch (plan_region [a; b] empty_sheet_state)
    = [ {| row_check_name := u "A"; target_row := 2;
           updates := [ {| cell := u "B2"; value := VInt 2 |};
                        {| cell := u "C2"; value := VInt 500 |};
                        {| cell := u "D2"; value := VInt 500 |};
                        {| cell := u "E2"; value := VInt 500 |};
                        {| cell := u "F2"; value := VInt 1 |} ] |} ]
      ++ later.
Proof.
  intros a b.
  assert (Hnd : NoDup (List.map rr_row [a; b])).
  { change (NoDup [2; 3]).
    repeat (apply NoDup_cons; split;
            [rewrite ?elem_of_cons, elem_of_nil; intuition discriminate|]).
    apply NoDup_nil_2. }
  destruct (planned_row_cells [a; b] [] [b] empty_sheet_state a (one_episode 500)
              (VInt 2) Hnd eq_refl eq_refl) as [later Hl].
  - intros [|[|i]] Hi; [discriminate Hi | reflexivity | discriminate Hi].
  - discriminate.
  - exists later. rewrite Hl. reflexivity.
Defined.
